(* ===== verification/_CoqProject ===== *)
-Q . S2P
Prelude.v
Machine.v
Shm.v
Circ.v
Ring.v
RingMem.v
RingSpec.v
RingThm.v
Demo.v
RingProps.v
RingPop.v
Frame.v
Control.v
Util.v
Avro.v
Proto.v
Toy.v
ProtoProps.v
Registry.v
RegistryThm.v
RegistryProps.v
Broker.v
BrokerThm.v
BrokerOps.v
BrokerProps.v
BrokerFlow.v
BrokerStart.v
BrokerSafe.v
Main.v
Http.v
Client.v
Rpc.v
Connection.v
ClientThm.v
ClientProps.v
Bus.v
BusArena.v
BusProps.v
RpcThm.v
RpcProps.v
ConnectionProps.v
RpcBus.v
BusChannel.v
BusFunction.v
BusConnect.v
BusReplay.v
BusGoodbye.v
Waits.v
RingConc.v
RingConcThm.v
RingConcSleep.v
RingConcCalls.v
RingConcProps.v
RingConcDead.v
RingConcSeq.v
