(* ===== verification/Prelude.v ===== *)
(** * Ring: a verification development of the impulse-ring IPC bus

    impulse-ring is a local message bus without sockets. Processes share POSIX
    shared-memory segments. A broker, [impulsed], owns a control segment with a
    submission ring, on which every client puts its control requests; each client owns
    a reply segment with a ring for the answers; the broker creates an arena (a
    segment with one ring) for every channel and every function, and hands out its
    name. The development models the Rust crates under src/crates/: core (segments,
    rings, frames, schemas, protocol), impulsed (the broker), http (the
    HTTP-over-Ring convention) and connector (the client library: a connection with its
    dispatcher and watcher threads, calls and services, publishers and subscribers).

    ** The files

    - Prelude (this file): [result], [outcome], I/O errors, machine integers (a w-bit
      integer is a [Z], wrapped with [u32], [u64], [usize], [i32], [i64]), bytes,
      little-endian words, and the lemmas and tactics the other files share.
    - Machine: memory blocks, the [prog] monad, system calls, clock, schedule.
    - Shm: core/src/shm.rs. [Segment], creation, opening, dropping.
    - Ring: core/src/ring.rs and futex.rs. Circ has the algebra of the wrapped copies,
      RingMem the header fields as words of the block, RingSpec the abstract queue and
      the relation [holds], RingThm the lemmas, RingProps and RingPop the published
      properties.
    - RingConc: the same code as threads that interleave access by access, a [machine] with
      any number of producers and the consumer. RingConcThm has its invariant, RingConcSleep
      that of the sleepers, RingConcCalls which result belongs to which attempt of a call,
      RingConcProps the properties, RingConcDead a producer that dies inside the lock,
      RingConcSeq the agreement of the two models.
    - Frame, Control, Util, Avro, Proto: the core modules of those names. ProtoProps has
      the properties of Avro and Proto.
    - Registry: impulsed/src/registry.rs, with RegistryThm (invariant, frame lemmas) and
      RegistryProps.
    - Broker: impulsed/src/broker.rs, with BrokerThm (invariant), BrokerOps (what its
      building blocks do when nothing is in the way), BrokerProps (invariant over all
      runs, departure, name policy), BrokerFlow (publish and expose end to end),
      BrokerStart (start-up, guard, shutdown), BrokerSafe (freedom from panics, a small
      program logic).
    - Main: impulsed/src/main.rs, the daemon from its start to its exit status, with the
      signal handler and the watcher of the stop flag.
    - Http: http/src/lib.rs.
    - Client: connector/src/client.rs. Rpc: connector/src/rpc.rs. Connection:
      connector/src/channel.rs and lib.rs. ClientThm and RpcThm have the lemmas,
      ClientProps, RpcProps and ConnectionProps the published properties.
    - Bus: a connector and the broker on the two sides of one submission ring and one
      reply ring ([broker_tick]: a turn of the broker's loop as the tick in which the caller
      waits), with BusProps. RpcBus: the same with the service behind a function
      ([service_tick]). BusArena: a new arena in the shared memory, made by the broker and
      attached by the client that asked for it. BusChannel: publish and subscribe.
      BusFunction: expose, and a call by name. BusConnect: a client joins the bus. BusReplay:
      a client comes back after a restart of the broker. BusGoodbye: a publisher or a
      connection is dropped, and the sweep of released channels. Waits: nobody may answer,
      and the waiting ends all the same.
    - Demo and Toy: a concrete machine and a concrete codec, used by witnesses only.

    ** How the code is modelled

    An effectful function is a [prog A]: a [world] to an [outcome], which is a value
    and the new world, a panic, undefined behaviour (an access outside a mapped block),
    or [Starved] (still waiting when the observed schedule ends). The world has the
    memory (address of a mapping to its bytes), the clock, the system calls, the
    schedule, and a log of the wakes, unlinks and unmappings. The operations work on the
    bytes of the segment at the offsets the code uses; cursor and sequence arithmetic
    wraps as in a release build (a debug build's overflow checks and debug_assert! are
    left out).

    The C library, apache_avro, the serde derives and SHA-256 are not part of the
    repository: they are the record [sys] and the classes [Avro], [Serde],
    [ProtoSerde] and [Sha256], and what a theorem needs of them is a named hypothesis
    ([mmap_ok], [shm_grants], [shm_creates], [codec_ok], ...) that a witness discharges on a concrete
    instance. A system call answers as a function of its arguments ([mmap] also of the
    memory).

    The other threads and processes act where the code waits: every futex wait and
    spin hint takes one [tick] from the schedule, which may change the memory arbitrarily
    and sets the clock. A sleep on a condition variable takes one tick too; the tick says
    whether it was a spurious wake-up ([tk_woken]), after which [Slot::wait] sleeps for its
    whole timeout again. Between two waits the code runs without interference and reads
    one clock value. The ring is modelled a second time without that restriction
    (RingConc): each producer and the consumer has a position in the code, a step of it is
    one atomic access, one copy or one futex call, and an arbitrary list of events says who
    goes next; a sleeper may wake up at any time. The theorem
    [ring_threads_run_the_operations] ties the two together. Memory is sequentially
    consistent there; the Acquire and Release annotations are not used, so the absence of
    overlapping copies is proved from the cursors and the lock.

    A loop that may wait takes its fuel from the length of the schedule: each round
    consumes a tick, so when the fuel ends the schedule has ended too, and the result
    [Starved] says so. The control loop takes the answers of its [should_run] predicate as
    a list, one per turn; Main produces that list from the signals.

    An operation of a connection is a [conn A]: it also threads the connection's shared
    state [Inner], whose slots, ring cells and wakers are indices into tables because
    several owners share them. Where a thread sleeps it takes a tick and then runs the
    parameter [others], which stands for the connection's other threads; [Routes] is the
    interface a theorem asks of it (the dispatcher's turn is an instance). In Bus and RpcBus
    the two ends of a ring are mappings of one segment at one address; a tick there runs
    the broker's [turn], or the service's reader and a worker, on the shared memory with a
    schedule, clock and system of their own ([about_to_ask], [asks], [bound], [joins],
    [calls], [returns]); where the client does not wait for the broker, the broker's next
    turn is stated as such (BusGoodbye); opening a segment there gives the block that is already in the memory
    ([opens_at]). That callers,
    dispatcher and reconnect interleave at every lock is treated apart, by the step
    relation [shared_step] of ClientThm. The worker pool behind a function is a
    transition system ([pool_next]) whose transitions are the critical sections of its two
    locks, so its theorems hold for every interleaving of the reader and the workers; a
    worker may wake up at any time, which covers notifications, timeouts and spurious
    wake-ups.

    A [HashMap] is a [gmap]; where the code iterates one, the order is that of
    [map_to_list], and the theorems speak of the results as sets. An [Arc<Segment>] is
    the segment itself, unmapped where its last owner goes. Logging is left out.

    ** What the theorems show

    - The ring is a bounded FIFO queue of byte records (RingProps): for whole histories
      and for single operations, with the wakes they send; formatting and attaching agree;
      the producer side is memory-safe for arbitrary header contents; deadlines hold, for a
      push provided the lock is free (for a pop: RingPop), and two limits of the code are
      proved as such.
    - The concurrent ring (RingConcProps): in every interleaving the attempts are those of the
      bounded queue, in the order of one deciding step each, and what a call returns, a
      refusal too, is the answer to its own last attempt; one producer at most is past
      the lock, and no byte is written while it is read; no wake for a record (while the
      32-bit counter does not go all the way round under the consumer's eyes) and none for
      the lock is lost, while the wake for space can be (space_wakeup_missed); a producer that
      dies inside the lock stops all pushes for good (RingConcDead).
    - Control segment and frames: what the broker writes is what every connector reads;
      decoding inverts encoding exactly; attaching is safe on arbitrary contents; the
      catalog finds the right schema for a fingerprint, and a reply finds its caller.
    - The registry (RegistryProps): its invariant under every operation, the release
      protocol, and the access decisions.
    - The broker: no leak and no loss over any run, what a departure removes, the policy
      for taken names, publish and expose from request to reply, refusals, start-up
      beside a live or after a dead broker, shutdown, and freedom from panics.
    - The daemon (Main): its life in one theorem, from the guard over any traffic to the
      segments it unlinks, those of its clients among them, and the signals that end it.
    - The bus: connecting leads to a registered client that can ask the broker
      (BusConnect); after a restart of the broker a reconnect brings the client and all its
      channels and functions back, bound to new arenas (BusReplay); a dropped connection
      takes exactly its own things along, and a dropped publisher's channel goes at once or,
      if nobody ever subscribed, when its grace has passed (BusGoodbye); a connector's
      lookup and list of channels return what the registry of the broker says (BusProps); a remote call returns the handler's very value (RpcBus),
      also by name alone, from expose over lookup to the result (BusFunction); from publish
      over subscribe to the last message received, a channel delivers, and only to those
      who have its key (BusChannel).
    - Waiting ends (Waits): with any contents of the rings and nobody who answers, but with
      nobody dead inside the producer lock, a control call and a remote call return once
      their deadlines and one more turn of the dispatcher have passed on the clock, and leave
      nothing pending; every spurious wake-up gives a control call its whole timeout once
      more (wait_outlasts_its_timeout).
    - HTTP: tokens and names, and that the inline limits fit the rings.
    - The connector: a reply reaches the caller it belongs to and nobody else, in every
      interleaving (reply_routing) and for a single control call; what a reconnect leaves
      behind and what it does not retry; a call is placed on a callee with the right
      interface only; from the caller's arguments over the arena, the worker and the reply
      ring back to the caller, a call returns what the handler computed; every request is
      answered, no request is lost or stranded in the worker pool, which may nevertheless
      answer one at a time; a channel delivers what was published, in order.

    ** Limits

    That a call returns whoever answers is stated for a callee at hand (call_attempt_returns);
    [call_blocking] with its lookup is followed when the broker and the service answer
    (BusFunction), not through a lookup that times out and a second attempt. A reconnect is
    followed when the new broker serves (BusReplay); the ways it fails are in ClientProps.

    ** Not modelled

    - the logger of impulsed/src/main.rs, and all log messages;
    - memory orderings weaker than sequential consistency;
    - accessors that only return a field;
    - the benchmark, the examples and tests (clients of the library), and the connectors in
      other languages. *)

From Stdlib Require Export ZArith Lia.
From Stdlib Require Import Ascii Strings.Byte.
From stdpp Require Export base list gmap strings pretty fin_maps sets numbers.

#[global] Open Scope Z_scope.
#[global] Set Default Goal Selector "!".
#[export] Set Warnings "-clear-no-such-hyp".

(** ** Results and outcomes *)

(** Rust's [Result<T, E>]. *)
Inductive result (A E : Type) : Type :=
| Ok (a : A)
| Err (e : E).
Arguments Ok {A E} a.
Arguments Err {A E} e.

Definition is_ok {A E} (r : result A E) : bool :=
  match r with Ok _ => true | Err _ => false end.

(** What running a piece of Rust code can lead to: a value, a panic, an access
    outside the memory a pointer may be used for, or a wait that is still going
    on when the observed schedule (see [Machine.v]) ends. *)
Inductive outcome (A : Type) : Type :=
| Done (a : A)
| Panicked (msg : string)
| Undefined (why : string)
| Starved.
Arguments Done {A} a.
Arguments Panicked {A} msg.
Arguments Undefined {A} why.
Arguments Starved {A}.

(** [defined o]: the code reaches no undefined behaviour. *)
Definition defined {A} (o : outcome A) : Prop :=
  match o with Undefined _ => False | _ => True end.

(** Sequencing of pure code that may panic. *)
Definition obind {A B} (o : outcome A) (f : A -> outcome B) : outcome B :=
  match o with
  | Done a => f a
  | Panicked msg => Panicked msg
  | Undefined why => Undefined why
  | Starved => Starved
  end.

(** [Result::expect] and [Option::expect]. *)
Definition expect_ok {A E} (r : result A E) (msg : string) : outcome A :=
  match r with Ok a => Done a | Err _ => Panicked msg end.
Definition expect_some {A} (o : option A) (msg : string) : outcome A :=
  match o with Some a => Done a | None => Panicked msg end.

(** ** I/O errors ([std::io::Error]) *)

Inductive ErrorKind : Type :=
| NotFound
| PermissionDenied
| TimedOut
| Other
| Uncategorized.

#[export] Instance ErrorKind_eq_dec : EqDecision ErrorKind.
Proof. solve_decision. Defined.

Record io_error : Type := IoError {
  err_kind : ErrorKind;
  err_raw  : option Z;   (** [raw_os_error()] *)
  err_msg  : string;     (** [to_string()] *)
}.

Definition io_result (A : Type) : Type := result A io_error.

Definition io_other (msg : string) : io_error := IoError Other None msg.

Definition ENOENT : Z := 2.
Definition EPERM : Z := 1.
Definition EACCES : Z := 13.
Definition ETIMEDOUT : Z := 110.

(** The errno to [ErrorKind] mapping of the standard library, for the codes the
    program tells apart. *)
Definition errno_kind (errno : Z) : ErrorKind :=
  if bool_decide (errno = ENOENT) then NotFound
  else if bool_decide (errno = EPERM ∨ errno = EACCES) then PermissionDenied
  else if bool_decide (errno = ETIMEDOUT) then TimedOut
  else Uncategorized.

(** ** Machine integers: the wrap-around of each width *)

Definition wrap_u (w z : Z) : Z := z mod 2 ^ w.
Definition wrap_i (w z : Z) : Z := (z + 2 ^ (w - 1)) mod 2 ^ w - 2 ^ (w - 1).

Abbreviation u8 := (wrap_u 8) (only parsing).
Abbreviation u16 := (wrap_u 16) (only parsing).
Abbreviation u32 := (wrap_u 32) (only parsing).
Abbreviation u64 := (wrap_u 64) (only parsing).
(** [usize] on the supported targets (amd64 and arm64). *)
Abbreviation usize := (wrap_u 64) (only parsing).
Abbreviation i32 := (wrap_i 32) (only parsing).
Abbreviation i64 := (wrap_i 64) (only parsing).

Definition in_u (w z : Z) : Prop := 0 <= z < 2 ^ w.
Definition in_i (w z : Z) : Prop := - 2 ^ (w - 1) <= z < 2 ^ (w - 1).

(** [usize::MAX], [u32::is_power_of_two] and [next_power_of_two]. *)
Definition usize_max : Z := 2 ^ 64 - 1.
Definition is_power_of_two (z : Z) : bool :=
  (0 <? z) && (z =? 2 ^ Z.log2 z).
Definition next_power_of_two (z : Z) : Z :=
  if z <=? 1 then 1 else 2 ^ Z.log2_up z.

Lemma wrap_u_range w z : 0 <= w -> in_u w (wrap_u w z).
Proof. intros Hw. unfold in_u, wrap_u. apply Z.mod_pos_bound. lia. Qed.

Lemma wrap_u_small w z : in_u w z -> wrap_u w z = z.
Proof. unfold in_u, wrap_u. intros. by apply Z.mod_small. Qed.

Lemma wrap_i_small w z : 0 < w -> in_i w z -> wrap_i w z = z.
Proof.
  unfold in_i, wrap_i. intros Hw Hz.
  assert (2 ^ w = 2 * 2 ^ (w - 1)) as E.
  { rewrite <- Z.pow_succ_r by lia. f_equal. lia. }
  rewrite Z.mod_small; lia.
Qed.

Lemma wrap_i_range w z : 0 < w -> in_i w (wrap_i w z).
Proof.
  intros Hw. unfold in_i, wrap_i.
  assert (2 ^ w = 2 * 2 ^ (w - 1)) as E.
  { rewrite <- Z.pow_succ_r by lia. f_equal. lia. }
  pose proof (Z.mod_pos_bound (z + 2 ^ (w - 1)) (2 ^ w)). lia.
Qed.

(** The two reinterpretations [as i64] and [as u64] undo each other. *)
Lemma wrap_u_wrap_i w z : 0 < w -> wrap_u w (wrap_i w z) = wrap_u w z.
Proof.
  intros Hw. unfold wrap_u, wrap_i.
  rewrite Zminus_mod_idemp_l. f_equal. lia.
Qed.

Lemma wrap_i_wrap_u w z : 0 < w -> wrap_i w (wrap_u w z) = wrap_i w z.
Proof.
  intros Hw. unfold wrap_u, wrap_i. by rewrite Zplus_mod_idemp_l.
Qed.

Lemma is_power_of_two_spec z :
  is_power_of_two z = true <-> exists k, 0 <= k /\ z = 2 ^ k.
Proof.
  unfold is_power_of_two. rewrite andb_true_iff, Z.ltb_lt, Z.eqb_eq. split.
  - intros [_ E]. exists (Z.log2 z). split; [apply Z.log2_nonneg | done].
  - intros (k & Hk & ->). rewrite Z.log2_pow2 by done. split; [lia | done].
Qed.

Lemma next_power_of_two_pow z : exists k, 0 <= k /\ next_power_of_two z = 2 ^ k.
Proof.
  unfold next_power_of_two. destruct (Z.leb_spec z 1).
  - by exists 0.
  - exists (Z.log2_up z). split; [apply Z.log2_up_nonneg | done].
Qed.

Lemma next_power_of_two_ge z : z <= next_power_of_two z.
Proof.
  unfold next_power_of_two. destruct (Z.leb_spec z 1); [lia|].
  apply Z.log2_up_spec. lia.
Qed.

Lemma next_power_of_two_le z k :
  0 <= k -> z <= 2 ^ k -> next_power_of_two z <= 2 ^ k.
Proof.
  intros Hk Hz. unfold next_power_of_two. destruct (Z.leb_spec z 1); [lia|].
  apply Z.pow_le_mono_r; [lia|].
  rewrite <- (Z.log2_up_pow2 k) by done. by apply Z.log2_up_le_mono.
Qed.

(** ** Bytes *)

Abbreviation byte := Byte.byte.

#[export] Instance byte_eq_dec : EqDecision byte := Byte.byte_eq_dec.

Definition byte_to_Z (b : byte) : Z := Z.of_N (Byte.to_N b).
Definition byte_of_Z (z : Z) : byte :=
  match Byte.of_N (Z.to_N (z mod 256)) with
  | Some b => b
  | None => Byte.x00
  end.

Lemma byte_to_Z_range b : 0 <= byte_to_Z b < 256.
Proof. unfold byte_to_Z. pose proof (Byte.to_N_bounded b). lia. Qed.

Lemma byte_to_of_Z z : byte_to_Z (byte_of_Z z) = z mod 256.
Proof.
  unfold byte_to_Z, byte_of_Z.
  pose proof (Z.mod_pos_bound z 256 ltac:(lia)) as Hr.
  destruct (Byte.of_N (Z.to_N (z mod 256))) as [b|] eqn:E.
  - apply Byte.to_of_N in E. rewrite E. lia.
  - apply Byte.of_N_None_iff in E. lia.
Qed.

Lemma byte_of_to_Z b : byte_of_Z (byte_to_Z b) = b.
Proof.
  unfold byte_of_Z. rewrite Z.mod_small by apply byte_to_Z_range.
  unfold byte_to_Z. rewrite N2Z.id. by rewrite Byte.of_to_N.
Qed.

(** [to_le_bytes] of an [n]-byte integer, and [from_le_bytes]. *)
Fixpoint le_bytes (n : nat) (z : Z) : list byte :=
  match n with
  | O => []
  | S n => byte_of_Z z :: le_bytes n (z / 256)
  end.

Fixpoint from_le (bs : list byte) : Z :=
  match bs with
  | [] => 0
  | b :: bs => byte_to_Z b + 256 * from_le bs
  end.

Lemma length_le_bytes n z : length (le_bytes n z) = n.
Proof. revert z. induction n; simpl; auto. Qed.

Lemma from_le_range bs : 0 <= from_le bs < 256 ^ Z.of_nat (length bs).
Proof.
  induction bs as [|b bs IH]; [simpl; lia|].
  cbn [from_le length]. pose proof (byte_to_Z_range b).
  rewrite Nat2Z.inj_succ, Z.pow_succ_r by lia. lia.
Qed.

Lemma from_le_bytes n z : from_le (le_bytes n z) = z mod 256 ^ Z.of_nat n.
Proof.
  revert z. induction n as [|n IH]; intros z.
  - simpl. by rewrite Z.mod_1_r.
  - cbn [from_le le_bytes]. rewrite IH, byte_to_of_Z.
    rewrite Nat2Z.inj_succ, Z.pow_succ_r by lia.
    assert (0 < 256 ^ Z.of_nat n) by (apply Z.pow_pos_nonneg; lia).
    rewrite Z.rem_mul_r by lia. lia.
Qed.

Lemma from_le_bytes_small n z :
  0 <= z < 256 ^ Z.of_nat n -> from_le (le_bytes n z) = z.
Proof. intros. rewrite from_le_bytes. by apply Z.mod_small. Qed.

Lemma le_bytes_from_le bs n : length bs = n -> le_bytes n (from_le bs) = bs.
Proof.
  revert n. induction bs as [|b bs IH]; intros n <-; [done|].
  cbn [length le_bytes from_le]. pose proof (byte_to_Z_range b) as Hb.
  f_equal.
  - rewrite <- (byte_of_to_Z b) at 2. unfold byte_of_Z.
    rewrite (Z.mul_comm 256), Z_mod_plus_full. done.
  - rewrite (Z.mul_comm 256), Z.div_add, Z.div_small by lia. by apply IH.
Qed.

Lemma le_bytes_mod n z : le_bytes n (z mod 256 ^ Z.of_nat n) = le_bytes n z.
Proof.
  rewrite <- from_le_bytes. apply le_bytes_from_le, length_le_bytes.
Qed.

Lemma le_bytes_congr n z1 z2 :
  z1 mod 256 ^ Z.of_nat n = z2 mod 256 ^ Z.of_nat n -> le_bytes n z1 = le_bytes n z2.
Proof. intros E. by rewrite <- le_bytes_mod, E, le_bytes_mod. Qed.

Lemma le_bytes_inj n z1 z2 :
  le_bytes n z1 = le_bytes n z2 -> z1 mod 256 ^ Z.of_nat n = z2 mod 256 ^ Z.of_nat n.
Proof. intros E. rewrite <- !from_le_bytes. by rewrite E. Qed.

(** The bytes of a Rust string ([as_bytes()]); Rocq's [string] is the same
    sequence of bytes. *)
Definition string_bytes (s : string) : list byte :=
  String.list_byte_of_string s.

Definition blen {A} (l : list A) : Z := Z.of_nat (length l).

Lemma blen_app {A} (l k : list A) : blen (l ++ k) = blen l + blen k.
Proof. unfold blen. rewrite length_app. lia. Qed.

Lemma blen_nonneg {A} (l : list A) : 0 <= blen l.
Proof. unfold blen. lia. Qed.

Lemma length_of_blen {A B} (l : list A) (k : list B) : blen l = blen k -> length l = length k.
Proof. unfold blen. lia. Qed.

Lemma blen_le_bytes n z : blen (le_bytes n z) = Z.of_nat n.
Proof. unfold blen. by rewrite length_le_bytes. Qed.

(** ** Formatting *)

(** [format!("{n}")] of an integer. *)
Definition dec (n : Z) : string := pretty n.

Definition hex_digit (d : Z) : ascii :=
  Ascii.ascii_of_nat (Z.to_nat (if d <? 10 then 48 + d else 87 + d)).

(** The lowercase hexadecimal digits of [n], least significant last, in exactly
    [k] positions. *)
Fixpoint hex_fixed (k : nat) (n : Z) (acc : string) : string :=
  match k with
  | O => acc
  | S k => hex_fixed k (n / 16) (String (hex_digit (n mod 16)) acc)
  end.

(** [format!("{n:016x}")] of a [u64]. *)
Definition hex016 (n : Z) : string := hex_fixed 16 n "".

(** [format!("{n:#x}")] of a [u64]. *)
Definition hex_alt (n : Z) : string :=
  "0x" +:+ hex_fixed (Z.to_nat (Z.max 1 (Z.log2 n / 4 + 1))) n "".

(** [str::contains] and [str::starts_with]. *)
Fixpoint str_prefix (p s : string) : bool :=
  match p, s with
  | EmptyString, _ => true
  | String a p', String b s' => bool_decide (a = b) && str_prefix p' s'
  | _, _ => false
  end.

Fixpoint str_contains (p s : string) : bool :=
  str_prefix p s ||
  match s with
  | EmptyString => false
  | String _ s' => str_contains p s'
  end.

Lemma str_app_nil (t : string) : "" +:+ t = t.
Proof. reflexivity. Qed.

Lemma str_app_cons a (s t : string) : String a s +:+ t = String a (s +:+ t).
Proof. reflexivity. Qed.

Lemma str_prefix_spec p s : str_prefix p s = true <-> exists t, s = p +:+ t.
Proof.
  revert s. induction p as [|a p IH]; intros s; simpl.
  - split; [by exists s | done].
  - destruct s as [|b s]; [split; [done | by intros [t ?]]|].
    rewrite andb_true_iff, bool_decide_eq_true, IH. split.
    + intros [-> [t ->]]. by exists t.
    + intros [t E]. rewrite str_app_cons in E. injection E as -> ->.
      split; [done | by exists t].
Qed.

Lemma str_app_assoc (s t u : string) : (s +:+ t) +:+ u = s +:+ (t +:+ u).
Proof. induction s as [|a s IH]; [done|]. by rewrite !str_app_cons, IH. Qed.

Lemma str_app_inj_l (p s t : string) : p +:+ s = p +:+ t -> s = t.
Proof.
  induction p as [|a p IH]; [done|]. rewrite !str_app_cons. intros [= E]. auto.
Qed.

Lemma str_length_app (s t : string) :
  String.length (s +:+ t) = (String.length s + String.length t)%nat.
Proof.
  induction s as [|a s IH]; [done|]. rewrite str_app_cons. simpl. by rewrite IH.
Qed.

Lemma str_app_inj_len (s t s' t' : string) :
  String.length s = String.length s' -> s +:+ t = s' +:+ t' -> s = s' /\ t = t'.
Proof.
  revert s'. induction s as [|a s IH]; intros [|b s'] Hl; simpl in Hl; try done.
  rewrite !str_app_cons. intros [= -> E].
  destruct (IH s' ltac:(lia) E) as [-> ->]. done.
Qed.

Lemma str_app_inj_r (s s' t : string) : s +:+ t = s' +:+ t -> s = s'.
Proof.
  intros E. assert (String.length (s +:+ t) = String.length (s' +:+ t)) as Hl by by rewrite E.
  rewrite !str_length_app in Hl.
  by destruct (str_app_inj_len s t s' t ltac:(lia) E).
Qed.

Lemma dec_inj n m : dec n = dec m -> n = m.
Proof. apply (inj pretty). Qed.

Lemma hex_digit_inj a b :
  0 <= a < 16 -> 0 <= b < 16 -> hex_digit a = hex_digit b -> a = b.
Proof.
  intros Ha Hb E. unfold hex_digit in E.
  apply (f_equal Ascii.nat_of_ascii) in E.
  rewrite !Ascii.nat_ascii_embedding in E by (repeat case_match; lia).
  destruct (Z.ltb_spec a 10), (Z.ltb_spec b 10); lia.
Qed.

Lemma hex_fixed_acc k n s : hex_fixed k n s = hex_fixed k n "" +:+ s.
Proof.
  revert n s. induction k as [|k IH]; intros n s; [done|]. cbn [hex_fixed].
  rewrite IH, (IH _ (String _ "")), str_app_assoc. done.
Qed.

Lemma hex_fixed_length k n : String.length (hex_fixed k n "") = k.
Proof.
  revert n. induction k as [|k IH]; intros n; [done|]. cbn [hex_fixed].
  rewrite hex_fixed_acc, str_length_app, IH. simpl. lia.
Qed.

Lemma hex_fixed_inj k n m :
  0 <= n < 16 ^ Z.of_nat k -> 0 <= m < 16 ^ Z.of_nat k ->
  hex_fixed k n "" = hex_fixed k m "" -> n = m.
Proof.
  revert n m. induction k as [|k IH]; intros n m Hn Hm E.
  - simpl in *. lia.
  - cbn [hex_fixed] in E. rewrite hex_fixed_acc, (hex_fixed_acc k (m / 16)) in E.
    apply str_app_inj_len in E as [E1 E2]; [|by rewrite !hex_fixed_length].
    rewrite Nat2Z.inj_succ, Z.pow_succ_r in Hn, Hm by lia.
    apply IH in E1; [| split; [apply Z.div_pos | apply Z.div_lt_upper_bound]; lia ..].
    injection E2 as E2. apply hex_digit_inj in E2; [| apply Z.mod_pos_bound; lia ..].
    rewrite (Z.div_mod n 16), (Z.div_mod m 16) by lia. lia.
Qed.

(** ** Counting the elements a predicate selects *)

(** A JSON text, written with single quotes. *)
Fixpoint json_text (s : string) : string :=
  match s with
  | EmptyString => EmptyString
  | String a s => String (if bool_decide (a = Ascii.ascii_of_nat 39) then Ascii.ascii_of_nat 34 else a) (json_text s)
  end.

Section tally.
Context {A : Type}.
Implicit Types (f : A -> bool) (ts us : list A).

Fixpoint tally (f : A -> bool) (ts : list A) : Z :=
  match ts with [] => 0 | t :: ts => (if f t then 1 else 0) + tally f ts end.

Lemma tally_cons f t ts : tally f (t :: ts) = (if f t then 1 else 0) + tally f ts.
Proof. done. Qed.

Lemma tally_app f ts us : tally f (ts ++ us) = tally f ts + tally f us.
Proof. induction ts as [|t ts IH]; [done|]. simpl. lia. Qed.

Lemma tally_nonneg f ts : 0 <= tally f ts.
Proof. induction ts as [|t ts IH]; simpl; [done|]. destruct (f t); lia. Qed.

Lemma tally_insert f ts n t u :
  ts !! n = Some t ->
  tally f (<[n := u]> ts) = tally f ts - (if f t then 1 else 0) + (if f u then 1 else 0).
Proof.
  revert n. induction ts as [|x ts IH]; intros [|n] E; simplify_eq/=; [lia|].
  rewrite (IH n E). lia.
Qed.

Lemma tally_in f ts n t : ts !! n = Some t -> f t = true -> 1 <= tally f ts.
Proof.
  revert n. induction ts as [|x ts IH]; intros [|n] E Hf; simplify_eq/=.
  - rewrite Hf. pose proof (tally_nonneg f ts). lia.
  - pose proof (IH n E Hf). destruct (f x); lia.
Qed.

Lemma tally_out f ts : 1 <= tally f ts -> exists n t, ts !! n = Some t /\ f t = true.
Proof.
  induction ts as [|x ts IH]; [done|]. simpl. destruct (f x) eqn:Ef; intros Ht.
  - by exists 0%nat, x.
  - destruct (IH ltac:(lia)) as (n & t & E & Hf). by exists (S n), t.
Qed.
End tally.
