(* ===== verification/Machine.v ===== *)
(** * The machine the Rust code runs on

    Byte-addressed memory blocks, little-endian atomic words, the system calls
    of the C library (parameters, gathered in the record [sys]), the clock and
    the interference of the other threads and processes (a list of [tick]s), and
    the [prog] monad in which the effectful functions of the program are written.

    A [prog A] takes a [world] to an [outcome]: a value and the new world, a
    panic, undefined behaviour (an access outside a mapped block), or [Starved]
    when the code is still waiting at the end of the schedule. Whatever happens
    between two yield points of the code (a futex wait, a spin hint) runs without
    interference. *)

From S2P Require Import Prelude.

(** ** Byte ranges of a block *)

Definition sub (bs : list byte) (off n : Z) : list byte :=
  take (Z.to_nat n) (drop (Z.to_nat off) bs).

Definition upd (bs : list byte) (off : Z) (new : list byte) : list byte :=
  take (Z.to_nat off) bs ++ new ++ drop (Z.to_nat off + length new) bs.

Definition in_range (bs : list byte) (off n : Z) : bool :=
  (0 <=? off) && (0 <=? n) && (off + n <=? blen bs).

Lemma in_range_spec bs off n :
  in_range bs off n = true <-> 0 <= off /\ 0 <= n /\ off + n <= blen bs.
Proof. unfold in_range. rewrite !andb_true_iff, !Z.leb_le. lia. Qed.

Lemma blen_sub bs off n :
  0 <= off -> 0 <= n -> off + n <= blen bs -> blen (sub bs off n) = n.
Proof. unfold blen, sub. intros. rewrite length_take, length_drop. lia. Qed.

Lemma blen_upd bs off new :
  0 <= off -> off + blen new <= blen bs -> blen (upd bs off new) = blen bs.
Proof.
  unfold blen, upd. intros. rewrite !length_app, length_take, length_drop. lia.
Qed.

Lemma lookup_sub bs off n i :
  0 <= off ->
  sub bs off n !! i =
    if bool_decide (Z.of_nat i < n) then bs !! (Z.to_nat off + i)%nat else None.
Proof.
  intros. unfold sub. case_bool_decide.
  - rewrite lookup_take_lt by lia. apply lookup_drop.
  - apply lookup_take_ge. lia.
Qed.

Lemma lookup_upd bs off new i :
  0 <= off -> off + blen new <= blen bs ->
  upd bs off new !! i =
    if bool_decide (off <= Z.of_nat i < off + blen new)
    then new !! (i - Z.to_nat off)%nat else bs !! i.
Proof.
  unfold blen, upd. intros Ho Hn. case_bool_decide.
  - rewrite lookup_app_r by (rewrite length_take; lia).
    rewrite length_take, lookup_app_l by lia. f_equal. lia.
  - destruct (decide (Z.of_nat i < off)).
    + rewrite lookup_app_l by (rewrite length_take; lia). apply lookup_take_lt. lia.
    + rewrite lookup_app_r by (rewrite length_take; lia).
      rewrite lookup_app_r by (rewrite length_take; lia).
      rewrite lookup_drop, length_take. f_equal. lia.
Qed.

Lemma sub_upd_same bs off new :
  0 <= off -> off + blen new <= blen bs -> sub (upd bs off new) off (blen new) = new.
Proof.
  intros Ho Hn. apply list_eq. intros i. rewrite lookup_sub, lookup_upd by done.
  unfold blen in *. repeat case_bool_decide; try lia.
  - f_equal. lia.
  - symmetry. apply lookup_ge_None. lia.
Qed.

Lemma sub_upd_disjoint bs off new o n :
  0 <= off -> off + blen new <= blen bs -> 0 <= o ->
  o + n <= off \/ off + blen new <= o ->
  sub (upd bs off new) o n = sub bs o n.
Proof.
  intros. apply list_eq. intros i. rewrite !lookup_sub, lookup_upd by done.
  repeat case_bool_decide; try done. lia.
Qed.

(** A write inside a range, seen through the range. *)
Lemma sub_upd_inside bs off new o n :
  0 <= o -> o <= off -> off + blen new <= o + n -> o + n <= blen bs ->
  sub (upd bs off new) o n = upd (sub bs o n) (off - o) new.
Proof.
  intros. pose proof (blen_nonneg new).
  assert (blen (sub bs o n) = n) by (apply blen_sub; lia).
  apply list_eq. intros i.
  rewrite lookup_sub, !lookup_upd, lookup_sub by lia.
  repeat case_bool_decide; try lia; try done. f_equal. lia.
Qed.

Lemma sub_all bs : sub bs 0 (blen bs) = bs.
Proof. unfold sub, blen. rewrite Nat2Z.id. by apply take_ge. Qed.

Lemma sub_sub bs o n o' n' :
  0 <= o -> 0 <= o' -> 0 <= n' -> o' + n' <= n ->
  sub (sub bs o n) o' n' = sub bs (o + o') n'.
Proof.
  intros. apply list_eq. intros i. rewrite !lookup_sub by lia.
  repeat case_bool_decide; try lia; try done. f_equal. lia.
Qed.

Lemma sub_app_split bs o n m :
  0 <= o -> 0 <= n -> 0 <= m -> o + n + m <= blen bs ->
  sub bs o (n + m) = sub bs o n ++ sub bs (o + n) m.
Proof.
  intros. unfold sub.
  replace (Z.to_nat (n + m)) with (Z.to_nat n + Z.to_nat m)%nat by lia.
  rewrite <- take_take_drop, drop_drop. do 3 f_equal. lia.
Qed.

Lemma upd_nil bs off : upd bs off [] = bs.
Proof. unfold upd. simpl. rewrite Nat.add_0_r. apply take_drop. Qed.

(** ** System calls, schedule, world *)

(** The results of the system calls the program makes. A call is a function of
    its arguments; the world is universally quantified in every theorem, so its
    answers are arbitrary. Calls that fail return -1 and an errno. *)
Record sys : Type := Sys {
  sys_shm_open : string -> Z -> Z -> Z * Z;          (** name, oflag, mode: fd, errno *)
  sys_fchmod : Z -> Z -> Z * Z;
  sys_ftruncate : Z -> Z -> Z * Z;
  sys_fstat : Z -> Z * Z * Z;                        (** fd: result, errno, st_size *)
  sys_mmap : Z -> Z -> gmap Z (list byte) ->
             Z * Z * gmap Z (list byte);             (** size, fd: address, errno *)
  sys_shm_unlink : string -> Z * Z;
  sys_read_dir : string -> result (list string) Z;
  sys_kill : Z -> Z -> Z * Z;
  sys_getpid : Z;
  sys_realtime : option Z;                           (** nanoseconds since the epoch *)
  sys_random : nat -> result (list byte) Z;          (** a call of [getrandom] for 8 bytes *)
  sys_strerror : Z -> string;
}.

(** What the rest of the system did while this thread was waiting, and whether the thread, if
    it sleeps on a condition variable, then wakes up without a notification. *)
Record tick : Type := MkTick {
  tk_mem : gmap Z (list byte) -> gmap Z (list byte);
  tk_now : Z;
  tk_woken : bool;
}.
Abbreviation Tick mem now := (MkTick mem now false).

Inductive event : Type :=
| EvWake (p off n : Z)        (** [FUTEX_WAKE] on a word, up to [n] waiters *)
| EvUnlink (name : string)    (** [shm_unlink] *)
| EvMunmap (p len : Z)
| EvClose (fd : Z).

Record world : Type := World {
  w_mem : gmap Z (list byte);
  w_now : Z;                  (** [Instant::now()], in nanoseconds *)
  w_sys : sys;
  w_ticks : list tick;
  w_rng : nat;
  w_log : list event;
}.

Definition set_mem (m : gmap Z (list byte)) (w : world) : world :=
  World m (w_now w) (w_sys w) (w_ticks w) (w_rng w) (w_log w).

Definition add_log (e : event) (w : world) : world :=
  World (w_mem w) (w_now w) (w_sys w) (w_ticks w) (w_rng w) (w_log w ++ [e]).

(** ** The [prog] monad *)

Definition prog (A : Type) : Type := world -> outcome (A * world).

Definition ret {A} (a : A) : prog A := fun w => Done (a, w).

Definition bind {A B} (p : prog A) (f : A -> prog B) : prog B := fun w =>
  match p w with
  | Done (a, w') => f a w'
  | Panicked msg => Panicked msg
  | Undefined why => Undefined why
  | Starved => Starved
  end.

Definition panic {A} (msg : string) : prog A := fun _ => Panicked msg.
Definition undefined {A} (why : string) : prog A := fun _ => Undefined why.

(** A pure computation that may panic, inside a [prog]. *)
Definition lift {A} (o : outcome A) : prog A := fun w =>
  match o with
  | Done a => Done (a, w)
  | Panicked msg => Panicked msg
  | Undefined why => Undefined why
  | Starved => Starved
  end.

(** [let x = p?;]: an error returns from the enclosing function. *)
Definition bind_io {A B} (p : prog (io_result A)) (f : A -> prog (io_result B))
  : prog (io_result B) :=
  bind p (fun r => match r with Ok a => f a | Err e => ret (Err e) end).

Declare Scope prog_scope.
Delimit Scope prog_scope with prog.
#[global] Open Scope prog_scope.

Notation "'let!' x ':=' p 'in' k" := (bind p (fun x => k))
  (at level 10, x pattern, p at level 100, k at level 200) : prog_scope.
Notation "'let?' x ':=' p 'in' k" := (bind_io p (fun x => k))
  (at level 10, x pattern, p at level 100, k at level 200) : prog_scope.
Notation "'do!' p 'in' k" := (bind p (fun _ => k))
  (at level 10, p at level 100, k at level 200) : prog_scope.

Definition get_world : prog world := fun w => Done (w, w).
Definition get_sys : prog sys := fun w => Done (w_sys w, w).
Definition now : prog Z := fun w => Done (w_now w, w).
Definition log_event (e : event) : prog unit := fun w => Done (tt, add_log e w).

(** Wait for the rest of the system: the next tick of the schedule. *)
Definition yield : prog unit := fun w =>
  match w_ticks w with
  | [] => Starved
  | t :: ts => Done (tt, World (tk_mem t (w_mem w)) (tk_now t) (w_sys w) ts (w_rng w) (w_log w))
  end.

(** The same for a thread that sleeps on a condition variable: was it a spurious wake-up? *)
Definition doze : prog bool := fun w =>
  match w_ticks w with
  | [] => Starved
  | t :: _ => (do! yield in ret (tk_woken t)) w
  end.

(** [getrandom] of 8 bytes: the bytes, or its error. *)
Definition getrandom : prog (result (list byte) Z) := fun w =>
  Done (sys_random (w_sys w) (w_rng w),
        World (w_mem w) (w_now w) (w_sys w) (w_ticks w) (S (w_rng w)) (w_log w)).

Definition last_os_error (errno : Z) : prog io_error :=
  let! s := get_sys in
  ret (IoError (errno_kind errno) (Some errno) (sys_strerror s errno)).

(** ** Memory accesses through raw pointers *)

Definition read_bytes (p off n : Z) : prog (list byte) := fun w =>
  match w_mem w !! p with
  | Some bs => if in_range bs off n then Done (sub bs off n, w)
               else Undefined "read outside the mapping"
  | None => Undefined "read through an unmapped pointer"
  end.

Definition write_bytes (p off : Z) (new : list byte) : prog unit := fun w =>
  match w_mem w !! p with
  | Some bs => if in_range bs off (blen new)
               then Done (tt, set_mem (<[p := upd bs off new]> (w_mem w)) w)
               else Undefined "write outside the mapping"
  | None => Undefined "write through an unmapped pointer"
  end.

(** Atomic words: [AtomicU32] and [AtomicU64] at a byte offset. *)
Definition load (width : nat) (p off : Z) : prog Z :=
  let! bs := read_bytes p off (Z.of_nat width) in ret (from_le bs).
Definition store (width : nat) (p off v : Z) : prog unit :=
  write_bytes p off (le_bytes width v).

Definition load_u32 := load 4.
Definition load_u64 := load 8.
Definition store_u32 := store 4.
Definition store_u64 := store 8.

Definition swap_u32 (p off v : Z) : prog Z :=
  let! old := load_u32 p off in
  do! store_u32 p off v in
  ret old.

(** [compare_exchange(cur, new).is_ok()] *)
Definition cas_u32 (p off cur new : Z) : prog bool :=
  let! old := load_u32 p off in
  if old =? cur then do! store_u32 p off new in ret true else ret false.

(** [fetch_add] wraps around. *)
Definition fetch_add_u32 (p off d : Z) : prog Z :=
  let! old := load_u32 p off in
  do! store_u32 p off (u32 (old + d)) in
  ret old.

(** ** Stepping through a program *)

Lemma bind_ret {A B} (a : A) (f : A -> prog B) w : bind (ret a) f w = f a w.
Proof. reflexivity. Qed.

Lemma bind_done {A B} (p : prog A) (f : A -> prog B) a w w' :
  p w = Done (a, w') -> bind p f w = f a w'.
Proof. unfold bind. by intros ->. Qed.

Lemma bind_assoc {A B C} (p : prog A) (f : A -> prog B) (g : B -> prog C) w :
  bind (bind p f) g w = bind p (fun a => bind (f a) g) w.
Proof. unfold bind. by destruct (p w) as [[? ?]| | |]. Qed.

Lemma bind_done_inv {A B} (p : prog A) (f : A -> prog B) w b w' :
  bind p f w = Done (b, w') ->
  exists a w1, p w = Done (a, w1) /\ f a w1 = Done (b, w').
Proof. unfold bind. destruct (p w) as [[a w1]| | |]; naive_solver. Qed.

Section block.
Context (w : world) (p : Z) (bs : list byte).
Hypothesis Hp : w_mem w !! p = Some bs.

Lemma read_bytes_ok off n :
  0 <= off -> 0 <= n -> off + n <= blen bs ->
  read_bytes p off n w = Done (sub bs off n, w).
Proof using Hp.
  intros. unfold read_bytes. rewrite Hp.
  by rewrite (proj2 (in_range_spec bs off n)) by lia.
Qed.

Lemma write_bytes_ok off new :
  0 <= off -> off + blen new <= blen bs ->
  write_bytes p off new w =
    Done (tt, set_mem (<[p := upd bs off new]> (w_mem w)) w).
Proof using Hp.
  intros. unfold write_bytes. rewrite Hp.
  pose proof (blen_nonneg new).
  by rewrite (proj2 (in_range_spec bs off (blen new))) by lia.
Qed.

Lemma load_ok width off :
  0 <= off -> off + Z.of_nat width <= blen bs ->
  load width p off w = Done (from_le (sub bs off (Z.of_nat width)), w).
Proof using Hp.
  intros. unfold load. erewrite bind_done by (apply read_bytes_ok; lia). done.
Qed.

Lemma store_ok width off v :
  0 <= off -> off + Z.of_nat width <= blen bs ->
  store width p off v w =
    Done (tt, set_mem (<[p := upd bs off (le_bytes width v)]> (w_mem w)) w).
Proof using Hp.
  intros. apply write_bytes_ok; [done | rewrite blen_le_bytes; lia].
Qed.
End block.

Lemma load_same n p off w v w' : load n p off w = Done (v, w') -> w' = w.
Proof. unfold load, bind, read_bytes, ret. intros E. repeat case_match; simplify_eq. done. Qed.

Lemma set_mem_set_mem m1 m2 w : set_mem m1 (set_mem m2 w) = set_mem m1 w.
Proof. reflexivity. Qed.

Lemma set_mem_id w : set_mem (w_mem w) w = w.
Proof. by destruct w. Qed.

(** A word read back from where it was written. *)
Lemma from_le_sub_upd bs off n v :
  0 <= off -> off + Z.of_nat n <= blen bs ->
  from_le (sub (upd bs off (le_bytes n v)) off (Z.of_nat n)) = v mod 256 ^ Z.of_nat n.
Proof.
  intros. rewrite <- (blen_le_bytes n v) at 1.
  rewrite sub_upd_same by (rewrite ?blen_le_bytes; lia).
  apply from_le_bytes.
Qed.
