(* ===== verification/Shm.v ===== *)
(** * POSIX shared-memory segments (crates/core/src/shm.rs)

    The kernel side of every call ([shm_open], [fchmod], [ftruncate], [fstat],
    [mmap], [shm_unlink], [kill], reading a directory) is a parameter: the record
    [sys] of the world. What is defined here is the code's own sequence of calls,
    its error handling, and the ownership rule (only the creator unlinks). *)

From S2P Require Import Prelude Machine.

Definition SHM_DIR : string := "/dev/shm".
Definition NAME_PREFIX : string := "impulse-ring.".
Definition SEGMENT_MODE : Z := 438. (* 0o666 *)
Definition O_RDWR : Z := 2.
Definition O_CREAT : Z := 64.
Definition MAP_FAILED : Z := -1.

Record Segment : Type := MkSegment {
  seg_name : string;
  seg_ptr : Z;
  seg_len : Z;
  owns_unlink : bool;
}.

(** [CString::new(name)] rejects an interior NUL. *)
Definition has_nul (name : string) : bool :=
  existsb (fun b => bool_decide (b = Byte.x00)) (string_bytes name).

Definition fail_os {A} (errno : Z) : prog (io_result A) :=
  let! e := last_os_error errno in ret (Err e).

(** [mmap] of [size] bytes of [fd]; the mapped bytes join the memory. *)
Definition mmap_fd (size fd : Z) : prog (io_result Z) := fun w =>
  match sys_mmap (w_sys w) size fd (w_mem w) with
  | (ptr, errno, m) =>
      if bool_decide (ptr = MAP_FAILED) then fail_os errno w
      else Done (Ok ptr, set_mem m w)
  end.

(** The closure of [Segment::create] between [shm_open] and [close]. *)
Definition create_mapped (fd size : Z) : prog (io_result Z) :=
  let! s := get_sys in
  let (r, errno) := sys_fchmod s fd SEGMENT_MODE in
  if r <? 0 then fail_os errno else
  let (r, errno) := sys_ftruncate s fd size in
  if r <? 0 then fail_os errno else
  mmap_fd size fd.

Definition create (name : string) (size : Z) : prog (io_result Segment) :=
  if has_nul name then ret (Err (io_other "nul in shm name")) else
  let! s := get_sys in
  let (fd, errno) := sys_shm_open s name (Z.lor O_CREAT O_RDWR) SEGMENT_MODE in
  if fd <? 0 then fail_os errno else
  let! res := create_mapped fd size in
  do! log_event (EvClose fd) in
  let? ptr := ret res in
  ret (Ok (MkSegment name ptr size true)).

(** The closure of [Segment::open]: the size comes from [fstat]. *)
Definition open_mapped (fd : Z) : prog (io_result (Z * Z)) :=
  let! s := get_sys in
  match sys_fstat s fd with
  | (r, errno, st_size) =>
      if r <? 0 then fail_os errno else
      let size := usize st_size in
      if size =? 0 then ret (Err (io_other "segment has zero size")) else
      let? ptr := mmap_fd size fd in
      ret (Ok (ptr, size))
  end.

Definition open (name : string) : prog (io_result Segment) :=
  if has_nul name then ret (Err (io_other "nul in shm name")) else
  let! s := get_sys in
  let (fd, errno) := sys_shm_open s name O_RDWR 384 in
  if fd <? 0 then fail_os errno else
  let! res := open_mapped fd in
  do! log_event (EvClose fd) in
  let? pl := ret res in
  ret (Ok (MkSegment name (fst pl) (snd pl) false)).

Definition unlink (name : string) : prog (io_result unit) :=
  if has_nul name then ret (Err (io_other "nul in shm name")) else
  let! s := get_sys in
  let (r, errno) := sys_shm_unlink s name in
  do! log_event (EvUnlink name) in
  if r <? 0 then
    if bool_decide (errno = ENOENT) then ret (Ok tt) else fail_os errno
  else ret (Ok tt).

(** [munmap]: the block leaves the memory, so a later access is undefined. *)
Definition munmap (ptr len : Z) : prog unit := fun w =>
  Done (tt, add_log (EvMunmap ptr len) (set_mem (delete ptr (w_mem w)) w)).

(** [impl Drop for Segment]. *)
Definition drop_segment (s : Segment) : prog unit :=
  do! munmap (seg_ptr s) (seg_len s) in
  if owns_unlink s then do! unlink (seg_name s) in ret tt else ret tt.

Definition list_segments : prog (io_result (list string)) :=
  let! s := get_sys in
  match sys_read_dir s SHM_DIR with
  | Err errno => fail_os errno
  | Ok entries =>
      ret (Ok ((fun f => "/" +:+ f) <$> filter (fun f => str_prefix NAME_PREFIX f = true) entries))
  end.

Definition pid_alive (pid : Z) : prog bool :=
  if pid <=? 0 then ret false else
  let! s := get_sys in
  let (r, errno) := sys_kill s pid 0 in
  if r =? 0 then ret true else ret (bool_decide (errno = EPERM)).

(** What [mmap] is documented to do: the returned block is new and holds [size]
    bytes, and no other block changes. *)
Definition mmap_ok (s : sys) : Prop :=
  forall size fd m ptr errno m',
    sys_mmap s size fd m = (ptr, errno, m') ->
    ptr <> MAP_FAILED -> 0 <= size ->
    m !! ptr = None /\
    (exists bs, m' !! ptr = Some bs /\ blen bs = size) /\
    (forall q, q <> ptr -> m' !! q = m !! q).

(** A segment whose mapping is live in the world. *)
Definition seg_live (s : Segment) (w : world) : Prop :=
  exists bs, w_mem w !! seg_ptr s = Some bs /\ blen bs = seg_len s.
