(* ===== verification/Circ.v ===== *)
(** * Circular reads and writes of a byte region

    The two-part copies of [write_wrapped] and [read_wrapped]
    (crates/core/src/ring.rs) on the data region of a ring, as pure functions of
    the region, and their algebra: what is read back, what is left alone, how a
    read splits. A position is any non-negative integer; the byte it denotes is
    the one at [pos mod cap]. *)

From S2P Require Import Prelude Machine.

Section circ.
Context (cap : Z).
Hypothesis Hcap : 0 < cap.

Definition cread (d : list byte) (pos n : Z) : list byte :=
  let idx := pos mod cap in
  let first := Z.min n (cap - idx) in
  sub d idx first ++ sub d 0 (n - first).

Definition cwrite (d : list byte) (pos : Z) (src : list byte) : list byte :=
  let idx := pos mod cap in
  let first := Z.min (blen src) (cap - idx) in
  upd (upd d idx (take (Z.to_nat first) src)) 0 (drop (Z.to_nat first) src).

Lemma idx_range pos : 0 <= pos mod cap < cap.
Proof using Hcap. by apply Z.mod_pos_bound. Qed.

Lemma cread_mod d pos n : cread d (pos mod cap) n = cread d pos n.
Proof using Hcap. unfold cread. by rewrite Z.mod_mod by lia. Qed.

Lemma cwrite_mod d pos src : cwrite d (pos mod cap) src = cwrite d pos src.
Proof using Hcap. unfold cwrite. by rewrite Z.mod_mod by lia. Qed.

Lemma blen_cread d pos n :
  blen d = cap -> 0 <= n <= cap -> blen (cread d pos n) = n.
Proof using Hcap.
  intros Hd Hn. unfold cread. pose proof (idx_range pos).
  rewrite blen_app, !blen_sub by lia. lia.
Qed.

Lemma blen_cwrite d pos src :
  blen d = cap -> blen src <= cap -> blen (cwrite d pos src) = cap.
Proof using Hcap.
  intros Hd Hs. unfold cwrite. pose proof (idx_range pos). pose proof (blen_nonneg src).
  assert (forall n, 0 <= n <= blen src -> blen (take (Z.to_nat n) src) = n) as Ht.
  { intros. unfold blen in *. rewrite length_take. lia. }
  assert (forall n, 0 <= n <= blen src -> blen (drop (Z.to_nat n) src) = blen src - n) as Hdr.
  { intros. unfold blen in *. rewrite length_drop. lia. }
  assert (blen (upd d (pos mod cap) (take (Z.to_nat (Z.min (blen src) (cap - pos mod cap))) src)) = cap) as E.
  { rewrite blen_upd; rewrite ?Ht; lia. }
  rewrite blen_upd; rewrite ?E, ?Hdr; lia.
Qed.

(** Adding to a reduced position wraps at most once. *)
Lemma mod_add_wrap pos i :
  0 <= i < cap ->
  (pos + i) mod cap =
    if bool_decide (pos mod cap + i < cap) then pos mod cap + i else pos mod cap + i - cap.
Proof using Hcap.
  intros Hi. pose proof (idx_range pos). rewrite <- Zplus_mod_idemp_l. case_bool_decide.
  - apply Z.mod_small. lia.
  - symmetry. apply (Z.mod_unique _ _ 1); lia.
Qed.

Lemma lookup_cread d pos n (i : nat) :
  blen d = cap -> n <= cap -> Z.of_nat i < n ->
  cread d pos n !! i = d !! Z.to_nat ((pos + Z.of_nat i) mod cap).
Proof using Hcap.
  intros Hd Hn Hi. unfold cread. pose proof (idx_range pos) as Hidx.
  rewrite mod_add_wrap by lia.
  assert (Z.of_nat (length (sub d (pos mod cap) (Z.min n (cap - pos mod cap))))
          = Z.min n (cap - pos mod cap)) as Hl by (apply blen_sub; lia).
  case_bool_decide.
  - rewrite lookup_app_l by lia. rewrite lookup_sub by lia.
    rewrite bool_decide_true by lia. f_equal. lia.
  - rewrite lookup_app_r by lia. rewrite lookup_sub by lia.
    rewrite bool_decide_true by lia. f_equal. lia.
Qed.

Lemma lookup_cwrite d pos src (j : nat) :
  blen d = cap -> blen src <= cap -> Z.of_nat j < cap ->
  cwrite d pos src !! j =
    let k := (Z.of_nat j - pos) mod cap in
    if bool_decide (k < blen src) then src !! Z.to_nat k else d !! j.
Proof using Hcap.
  intros Hd Hs Hj. unfold cwrite. pose proof (idx_range pos) as Hidx.
  set (idx := pos mod cap) in *. set (first := Z.min (blen src) (cap - idx)).
  pose proof (blen_nonneg src) as Hs0.
  assert (blen (take (Z.to_nat first) src) = first) as Ht.
  { unfold blen in *. rewrite length_take. lia. }
  assert (blen (drop (Z.to_nat first) src) = blen src - first) as Hr.
  { unfold blen in *. rewrite length_drop. lia. }
  assert ((Z.of_nat j - pos) mod cap =
          if bool_decide (idx <= Z.of_nat j) then Z.of_nat j - idx else Z.of_nat j - idx + cap) as Hk.
  { unfold idx. rewrite <- Zminus_mod_idemp_r. fold idx. case_bool_decide.
    - apply Z.mod_small. lia.
    - symmetry. apply (Z.mod_unique _ _ (-1)); lia. }
  rewrite Hk. cbv zeta.
  rewrite lookup_upd by (rewrite ?blen_upd; lia).
  rewrite Hr. rewrite lookup_upd by (rewrite ?Ht; lia). rewrite Ht.
  repeat case_bool_decide; try lia; try done.
  - rewrite lookup_take_lt by lia. f_equal. lia.
  - rewrite lookup_drop. f_equal. lia.
Qed.

Lemma cread_cwrite_same d pos src :
  blen d = cap -> blen src <= cap ->
  cread (cwrite d pos src) pos (blen src) = src.
Proof using Hcap.
  intros Hd Hs. apply list_eq. intros i.
  assert (blen (cwrite d pos src) = cap) as Hw by by apply blen_cwrite.
  destruct (decide (Z.of_nat i < blen src)) as [Hi|Hi].
  - rewrite lookup_cread by done.
    pose proof (idx_range (pos + Z.of_nat i)).
    rewrite lookup_cwrite by lia. cbv zeta.
    rewrite Z2Nat.id, Zminus_mod_idemp_l by lia.
    replace (pos + Z.of_nat i - pos) with (Z.of_nat i) by lia.
    rewrite Z.mod_small by lia. rewrite bool_decide_true, Nat2Z.id by lia. done.
  - rewrite !lookup_ge_None_2; [done | unfold blen in *; lia |].
    assert (blen (cread (cwrite d pos src) pos (blen src)) = blen src) as E.
    { apply blen_cread; [done|]. pose proof (blen_nonneg src). lia. }
    unfold blen in *. lia.
Qed.

(** A read of [n] bytes at [q] does not see a write at [pos] that starts at or
    after its end and stops before it comes round to [q] again. *)
Lemma cread_cwrite_disjoint d pos src q n :
  blen d = cap -> 0 <= n -> q + n <= pos -> pos + blen src <= q + cap ->
  cread (cwrite d pos src) q n = cread d q n.
Proof using Hcap.
  intros Hd Hn Hq Hp. pose proof (blen_nonneg src).
  assert (blen (cwrite d pos src) = cap) as Hw by (apply blen_cwrite; lia).
  apply list_eq. intros i. destruct (decide (Z.of_nat i < n)) as [Hi|Hi].
  - rewrite !lookup_cread by lia. pose proof (idx_range (q + Z.of_nat i)).
    rewrite lookup_cwrite by lia. cbv zeta.
    rewrite Z2Nat.id, Zminus_mod_idemp_l by lia.
    rewrite bool_decide_false; [done|].
    assert ((q + Z.of_nat i - pos) mod cap = q + Z.of_nat i - pos + cap) as ->; [|lia].
    symmetry. apply (Z.mod_unique _ _ (-1)); lia.
  - assert (blen (cread (cwrite d pos src) q n) = n) by (apply blen_cread; lia).
    assert (blen (cread d q n) = n) by (apply blen_cread; lia).
    rewrite !lookup_ge_None_2; unfold blen in *; done || lia.
Qed.

Lemma cread_app d pos n m :
  blen d = cap -> 0 <= n -> 0 <= m -> n + m <= cap ->
  cread d pos (n + m) = cread d pos n ++ cread d (pos + n) m.
Proof using Hcap.
  intros Hd Hn Hm Hnm. apply list_eq. intros i.
  assert (blen (cread d pos (n + m)) = n + m) as E1 by (apply blen_cread; lia).
  assert (blen (cread d pos n) = n) as E2 by (apply blen_cread; lia).
  assert (blen (cread d (pos + n) m) = m) as E3 by (apply blen_cread; lia).
  unfold blen in E1, E2, E3.
  destruct (decide (Z.of_nat i < n)) as [Hi|Hi].
  - rewrite lookup_app_l by lia. by rewrite !lookup_cread by lia.
  - rewrite lookup_app_r by lia. destruct (decide (Z.of_nat i < n + m)).
    + rewrite !lookup_cread by lia. do 3 f_equal. lia.
    + rewrite !lookup_ge_None_2; done || lia.
Qed.

Lemma cread_0 d pos : blen d = cap -> cread d pos 0 = [].
Proof using Hcap.
  intros. apply nil_length_inv.
  assert (blen (cread d pos 0) = 0) as E by (apply blen_cread; lia).
  unfold blen in E. lia.
Qed.

(** A write in two consecutive pieces. *)
Lemma cwrite_app d pos s1 s2 :
  blen d = cap -> blen s1 + blen s2 <= cap ->
  cwrite (cwrite d pos s1) (pos + blen s1) s2 = cwrite d pos (s1 ++ s2).
Proof using Hcap.
  intros Hd Hs. pose proof (blen_nonneg s1). pose proof (blen_nonneg s2).
  assert (blen (cwrite d pos s1) = cap) as Hw1 by (apply blen_cwrite; lia).
  assert (blen (cwrite (cwrite d pos s1) (pos + blen s1) s2) = cap) as Hw2
    by (apply blen_cwrite; lia).
  assert (blen (cwrite d pos (s1 ++ s2)) = cap) as Hw3
    by (apply blen_cwrite; rewrite ?blen_app; lia).
  apply list_eq. intros j. destruct (decide (Z.of_nat j < cap)) as [Hj|Hj].
  2: { unfold blen in *. rewrite !lookup_ge_None_2; done || lia. }
  rewrite !lookup_cwrite by (rewrite ?blen_app; lia). cbv zeta.
  set (k := (Z.of_nat j - pos) mod cap).
  pose proof (Z.mod_pos_bound (Z.of_nat j - pos) cap Hcap) as Hk. fold k in Hk.
  assert ((Z.of_nat j - (pos + blen s1)) mod cap =
          if bool_decide (blen s1 <= k) then k - blen s1 else k - blen s1 + cap) as ->.
  { replace (Z.of_nat j - (pos + blen s1)) with (Z.of_nat j - pos - blen s1) by lia.
    rewrite <- Zminus_mod_idemp_l. fold k. case_bool_decide.
    - apply Z.mod_small. lia.
    - symmetry. apply (Z.mod_unique _ _ (-1)); lia. }
  rewrite blen_app. unfold blen in *.
  repeat case_bool_decide; try lia; try done.
  - rewrite lookup_app_r by lia. f_equal. lia.
  - by rewrite lookup_app_l by lia.
Qed.
End circ.
