(* ===== verification/Ring.v ===== *)
(** * The shared-memory ring buffer (crates/core/src/ring.rs, futex.rs)

    Every operation of [Ring], byte for byte over the segment's memory: the
    header words at their offsets, the length-prefixed records that wrap around
    the data region, the futex mutex of the producers, and the blocking variants
    with their deadlines. [RingSpec.v] proves what they do. *)

From S2P Require Import Prelude Machine Shm.

Definition MAGIC : Z := 1196312914. (* 0x474e4952 *)
Definition OFF_MAGIC : Z := 0.
Definition OFF_CAP : Z := 4.
Definition OFF_HEAD : Z := 64.
Definition OFF_PRODLOCK : Z := 72.
Definition OFF_SPACE_SEQ : Z := 76.
Definition OFF_TAIL : Z := 128.
Definition OFF_DATA_SEQ : Z := 136.
Definition RING_HEADER : Z := 192.
Definition SPIN_LIMIT : nat := 256.
Definition I32_MAX : Z := 2147483647.
Definition MILLIS : Z := 1000000. (* nanoseconds *)

Definition ring_bytes (capacity : Z) : Z := usize (RING_HEADER + capacity).

Record Ring : Type := MkRing {
  r_seg : Segment;
  r_base : Z;
  r_capacity : Z;
  r_mask : Z;
}.

Definition r_ptr (r : Ring) : Z := seg_ptr (r_seg r).

(** [Ring::capacity] *)
Definition capacity (r : Ring) : Z := r_capacity r.

(** ** Futex (futex.rs) *)

(** [futex::wait]: returns at once when the word differs from [expected];
    otherwise sleeps until the rest of the system did something (a wake, the
    timeout or a spurious wakeup). *)
Definition futex_wait (p off expected : Z) : prog unit :=
  let! v := load_u32 p off in
  if v =? expected then yield else ret tt.

Definition futex_wake (p off n : Z) : prog unit := log_event (EvWake p off n).

(** ** Creating and attaching *)

Definition format (seg : Segment) (base cap : Z) : prog (io_result Ring) :=
  if negb (is_power_of_two cap) then panic "capacity must be power of two" else
  if negb (base mod 64 =? 0) then panic "ring base must be 64-byte aligned" else
  if seg_len seg <? usize (base + ring_bytes cap)
  then ret (Err (io_other "segment too small for ring")) else
  let r := MkRing seg base cap (u64 (cap - 1)) in
  do! store_u64 (r_ptr r) (base + OFF_HEAD) 0 in
  do! store_u64 (r_ptr r) (base + OFF_TAIL) 0 in
  do! store_u32 (r_ptr r) (base + OFF_PRODLOCK) 0 in
  do! store_u32 (r_ptr r) (base + OFF_SPACE_SEQ) 0 in
  do! store_u32 (r_ptr r) (base + OFF_DATA_SEQ) 0 in
  do! store_u32 (r_ptr r) (base + OFF_CAP) (u32 cap) in
  do! store_u32 (r_ptr r) (base + OFF_MAGIC) MAGIC in
  ret (Ok r).

Definition attach (seg : Segment) (base : Z) : prog (io_result Ring) :=
  let! magic := load_u32 (seg_ptr seg) (base + OFF_MAGIC) in
  if negb (magic =? MAGIC)
  then ret (Err (io_other "ring magic mismatch / not formatted")) else
  let! cap := load_u32 (seg_ptr seg) (base + OFF_CAP) in
  if negb (is_power_of_two cap) || (seg_len seg <? usize (base + ring_bytes cap))
  then ret (Err (io_other "ring capacity invalid")) else
  ret (Ok (MkRing seg base cap (u64 (cap - 1)))).

(** ** Wrapped copies *)

Definition write_wrapped (r : Ring) (pos : Z) (src : list byte) : prog unit :=
  let idx := Z.land pos (r_mask r) in
  let first := Z.min (blen src) (r_capacity r - idx) in
  do! write_bytes (r_ptr r) (r_base r + RING_HEADER + idx) (take (Z.to_nat first) src) in
  if first <? blen src
  then write_bytes (r_ptr r) (r_base r + RING_HEADER) (drop (Z.to_nat first) src)
  else ret tt.

Definition read_wrapped (r : Ring) (pos len : Z) : prog (list byte) :=
  let idx := Z.land pos (r_mask r) in
  let first := Z.min len (r_capacity r - idx) in
  let! a := read_bytes (r_ptr r) (r_base r + RING_HEADER + idx) first in
  if first <? len
  then let! b := read_bytes (r_ptr r) (r_base r + RING_HEADER) (len - first) in ret (a ++ b)
  else ret a.

(** ** The producers' futex mutex: 0 free, 1 locked, 2 locked with waiters *)

Fixpoint lock_loop (fuel : nat) (r : Ring) : prog unit :=
  match fuel with
  | O => fun _ => Starved
  | S fuel =>
      let! old := swap_u32 (r_ptr r) (r_base r + OFF_PRODLOCK) 2 in
      if old =? 0 then ret tt else
      do! futex_wait (r_ptr r) (r_base r + OFF_PRODLOCK) 2 in
      lock_loop fuel r
  end.

(** Every turn of the loop uses up a tick, so the length of the schedule is
    enough fuel. *)
Definition lock_producer (r : Ring) : prog unit :=
  let! ok := cas_u32 (r_ptr r) (r_base r + OFF_PRODLOCK) 0 1 in
  if ok then ret tt else
  fun w => lock_loop (S (length (w_ticks w))) r w.

Definition unlock_producer (r : Ring) : prog unit :=
  let! old := swap_u32 (r_ptr r) (r_base r + OFF_PRODLOCK) 0 in
  if old =? 2 then futex_wake (r_ptr r) (r_base r + OFF_PRODLOCK) 1 else ret tt.

(** ** Push *)

Definition push_locked (r : Ring) (data : list byte) : prog bool :=
  let need := 4 + blen data in
  if r_capacity r <? need then ret false else
  let! head := load_u64 (r_ptr r) (r_base r + OFF_HEAD) in
  let! tail := load_u64 (r_ptr r) (r_base r + OFF_TAIL) in
  let used := u64 (head - tail) in
  if usize (r_capacity r - used) <? need then ret false else
  let len := u32 (blen data) in
  do! write_wrapped r head (le_bytes 4 len) in
  do! write_wrapped r (u64 (head + 4)) data in
  do! store_u64 (r_ptr r) (r_base r + OFF_HEAD) (u64 (head + need)) in
  ret true.

(** Publish data availability and wake the consumer. *)
Definition signal_data (r : Ring) : prog unit :=
  let! _ := fetch_add_u32 (r_ptr r) (r_base r + OFF_DATA_SEQ) 1 in
  futex_wake (r_ptr r) (r_base r + OFF_DATA_SEQ) 1.

Definition try_push (r : Ring) (data : list byte) : prog bool :=
  do! lock_producer r in
  let! ok := push_locked r data in
  do! unlock_producer r in
  if ok then do! signal_data r in ret true else ret false.

Fixpoint push_loop (fuel : nat) (r : Ring) (data : list byte) (deadline : option Z) : prog bool :=
  match fuel with
  | O => fun _ => Starved
  | S fuel =>
      do! lock_producer r in
      let! ok := push_locked r data in
      if ok then
        do! unlock_producer r in
        do! signal_data r in
        ret true
      else
        let! seen := load_u32 (r_ptr r) (r_base r + OFF_SPACE_SEQ) in
        do! unlock_producer r in
        match deadline with
        | Some dl =>
            let! t := now in
            if dl <=? t then ret false else
            do! futex_wait (r_ptr r) (r_base r + OFF_SPACE_SEQ) seen in
            push_loop fuel r data deadline
        | None =>
            do! futex_wait (r_ptr r) (r_base r + OFF_SPACE_SEQ) seen in
            push_loop fuel r data deadline
        end
  end.

Definition push_blocking (r : Ring) (data : list byte) (timeout : option Z) : prog bool :=
  let! t := now in
  let deadline := (fun d => t + d) <$> timeout in
  fun w => push_loop (S (length (w_ticks w))) r data deadline w.

(** ** Pop *)

Definition try_pop (r : Ring) : prog (option (list byte)) :=
  let! tail := load_u64 (r_ptr r) (r_base r + OFF_TAIL) in
  let! head := load_u64 (r_ptr r) (r_base r + OFF_HEAD) in
  if head =? tail then ret None else
  let! len_bytes := read_wrapped r tail 4 in
  let len := from_le len_bytes in
  let! payload := read_wrapped r (u64 (tail + 4)) len in
  do! store_u64 (r_ptr r) (r_base r + OFF_TAIL) (u64 (tail + 4 + len)) in
  let! _ := fetch_add_u32 (r_ptr r) (r_base r + OFF_SPACE_SEQ) 1 in
  do! futex_wake (r_ptr r) (r_base r + OFF_SPACE_SEQ) I32_MAX in
  ret (Some payload).

(** [SPIN_LIMIT] attempts with a spin hint (a yield) after each failed one. *)
Fixpoint spin_pop (n : nat) (r : Ring) : prog (option (list byte)) :=
  match n with
  | O => ret None
  | S n =>
      let! v := try_pop r in
      match v with
      | Some x => ret (Some x)
      | None => do! yield in spin_pop n r
      end
  end.

Fixpoint pop_loop (fuel : nat) (r : Ring) (deadline : option Z) : prog (option (list byte)) :=
  match fuel with
  | O => fun _ => Starved
  | S fuel =>
      let! v := spin_pop SPIN_LIMIT r in
      match v with
      | Some x => ret (Some x)
      | None =>
          let! seen := load_u32 (r_ptr r) (r_base r + OFF_DATA_SEQ) in
          let! v := try_pop r in
          match v with
          | Some x => ret (Some x)
          | None =>
              match deadline with
              | Some dl =>
                  let! t := now in
                  if dl <=? t then ret None else
                  do! futex_wait (r_ptr r) (r_base r + OFF_DATA_SEQ) seen in
                  pop_loop fuel r deadline
              | None =>
                  do! futex_wait (r_ptr r) (r_base r + OFF_DATA_SEQ) seen in
                  pop_loop fuel r deadline
              end
          end
      end
  end.

Definition pop_blocking (r : Ring) (timeout : option Z) : prog (option (list byte)) :=
  let! t := now in
  let deadline := (fun d => t + d) <$> timeout in
  fun w => pop_loop (S (length (w_ticks w))) r deadline w.
