(* ===== verification/RingMem.v ===== *)
(** * The header fields and the data region of a ring in its segment

    A field of the ring header is a little-endian word at a fixed offset from the
    ring's base; the data region follows the header. This file gives the access
    lemmas the proofs about [Ring.v] run on: what each load, store, [write_wrapped]
    and [read_wrapped] does to the bytes of the block, and that the fields and the
    data region do not overlap. *)

From S2P Require Import Prelude Machine Shm Circ Ring.

Create HintDb ring discriminated.
Create Rewrite HintDb ring.

Inductive field : Type :=
| FMagic | FCap | FHead | FLock | FSpaceSeq | FTail | FDataSeq.

#[export] Instance field_eq_dec : EqDecision field.
Proof. solve_decision. Defined.

Definition foff (f : field) : Z :=
  match f with
  | FMagic => OFF_MAGIC
  | FCap => OFF_CAP
  | FHead => OFF_HEAD
  | FLock => OFF_PRODLOCK
  | FSpaceSeq => OFF_SPACE_SEQ
  | FTail => OFF_TAIL
  | FDataSeq => OFF_DATA_SEQ
  end.

Definition fwidth (f : field) : nat :=
  match f with FHead | FTail => 8 | _ => 4 end.

Definition fget (r : Ring) (bs : list byte) (f : field) : Z :=
  from_le (sub bs (r_base r + foff f) (Z.of_nat (fwidth f))).
Definition fset (r : Ring) (bs : list byte) (f : field) (v : Z) : list byte :=
  upd bs (r_base r + foff f) (le_bytes (fwidth f) v).
Definition dget (r : Ring) (bs : list byte) : list byte :=
  sub bs (r_base r + RING_HEADER) (r_capacity r).
Definition dset (r : Ring) (bs d : list byte) : list byte :=
  upd bs (r_base r + RING_HEADER) d.

(** The geometry [Ring::format] and [Ring::attach] establish. *)
Record ring_geom (r : Ring) : Prop := {
  rg_pow : exists k, 0 <= k <= 31 /\ r_capacity r = 2 ^ k;
  rg_mask : r_mask r = r_capacity r - 1;
  rg_base : 0 <= r_base r;
}.

(** The block is large enough for the ring. *)
Definition fits (r : Ring) (bs : list byte) : Prop :=
  r_base r + RING_HEADER + r_capacity r <= blen bs.

Definition outside (r : Ring) (o n : Z) : Prop :=
  0 <= o /\ (o + n <= r_base r \/ r_base r + RING_HEADER + r_capacity r <= o).

Definition upd_block (p : Z) (bs : list byte) (w : world) : world :=
  set_mem (<[p := bs]> (w_mem w)) w.

Lemma foff_bound f : 0 <= foff f /\ foff f + Z.of_nat (fwidth f) <= RING_HEADER.
Proof. destruct f; vm_compute; split; discriminate. Qed.

Lemma foff_disjoint f g :
  f <> g -> foff f + Z.of_nat (fwidth f) <= foff g \/ foff g + Z.of_nat (fwidth g) <= foff f.
Proof. destruct f, g; intros; (done || (vm_compute; (left; discriminate) || (right; discriminate))). Qed.

Section geom.
Context (r : Ring).
Hypothesis Hg : ring_geom r.

Lemma cap_pos : 0 < r_capacity r.
Proof using Hg. destruct (rg_pow r Hg) as (k & Hk & ->). apply Z.pow_pos_nonneg; lia. Qed.

Lemma cap_le : r_capacity r <= 2 ^ 31.
Proof using Hg.
  destruct (rg_pow r Hg) as (k & Hk & ->). apply Z.pow_le_mono_r; lia.
Qed.

Lemma cap_divides_u64 : (r_capacity r | 2 ^ 64).
Proof using Hg.
  destruct (rg_pow r Hg) as (k & Hk & ->). exists (2 ^ (64 - k)).
  rewrite <- Z.pow_add_r by lia. f_equal. lia.
Qed.

(** [pos & mask] is the position in the data region, wrap-around included. *)
Lemma land_mask pos : Z.land pos (r_mask r) = pos mod r_capacity r.
Proof using Hg.
  rewrite (rg_mask r Hg). destruct (rg_pow r Hg) as (k & Hk & ->).
  replace (2 ^ k - 1) with (Z.ones k) by (rewrite Z.ones_equiv; lia).
  apply Z.land_ones. lia.
Qed.

Lemma mod_u64_cap pos : (pos mod 2 ^ 64) mod r_capacity r = pos mod r_capacity r.
Proof using Hg.
  apply Z.mod_mod_divide, cap_divides_u64.
Qed.

Lemma foff_range f :
  0 <= r_base r + foff f /\
  r_base r + foff f + Z.of_nat (fwidth f) <= r_base r + RING_HEADER.
Proof using Hg. pose proof (foff_bound f). pose proof (rg_base r Hg). lia. Qed.

Lemma blen_fset bs f v : fits r bs -> blen (fset r bs f v) = blen bs.
Proof using Hg.
  unfold fits. intros. pose proof (foff_range f). pose proof cap_pos.
  apply blen_upd; rewrite ?blen_le_bytes; lia.
Qed.

Lemma blen_dget bs : fits r bs -> blen (dget r bs) = r_capacity r.
Proof using Hg.
  unfold fits. intros. pose proof cap_pos. pose proof (rg_base r Hg).
  apply blen_sub; unfold RING_HEADER in *; lia.
Qed.

Lemma blen_dset bs d : fits r bs -> blen d = r_capacity r -> blen (dset r bs d) = blen bs.
Proof using Hg.
  unfold fits. intros ? Hd. pose proof cap_pos. pose proof (rg_base r Hg).
  apply blen_upd; rewrite ?Hd; unfold RING_HEADER in *; lia.
Qed.

Lemma fits_fset bs f v : fits r bs -> fits r (fset r bs f v).
Proof using Hg. intros H. unfold fits. by rewrite blen_fset. Qed.

Lemma fits_dset bs d : fits r bs -> blen d = r_capacity r -> fits r (dset r bs d).
Proof using Hg. intros H Hd. unfold fits. by rewrite blen_dset. Qed.

Lemma fget_fset_eq bs f v :
  fits r bs -> fget r (fset r bs f v) f = v mod 256 ^ Z.of_nat (fwidth f).
Proof using Hg.
  unfold fits. intros. pose proof (foff_range f). pose proof cap_pos.
  apply from_le_sub_upd; lia.
Qed.

Lemma fget_fset_ne bs f g v :
  fits r bs -> f <> g -> fget r (fset r bs f v) g = fget r bs g.
Proof using Hg.
  unfold fits. intros Hf Hne. pose proof (foff_range f). pose proof (foff_range g).
  pose proof cap_pos. pose proof (foff_disjoint f g Hne).
  unfold fget, fset. f_equal. apply sub_upd_disjoint; rewrite ?blen_le_bytes; lia.
Qed.

Lemma fget_dset bs d f :
  fits r bs -> blen d = r_capacity r -> fget r (dset r bs d) f = fget r bs f.
Proof using Hg.
  unfold fits. intros ? Hd. pose proof (foff_range f). pose proof cap_pos.
  unfold fget, dset. f_equal. apply sub_upd_disjoint; rewrite ?Hd; lia.
Qed.

Lemma dget_fset bs f v : fits r bs -> dget r (fset r bs f v) = dget r bs.
Proof using Hg.
  unfold fits. intros. pose proof (foff_range f). pose proof cap_pos.
  apply sub_upd_disjoint; rewrite ?blen_le_bytes; lia.
Qed.

Lemma dget_dset bs d : fits r bs -> blen d = r_capacity r -> dget r (dset r bs d) = d.
Proof using Hg.
  unfold fits. intros ? Hd. pose proof cap_pos. pose proof (rg_base r Hg).
  unfold dget, dset. rewrite <- Hd. apply sub_upd_same; rewrite ?Hd; unfold RING_HEADER in *; lia.
Qed.

Lemma dset_dset bs d1 d2 :
  fits r bs -> blen d1 = r_capacity r -> blen d2 = r_capacity r ->
  dset r (dset r bs d1) d2 = dset r bs d2.
Proof using Hg.
  unfold fits, dset. intros Hf Hd1 Hd2. pose proof (rg_base r Hg). pose proof cap_pos.
  unfold RING_HEADER in *.
  assert (blen (upd bs (r_base r + 192) d1) = blen bs) as E by (apply blen_upd; lia).
  apply list_eq. intros i. rewrite !lookup_upd by lia.
  rewrite Hd1, Hd2. by repeat case_bool_decide.
Qed.

Lemma fset_congr bs f v v' :
  v mod 256 ^ Z.of_nat (fwidth f) = v' mod 256 ^ Z.of_nat (fwidth f) ->
  fset r bs f v = fset r bs f v'.
Proof. intros E. unfold fset. by rewrite (le_bytes_congr _ _ _ E). Qed.

Lemma sub_outside_fset bs f v o n :
  fits r bs -> outside r o n -> sub (fset r bs f v) o n = sub bs o n.
Proof using Hg.
  unfold fits, outside. intros. pose proof (foff_range f). pose proof (foff_bound f).
  pose proof cap_pos. apply sub_upd_disjoint; rewrite ?blen_le_bytes; lia.
Qed.

Lemma sub_outside_dset bs d o n :
  fits r bs -> blen d = r_capacity r -> outside r o n -> sub (dset r bs d) o n = sub bs o n.
Proof using Hg.
  unfold fits, outside. intros ? Hd ?. pose proof cap_pos. pose proof (rg_base r Hg).
  apply sub_upd_disjoint; rewrite ?Hd; unfold RING_HEADER in *; lia.
Qed.

Lemma fget_range bs f : fits r bs -> 0 <= fget r bs f < 256 ^ Z.of_nat (fwidth f).
Proof using Hg.
  unfold fits. intros. pose proof (foff_range f). pose proof cap_pos.
  unfold fget.
  assert (blen (sub bs (r_base r + foff f) (Z.of_nat (fwidth f))) = Z.of_nat (fwidth f)) as E
    by (apply blen_sub; lia).
  pose proof (from_le_range (sub bs (r_base r + foff f) (Z.of_nat (fwidth f)))) as R.
  unfold blen in E. by rewrite E in R.
Qed.
End geom.

#[export] Hint Resolve cap_pos cap_le fits_fset fits_dset : ring.
#[export] Hint Immediate rg_base : ring.

(** ** Worlds whose only difference is one block *)

Lemma upd_block_lookup p bs w : w_mem (upd_block p bs w) !! p = Some bs.
Proof. apply lookup_insert_eq. Qed.

Lemma upd_block_ne p q bs w : q <> p -> w_mem (upd_block p bs w) !! q = w_mem w !! q.
Proof. intros. by apply lookup_insert_ne. Qed.

Lemma upd_block_twice p bs bs' w : upd_block p bs (upd_block p bs' w) = upd_block p bs w.
Proof. unfold upd_block. cbn. by rewrite set_mem_set_mem, insert_insert_eq. Qed.

Lemma upd_block_id p bs w : w_mem w !! p = Some bs -> upd_block p bs w = w.
Proof. intros. unfold upd_block. rewrite insert_id by done. apply set_mem_id. Qed.

Lemma upd_block_log p bs e w : upd_block p bs (add_log e w) = add_log e (upd_block p bs w).
Proof. reflexivity. Qed.

#[export] Hint Rewrite upd_block_twice upd_block_log : ring.
#[export] Hint Resolve upd_block_lookup : ring.

(** ** The accesses of the code, on a block *)

Section access.
Context (r : Ring).
Hypothesis Hg : ring_geom r.
Context (w : world) (bs : list byte).
Hypothesis Hbs : w_mem w !! r_ptr r = Some bs.
Hypothesis Hfits : fits r bs.

Lemma load_field f :
  load (fwidth f) (r_ptr r) (r_base r + foff f) w = Done (fget r bs f, w).
Proof using Hg Hbs Hfits.
  pose proof (foff_range r Hg f). pose proof (cap_pos r Hg). unfold fits in Hfits.
  apply load_ok; [done | lia | lia].
Qed.

Lemma store_field f v :
  store (fwidth f) (r_ptr r) (r_base r + foff f) v w =
    Done (tt, upd_block (r_ptr r) (fset r bs f v) w).
Proof using Hg Hbs Hfits.
  pose proof (foff_range r Hg f). pose proof (cap_pos r Hg). unfold fits in Hfits.
  apply store_ok; [done | lia | lia].
Qed.

Lemma swap_lock v :
  swap_u32 (r_ptr r) (r_base r + OFF_PRODLOCK) v w =
    Done (fget r bs FLock, upd_block (r_ptr r) (fset r bs FLock v) w).
Proof using Hg Hbs Hfits.
  unfold swap_u32. erewrite bind_done by apply (load_field FLock).
  erewrite bind_done by apply (store_field FLock). done.
Qed.

Lemma cas_lock_free v :
  fget r bs FLock = 0 ->
  cas_u32 (r_ptr r) (r_base r + OFF_PRODLOCK) 0 v w =
    Done (true, upd_block (r_ptr r) (fset r bs FLock v) w).
Proof using Hg Hbs Hfits.
  intros H0. unfold cas_u32. erewrite bind_done by apply (load_field FLock).
  rewrite H0. cbn [Z.eqb]. erewrite bind_done by apply (store_field FLock). done.
Qed.

Lemma cas_lock_held v :
  fget r bs FLock <> 0 ->
  cas_u32 (r_ptr r) (r_base r + OFF_PRODLOCK) 0 v w = Done (false, w).
Proof using Hg Hbs Hfits.
  intros H0. unfold cas_u32. erewrite bind_done by apply (load_field FLock).
  by rewrite (proj2 (Z.eqb_neq _ _) H0).
Qed.

Lemma fetch_add_field f d :
  fwidth f = 4%nat ->
  fetch_add_u32 (r_ptr r) (r_base r + foff f) d w =
    Done (fget r bs f, upd_block (r_ptr r) (fset r bs f (u32 (fget r bs f + d))) w).
Proof using Hg Hbs Hfits.
  intros Hf. unfold fetch_add_u32, load_u32, store_u32. rewrite <- Hf.
  erewrite bind_done by apply load_field. erewrite bind_done by apply store_field. done.
Qed.

Lemma write_wrapped_ok pos src :
  blen src <= r_capacity r ->
  write_wrapped r pos src w =
    Done (tt, upd_block (r_ptr r)
                (dset r bs (cwrite (r_capacity r) (dget r bs) pos src)) w).
Proof using Hg Hbs Hfits.
  intros Hs. unfold write_wrapped. rewrite (land_mask r Hg).
  pose proof (cap_pos r Hg) as Hc. pose proof (rg_base r Hg) as Hb.
  pose proof (idx_range _ Hc pos) as Hi. pose proof (blen_nonneg src).
  set (idx := pos mod r_capacity r) in *.
  set (first := Z.min (blen src) (r_capacity r - idx)).
  unfold fits in Hfits.
  assert (blen (take (Z.to_nat first) src) = first) as Ht.
  { unfold blen in *. rewrite length_take. lia. }
  assert (blen (drop (Z.to_nat first) src) = blen src - first) as Hr.
  { unfold blen in *. rewrite length_drop. lia. }
  unfold RING_HEADER in *.
  erewrite bind_done by (apply (write_bytes_ok _ _ _ Hbs); rewrite ?Ht; lia).
  set (bs1 := upd bs _ _).
  assert (blen bs1 = blen bs) as Hbs1 by (apply blen_upd; rewrite ?Ht; lia).
  assert (upd bs1 (r_base r + 192) (drop (Z.to_nat first) src) =
          dset r bs (cwrite (r_capacity r) (dget r bs) pos src)) as E.
  { unfold dset, dget, cwrite, RING_HEADER. fold idx first.
    set (src1 := take (Z.to_nat first) src) in *. set (src2 := drop (Z.to_nat first) src) in *.
    assert (blen (sub bs (r_base r + 192) (r_capacity r)) = r_capacity r) as Hsub
      by (apply blen_sub; lia).
    assert (blen (upd (sub bs (r_base r + 192) (r_capacity r)) idx src1) = r_capacity r) as Hu
      by (rewrite blen_upd; lia).
    assert (blen (upd (upd (sub bs (r_base r + 192) (r_capacity r)) idx src1) 0 src2)
            = r_capacity r) as Hu2 by (rewrite blen_upd; lia).
    apply list_eq. intros i. rewrite (lookup_upd bs1) by lia. unfold bs1.
    rewrite !lookup_upd by lia. rewrite Hu2, lookup_sub by lia.
    repeat case_bool_decide; try lia; try done; f_equal; lia. }
  destruct (Z.ltb_spec first (blen src)).
  - rewrite (write_bytes_ok _ _ bs1 (upd_block_lookup (r_ptr r) bs1 w)) by (rewrite ?Hr, ?Hbs1; lia).
    rewrite E. exact (f_equal (fun x => Done (tt, x)) (upd_block_twice _ _ _ _)).
  - unfold ret. rewrite <- E.
    assert (drop (Z.to_nat first) src = []) as ->.
    { assert (blen (drop (Z.to_nat first) src) = 0) as E0 by lia.
      apply nil_length_inv. unfold blen in E0. lia. }
    by rewrite upd_nil.
Qed.

Lemma read_wrapped_ok pos len :
  0 <= len <= r_capacity r ->
  read_wrapped r pos len w = Done (cread (r_capacity r) (dget r bs) pos len, w).
Proof using Hg Hbs Hfits.
  intros Hl. unfold read_wrapped. rewrite (land_mask r Hg).
  pose proof (cap_pos r Hg) as Hc. pose proof (rg_base r Hg) as Hb.
  pose proof (idx_range _ Hc pos) as Hi. unfold fits in Hfits.
  unfold cread, dget. set (idx := pos mod r_capacity r) in *.
  set (first := Z.min len (r_capacity r - idx)). unfold RING_HEADER in *.
  erewrite bind_done by (apply (read_bytes_ok _ _ _ Hbs); lia).
  rewrite !sub_sub by lia. rewrite Z.add_0_r.
  destruct (Z.ltb_spec first len).
  - erewrite bind_done by (apply (read_bytes_ok _ _ _ Hbs); lia). done.
  - replace (len - first) with 0 by lia.
    assert (sub bs (r_base r + 192) 0 = []) as -> by done.
    by rewrite app_nil_r.
Qed.

(** A read longer than the block and the data region together leaves the mapping. *)
Lemma read_wrapped_oob pos len :
  blen bs + r_capacity r < len -> exists why, read_wrapped r pos len w = Undefined why.
Proof using Hg Hbs Hfits.
  intros Hl. unfold read_wrapped. rewrite (land_mask r Hg).
  pose proof (cap_pos r Hg) as Hc. pose proof (rg_base r Hg) as Hb.
  pose proof (idx_range _ Hc pos) as Hi. unfold fits in Hfits. unfold RING_HEADER in *.
  erewrite bind_done by (apply (read_bytes_ok _ _ _ Hbs); lia).
  destruct (Z.ltb_spec (Z.min len (r_capacity r - pos mod r_capacity r)) len); [|lia].
  unfold bind, read_bytes. rewrite Hbs.
  destruct (in_range bs _ _) eqn:E; [apply in_range_spec in E; lia | by eexists].
Qed.
End access.
