(* ===== verification/RingSpec.v ===== *)
(** * The ring buffer refines a bounded FIFO queue of byte records

    The abstract queue is a list of records; a record costs its length plus the
    four bytes of its prefix. [holds r bs q] relates the bytes of the segment to
    the queue through two unbounded cursors whose values modulo 2^64 are the head
    and tail words, so the results cover the wrap-around of the cursors and of the
    data region alike. *)

From S2P Require Import Prelude Machine Shm Circ Ring RingMem.

(** ** The abstract queue *)

Definition record (d : list byte) : list byte := le_bytes 4 (blen d) ++ d.
Definition q_bytes (q : list (list byte)) : list byte := concat (record <$> q).

Definition fifo_push (cap : Z) (q : list (list byte)) (d : list byte) : bool * list (list byte) :=
  if blen (q_bytes q) + (4 + blen d) <=? cap then (true, q ++ [d]) else (false, q).

Definition fifo_pop (q : list (list byte)) : option (list byte) * list (list byte) :=
  match q with [] => (None, []) | d :: q => (Some d, q) end.

(** ** The representation *)

Record ring_rep (r : Ring) (bs : list byte) (h t : Z) (q : list (list byte)) : Prop := {
  rr_fits : fits r bs;
  rr_order : 0 <= t <= h;
  rr_used : h - t = blen (q_bytes q);
  rr_cap : h - t <= r_capacity r;
  rr_head : fget r bs FHead = h mod 2 ^ 64;
  rr_tail : fget r bs FTail = t mod 2 ^ 64;
  rr_data : cread (r_capacity r) (dget r bs) t (h - t) = q_bytes q;
}.

Definition holds (r : Ring) (bs : list byte) (q : list (list byte)) : Prop :=
  exists h t, ring_rep r bs h t q.

(** Only the ring itself changed, and not its magic and capacity words. *)
Record ring_frame (r : Ring) (bs bs' : list byte) : Prop := {
  rf_len : blen bs' = blen bs;
  rf_out : forall o n, outside r o n -> sub bs' o n = sub bs o n;
  rf_magic : fget r bs' FMagic = fget r bs FMagic;
  rf_cap : fget r bs' FCap = fget r bs FCap;
}.

Lemma blen_record d : blen (record d) = 4 + blen d.
Proof. unfold record. rewrite blen_app, blen_le_bytes. lia. Qed.

Lemma q_bytes_app q d : q_bytes (q ++ [d]) = q_bytes q ++ record d.
Proof. unfold q_bytes. rewrite fmap_app, concat_app. simpl. by rewrite app_nil_r. Qed.

Lemma q_bytes_cons d q : q_bytes (d :: q) = record d ++ q_bytes q.
Proof. done. Qed.

Lemma ring_frame_refl r bs : ring_frame r bs bs.
Proof. by constructor. Qed.

Lemma ring_frame_trans r a b c : ring_frame r a b -> ring_frame r b c -> ring_frame r a c.
Proof.
  intros [L1 O1 M1 C1] [L2 O2 M2 C2]. constructor; try congruence.
  intros o n Ho. by rewrite O2, O1.
Qed.

#[export] Instance ring_frame_preorder r : PreOrder (ring_frame r).
Proof. split; [intros ?; apply ring_frame_refl | intros ???; apply ring_frame_trans]. Qed.

Section rep.
Context (r : Ring).
Hypothesis Hg : ring_geom r.

Lemma ring_frame_fset bs f v :
  fits r bs -> f <> FMagic -> f <> FCap -> ring_frame r bs (fset r bs f v).
Proof using Hg.
  intros. constructor.
  - by apply blen_fset.
  - intros. by apply sub_outside_fset.
  - by apply fget_fset_ne.
  - by apply fget_fset_ne.
Qed.

Lemma ring_frame_dset bs d :
  fits r bs -> blen d = r_capacity r -> ring_frame r bs (dset r bs d).
Proof using Hg.
  intros. constructor.
  - by apply blen_dset.
  - intros. by apply sub_outside_dset.
  - by apply fget_dset.
  - by apply fget_dset.
Qed.

Lemma ring_frame_fits bs bs' : ring_frame r bs bs' -> fits r bs -> fits r bs'.
Proof. intros [Hl _ _ _]. unfold fits. by rewrite Hl. Qed.

(** The queue does not depend on the other header words. *)
Lemma ring_rep_fset bs h t q f v :
  ring_rep r bs h t q -> f <> FHead -> f <> FTail -> ring_rep r (fset r bs f v) h t q.
Proof using Hg.
  intros [] ??. constructor; auto.
  - by apply fits_fset.
  - by rewrite fget_fset_ne.
  - by rewrite fget_fset_ne.
  - by rewrite dget_fset.
Qed.

Lemma cwrite_congr d p p' src :
  p mod r_capacity r = p' mod r_capacity r ->
  cwrite (r_capacity r) d p src = cwrite (r_capacity r) d p' src.
Proof. unfold cwrite. by intros ->. Qed.

Lemma cread_congr d p p' n :
  p mod r_capacity r = p' mod r_capacity r ->
  cread (r_capacity r) d p n = cread (r_capacity r) d p' n.
Proof. unfold cread. by intros ->. Qed.

(** Moving a u64 cursor moves the position it denotes. *)
Lemma cursor_add p k : (u64 (p mod 2 ^ 64 + k)) mod r_capacity r = (p + k) mod r_capacity r.
Proof using Hg.
  unfold wrap_u. rewrite mod_u64_cap by done.
  rewrite <- Zplus_mod_idemp_l, mod_u64_cap, Zplus_mod_idemp_l by done. done.
Qed.

Lemma cursor_diff h t : 0 <= h - t < 2 ^ 64 -> u64 (h mod 2 ^ 64 - t mod 2 ^ 64) = h - t.
Proof.
  intros. unfold wrap_u. rewrite <- Zminus_mod. by apply Z.mod_small.
Qed.

Lemma cursor_u64 p k : u64 (p mod 2 ^ 64 + k) = (p + k) mod 2 ^ 64.
Proof. unfold wrap_u. by rewrite Zplus_mod_idemp_l. Qed.

Lemma fget_fset_u64 bs f v :
  fits r bs -> fwidth f = 8%nat -> fget r (fset r bs f v) f = v mod 2 ^ 64.
Proof using Hg. intros Hf E. rewrite fget_fset_eq by done. by rewrite E. Qed.

(** Appending a record to the represented queue. *)
Lemma ring_rep_push bs h t q d :
  ring_rep r bs h t q ->
  h - t + (4 + blen d) <= r_capacity r ->
  ring_rep r
    (fset r (dset r bs (cwrite (r_capacity r) (dget r bs) h (record d)))
       FHead (h + (4 + blen d)))
    (h + (4 + blen d)) t (q ++ [d]).
Proof using Hg.
  intros [Hf Ho Hu Hc Hh Ht Hd] Hroom.
  pose proof (cap_pos r Hg) as Hcap. pose proof (blen_nonneg d).
  assert (blen (dget r bs) = r_capacity r) as Hdl by by apply blen_dget.
  assert (blen (cwrite (r_capacity r) (dget r bs) h (record d)) = r_capacity r) as Hwl
    by (apply blen_cwrite; rewrite ?blen_record; lia).
  constructor.
  - auto using fits_fset, fits_dset.
  - lia.
  - rewrite q_bytes_app, blen_app, blen_record. lia.
  - lia.
  - apply fget_fset_u64; [by apply fits_dset | done].
  - rewrite fget_fset_ne, fget_dset; auto using fits_dset.
  - rewrite dget_fset, dget_dset by auto using fits_dset.
    replace (h + (4 + blen d) - t) with (h - t + (4 + blen d)) by lia.
    rewrite cread_app by lia. rewrite q_bytes_app. f_equal.
    + rewrite cread_cwrite_disjoint by (rewrite ?blen_record; lia). done.
    + replace (t + (h - t)) with h by lia. rewrite <- blen_record.
      apply cread_cwrite_same; rewrite ?blen_record; lia.
Qed.

(** Removing the oldest record. *)
Lemma ring_rep_pop bs h t q d :
  ring_rep r bs h t (d :: q) ->
  ring_rep r (fset r bs FTail (t + (4 + blen d))) h (t + (4 + blen d)) q /\
  cread (r_capacity r) (dget r bs) t 4 = le_bytes 4 (blen d) /\
  cread (r_capacity r) (dget r bs) (t + 4) (blen d) = d.
Proof using Hg.
  intros [Hf Ho Hu Hc Hh Ht Hd].
  rewrite q_bytes_cons in Hu, Hd. rewrite blen_app, blen_record in Hu.
  pose proof (cap_pos r Hg) as Hcap. pose proof (blen_nonneg d). pose proof (blen_nonneg (q_bytes q)).
  assert (blen (dget r bs) = r_capacity r) as Hdl by by apply blen_dget.
  replace (h - t) with (4 + blen d + (h - t - (4 + blen d))) in Hd by lia.
  rewrite !cread_app in Hd by lia. unfold record in Hd. rewrite <- !app_assoc in Hd.
  assert (blen (cread (r_capacity r) (dget r bs) t 4) = 4) as E1 by (apply blen_cread; lia).
  assert (blen (cread (r_capacity r) (dget r bs) (t + 4) (blen d)) = blen d) as E2
    by (apply blen_cread; lia).
  apply app_inj_1 in Hd as [H1 Hd];
    [| apply length_of_blen; by rewrite blen_le_bytes].
  apply app_inj_1 in Hd as [H2 Hd]; [| by apply length_of_blen].
  split; [|done]. constructor.
  - by apply fits_fset.
  - lia.
  - lia.
  - lia.
  - by rewrite fget_fset_ne.
  - by apply fget_fset_u64.
  - rewrite dget_fset by done. rewrite <- Hd. f_equal; lia.
Qed.
End rep.

#[export] Hint Resolve ring_frame_refl ring_frame_fset ring_frame_dset ring_rep_fset : ring.

(** ** The operations *)

(** One step of a program whose accesses are described by the lemmas of
    [RingMem.v]. *)
Ltac rstep L := erewrite bind_done by (eapply L; eauto with ring; lia).

Section ops.
Context (r : Ring).
Hypothesis Hg : ring_geom r.

(** [push_locked], both outcomes, on a represented queue. *)
Lemma push_locked_ok w bs h t q d :
  w_mem w !! r_ptr r = Some bs -> ring_rep r bs h t q ->
  push_locked r d w =
    if h - t + (4 + blen d) <=? r_capacity r
    then Done (true, upd_block (r_ptr r)
           (fset r (dset r bs (cwrite (r_capacity r) (dget r bs) h (record d)))
              FHead (h + (4 + blen d))) w)
    else Done (false, w).
Proof using Hg.
  intros Hbs Hrep. pose proof Hrep as [Hf Ho Hu Hc Hh Ht Hd].
  pose proof (cap_pos r Hg) as Hcap. pose proof (cap_le r Hg) as Hle.
  pose proof (blen_nonneg d) as Hd0.
  unfold push_locked. destruct (Z.ltb_spec (r_capacity r) (4 + blen d)) as [Hbig|Hsmall].
  { rewrite (proj2 (Z.leb_gt _ _)) by lia. done. }
  erewrite bind_done by by eapply (load_field r Hg w bs Hbs Hf FHead).
  erewrite bind_done by by eapply (load_field r Hg w bs Hbs Hf FTail).
  rewrite Hh, Ht, cursor_diff by lia. cbv zeta.
  rewrite (wrap_u_small 64 (r_capacity r - (h - t))) by (unfold in_u; lia).
  destruct (Z.ltb_spec (r_capacity r - (h - t)) (4 + blen d)) as [Hno|Hroom].
  { rewrite (proj2 (Z.leb_gt _ _)) by lia. done. }
  rewrite (proj2 (Z.leb_le _ _)) by lia.
  rewrite (wrap_u_small 32) by (unfold in_u; lia).
  assert (blen (dget r bs) = r_capacity r) as Hdl by by apply blen_dget.
  erewrite bind_done by (eapply write_wrapped_ok; eauto; rewrite blen_le_bytes; lia).
  set (d1 := cwrite _ (dget r bs) _ _).
  assert (blen d1 = r_capacity r) as Hd1.
  { apply blen_cwrite; rewrite ?blen_le_bytes; lia. }
  erewrite bind_done
    by (eapply write_wrapped_ok; [done | apply upd_block_lookup | by apply fits_dset | lia]).
  rewrite upd_block_twice, dget_dset by done.
  set (d2 := cwrite _ d1 _ _).
  assert (d2 = cwrite (r_capacity r) (dget r bs) h (record d)) as E2.
  { unfold d2, d1, record.
    rewrite (cwrite_congr r _ (u64 (h mod 2 ^ 64 + 4)) (h + 4)) by by apply cursor_add.
    rewrite (cwrite_congr r _ (h mod 2 ^ 64) h) by by apply mod_u64_cap.
    rewrite <- cwrite_app by (rewrite ?blen_le_bytes; lia).
    by rewrite blen_le_bytes. }
  assert (blen d2 = r_capacity r) as Hd2 by (apply blen_cwrite; lia).
  rewrite dset_dset by done.
  erewrite bind_done
    by (apply (store_field r Hg _ _ (upd_block_lookup _ _ _)) with (f := FHead);
        by apply fits_dset).
  rewrite upd_block_twice. unfold ret. rewrite E2. do 3 f_equal.
  apply fset_congr. change (256 ^ Z.of_nat (fwidth FHead)) with (2 ^ 64).
  rewrite cursor_u64. by rewrite Z.mod_mod.
Qed.

(** The lock is free again after an uncontended critical section. *)
Lemma lock_producer_free w bs :
  w_mem w !! r_ptr r = Some bs -> fits r bs -> fget r bs FLock = 0 ->
  lock_producer r w = Done (tt, upd_block (r_ptr r) (fset r bs FLock 1) w).
Proof using Hg.
  intros Hbs Hf H0. unfold lock_producer.
  erewrite bind_done by by apply (cas_lock_free r Hg w bs Hbs Hf 1). done.
Qed.

Lemma unlock_producer_ok w bs :
  w_mem w !! r_ptr r = Some bs -> fits r bs -> fget r bs FLock = 1 ->
  unlock_producer r w = Done (tt, upd_block (r_ptr r) (fset r bs FLock 0) w).
Proof using Hg.
  intros Hbs Hf H1. unfold unlock_producer.
  erewrite bind_done by by apply (swap_lock r Hg w bs Hbs Hf 0). by rewrite H1.
Qed.

Lemma signal_data_ok w bs :
  w_mem w !! r_ptr r = Some bs -> fits r bs ->
  signal_data r w =
    Done (tt, add_log (EvWake (r_ptr r) (r_base r + OFF_DATA_SEQ) 1)
                (upd_block (r_ptr r) (fset r bs FDataSeq (u32 (fget r bs FDataSeq + 1))) w)).
Proof using Hg.
  intros Hbs Hf. unfold signal_data.
  by erewrite bind_done by by apply (fetch_add_field r Hg w bs Hbs Hf FDataSeq 1).
Qed.

(** The bytes a successful push leaves. *)
Definition pushed (bs : list byte) (h : Z) (d : list byte) : list byte :=
  let bs1 := fset r bs FLock 1 in
  let bs2 := fset r (dset r bs1 (cwrite (r_capacity r) (dget r bs1) h (record d)))
               FHead (h + (4 + blen d)) in
  let bs3 := fset r bs2 FLock 0 in
  fset r bs3 FDataSeq (u32 (fget r bs3 FDataSeq + 1)).

Lemma pushed_rep bs h t q d :
  ring_rep r bs h t q -> h - t + (4 + blen d) <= r_capacity r ->
  ring_rep r (pushed bs h d) (h + (4 + blen d)) t (q ++ [d]) /\
  fget r (pushed bs h d) FLock = 0 /\
  ring_frame r bs (pushed bs h d).
Proof using Hg.
  intros Hrep Hroom. unfold pushed. set (bs1 := fset r bs FLock 1).
  assert (ring_rep r bs1 h t q) as Hrep1 by by apply ring_rep_fset.
  pose proof (ring_rep_push r Hg _ _ _ _ _ Hrep1 Hroom) as Hrep2.
  pose proof (rr_fits _ _ _ _ _ Hrep) as Hf. pose proof (rr_fits _ _ _ _ _ Hrep1) as Hf1.
  pose proof (rr_fits _ _ _ _ _ Hrep2) as Hf2.
  assert (blen (cwrite (r_capacity r) (dget r bs1) h (record d)) = r_capacity r) as Hw.
  { pose proof (cap_pos r Hg). pose proof (rr_order _ _ _ _ _ Hrep).
    apply blen_cwrite; rewrite ?blen_record, ?blen_dget; auto; lia. }
  cbv zeta. set (bs2 := fset r _ FHead _) in *.
  split_and!.
  - by do 2 (apply ring_rep_fset; [done | | done | done]).
  - rewrite fget_fset_ne, fget_fset_eq by auto using fits_fset. done.
  - transitivity bs1; [by apply ring_frame_fset|].
    transitivity bs2.
    + unfold bs2. etransitivity; [apply ring_frame_dset | apply ring_frame_fset]; auto using fits_dset.
    + etransitivity; apply ring_frame_fset; auto using fits_fset.
Qed.

Lemma try_push_ok w bs h t q d :
  w_mem w !! r_ptr r = Some bs -> ring_rep r bs h t q -> fget r bs FLock = 0 ->
  try_push r d w =
    if h - t + (4 + blen d) <=? r_capacity r
    then Done (true, add_log (EvWake (r_ptr r) (r_base r + OFF_DATA_SEQ) 1)
                       (upd_block (r_ptr r) (pushed bs h d) w))
    else Done (false, upd_block (r_ptr r) (fset r (fset r bs FLock 1) FLock 0) w).
Proof using Hg.
  intros Hbs Hrep H0. pose proof (rr_fits _ _ _ _ _ Hrep) as Hf. unfold try_push.
  erewrite bind_done by by eapply lock_producer_free.
  set (bs1 := fset r bs FLock 1).
  assert (ring_rep r bs1 h t q) as Hrep1 by by apply ring_rep_fset.
  pose proof (rr_fits _ _ _ _ _ Hrep1) as Hf1.
  pose proof (push_locked_ok _ bs1 h t q d (upd_block_lookup (r_ptr r) bs1 w) Hrep1) as Hpush.
  destruct (Z.leb_spec (h - t + (4 + blen d)) (r_capacity r)) as [Hroom|Hfull].
  - erewrite bind_done by exact Hpush. rewrite upd_block_twice.
    pose proof (ring_rep_push r Hg _ _ _ _ _ Hrep1 Hroom) as Hrep2.
    pose proof (rr_fits _ _ _ _ _ Hrep2) as Hf2.
    assert (blen (cwrite (r_capacity r) (dget r bs1) h (record d)) = r_capacity r) as Hw.
    { pose proof (cap_pos r Hg). pose proof (rr_order _ _ _ _ _ Hrep).
      apply blen_cwrite; rewrite ?blen_record, ?blen_dget; auto; lia. }
    erewrite bind_done.
    2: { apply unlock_producer_ok; [apply upd_block_lookup | done |].
         rewrite fget_fset_ne, fget_dset by auto using fits_dset.
         unfold bs1. by rewrite fget_fset_eq. }
    rewrite upd_block_twice.
    erewrite bind_done by (apply signal_data_ok; [apply upd_block_lookup | by apply fits_fset]).
    by rewrite upd_block_twice.
  - erewrite bind_done by exact Hpush.
    erewrite bind_done.
    2: { apply unlock_producer_ok; [apply upd_block_lookup | done |].
         unfold bs1. by rewrite fget_fset_eq. }
    by rewrite upd_block_twice.
Qed.

(** The bytes a pop leaves. *)
Definition popped (bs : list byte) (t : Z) (d : list byte) : list byte :=
  let bs1 := fset r bs FTail (t + (4 + blen d)) in
  fset r bs1 FSpaceSeq (u32 (fget r bs1 FSpaceSeq + 1)).

Lemma popped_rep bs h t q d :
  ring_rep r bs h t (d :: q) ->
  ring_rep r (popped bs t d) h (t + (4 + blen d)) q /\
  fget r (popped bs t d) FLock = fget r bs FLock /\
  ring_frame r bs (popped bs t d).
Proof using Hg.
  intros Hrep. pose proof (rr_fits _ _ _ _ _ Hrep) as Hf. unfold popped. cbv zeta.
  destruct (ring_rep_pop r Hg _ _ _ _ _ Hrep) as [Hrep' _].
  split_and!.
  - by apply ring_rep_fset.
  - by rewrite !fget_fset_ne by auto using fits_fset.
  - etransitivity; apply ring_frame_fset; auto using fits_fset.
Qed.

Lemma try_pop_empty w bs h t :
  w_mem w !! r_ptr r = Some bs -> ring_rep r bs h t [] -> try_pop r w = Done (None, w).
Proof using Hg.
  intros Hbs [Hf Ho Hu Hc Hh Ht Hd]. unfold try_pop.
  erewrite bind_done by by eapply (load_field r Hg w bs Hbs Hf FTail).
  erewrite bind_done by by eapply (load_field r Hg w bs Hbs Hf FHead).
  change (blen (q_bytes [])) with 0 in Hu.
  rewrite Hh, Ht. replace h with t by lia. by rewrite Z.eqb_refl.
Qed.

Lemma try_pop_cons w bs h t q d :
  w_mem w !! r_ptr r = Some bs -> ring_rep r bs h t (d :: q) ->
  try_pop r w =
    Done (Some d, add_log (EvWake (r_ptr r) (r_base r + OFF_SPACE_SEQ) I32_MAX)
                    (upd_block (r_ptr r) (popped bs t d) w)).
Proof using Hg.
  intros Hbs Hrep. pose proof Hrep as [Hf Ho Hu Hc Hh Ht Hd].
  destruct (ring_rep_pop r Hg _ _ _ _ _ Hrep) as (Hrep' & Hlen & Hpay).
  rewrite q_bytes_cons, blen_app, blen_record in Hu.
  pose proof (cap_pos r Hg) as Hcap. pose proof (cap_le r Hg) as Hle.
  pose proof (blen_nonneg d). pose proof (blen_nonneg (q_bytes q)).
  unfold try_pop.
  erewrite bind_done by by eapply (load_field r Hg w bs Hbs Hf FTail).
  erewrite bind_done by by eapply (load_field r Hg w bs Hbs Hf FHead).
  assert ((fget r bs FHead =? fget r bs FTail) = false) as ->.
  { apply Z.eqb_neq. rewrite Hh, Ht. intros E.
    assert (u64 (h mod 2 ^ 64 - t mod 2 ^ 64) = 0) as E0 by by rewrite E, Z.sub_diag.
    rewrite cursor_diff in E0; lia. }
  rewrite Ht. erewrite bind_done by (eapply read_wrapped_ok; eauto; lia).
  rewrite (cread_congr r _ _ t) by by apply mod_u64_cap. rewrite Hlen.
  rewrite from_le_bytes_small by (change (256 ^ Z.of_nat 4) with (2 ^ 32); lia). cbv zeta.
  erewrite bind_done by (eapply read_wrapped_ok; eauto; lia).
  rewrite (cread_congr r _ _ (t + 4)) by by apply cursor_add. rewrite Hpay.
  erewrite bind_done by by apply (store_field r Hg w bs Hbs Hf FTail).
  rewrite (fset_congr r bs FTail _ (t + (4 + blen d))).
  2: { change (256 ^ Z.of_nat (fwidth FTail)) with (2 ^ 64).
       rewrite <- Z.add_assoc, cursor_u64. by rewrite Z.mod_mod. }
  erewrite bind_done by (apply (fetch_add_field r Hg _ _ (upd_block_lookup _ _ _)) with (f := FSpaceSeq);
                         [by apply fits_fset | done]).
  by rewrite upd_block_twice.
Qed.
End ops.
