(* ===== verification/RingThm.v ===== *)
(** * Theorems about the ring buffer

    Refinement of the FIFO specification for single operations and for whole
    histories, formatting and attaching, the blocking variants and their
    deadlines, memory safety of the producer side for arbitrary header contents,
    and the two situations in which the code gives no guarantee: a length prefix
    that was not written by a push, and a producer lock that is never released. *)

From S2P Require Import Prelude Machine Shm Circ Ring RingMem RingSpec.

(** ** A quiescent ring in a world *)

(** The ring [r] holds the queue [q] and no producer is inside its lock. *)
Definition ring_has (r : Ring) (w : world) (q : list (list byte)) : Prop :=
  exists bs, w_mem w !! r_ptr r = Some bs /\ holds r bs q /\ fget r bs FLock = 0.

(** From [w] to [w'] only the ring changed, and the events [evs] happened. *)
Record ring_only (r : Ring) (w w' : world) (evs : list event) : Prop := {
  ro_block : exists bs bs', w_mem w !! r_ptr r = Some bs /\
               w_mem w' !! r_ptr r = Some bs' /\ ring_frame r bs bs';
  ro_others : forall p, p <> r_ptr r -> w_mem w' !! p = w_mem w !! p;
  ro_now : w_now w' = w_now w;
  ro_sys : w_sys w' = w_sys w;
  ro_ticks : w_ticks w' = w_ticks w;
  ro_rng : w_rng w' = w_rng w;
  ro_log : w_log w' = w_log w ++ evs;
}.

Lemma ring_only_dom r w w' evs : ring_only r w w' evs -> dom (w_mem w') = dom (w_mem w).
Proof.
  intros [(bs & bs' & E & E' & _) Ho _ _ _ _ _]. apply set_eq. intros p. rewrite !elem_of_dom.
  destruct (decide (p = r_ptr r)) as [->|Hp]; [by rewrite E, E' | by rewrite Ho].
Qed.

(** ** Histories *)

Inductive ring_op : Type :=
| OpPush (d : list byte)
| OpPop.

Inductive ring_out : Type :=
| OutPush (ok : bool)
| OutPop (v : option (list byte)).

#[export] Instance ring_op_eq_dec : EqDecision ring_op.
Proof. solve_decision. Defined.
#[export] Instance ring_out_eq_dec : EqDecision ring_out.
Proof. solve_decision. Defined.

Definition run_op (r : Ring) (o : ring_op) : prog ring_out :=
  match o with
  | OpPush d => let! b := try_push r d in ret (OutPush b)
  | OpPop => let! v := try_pop r in ret (OutPop v)
  end.

Fixpoint run_ops (r : Ring) (os : list ring_op) : prog (list ring_out) :=
  match os with
  | [] => ret []
  | o :: os => let! x := run_op r o in let! xs := run_ops r os in ret (x :: xs)
  end.

Definition fifo_op (cap : Z) (q : list (list byte)) (o : ring_op) : ring_out * list (list byte) :=
  match o with
  | OpPush d => let (b, q') := fifo_push cap q d in (OutPush b, q')
  | OpPop => let (v, q') := fifo_pop q in (OutPop v, q')
  end.

Fixpoint fifo_run (cap : Z) (q : list (list byte)) (os : list ring_op) : list ring_out :=
  match os with
  | [] => []
  | o :: os => let (x, q') := fifo_op cap q o in x :: fifo_run cap q' os
  end.

(** ** Shared lemmas *)

Lemma ring_only_upd r w bs bs' evs w' :
  w_mem w !! r_ptr r = Some bs -> ring_frame r bs bs' ->
  w' = foldl (fun v e => add_log e v) (upd_block (r_ptr r) bs' w) evs ->
  ring_only r w w' evs.
Proof.
  intros Hbs Hfr ->.
  assert (forall v, w_mem (foldl (fun v e => add_log e v) v evs) = w_mem v /\
                    w_now (foldl (fun v e => add_log e v) v evs) = w_now v /\
                    w_sys (foldl (fun v e => add_log e v) v evs) = w_sys v /\
                    w_ticks (foldl (fun v e => add_log e v) v evs) = w_ticks v /\
                    w_rng (foldl (fun v e => add_log e v) v evs) = w_rng v /\
                    w_log (foldl (fun v e => add_log e v) v evs) = w_log v ++ evs) as H.
  { induction evs as [|e evs IH]; intros v; simpl; [by rewrite app_nil_r|].
    destruct (IH (add_log e v)) as (-> & -> & -> & -> & -> & ->). simpl.
    by rewrite <- app_assoc. }
  destruct (H (upd_block (r_ptr r) bs' w)) as (Hm & Hn & Hs & Ht & Hr & Hl).
  constructor; try assumption.
  - exists bs, bs'. rewrite Hm. split_and!; [done | apply upd_block_lookup | done].
  - intros p Hp. rewrite Hm. by apply upd_block_ne.
Qed.

Section refine.
Context (r : Ring).
Hypothesis Hg : ring_geom r.

Lemma try_push_sim w q d :
  ring_has r w q ->
  exists w', try_push r d w = Done (fst (fifo_push (r_capacity r) q d), w') /\
    ring_has r w' (snd (fifo_push (r_capacity r) q d)) /\
    ring_only r w w'
      (if fst (fifo_push (r_capacity r) q d)
       then [EvWake (r_ptr r) (r_base r + OFF_DATA_SEQ) 1] else []).
Proof using Hg.
  intros (bs & Hbs & (h & t & Hrep) & H0).
  pose proof (try_push_ok r Hg w bs h t q d Hbs Hrep H0) as E.
  rewrite (rr_used _ _ _ _ _ Hrep) in E. unfold fifo_push.
  destruct (Z.leb_spec (blen (q_bytes q) + (4 + blen d)) (r_capacity r)) as [Hroom|Hfull]; simpl.
  - eexists. split; [exact E|].
    rewrite <- (rr_used _ _ _ _ _ Hrep) in Hroom.
    destruct (pushed_rep r Hg bs h t q d Hrep Hroom) as (Hrep' & Hl & Hfr).
    split.
    + exists (pushed r bs h d). split; [apply upd_block_lookup|]. split; [by do 2 eexists | done].
    + by eapply ring_only_upd.
  - eexists. split; [exact E|]. pose proof (rr_fits _ _ _ _ _ Hrep) as Hf.
    split.
    + eexists. split; [apply upd_block_lookup|]. split.
      * exists h, t. by do 2 (apply ring_rep_fset; [done | | done | done]).
      * rewrite fget_fset_eq by auto using fits_fset. done.
    + eapply ring_only_upd; [done | | done].
      etransitivity; apply ring_frame_fset; auto using fits_fset.
Qed.

Lemma try_pop_sim w q :
  ring_has r w q ->
  exists w', try_pop r w = Done (fst (fifo_pop q), w') /\
    ring_has r w' (snd (fifo_pop q)) /\
    ring_only r w w'
      (match q with [] => [] | _ => [EvWake (r_ptr r) (r_base r + OFF_SPACE_SEQ) I32_MAX] end).
Proof using Hg.
  intros (bs & Hbs & (h & t & Hrep) & H0). destruct q as [|d q]; simpl.
  - exists w. split; [by eapply try_pop_empty|]. split; [by repeat (eexists; eauto)|].
    eapply ring_only_upd; [done | reflexivity |]. simpl. by rewrite upd_block_id.
  - eexists. split; [by eapply try_pop_cons|].
    destruct (popped_rep r Hg bs h t q d Hrep) as (Hrep' & Hl & Hfr).
    split.
    + exists (popped r bs t d). split; [apply upd_block_lookup|].
      split; [by do 2 eexists | by rewrite Hl].
    + by eapply ring_only_upd.
Qed.

Lemma run_op_sim w q o :
  ring_has r w q ->
  exists w', run_op r o w = Done (fst (fifo_op (r_capacity r) q o), w') /\
    ring_has r w' (snd (fifo_op (r_capacity r) q o)).
Proof using Hg.
  intros H. destruct o as [d|]; simpl.
  - destruct (try_push_sim w q d H) as (w' & E & H' & _). exists w'.
    erewrite bind_done by exact E. by destruct (fifo_push _ q d).
  - destruct (try_pop_sim w q H) as (w' & E & H' & _). exists w'.
    erewrite bind_done by exact E. by destruct (fifo_pop q).
Qed.

Lemma run_ops_sim w q os :
  ring_has r w q -> exists w', run_ops r os w = Done (fifo_run (r_capacity r) q os, w').
Proof using Hg.
  revert w q. induction os as [|o os IH]; intros w q H; simpl; [by exists w|].
  destruct (run_op_sim w q o H) as (w1 & E & H1).
  erewrite bind_done by exact E.
  destruct (fifo_op (r_capacity r) q o) as [x q1]. simpl in *.
  destruct (IH w1 q1 H1) as [w2 E2]. exists w2. by erewrite bind_done by exact E2.
Qed.
End refine.

(** ** Formatting *)

Definition formatted (r : Ring) (bs : list byte) : list byte :=
  fset r (fset r (fset r (fset r (fset r (fset r (fset r bs
    FHead 0) FTail 0) FLock 0) FSpaceSeq 0) FDataSeq 0) FCap (u32 (r_capacity r))) FMagic MAGIC.

(** A store to a header field of a ring whose block is known. *)
Ltac rstore r Hg Hbs f :=
  erewrite bind_done by
    (refine (store_field r Hg _ _ _ _ f _);
     [apply upd_block_lookup || exact Hbs | repeat apply (fits_fset r Hg); assumption]);
  rewrite ?upd_block_twice.

Lemma format_eq (seg : Segment) (base k : Z) (w : world) (bs : list byte) :
  w_mem w !! seg_ptr seg = Some bs -> blen bs = seg_len seg ->
  0 <= k <= 31 -> 0 <= base -> base mod 64 = 0 ->
  base + RING_HEADER + 2 ^ k <= seg_len seg < 2 ^ 64 ->
  let r := MkRing seg base (2 ^ k) (2 ^ k - 1) in
  ring_geom r /\ fits r bs /\
  format seg base (2 ^ k) w = Done (Ok r, upd_block (seg_ptr seg) (formatted r bs) w).
Proof.
  intros Hbs Hlen Hk Hb Hal Hfit r.
  assert (0 < 2 ^ k) as Hp by (apply Z.pow_pos_nonneg; lia).
  assert (ring_geom r) as Hg by (constructor; [by exists k | done | done]).
  assert (fits r bs) as Hf by (unfold fits; simpl; lia).
  split_and!; [done | done |].
  unfold format. rewrite (proj2 (is_power_of_two_spec (2 ^ k))) by (exists k; lia).
  rewrite Hal. cbn [negb Z.eqb].
  unfold ring_bytes. unfold RING_HEADER in *.
  rewrite !wrap_u_small by (unfold in_u in *; rewrite ?wrap_u_small; unfold in_u; lia).
  rewrite (proj2 (Z.ltb_ge _ _)) by lia. cbv zeta. fold r.
  change base with (r_base r). change (seg_ptr seg) with (r_ptr r).
  rstore r Hg Hbs FHead. rstore r Hg Hbs FTail. rstore r Hg Hbs FLock.
  rstore r Hg Hbs FSpaceSeq. rstore r Hg Hbs FDataSeq. rstore r Hg Hbs FCap.
  rstore r Hg Hbs FMagic. done.
Qed.

Section formatted.
Context (r : Ring).
Hypothesis Hg : ring_geom r.
Context (bs : list byte).
Hypothesis Hf : fits r bs.

Ltac fnorm :=
  repeat (rewrite (fget_fset_ne r Hg) by (auto 10 using fits_fset with ring));
  rewrite (fget_fset_eq r Hg) by (auto 10 using fits_fset with ring).

Lemma formatted_fields :
  fget r (formatted r bs) FHead = 0 /\ fget r (formatted r bs) FTail = 0 /\
  fget r (formatted r bs) FLock = 0 /\ fget r (formatted r bs) FCap = r_capacity r /\
  fget r (formatted r bs) FMagic = MAGIC /\ fits r (formatted r bs).
Proof using Hg Hf.
  pose proof (cap_pos r Hg). pose proof (cap_le r Hg).
  unfold formatted. split_and!; [fnorm; done.. | fnorm | fnorm; done | auto 10 using fits_fset].
  rewrite (wrap_u_small 32) by (unfold in_u; lia). apply Z.mod_small.
  change (256 ^ Z.of_nat (fwidth FCap)) with (2 ^ 32). lia.
Qed.

Lemma formatted_holds : holds r (formatted r bs) [].
Proof using Hg Hf.
  destruct formatted_fields as (Hh & Ht & _ & _ & _ & Hfit).
  exists 0, 0. pose proof (cap_pos r Hg). constructor; try done; try lia.
  by apply cread_0, blen_dget.
Qed.

Lemma formatted_outside o n :
  outside r o n -> sub (formatted r bs) o n = sub bs o n.
Proof using Hg Hf.
  intros Ho. unfold formatted.
  repeat (rewrite sub_outside_fset; [| done | auto 10 using fits_fset | done]). done.
Qed.
End formatted.

Lemma format_sim (seg : Segment) (base k : Z) (w : world) (bs : list byte) :
  w_mem w !! seg_ptr seg = Some bs -> blen bs = seg_len seg ->
  0 <= k <= 31 -> 0 <= base -> base mod 64 = 0 ->
  base + RING_HEADER + 2 ^ k <= seg_len seg < 2 ^ 64 ->
  let r := MkRing seg base (2 ^ k) (2 ^ k - 1) in
  exists w', format seg base (2 ^ k) w = Done (Ok r, w') /\
    ring_geom r /\ ring_has r w' [] /\
    w' = upd_block (seg_ptr seg) (formatted r bs) w.
Proof.
  intros Hbs Hlen Hk Hb Hal Hfit r.
  destruct (format_eq seg base k w bs Hbs Hlen Hk Hb Hal Hfit) as (Hg & Hf & E).
  eexists. split; [exact E|]. split; [done|]. split; [|done].
  exists (formatted r bs). split; [apply upd_block_lookup|].
  split; [by apply formatted_holds | by apply formatted_fields].
Qed.

(** [Ring::attach] on a segment in which the ring [r] was formatted. *)
Lemma attach_eq r w bs :
  ring_geom r -> w_mem w !! r_ptr r = Some bs -> fits r bs ->
  blen bs = seg_len (r_seg r) -> seg_len (r_seg r) < 2 ^ 64 ->
  fget r bs FMagic = MAGIC -> fget r bs FCap = r_capacity r ->
  attach (r_seg r) (r_base r) w = Done (Ok r, w).
Proof.
  intros Hg Hbs Hf Hlen Hmax Hm Hc. unfold attach.
  pose proof (cap_pos r Hg). pose proof (rg_base r Hg).
  erewrite bind_done by by apply (load_field r Hg w bs Hbs Hf FMagic).
  rewrite Hm. cbn [negb Z.eqb MAGIC Pos.eqb].
  erewrite bind_done by by apply (load_field r Hg w bs Hbs Hf FCap).
  rewrite Hc. destruct (rg_pow r Hg) as (k & Hk & Hcap).
  rewrite (proj2 (is_power_of_two_spec (r_capacity r))) by (exists k; split; [lia | done]).
  unfold ring_bytes. unfold fits, RING_HEADER in *.
  rewrite !wrap_u_small by (unfold in_u in *; rewrite ?wrap_u_small; unfold in_u; lia).
  rewrite (proj2 (Z.ltb_ge _ _)) by lia. cbn [negb orb].
  rewrite <- (rg_mask r Hg). by destruct r.
Qed.

(** ** Memory safety: a triple for rings with arbitrary contents *)

(** A tick that leaves the ring's block mapped and of the same size. *)
Definition tick_keeps (r : Ring) (tk : tick) : Prop :=
  forall m bs, m !! r_ptr r = Some bs -> fits r bs ->
    exists bs', tk_mem tk m !! r_ptr r = Some bs' /\ fits r bs'.

Definition ring_ok (r : Ring) (w : world) : Prop :=
  (exists bs, w_mem w !! r_ptr r = Some bs /\ fits r bs) /\ Forall (tick_keeps r) (w_ticks w).

(** [safe r p]: on any such world [p] neither panics nor touches memory outside
    the block, and leaves such a world. *)
Definition safe {A} (r : Ring) (p : prog A) : Prop :=
  forall w, ring_ok r w ->
    match p w with
    | Done (_, w') => ring_ok r w'
    | Panicked _ | Undefined _ => False
    | Starved => True
    end.

Section safety.
Context (r : Ring).
Hypothesis Hg : ring_geom r.

Lemma safe_ret {A} (a : A) : safe r (ret a).
Proof. by intros w. Qed.

Lemma safe_bind {A B} (p : prog A) (f : A -> prog B) :
  safe r p -> (forall a, safe r (f a)) -> safe r (bind p f).
Proof.
  intros Hp Hf w Hw. unfold bind. specialize (Hp w Hw).
  destruct (p w) as [[a w1]| | |]; try done. by apply Hf.
Qed.

Lemma ring_ok_upd w bs : fits r bs -> ring_ok r w -> ring_ok r (upd_block (r_ptr r) bs w).
Proof.
  intros Hf [_ Ht]. split; [|done]. exists bs. split; [apply upd_block_lookup | done].
Qed.

Lemma safe_load_field f : safe r (load (fwidth f) (r_ptr r) (r_base r + foff f)).
Proof using Hg. intros w [(bs & Hbs & Hf) Ht]. rewrite (load_field r Hg w bs Hbs Hf). by split; [exists bs|]. Qed.

Lemma safe_store_field f v : safe r (store (fwidth f) (r_ptr r) (r_base r + foff f) v).
Proof using Hg.
  intros w Hw. pose proof Hw as [(bs & Hbs & Hf) Ht]. rewrite (store_field r Hg w bs Hbs Hf).
  apply ring_ok_upd; [by apply fits_fset | done].
Qed.

Lemma safe_swap_lock v : safe r (swap_u32 (r_ptr r) (r_base r + OFF_PRODLOCK) v).
Proof using Hg.
  apply safe_bind; [apply (safe_load_field FLock)|]. intros.
  apply safe_bind; [apply (safe_store_field FLock) | intros; apply safe_ret].
Qed.

Lemma safe_fetch_add f d :
  fwidth f = 4%nat -> safe r (fetch_add_u32 (r_ptr r) (r_base r + foff f) d).
Proof using Hg.
  intros Hf. unfold fetch_add_u32, load_u32, store_u32. rewrite <- Hf.
  apply safe_bind; [apply safe_load_field|]. intros.
  apply safe_bind; [apply safe_store_field | intros; apply safe_ret].
Qed.

Lemma safe_write_wrapped pos src :
  blen src <= r_capacity r -> safe r (write_wrapped r pos src).
Proof using Hg.
  intros Hs w Hw. pose proof Hw as [(bs & Hbs & Hf) Ht].
  rewrite (write_wrapped_ok r Hg w bs Hbs Hf) by done.
  apply ring_ok_upd; [|done]. apply fits_dset; [done..|].
  apply blen_cwrite; [by apply cap_pos | by apply blen_dget | done].
Qed.

Lemma safe_yield : safe r yield.
Proof.
  intros w [(bs & Hbs & Hf) Ht]. unfold yield. destruct (w_ticks w) as [|tk ts] eqn:E; [done|].
  inversion Ht as [|?? Hk Hts]; subst. split; [|done].
  destruct (Hk _ _ Hbs Hf) as (bs' & ? & ?). by exists bs'.
Qed.

Lemma safe_log e : safe r (log_event e).
Proof. by intros w Hw. Qed.

Lemma safe_starved {A} : safe r ((fun _ => Starved) : prog A).
Proof. by intros w Hw. Qed.

Lemma safe_now : safe r now.
Proof. by intros w Hw. Qed.

Lemma safe_futex_wait f v :
  fwidth f = 4%nat -> safe r (futex_wait (r_ptr r) (r_base r + foff f) v).
Proof using Hg.
  intros Hf. unfold futex_wait, load_u32. rewrite <- Hf.
  apply safe_bind; [apply safe_load_field|]. intros a.
  destruct (a =? v); [apply safe_yield | apply safe_ret].
Qed.

Lemma safe_lock_producer : safe r (lock_producer r).
Proof using Hg.
  apply safe_bind.
  { apply safe_bind; [apply (safe_load_field FLock)|]. intros a.
    destruct (a =? 0); [|apply safe_ret].
    apply safe_bind; [apply (safe_store_field FLock) | intros; apply safe_ret]. }
  intros [|]; [apply safe_ret|]. intros w.
  generalize (S (length (w_ticks w))). intros n. revert w.
  induction n as [|n IH]; [by intros w Hw|].
  apply safe_bind; [apply safe_swap_lock|]. intros old.
  destruct (old =? 0); [apply safe_ret|].
  apply safe_bind; [by apply (safe_futex_wait FLock) | by intros].
Qed.

Lemma safe_unlock_producer : safe r (unlock_producer r).
Proof using Hg.
  apply safe_bind; [apply safe_swap_lock|]. intros old.
  destruct (old =? 2); [apply safe_log | apply safe_ret].
Qed.

Lemma safe_push_locked d : safe r (push_locked r d).
Proof using Hg.
  unfold push_locked. destruct (Z.ltb_spec (r_capacity r) (4 + blen d)); [apply safe_ret|].
  apply safe_bind; [apply (safe_load_field FHead)|]. intros head.
  apply safe_bind; [apply (safe_load_field FTail)|]. intros tail. cbv zeta.
  destruct (_ <? _); [apply safe_ret|]. pose proof (blen_nonneg d).
  apply safe_bind; [apply safe_write_wrapped; rewrite blen_le_bytes; lia|]. intros _.
  apply safe_bind; [apply safe_write_wrapped; lia|]. intros _.
  apply safe_bind; [apply (safe_store_field FHead) | intros; apply safe_ret].
Qed.

Lemma safe_signal_data : safe r (signal_data r).
Proof using Hg.
  apply safe_bind; [by apply (safe_fetch_add FDataSeq) | intros; apply safe_log].
Qed.

Lemma safe_push_loop fuel d dl : safe r (push_loop fuel r d dl).
Proof using Hg.
  induction fuel as [|fuel IH]; [apply safe_starved|]. simpl.
  apply safe_bind; [apply safe_lock_producer|]. intros _.
  apply safe_bind; [apply safe_push_locked|]. intros [|].
  { apply safe_bind; [apply safe_unlock_producer|]. intros _.
    apply safe_bind; [apply safe_signal_data | intros; apply safe_ret]. }
  apply safe_bind; [apply (safe_load_field FSpaceSeq)|]. intros seen.
  apply safe_bind; [apply safe_unlock_producer|]. intros _.
  destruct dl as [dl|].
  - apply safe_bind; [apply safe_now|]. intros t. destruct (dl <=? t); [apply safe_ret|].
    apply safe_bind; [by apply (safe_futex_wait FSpaceSeq) | by intros].
  - apply safe_bind; [by apply (safe_futex_wait FSpaceSeq) | by intros].
Qed.
End safety.

(** ** Blocking push: deadlines and the producer lock *)

(** A tick at whose end no producer is inside the lock. *)
Definition tick_free (r : Ring) (tk : tick) : Prop :=
  forall m bs, m !! r_ptr r = Some bs -> fits r bs ->
    exists bs', tk_mem tk m !! r_ptr r = Some bs' /\ fits r bs' /\ fget r bs' FLock = 0.

(** A tick during which a holder of the lock does not release it. *)
Definition tick_stuck (r : Ring) (tk : tick) : Prop :=
  forall m bs, m !! r_ptr r = Some bs -> fits r bs -> fget r bs FLock <> 0 ->
    exists bs', tk_mem tk m !! r_ptr r = Some bs' /\ fits r bs' /\ fget r bs' FLock <> 0.

Section blocking.
Context (r : Ring).
Hypothesis Hg : ring_geom r.

(** [push_locked] for arbitrary header contents. *)
Lemma push_locked_total w bs d :
  w_mem w !! r_ptr r = Some bs -> fits r bs ->
  exists b bs', push_locked r d w = Done (b, upd_block (r_ptr r) bs' w) /\
    fits r bs' /\ fget r bs' FLock = fget r bs FLock /\
    fget r bs' FSpaceSeq = fget r bs FSpaceSeq /\ ring_frame r bs bs'.
Proof using Hg.
  intros Hbs Hf. unfold push_locked. pose proof (blen_nonneg d).
  assert (forall b, exists b' bs', @Done (bool * world) (b, w) = Done (b', upd_block (r_ptr r) bs' w) /\
    fits r bs' /\ fget r bs' FLock = fget r bs FLock /\
    fget r bs' FSpaceSeq = fget r bs FSpaceSeq /\ ring_frame r bs bs') as Hno.
  { intros b. exists b, bs. rewrite upd_block_id by done. split_and!; try done. }
  destruct (Z.ltb_spec (r_capacity r) (4 + blen d)); [apply Hno|].
  erewrite bind_done by by eapply (load_field r Hg w bs Hbs Hf FHead).
  erewrite bind_done by by eapply (load_field r Hg w bs Hbs Hf FTail).
  cbv zeta. destruct (_ <? _); [apply Hno|].
  assert (blen (dget r bs) = r_capacity r) as Hdl by by apply blen_dget.
  erewrite bind_done by (eapply write_wrapped_ok; eauto; rewrite blen_le_bytes; lia).
  set (d1 := cwrite _ (dget r bs) _ _).
  assert (blen d1 = r_capacity r) as Hd1.
  { apply blen_cwrite; rewrite ?blen_le_bytes; lia. }
  erewrite bind_done
    by (eapply write_wrapped_ok; [done | apply upd_block_lookup | by apply fits_dset | lia]).
  rewrite upd_block_twice, dget_dset by done. set (d2 := cwrite _ d1 _ _).
  assert (blen d2 = r_capacity r) as Hd2 by (apply blen_cwrite; by apply cap_pos || lia).
  rewrite dset_dset by done.
  erewrite bind_done
    by (refine (store_field r Hg _ _ (upd_block_lookup _ _ _) _ FHead _); by apply fits_dset).
  rewrite upd_block_twice. do 2 eexists. split; [done|].
  rewrite !fget_fset_ne, !fget_dset by auto using fits_dset.
  split_and!; auto using fits_fset, fits_dset.
  etransitivity; [apply ring_frame_dset | apply ring_frame_fset]; auto using fits_dset.
Qed.

(** One round of the loop with the lock free: success, or the lock released and
    the space word unchanged. *)
Lemma push_round fuel w bs d dl :
  w_mem w !! r_ptr r = Some bs -> fits r bs -> fget r bs FLock = 0 ->
  (exists w', push_loop (S fuel) r d (Some dl) w = Done (true, w') /\ w_ticks w' = w_ticks w /\
     w_now w' = w_now w /\ forall p, p <> r_ptr r -> w_mem w' !! p = w_mem w !! p) \/
  exists bs', fits r bs' /\ fget r bs' FLock = 0 /\
    push_loop (S fuel) r d (Some dl) w =
      (if dl <=? w_now w then ret false
       else do! yield in push_loop fuel r d (Some dl)) (upd_block (r_ptr r) bs' w).
Proof using Hg.
  intros Hbs Hf H0. cbn [push_loop].
  erewrite bind_done by by eapply lock_producer_free.
  set (bs1 := fset r bs FLock 1).
  assert (fits r bs1) as Hf1 by by apply fits_fset.
  destruct (push_locked_total _ bs1 d (upd_block_lookup (r_ptr r) bs1 w) Hf1)
    as (b & bs2 & E & Hf2 & Hl2 & Hs2 & _).
  assert (fget r bs2 FLock = 1) as Hl2' by (rewrite Hl2; unfold bs1; by rewrite fget_fset_eq).
  erewrite bind_done by exact E. rewrite upd_block_twice. destruct b.
  - left. eexists.
    erewrite bind_done by (apply unlock_producer_ok; [done | apply upd_block_lookup | done | done]).
    rewrite upd_block_twice.
    erewrite bind_done by (apply signal_data_ok; [done | apply upd_block_lookup | by apply fits_fset]).
    split_and!; [reflexivity..|]. intros p Hp. cbn. by rewrite !lookup_insert_ne.
  - right. exists (fset r bs2 FLock 0). split_and!; [by apply fits_fset | by rewrite fget_fset_eq |].
    erewrite bind_done by (refine (load_field r Hg _ bs2 (upd_block_lookup _ _ _) Hf2 FSpaceSeq)).
    erewrite bind_done by (apply unlock_producer_ok; [done | apply upd_block_lookup | done | done]).
    rewrite upd_block_twice. unfold now, bind at 1.
    change (w_now (upd_block _ _ w)) with (w_now w).
    destruct (dl <=? w_now w); [done|].
    unfold futex_wait. rewrite bind_assoc.
    erewrite bind_done
      by (refine (load_field r Hg _ _ (upd_block_lookup _ _ _) _ FSpaceSeq); by apply fits_fset).
    rewrite fget_fset_ne, Z.eqb_refl by done. done.
Qed.

(** With a deadline the loop ends as soon as the clock has passed it. *)
Lemma push_loop_deadline fuel w bs d dl :
  w_mem w !! r_ptr r = Some bs -> fits r bs -> fget r bs FLock = 0 ->
  Forall (tick_free r) (w_ticks w) -> (length (w_ticks w) < fuel)%nat ->
  dl <= w_now w \/ Exists (fun tk => dl <= tk_now tk) (w_ticks w) ->
  exists b w', push_loop fuel r d (Some dl) w = Done (b, w') /\
    (b = false -> dl <= w_now w').
Proof using Hg.
  revert w bs. induction fuel as [|fuel IH]; intros w bs Hbs Hf H0 Hticks Hfuel Hdl; [lia|].
  destruct (push_round fuel w bs d dl Hbs Hf H0) as [(w' & E & _)|(bs' & Hf' & H0' & E)].
  { by exists true, w'. }
  destruct (Z.leb_spec dl (w_now w)).
  { rewrite E. by exists false, (upd_block (r_ptr r) bs' w). }
  destruct Hdl as [?|Hex]; [lia|]. rewrite E. unfold yield, bind.
  cbn [w_ticks upd_block set_mem w_mem]. destruct (w_ticks w) as [|tk ts] eqn:Et.
  { by inversion Hex. }
  inversion Hticks as [|?? Htk Hts]; subst. cbn [length] in Hfuel.
  destruct (Htk _ _ (upd_block_lookup (r_ptr r) bs' w) Hf') as (bs2 & Hb2 & Hf2 & Hl2).
  eapply IH; [exact Hb2 | done | done | done | cbn [w_ticks]; lia |]. cbn [w_now w_ticks].
  inversion Hex; subst; auto.
Qed.

(** A lock that is never released: the loop waits for ever, whatever the clock. *)
Lemma lock_loop_stuck fuel w bs :
  w_mem w !! r_ptr r = Some bs -> fits r bs -> fget r bs FLock <> 0 ->
  Forall (tick_stuck r) (w_ticks w) -> lock_loop fuel r w = Starved.
Proof using Hg.
  revert w bs. induction fuel as [|fuel IH]; intros w bs Hbs Hf H0 Hticks; [done|]. cbn [lock_loop].
  erewrite bind_done by by apply (swap_lock r Hg w bs Hbs Hf 2).
  rewrite (proj2 (Z.eqb_neq _ _) H0).
  set (bs1 := fset r bs FLock 2).
  assert (fits r bs1) as Hf1 by by apply fits_fset.
  assert (fget r bs1 FLock = 2) as Hl1 by (unfold bs1; by rewrite fget_fset_eq).
  unfold futex_wait. rewrite bind_assoc.
  erewrite bind_done by (refine (load_field r Hg _ bs1 (upd_block_lookup _ _ _) Hf1 FLock)).
  rewrite Hl1. cbn [Z.eqb Pos.eqb]. unfold yield, bind. cbn [w_ticks upd_block set_mem w_mem].
  destruct (w_ticks w) as [|tk ts]; [done|].
  inversion Hticks as [|?? Htk Hts]; subst.
  destruct (Htk _ _ (upd_block_lookup (r_ptr r) bs1 w) Hf1) as (bs2 & Hb2 & Hf2 & Hl2); [by rewrite Hl1|].
  by apply (IH _ bs2).
Qed.

Lemma lock_producer_stuck w bs :
  w_mem w !! r_ptr r = Some bs -> fits r bs -> fget r bs FLock <> 0 ->
  Forall (tick_stuck r) (w_ticks w) -> lock_producer r w = Starved.
Proof using Hg.
  intros Hbs Hf H0 Ht. unfold lock_producer.
  erewrite bind_done by by apply (cas_lock_held r Hg w bs Hbs Hf 1).
  by eapply lock_loop_stuck.
Qed.
End blocking.
