(* ===== verification/Demo.v ===== *)
(** * A concrete world for the witnesses

    A small machine with one 256-byte block, on which the hypotheses of the
    theorems are discharged by computation. *)

From S2P Require Import Prelude Machine Shm Circ Ring RingMem RingSpec RingThm.

(** Every system call succeeds; [mmap] returns a zeroed block above all others. *)
Definition next_ptr (m : gmap Z (list byte)) : Z :=
  1 + map_fold (fun k _ top => Z.max k top) 7000 m.

Definition demo_mmap (size fd : Z) (m : gmap Z (list byte)) : Z * Z * gmap Z (list byte) :=
  (next_ptr m, 0, <[next_ptr m := replicate (Z.to_nat size) Byte.x00]> m).

Lemma next_ptr_bounds m : 7000 < next_ptr m /\ forall k, is_Some (m !! k) -> k < next_ptr m.
Proof.
  unfold next_ptr.
  apply (map_fold_weak_ind (fun top m => 7000 < 1 + top /\ forall k, is_Some (m !! k) -> k < 1 + top)).
  - split; [lia|]. by intros k [? ?].
  - intros i x m' top _ [H1 H2]. split; [lia|]. intros k. destruct (decide (i = k)) as [->|Hne]; [lia|].
    rewrite lookup_insert_ne by done. intros Hk. specialize (H2 k Hk). lia.
Defined.

Definition demo_sys : sys := Sys
  (fun _ _ _ => (3, 0)) (fun _ _ => (0, 0)) (fun _ _ => (0, 0)) (fun _ => (0, 0, 256))
  demo_mmap (fun _ => (0, 0)) (fun _ => Ok []) (fun _ _ => (0, 0)) 4242 (Some 1000)
  (fun n => Ok (le_bytes 8 (77 + Z.of_nat n))) (fun _ => "error").

Lemma demo_mmap_ok : forall size, 0 <= size -> forall fd m ptr errno m',
  demo_mmap size fd m = (ptr, errno, m') ->
  m !! ptr = None /\ (exists bs, m' !! ptr = Some bs /\ blen bs = size) /\
  (forall q, q <> ptr -> m' !! q = m !! q).
Proof.
  intros size Hs fd m ptr errno m' [= <- _ <-]. destruct (next_ptr_bounds m) as [_ Hb]. split_and!.
  - destruct (m !! next_ptr m) eqn:E; [|done]. specialize (Hb (next_ptr m) ltac:(by eexists)). lia.
  - eexists. split; [apply lookup_insert_eq|]. unfold blen. rewrite length_replicate. lia.
  - intros q Hq. by apply lookup_insert_ne.
Defined.

Definition demo_world (ticks : list tick) : world :=
  World {[ 7 := replicate 256 Byte.x00 ]} 0 demo_sys ticks 0 [].

Definition demo_seg : Segment := MkSegment "/impulse-ring.demo.v1" 7 256 true.
Definition demo_ring : Ring := MkRing demo_seg 0 64 63.

Definition demo_formatted : list byte := formatted demo_ring (replicate 256 Byte.x00).
Definition demo_ready (ticks : list tick) : world :=
  upd_block 7 demo_formatted (demo_world ticks).

Definition rec20 : list byte := replicate 20 Byte.x2a.
Definition rec40 : list byte := replicate 40 Byte.x2b.

Lemma demo_geom : ring_geom demo_ring.
Proof. constructor; [exists 6; split; [lia | reflexivity] | reflexivity | vm_compute; discriminate]. Defined.

Lemma demo_fits : fits demo_ring demo_formatted.
Proof. vm_compute. discriminate. Defined.

Lemma demo_rep : ring_rep demo_ring demo_formatted 0 0 [].
Proof. constructor; try (vm_compute; reflexivity); vm_compute; try split; discriminate. Defined.

Lemma demo_has ticks : ring_has demo_ring (demo_ready ticks) [].
Proof.
  exists demo_formatted. split; [reflexivity|]. split; [|reflexivity].
  exists 0, 0. apply demo_rep.
Defined.

(** A clock tick that touches no memory. *)
Definition idle (t : Z) : tick := Tick (fun m => m) t.

Lemma idle_keeps r t : tick_keeps r (idle t).
Proof. intros m bs Hm Hf. by exists bs. Defined.

Lemma idle_stuck r t : tick_stuck r (idle t).
Proof. intros m bs Hm Hf H0. by exists bs. Defined.

(** A tick at which the consumer has emptied the ring and no producer is active. *)
Definition drained (t : Z) : tick := Tick (fun m => <[7 := demo_formatted]> m) t.

Lemma drained_free t : tick_free demo_ring (drained t).
Proof.
  intros m bs Hm Hf. exists demo_formatted. split; [apply lookup_insert_eq|].
  split; [apply demo_fits | reflexivity].
Defined.

(** The ring as a process left it that died inside [push_locked]. *)
Definition demo_locked : list byte := fset demo_ring demo_formatted FLock 1.

(** A ring in which somebody wrote a length prefix by hand. *)
Definition demo_forged : list byte :=
  fset demo_ring (dset demo_ring demo_formatted
    (le_bytes 4 65535 ++ replicate 60 Byte.x00)) FHead 24.
