(* ===== verification/RingProps.v ===== *)
(** * The properties of the ring buffer

    What the components built on the ring rely on, each with its instance on the
    concrete ring of [Demo.v]. *)

From S2P Require Import Prelude Machine Shm Circ Ring RingMem RingSpec RingThm Demo.

(** C1: A ring freshly formatted in a mapped segment behaves, over any sequence of
    [try_push] and [try_pop], exactly like a bounded FIFO queue of byte records:
    every result of the run (accepted or refused pushes, popped records, empty
    pops) is the one the abstract queue gives, across any number of wrap-arounds
    of the data region and of the cursors. *)
Theorem ring_history_refines (seg : Segment) (base k : Z) (w : world) (bs : list byte)
    (os : list ring_op) :
  w_mem w !! seg_ptr seg = Some bs -> blen bs = seg_len seg ->
  0 <= k <= 31 -> 0 <= base -> base mod 64 = 0 ->
  base + RING_HEADER + 2 ^ k <= seg_len seg < 2 ^ 64 ->
  exists w',
    (let? r := format seg base (2 ^ k) in
     let! outs := run_ops r os in
     ret (Ok outs)) w = Done (Ok (fifo_run (2 ^ k) [] os), w').
Proof.
  intros Hbs Hlen Hk Hb Hal Hfit.
  destruct (format_sim seg base k w bs Hbs Hlen Hk Hb Hal Hfit) as (w1 & E & Hg & Hhas & _).
  destruct (run_ops_sim _ Hg w1 [] os Hhas) as [w2 E2].
  exists w2. unfold bind_io. erewrite bind_done by exact E. cbv beta iota.
  by erewrite bind_done by exact E2.
Qed.

Lemma ring_history_refines_witness :
  exists w',
    (let? r := format demo_seg 0 (2 ^ 6) in
     let! outs := run_ops r [OpPush rec20; OpPush rec20; OpPush rec20; OpPop; OpPush rec40; OpPop; OpPop] in
     ret (Ok outs)) (demo_world [])
    = Done (Ok [OutPush true; OutPush true; OutPush false; OutPop (Some rec20);
                OutPush false; OutPop (Some rec20); OutPop None], w').
Proof.
  apply (ring_history_refines demo_seg 0 6 (demo_world []) (replicate 256 Byte.x00)
           [OpPush rec20; OpPush rec20; OpPush rec20; OpPop; OpPush rec40; OpPop; OpPop]);
    try reflexivity; try lia. vm_compute. split; [discriminate | reflexivity].
Defined.

(** [try_push] on a quiescent ring enqueues: it accepts the record exactly when
    its bytes and its prefix fit in the free space, appends it to the queue,
    releases the lock, wakes one consumer on [data_seq] when it succeeded (and
    nobody otherwise), and changes nothing outside the ring. *)
Theorem try_push_refines (r : Ring) (w : world) (q : list (list byte)) (d : list byte) :
  ring_geom r -> ring_has r w q ->
  exists w', try_push r d w = Done (fst (fifo_push (r_capacity r) q d), w') /\
    ring_has r w' (snd (fifo_push (r_capacity r) q d)) /\
    ring_only r w w'
      (if fst (fifo_push (r_capacity r) q d)
       then [EvWake (r_ptr r) (r_base r + OFF_DATA_SEQ) 1] else []).
Proof. intros Hg. by apply try_push_sim. Qed.

Lemma try_push_refines_witness :
  exists w', try_push demo_ring rec20 (demo_ready []) = Done (true, w') /\
    ring_has demo_ring w' [rec20] /\
    ring_only demo_ring (demo_ready []) w' [EvWake 7 136 1].
Proof. apply (try_push_refines demo_ring (demo_ready []) [] rec20 demo_geom (demo_has [])). Defined.

(** [try_pop] on a quiescent ring dequeues: it returns the oldest record, byte for
    byte, removes it, and wakes all producers waiting for space; on an empty ring
    it returns [None] and changes nothing. *)
Theorem try_pop_refines (r : Ring) (w : world) (q : list (list byte)) :
  ring_geom r -> ring_has r w q ->
  exists w', try_pop r w = Done (fst (fifo_pop q), w') /\
    ring_has r w' (snd (fifo_pop q)) /\
    ring_only r w w'
      (match q with [] => [] | _ => [EvWake (r_ptr r) (r_base r + OFF_SPACE_SEQ) I32_MAX] end).
Proof. intros Hg. by apply try_pop_sim. Qed.

Lemma try_pop_refines_witness :
  exists w', try_pop demo_ring (demo_ready []) = Done (None, w') /\
    ring_has demo_ring w' [] /\ ring_only demo_ring (demo_ready []) w' [].
Proof. apply (try_pop_refines demo_ring (demo_ready []) [] demo_geom (demo_has [])). Defined.

(** Formatting and then attaching gives the attacher the creator's ring: the same
    base, capacity and mask, read from the header, holding the empty queue. *)
Theorem format_then_attach (seg : Segment) (base k : Z) (w : world) (bs : list byte) :
  w_mem w !! seg_ptr seg = Some bs -> blen bs = seg_len seg ->
  0 <= k <= 31 -> 0 <= base -> base mod 64 = 0 ->
  base + RING_HEADER + 2 ^ k <= seg_len seg < 2 ^ 64 ->
  exists w', format seg base (2 ^ k) w = Done (Ok (MkRing seg base (2 ^ k) (2 ^ k - 1)), w') /\
    attach seg base w' = Done (Ok (MkRing seg base (2 ^ k) (2 ^ k - 1)), w') /\
    ring_has (MkRing seg base (2 ^ k) (2 ^ k - 1)) w' [].
Proof.
  intros Hbs Hlen Hk Hb Hal Hfit. set (r := MkRing seg base (2 ^ k) (2 ^ k - 1)).
  destruct (format_eq seg base k w bs Hbs Hlen Hk Hb Hal Hfit) as (Hg & Hf & _). fold r in Hg, Hf.
  destruct (format_sim seg base k w bs Hbs Hlen Hk Hb Hal Hfit) as (w1 & E & _ & Hhas & Hw1).
  fold r in E, Hhas, Hw1. exists w1. split_and!; [done | | done].
  destruct (formatted_fields r Hg bs Hf) as (_ & _ & _ & Hc & Hm & Hf').
  subst w1. apply (attach_eq r _ (formatted r bs)); try done.
  - apply upd_block_lookup.
  - unfold formatted. rewrite !blen_fset by auto 10 using fits_fset. done.
  - simpl. lia.
Qed.

Lemma format_then_attach_witness :
  exists w', format demo_seg 0 64 (demo_world []) = Done (Ok demo_ring, w') /\
    attach demo_seg 0 w' = Done (Ok demo_ring, w') /\ ring_has demo_ring w' [].
Proof.
  apply (format_then_attach demo_seg 0 6 (demo_world []) (replicate 256 Byte.x00));
    try reflexivity; try lia. vm_compute. split; [discriminate | reflexivity].
Defined.

(** C31: Memory safety of the producer side for arbitrary header contents: whatever the
    other processes write into the ring (cursors, lock word, capacity word) before
    and during the call, [push_blocking] never touches a byte outside the mapped
    block and never panics. *)
Theorem push_blocking_memory_safe (r : Ring) (d : list byte) (timeout : option Z) :
  ring_geom r -> safe r (push_blocking r d timeout).
Proof.
  intros Hg. unfold push_blocking. apply safe_bind; [apply safe_now|]. intros t w Hw.
  by apply (safe_push_loop r Hg).
Qed.

Lemma push_blocking_memory_safe_witness :
  ring_geom demo_ring /\ safe demo_ring (push_blocking demo_ring rec20 (Some 5)).
Proof. split; [exact demo_geom | apply (push_blocking_memory_safe demo_ring rec20 (Some 5) demo_geom)]. Defined.

(** C34: With a timeout, [push_blocking] returns once the clock has reached the
    deadline, whatever the consumer does, as long as the producer lock is free
    again at each wakeup; and it answers [false] only when the deadline has
    passed. *)
Theorem push_blocking_deadline (r : Ring) (w : world) (bs d : list byte) (timeout : Z) :
  ring_geom r -> w_mem w !! r_ptr r = Some bs -> fits r bs -> fget r bs FLock = 0 ->
  Forall (tick_free r) (w_ticks w) ->
  Exists (fun tk => w_now w + timeout <= tk_now tk) (w_ticks w) ->
  exists b w', push_blocking r d (Some timeout) w = Done (b, w') /\
    (b = false -> w_now w + timeout <= w_now w').
Proof.
  intros Hg Hbs Hf H0 Ht Hex. unfold push_blocking, now, bind. cbn [fmap option_fmap option_map].
  eapply push_loop_deadline; eauto.
Qed.

Lemma push_blocking_deadline_witness :
  exists b w', push_blocking demo_ring (replicate 80 Byte.x01) (Some 10)
                 (demo_ready [drained 4; drained 12]) = Done (b, w') /\
    (b = false -> 10 <= w_now w').
Proof.
  apply (push_blocking_deadline demo_ring (demo_ready [drained 4; drained 12]) demo_formatted
           (replicate 80 Byte.x01) 10 demo_geom eq_refl demo_fits eq_refl).
  - repeat constructor; apply drained_free.
  - right. left. vm_compute. discriminate.
Defined.

(** Nothing bounds the wait for the producer lock itself: if a process died while it
    held the lock of a ring (the lock word stays non-zero), a later [push_blocking]
    on that ring never returns, whatever timeout was asked for and however far the
    clock advances. *)
Theorem push_blocking_lock_stuck (r : Ring) (w : world) (bs d : list byte) (timeout : option Z) :
  ring_geom r -> w_mem w !! r_ptr r = Some bs -> fits r bs -> fget r bs FLock <> 0 ->
  Forall (tick_stuck r) (w_ticks w) ->
  push_blocking r d timeout w = Starved.
Proof.
  intros Hg Hbs Hf H0 Ht. unfold push_blocking, now, bind at 1. cbn [push_loop].
  unfold bind. by rewrite (lock_producer_stuck r Hg w bs Hbs Hf H0 Ht).
Qed.

Lemma push_blocking_lock_stuck_witness :
  push_blocking demo_ring rec20 (Some 10)
    (upd_block 7 demo_locked (demo_world [idle 100; idle 100000])) = Starved.
Proof.
  apply (push_blocking_lock_stuck demo_ring
           (upd_block 7 demo_locked (demo_world [idle 100; idle 100000])) demo_locked rec20 (Some 10)
           demo_geom eq_refl).
  - vm_compute. discriminate.
  - vm_compute. discriminate.
  - repeat constructor; apply idle_stuck.
Defined.

(** [try_pop] trusts the length prefix: when the four bytes at the read cursor
    announce more bytes than the segment and the data region together hold, the copy leaves the mapping. (Every
    process that can open the segment can write there.) *)
Theorem try_pop_trusts_length (r : Ring) (w : world) (bs : list byte) (t len : Z) :
  ring_geom r -> w_mem w !! r_ptr r = Some bs -> fits r bs -> 4 <= r_capacity r ->
  fget r bs FTail = t -> fget r bs FHead <> t ->
  from_le (cread (r_capacity r) (dget r bs) t 4) = len ->
  blen bs + r_capacity r < len ->
  exists why, try_pop r w = Undefined why.
Proof.
  intros Hg Hbs Hf H4 Ht Hh Hlen Hbig. unfold try_pop.
  erewrite bind_done by by eapply (load_field r Hg w bs Hbs Hf FTail).
  erewrite bind_done by by eapply (load_field r Hg w bs Hbs Hf FHead).
  rewrite Ht, (proj2 (Z.eqb_neq _ _) Hh).
  erewrite bind_done by (eapply read_wrapped_ok; eauto; lia). rewrite Hlen. cbv zeta.
  unfold bind at 1. by destruct (read_wrapped_oob r Hg w bs Hbs Hf (u64 (t + 4)) len Hbig) as [why ->]; exists why.
Qed.

Lemma try_pop_trusts_length_witness :
  exists why, try_pop demo_ring (upd_block 7 demo_forged (demo_world [])) = Undefined why.
Proof.
  apply (try_pop_trusts_length demo_ring (upd_block 7 demo_forged (demo_world [])) demo_forged 0 65535
           demo_geom eq_refl).
  all: vm_compute; try reflexivity; try discriminate.
Defined.
