(* ===== verification/RingPop.v ===== *)
(** * The blocking pop

    [pop_blocking] with a timeout on a ring that other processes keep using: it comes
    back, and with the answer of a [try_pop] at that moment. *)

From S2P Require Import Prelude Machine Shm Circ Ring RingMem RingSpec RingThm Demo.

(** The ring is well formed and holds [q]; a producer may be inside the lock. *)
Definition ring_holds (r : Ring) (m : gmap Z (list byte)) (q : list (list byte)) : Prop :=
  exists bs h t, m !! r_ptr r = Some bs /\ ring_rep r bs h t q.

(** During the tick the other processes use the ring as its operations do: it is well
    formed afterwards. *)
Definition tick_ring (r : Ring) (tk : tick) : Prop :=
  forall m q, ring_holds r m q -> exists q', ring_holds r (tk_mem tk m) q'.

(** The clock passes [dl] early enough for all the spins of a turn. *)
Definition passes (dl : Z) (ticks : list tick) : Prop :=
  exists before after, ticks = before ++ after /\ Forall (fun tk => dl <= tk_now tk) after /\
    ((SPIN_LIMIT < length after)%nat \/ (before = [] /\ (SPIN_LIMIT <= length after)%nat)).

(** The clock after the first [k] of the ticks, and a run during which these passed. *)
Fixpoint clock (now : Z) (ticks : list tick) (k : nat) {struct k} : Z :=
  match k, ticks with
  | S k, tk :: ticks => clock (tk_now tk) ticks k
  | _, _ => now
  end.

Record took (k : nat) (w w' : world) : Prop := {
  took_ticks : w_ticks w' = drop k (w_ticks w);
  took_le : (k <= length (w_ticks w))%nat;
  took_clock : w_now w' = clock (w_now w) (w_ticks w) k;
}.

Lemma clock_add now ticks j k : clock now ticks (j + k) = clock (clock now ticks j) (drop j ticks) k.
Proof. revert now ticks. induction j as [|j IH]; intros now [|tk ticks]; simpl; [done | done | by destruct k | apply IH]. Qed.

Lemma took_0 w w' : w_ticks w' = w_ticks w -> w_now w' = w_now w -> took 0 w w'.
Proof. constructor; [by rewrite drop_0 | lia | done]. Qed.

Lemma took_trans j k w w1 w2 : took j w w1 -> took k w1 w2 -> took (j + k) w w2.
Proof.
  intros [T1 L1 C1] [T2 L2 C2]. rewrite T1, length_drop in L2. constructor; [| lia |].
  - by rewrite T2, T1, drop_drop.
  - by rewrite C2, T1, C1, clock_add.
Qed.

Lemma took_1 tk ticks w w' : w_ticks w = tk :: ticks -> w_ticks w' = ticks -> w_now w' = tk_now tk -> took 1 w w'.
Proof. intros E T N. constructor; rewrite E; simpl; [by rewrite T, drop_0 | lia | by rewrite N]. Qed.

(** [v] is the answer of a [try_pop] on the queue of that moment. *)
Definition popped_last (r : Ring) (v : option (list byte)) (w' : world) : Prop :=
  exists w1 q, ring_holds r (w_mem w1) q /\ try_pop r w1 = Done (v, w') /\ v = fst (fifo_pop q) /\
    ring_holds r (w_mem w') (snd (fifo_pop q)).

Section pop.
Context (r : Ring).
Hypothesis Hg : ring_geom r.

Lemma try_pop_answers w q : ring_holds r (w_mem w) q ->
  exists w', try_pop r w = Done (fst (fifo_pop q), w') /\ ring_holds r (w_mem w') (snd (fifo_pop q)) /\
    w_ticks w' = w_ticks w /\ w_now w' = w_now w.
Proof using Hg.
  intros (bs & h & t & Hbs & Hrep). destruct q as [|d q]; simpl.
  - exists w. split; [by eapply try_pop_empty|]. split; [|done]. by exists bs, h, t.
  - eexists. split; [by eapply try_pop_cons|]. split; [|done].
    destruct (popped_rep r Hg bs h t q d Hrep) as (Hrep' & _ & _).
    do 3 eexists. split; [apply upd_block_lookup | exact Hrep'].
Qed.

Lemma yield_next w tk tks q :
  w_ticks w = tk :: tks -> ring_holds r (w_mem w) q -> Forall (tick_ring r) (w_ticks w) ->
  exists w' q', yield w = Done (tt, w') /\ w_ticks w' = tks /\ w_now w' = tk_now tk /\
    ring_holds r (w_mem w') q'.
Proof.
  intros E Hq Ht. rewrite E in Ht. inversion Ht as [|?? H1 H2]; subst. destruct (H1 _ _ Hq) as [q' Hq'].
  unfold yield. rewrite E. eexists _, q'. by split_and!.
Qed.

Lemma spin_pop_spec n w q :
  ring_holds r (w_mem w) q -> Forall (tick_ring r) (w_ticks w) -> (n <= length (w_ticks w))%nat ->
  (exists d w' k, spin_pop n r w = Done (Some d, w') /\ popped_last r (Some d) w' /\ took k w w') \/
  exists w' q', spin_pop n r w = Done (None, w') /\ ring_holds r (w_mem w') q' /\ took n w w' /\
    w_ticks w' = drop n (w_ticks w) /\
    forall k tk, n = S k -> w_ticks w !! k = Some tk -> w_now w' = tk_now tk.
Proof using Hg.
  revert w q. induction n as [|n IH]; intros w q Hq Ht Hn; cbn [spin_pop].
  { right. exists w, q. rewrite drop_0. split_and!; done. }
  destruct (try_pop_answers w q Hq) as (w1 & E1 & Hq1 & T1 & N1).
  rewrite (bind_done _ _ _ _ _ E1). destruct q as [|d q]; cbn [fifo_pop fst snd] in *.
  2:{ left. exists d, w1, 0%nat. split_and!; [done | by exists w, (d :: q) | by apply took_0]. }
  destruct (w_ticks w) as [|tk tks] eqn:Ew; [simpl in Hn; lia|].
  destruct (yield_next w1 tk tks [] T1 Hq1) as (w2 & q2 & E2 & T2 & N2 & Hq2); [by rewrite T1|].
  rewrite (bind_done _ _ _ _ _ E2). simpl in Hn.
  assert (took 1 w w2) as K1 by by eapply took_1.
  destruct (IH w2 q2 Hq2) as [(d & w' & k & E' & Hl & K')|(w' & q' & E' & Hq' & K' & T' & N')];
    [| | left; exists d, w', (1 + k)%nat; split_and!; [done | done | by eapply took_trans] |].
  - rewrite T2. by inversion Ht.
  - rewrite T2. lia.
  - right. exists w', q'. split_and!; [done | done | exact (took_trans 1 n _ _ _ K1 K') | by rewrite T', T2|].
    intros k tk' [= <-] Ek. destruct n as [|n]; simpl in Ek.
    + injection Ek as <-. cbn [spin_pop] in E'. injection E' as <-. done.
    + by apply (N' n); [|rewrite T2].
Qed.

Lemma passes_drop dl ticks :
  passes dl ticks -> (SPIN_LIMIT <= length ticks)%nat /\
  ((exists tk, ticks !! (SPIN_LIMIT - 1)%nat = Some tk /\ dl <= tk_now tk) \/
   (passes dl (drop SPIN_LIMIT ticks) /\ drop SPIN_LIMIT ticks <> [] /\
    forall tk tks, drop SPIN_LIMIT ticks = tk :: tks -> passes dl tks)).
Proof.
  intros (before & after & -> & Hd & Hl). rewrite length_app. split; [lia|].
  assert (0 < SPIN_LIMIT)%nat as Hs by (unfold SPIN_LIMIT; lia).
  destruct (decide (SPIN_LIMIT <= length before)%nat) as [Hb|Hb].
  - right. rewrite drop_app_le by done. destruct Hl as [Hl|[-> _]]; [|simpl in Hb; lia].
    split_and!; [by exists (drop SPIN_LIMIT before), after; auto | |].
    + intros [_ ->]%app_nil. simpl in Hl. lia.
    + intros tk tks E. destruct (drop SPIN_LIMIT before) as [|b bs]; simpl in E.
      * subst after. exists [], tks. apply Forall_inv_tail in Hd. simpl in Hl.
        split_and!; [done | done | right; split; [done | lia]].
      * injection E as -> <-. exists bs, after. auto.
  - left. destruct (lookup_lt_is_Some_2 (before ++ after) (SPIN_LIMIT - 1)%nat) as [tk Etk];
      [rewrite length_app; lia|].
    exists tk. split; [done|]. rewrite lookup_app_r in Etk by lia.
    exact (Forall_lookup_1 _ _ _ _ Hd Etk).
Qed.

Lemma pop_loop_deadline fuel w q dl :
  ring_holds r (w_mem w) q -> Forall (tick_ring r) (w_ticks w) -> (length (w_ticks w) < fuel)%nat ->
  passes dl (w_ticks w) ->
  exists v w' k, pop_loop fuel r (Some dl) w = Done (v, w') /\ popped_last r v w' /\
    (v = None -> dl <= w_now w') /\ took k w w'.
Proof using Hg.
  revert w q. induction fuel as [|fuel IH]; intros w q Hq Ht Hf Hp; [lia|]. cbn [pop_loop].
  destruct (passes_drop _ _ Hp) as [Hlen Hcases].
  destruct (spin_pop_spec SPIN_LIMIT w q Hq Ht Hlen) as [(d & w' & k & E & Hlast & K)|(w1 & q1 & E & Hq1 & K1 & T1 & N1)].
  { exists (Some d), w', k. by rewrite (bind_done _ _ _ _ _ E). }
  rewrite (bind_done _ _ _ _ _ E). destruct Hq1 as (bs & h & t & Hbs & Hrep).
  pose proof (load_field r Hg w1 bs Hbs (rr_fits _ _ _ _ _ Hrep) FDataSeq) as Hload.
  rewrite (bind_done _ _ _ _ _ Hload).
  destruct (try_pop_answers w1 q1) as (w2 & E2 & Hq2 & T2 & N2); [by exists bs, h, t|].
  rewrite (bind_done _ _ _ _ _ E2).
  assert (popped_last r (fst (fifo_pop q1)) w2) as Hlast.
  { exists w1, q1. split_and!; try done. by exists bs, h, t. }
  assert (took (SPIN_LIMIT + 0) w w2) as K2 by (eapply took_trans; [exact K1 | by apply took_0]).
  destruct q1 as [|d q1]; cbn [fifo_pop fst snd] in *; [|by exists (Some d), w2, (SPIN_LIMIT + 0)%nat].
  unfold now. unfold bind at 1. destruct (Z.leb_spec dl (w_now w2)) as [Hle|Hgt]; [by exists None, w2, (SPIN_LIMIT + 0)%nat|].
  destruct Hcases as [(tk & Etk & Hdl)|(Hp1 & Hne & Hp2)].
  { exfalso. rewrite N2, (N1 (SPIN_LIMIT - 1)%nat tk) in Hgt; [lia | done | done]. }
  assert (Forall (tick_ring r) (w_ticks w2)) as Ht2 by (rewrite T2, T1; by apply Forall_drop).
  destruct Hq2 as (bs2 & h2 & t2 & Hbs2 & Hrep2).
  unfold futex_wait. rewrite bind_assoc, (bind_done _ _ _ _ _
    (load_field r Hg w2 bs2 Hbs2 (rr_fits _ _ _ _ _ Hrep2) FDataSeq)).
  assert (ring_holds r (w_mem w2) []) as Hq2 by by exists bs2, h2, t2.
  assert (0 < SPIN_LIMIT)%nat as Hs by (unfold SPIN_LIMIT; lia).
  destruct (_ =? _).
  - destruct (drop SPIN_LIMIT (w_ticks w)) as [|tk tks] eqn:Ed; [done|].
    assert (length (w_ticks w2) = S (length tks)) as Hl by by rewrite T2, T1.
    assert (length (drop SPIN_LIMIT (w_ticks w)) = S (length tks)) as Hl' by by rewrite Ed.
    rewrite length_drop in Hl'. rewrite T1 in T2.
    destruct (yield_next w2 tk tks [] T2 Hq2 Ht2) as (w3 & q3 & E3 & T3 & N3 & Hq3).
    rewrite (bind_done _ _ _ _ _ E3). destruct (IH w3 q3 Hq3) as (v & w' & k & E' & Hl3 & Hv & K').
    + rewrite T3. rewrite T2 in Ht2. by inversion Ht2.
    + rewrite T3. lia.
    + rewrite T3. by eapply Hp2.
    + exists v, w'. eexists. split_and!; [done..|].
      eapply took_trans; [exact K2 | eapply took_trans; [by eapply took_1 | exact K']].
  - rewrite bind_ret. destruct (IH w2 [] Hq2 Ht2) as (v & w' & k & E' & Hl3 & Hv & K').
    + rewrite T2, T1, length_drop. lia.
    + by rewrite T2, T1.
    + exists v, w'. eexists. split_and!; [done..|]. by eapply took_trans.
Qed.
End pop.

(** ** Nobody pushes *)

Section quiet.
Context (r : Ring).
Hypothesis Hg : ring_geom r.

(** During the tick nobody writes to the ring. *)
Definition tick_quiet (tk : tick) : Prop := forall m, tk_mem tk m !! r_ptr r = m !! r_ptr r.

(** From [w] to [w'] the first [k] ticks passed and nothing else happened. *)
Record idled (k : nat) (w w' : world) : Prop := {
  id_took : took k w w';
  id_ring : ring_has r w' [];
  id_sys : w_sys w' = w_sys w;
  id_log : w_log w' = w_log w;
}.

Lemma clock_last now ticks k tk : ticks !! k = Some tk -> clock now ticks (S k) = tk_now tk.
Proof using. revert now ticks. induction k as [|k IH]; intros now [|t ticks] E; [done | by injection E as -> | done | by apply IH]. Qed.

Lemma try_pop_quiet w : ring_has r w [] -> try_pop r w = Done (None, w).
Proof using Hg. intros (bs & Hbs & (h & t & Hrep) & _). by eapply try_pop_empty. Qed.

Lemma idled_trans j k w w1 w2 : idled j w w1 -> idled k w1 w2 -> idled (j + k) w w2.
Proof using. intros [T1 _ S1 L1] [T2 R2 S2 L2]. constructor; [by eapply took_trans | done | congruence..]. Qed.

Lemma yield_quiet w tk tks : w_ticks w = tk :: tks -> tick_quiet tk -> ring_has r w [] ->
  exists w', yield w = Done (tt, w') /\ idled 1 w w'.
Proof using.
  intros E Hk (bs & Hbs & Hq). unfold yield. rewrite E. eexists. split; [reflexivity|].
  constructor; [by eapply took_1 | | done | done]. exists bs. split; [|done]. cbn [w_mem]. by rewrite Hk.
Qed.

Lemma spin_quiet n w : ring_has r w [] -> Forall tick_quiet (w_ticks w) -> (n <= length (w_ticks w))%nat ->
  exists w', spin_pop n r w = Done (None, w') /\ idled n w w'.
Proof using Hg.
  revert w. induction n as [|n IH]; intros w Hq Ht Hn; cbn [spin_pop].
  { exists w. split; [done|]. by constructor; [apply took_0|..]. }
  rewrite (bind_done _ _ _ _ _ (try_pop_quiet w Hq)).
  destruct (w_ticks w) as [|tk tks] eqn:Ew; [simpl in Hn; lia|]. inversion Ht as [|?? Hk Hks]; subst.
  destruct (yield_quiet w tk tks Ew Hk Hq) as (w1 & E1 & H1). rewrite (bind_done _ _ _ _ _ E1).
  destruct H1 as [K1 Q1 S1 L1]. pose proof (took_ticks _ _ _ K1) as T1. rewrite Ew in T1. simpl in T1. rewrite drop_0 in T1.
  destruct (IH w1 Q1) as (w2 & E2 & H2); [by rewrite T1 | rewrite T1; simpl in Hn; lia|].
  exists w2. split; [done|]. apply (idled_trans 1 n w w1 w2); [by constructor | done].
Qed.

Lemma pop_loop_quiet fuel w dl :
  ring_has r w [] -> Forall tick_quiet (w_ticks w) -> (length (w_ticks w) < fuel)%nat -> passes dl (w_ticks w) ->
  exists w' k, pop_loop fuel r (Some dl) w = Done (None, w') /\ idled k w w' /\ dl <= w_now w'.
Proof using Hg.
  revert w. induction fuel as [|fuel IH]; intros w Hq Ht Hf Hp; [lia|]. cbn [pop_loop].
  destruct (passes_drop _ _ Hp) as [Hlen Hcases].
  destruct (spin_quiet SPIN_LIMIT w Hq Ht Hlen) as (w1 & E1 & H1). rewrite (bind_done _ _ _ _ _ E1).
  pose proof H1 as [[T1 _ C1] Q1 _ _]. pose proof Q1 as (bs & Hbs & (h & t & Hrep) & _).
  pose proof (load_field r Hg w1 bs Hbs (rr_fits _ _ _ _ _ Hrep) FDataSeq) as Hload.
  rewrite (bind_done _ _ _ _ _ Hload), (bind_done _ _ _ _ _ (try_pop_quiet w1 Q1)). unfold now. unfold bind at 1.
  destruct (Z.leb_spec dl (w_now w1)) as [Hle|Hgt]; [by exists w1, SPIN_LIMIT|].
  destruct Hcases as [(tk & Etk & Hdl)|(_ & Hne & Hp2)].
  { exfalso. pose proof (clock_last (w_now w) _ _ _ Etk) as Ecl.
    replace (S (SPIN_LIMIT - 1)) with SPIN_LIMIT in Ecl by done. rewrite C1 in Hgt. lia. }
  unfold futex_wait. rewrite bind_assoc, (bind_done _ _ _ _ _ Hload), Z.eqb_refl.
  destruct (drop SPIN_LIMIT (w_ticks w)) as [|tk tks] eqn:Ed; [done|].
  assert (Forall tick_quiet (tk :: tks)) as Ht1 by (rewrite <- Ed; by apply Forall_drop).
  inversion Ht1 as [|?? Hk Hks]; subst.
  destruct (yield_quiet w1 tk tks T1 Hk Q1) as (w2 & E2 & H2). rewrite (bind_done _ _ _ _ _ E2).
  pose proof (took_ticks _ _ _ (id_took _ _ _ H2)) as T2. rewrite T1 in T2. simpl in T2. rewrite drop_0 in T2.
  assert (S (length tks) <= length (w_ticks w))%nat as Hl.
  { apply (f_equal length) in Ed. rewrite length_drop in Ed. simpl in Ed. lia. }
  destruct (IH w2 (id_ring _ _ _ H2)) as (w' & k & E' & H' & Hd); rewrite ?T2; [done | lia | by eapply Hp2 |].
  exists w', (SPIN_LIMIT + (1 + k))%nat. split_and!; [done | | done].
  eapply idled_trans; [exact H1 | by eapply idled_trans].
Qed.

Lemma pop_blocking_quiet w timeout :
  ring_has r w [] -> Forall tick_quiet (w_ticks w) -> passes (w_now w + timeout) (w_ticks w) ->
  exists w' k, pop_blocking r (Some timeout) w = Done (None, w') /\ idled k w w' /\ w_now w + timeout <= w_now w'.
Proof using Hg.
  intros Hq Ht Hp. unfold pop_blocking, now. unfold bind at 1. cbn [fmap option_fmap option_map].
  apply pop_loop_quiet; [done | done | lia | done].
Qed.
End quiet.

(** C32: With a timeout, [pop_blocking] returns, whatever the producers do meanwhile, once
    the clock has passed the deadline for longer than the spins of one turn take; its
    answer is that of a [try_pop] on the queue the ring then held: the oldest record,
    taken out of it, or nothing if it was empty, and nothing only when the deadline
    has passed. *)
Theorem pop_blocking_deadline (r : Ring) (w : world) (q : list (list byte)) (timeout : Z) :
  ring_geom r -> ring_holds r (w_mem w) q -> Forall (tick_ring r) (w_ticks w) ->
  passes (w_now w + timeout) (w_ticks w) ->
  exists v w', pop_blocking r (Some timeout) w = Done (v, w') /\ popped_last r v w' /\
    (v = None -> w_now w + timeout <= w_now w').
Proof.
  intros Hg Hq Ht Hp. unfold pop_blocking, now. unfold bind at 1. cbn [fmap option_fmap option_map].
  destruct (pop_loop_deadline r Hg (S (length (w_ticks w))) w q (w_now w + timeout)) as (v & w' & _ & E & Hl & Hv & _);
    eauto.
Qed.

(** The schedule of the witness: the clock stands still for one turn, then a producer's
    record is there. *)
Definition arrives : tick := Tick (fun m => <[7 := pushed demo_ring demo_formatted 0 rec20]> m) 30.

Lemma arrives_keeps : tick_ring demo_ring arrives.
Proof.
  intros m q _. exists [rec20].
  exists (pushed demo_ring demo_formatted 0 rec20), (0 + (4 + blen rec20)), 0.
  split; [apply lookup_insert_eq|].
  apply (pushed_rep demo_ring demo_geom demo_formatted 0 0 [] rec20 demo_rep). vm_compute. discriminate.
Defined.

Lemma idle_ring r t : tick_ring r (idle t).
Proof. intros m q Hq. by exists q. Defined.

Lemma pop_blocking_deadline_witness :
  exists v w', pop_blocking demo_ring (Some 20)
      (demo_ready (replicate SPIN_LIMIT (idle 5) ++ [arrives] ++ replicate SPIN_LIMIT (idle 40))) = Done (v, w') /\
    popped_last demo_ring v w' /\ (v = None -> 20 <= w_now w').
Proof.
  apply (pop_blocking_deadline demo_ring
    (demo_ready (replicate SPIN_LIMIT (idle 5) ++ [arrives] ++ replicate SPIN_LIMIT (idle 40))) [] 20 demo_geom).
  - exists demo_formatted, 0, 0. split; [reflexivity | apply demo_rep].
  - cbn [w_ticks demo_ready upd_block set_mem demo_world]. apply Forall_app. split; [apply Forall_replicate, idle_ring|].
    constructor; [apply arrives_keeps | apply Forall_replicate, idle_ring].
  - exists (replicate SPIN_LIMIT (idle 5)), ([arrives] ++ replicate SPIN_LIMIT (idle 40)). split_and!.
    + reflexivity.
    + constructor; [discriminate | apply Forall_replicate; discriminate].
    + left. rewrite length_app, length_replicate. simpl. lia.
Defined.
