(* ===== verification/Frame.v ===== *)
(** * The wire frame (crates/core/src/frame.rs)

    A 16-byte little-endian header (magic, wire version, flags, schema
    fingerprint, body length) followed by the Avro body. *)

From S2P Require Import Prelude Machine.

Definition FRAME_MAGIC : Z := 21065. (* 0x5249 *)
Definition WIRE_VERSION : Z := 1.
Definition FRAME_HEADER : Z := 16.

Record Frame : Type := MkFrame {
  flags : Z;        (** u8 *)
  schema_fp : Z;    (** u64 *)
  body : list byte;
}.

#[export] Instance Frame_eq_dec : EqDecision Frame.
Proof. solve_decision. Defined.

(** [Frame::new] *)
Definition new (fp : Z) (b : list byte) : Frame := MkFrame 0 fp b.

Definition encode (f : Frame) : list byte :=
  le_bytes 2 FRAME_MAGIC ++
  [byte_of_Z WIRE_VERSION] ++
  [byte_of_Z (flags f)] ++
  le_bytes 8 (schema_fp f) ++
  le_bytes 4 (u32 (blen (body f))) ++
  body f.

Definition decode (buf : list byte) : io_result Frame :=
  if blen buf <? FRAME_HEADER then Err (io_other "frame shorter than header") else
  let magic := from_le (sub buf 0 2) in
  if negb (magic =? FRAME_MAGIC) then Err (io_other "bad frame magic") else
  let ver := from_le (sub buf 2 1) in
  if negb (ver =? WIRE_VERSION)
  then Err (io_other ("unsupported wire version " +:+ dec ver)) else
  let fl := from_le (sub buf 3 1) in
  let fp := from_le (sub buf 4 8) in
  let body_len := from_le (sub buf 12 4) in
  if blen buf <? usize (FRAME_HEADER + body_len)
  then Err (io_other "frame body truncated") else
  Ok (MkFrame fl fp (sub buf FRAME_HEADER body_len)).

(** A frame whose fields have the widths of the Rust struct and whose body length
    fits the length field. *)
Record frame_wf (f : Frame) : Prop := {
  fw_flags : in_u 8 (flags f);
  fw_fp : in_u 64 (schema_fp f);
  fw_body : in_u 32 (blen (body f));
}.

(** ** Lemmas *)

Lemma byte_of_Z_le z : [byte_of_Z z] = le_bytes 1 z.
Proof. reflexivity. Qed.

Lemma blen_encode f : blen (encode f) = FRAME_HEADER + blen (body f).
Proof.
  unfold encode, FRAME_HEADER. rewrite !byte_of_Z_le, !blen_app, !blen_le_bytes. lia.
Qed.

Lemma sub_app_here (a b c : list byte) o n :
  blen a = o -> blen b = n -> sub (a ++ b ++ c) o n = b.
Proof.
  unfold sub, blen. intros <- <-. rewrite !Nat2Z.id, drop_app_length. by rewrite take_app_length.
Qed.

(** The header fields of any encoding followed by anything. *)
Lemma encode_fields f rest :
  frame_wf f ->
  let buf := encode f ++ rest in
  from_le (sub buf 0 2) = FRAME_MAGIC /\
  from_le (sub buf 2 1) = WIRE_VERSION /\
  from_le (sub buf 3 1) = flags f /\
  from_le (sub buf 4 8) = schema_fp f /\
  from_le (sub buf 12 4) = blen (body f) /\
  sub buf FRAME_HEADER (blen (body f)) = body f.
Proof.
  intros [Hfl Hfp Hb] buf. unfold buf, encode. rewrite !byte_of_Z_le, <- !app_assoc.
  rewrite (wrap_u_small 32) by done.
  set (A := le_bytes 2 FRAME_MAGIC). set (B := le_bytes 1 WIRE_VERSION).
  set (C := le_bytes 1 (flags f)). set (D := le_bytes 8 (schema_fp f)).
  set (E := le_bytes 4 (blen (body f))).
  unfold in_u in *. split_and!.
  - by rewrite (sub_app_here [] A _ 0 2 eq_refl eq_refl : sub (A ++ _) 0 2 = A).
  - rewrite (sub_app_here A B); done.
  - rewrite (app_assoc A B), (sub_app_here (A ++ B) C); [|done..].
    by apply from_le_bytes_small.
  - rewrite (app_assoc A B), (app_assoc (A ++ B) C), (sub_app_here _ D); [|done..].
    by apply from_le_bytes_small.
  - rewrite (app_assoc A B), (app_assoc (A ++ B) C), (app_assoc ((A ++ B) ++ C) D),
      (sub_app_here _ E); [|done..]. by apply from_le_bytes_small.
  - rewrite (app_assoc A B), (app_assoc (A ++ B) C), (app_assoc ((A ++ B) ++ C) D),
      (app_assoc (((A ++ B) ++ C) ++ D) E), (sub_app_here _ (body f)); done.
Qed.

Lemma decode_encode_app f rest : frame_wf f -> decode (encode f ++ rest) = Ok f.
Proof.
  intros Hwf. destruct (encode_fields f rest Hwf) as (H1 & H2 & H3 & H4 & H5 & H6).
  destruct Hwf as [_ _ Hb]. unfold decode. rewrite H1, H2, H3, H4, H5, H6.
  pose proof (blen_nonneg rest). pose proof (blen_encode f) as Hl.
  unfold in_u in Hb. unfold FRAME_HEADER in *.
  rewrite blen_app. rewrite wrap_u_small by (unfold in_u; lia).
  rewrite (proj2 (Z.ltb_ge _ 16)), (proj2 (Z.ltb_ge _ (16 + _))) by lia.
  cbn. by destruct f.
Qed.

(** A buffer that passes the checks is an encoding followed by some bytes. *)
Lemma decode_ok_inv buf f :
  decode buf = Ok f -> exists rest, buf = encode f ++ rest /\ frame_wf f.
Proof.
  unfold decode. intros H.
  destruct (Z.ltb_spec (blen buf) FRAME_HEADER) as [|H16]; [done|].
  destruct (Z.eqb_spec (from_le (sub buf 0 2)) FRAME_MAGIC) as [Hm|]; [|done].
  destruct (Z.eqb_spec (from_le (sub buf 2 1)) WIRE_VERSION) as [Hv|]; [|done].
  cbn [negb] in H. unfold FRAME_HEADER in *.
  assert (forall o n, 0 <= o -> 0 <= n -> o + n <= 16 -> blen (sub buf o n) = n) as Hs
    by (intros; apply blen_sub; lia).
  assert (forall o n, 0 <= o -> o + Z.of_nat n <= 16 ->
            le_bytes n (from_le (sub buf o (Z.of_nat n))) = sub buf o (Z.of_nat n)) as Hle.
  { intros o n Ho Hn. apply le_bytes_from_le. specialize (Hs o (Z.of_nat n)). unfold blen in Hs. lia. }
  assert (forall o n, 0 <= o -> o + Z.of_nat n <= 16 ->
            0 <= from_le (sub buf o (Z.of_nat n)) < 256 ^ Z.of_nat n) as Hr.
  { intros o n Ho Hn. pose proof (from_le_range (sub buf o (Z.of_nat n))) as R.
    specialize (Hs o (Z.of_nat n)). unfold blen in Hs. by rewrite Hs in R by lia. }
  pose proof (Hr 12 4%nat ltac:(lia) ltac:(lia)) as Hlen.
  change (Z.of_nat 4) with 4 in Hlen. change (256 ^ 4) with (2 ^ 32) in Hlen.
  set (n := from_le (sub buf 12 4)) in *.
  rewrite wrap_u_small in H by (unfold in_u; lia).
  destruct (Z.ltb_spec (blen buf) (16 + n)) as [|Hn]; [done|]. injection H as <-.
  assert (blen (sub buf 16 n) = n) as Hbody by (apply blen_sub; lia).
  exists (sub buf (16 + n) (blen buf - (16 + n))). split.
  - unfold encode. rewrite !byte_of_Z_le. cbn [flags schema_fp body].
    rewrite Hbody, wrap_u_small by done.
    rewrite <- Hm, <- Hv. unfold n at 1.
    rewrite (Hle 0 2%nat ltac:(lia) ltac:(lia) : le_bytes 2 (from_le (sub buf 0 2)) = sub buf 0 2).
    rewrite (Hle 2 1%nat ltac:(lia) ltac:(lia) : le_bytes 1 (from_le (sub buf 2 1)) = sub buf 2 1).
    rewrite (Hle 3 1%nat ltac:(lia) ltac:(lia) : le_bytes 1 (from_le (sub buf 3 1)) = sub buf 3 1).
    rewrite (Hle 4 8%nat ltac:(lia) ltac:(lia) : le_bytes 8 (from_le (sub buf 4 8)) = sub buf 4 8).
    rewrite (Hle 12 4%nat ltac:(lia) ltac:(lia) : le_bytes 4 (from_le (sub buf 12 4)) = sub buf 12 4).
    clear - H16 Hn Hlen.
    rewrite <- !app_assoc.
    rewrite <- (sub_app_split buf 16 n (blen buf - (16 + n))) by lia.
    rewrite <- (sub_app_split buf 12 4) by lia.
    rewrite <- (sub_app_split buf 4 8) by lia.
    rewrite <- (sub_app_split buf 3 1) by lia.
    rewrite <- (sub_app_split buf 2 1) by lia.
    rewrite <- (sub_app_split buf 0 2) by lia.
    symmetry. etransitivity; [|apply sub_all]. f_equal. lia.
  - constructor; cbn [flags schema_fp body]; unfold in_u.
    + apply (Hr 3 1%nat); lia.
    + apply (Hr 4 8%nat); lia.
    + by rewrite Hbody.
Qed.

(** ** Properties *)

(** C22: Decoding is the exact inverse of encoding: a buffer decodes to [f] if and only if
    it starts with the encoding of [f] (bytes after it are ignored) and the fields
    of [f] have their widths. So nothing is lost in a round trip, no two frames
    share an encoding, and every buffer that is not such an encoding is refused. *)
Theorem frame_decode_iff (buf : list byte) (f : Frame) :
  decode buf = Ok f <-> exists rest, buf = encode f ++ rest /\ frame_wf f.
Proof.
  split; [apply decode_ok_inv|]. intros (rest & -> & Hwf). by apply decode_encode_app.
Qed.

(** The byte layout of the wire specification, on the test vector of the code. *)
Example golden_header_bytes :
  encode (MkFrame 0 72623859790382856 [Byte.xaa]) =
    [Byte.x49; Byte.x52; Byte.x01; Byte.x00;
     Byte.x08; Byte.x07; Byte.x06; Byte.x05; Byte.x04; Byte.x03; Byte.x02; Byte.x01;
     Byte.x01; Byte.x00; Byte.x00; Byte.x00; Byte.xaa].
Proof. reflexivity. Qed.
