(* ===== verification/Control.v ===== *)
(** * The control segment (crates/core/src/control.rs)

    The superblock at offset 0 (magic, version, broker pid, epoch), the submission
    ring at offset 64, and the capacity clamp of the arenas. *)

From S2P Require Import Prelude Machine Shm Circ Ring RingMem RingSpec RingThm Demo.

(** The bytes of IMPRING and a NUL, as a little-endian u64. *)
Definition CTL_MAGIC : Z := from_le (string_bytes "IMPRING" ++ [Byte.x00]).
Definition CTL_VERSION : Z := 1.
Definition CTL_OFF_MAGIC : Z := 0.
Definition CTL_OFF_VERSION : Z := 8.
Definition CTL_OFF_PID : Z := 12.
Definition CTL_OFF_EPOCH : Z := 16.
Definition SUBMISSION_BASE : Z := 64.
Definition SUBMISSION_CAP : Z := Z.shiftl 1 18.
Definition REPLY_CAP : Z := Z.shiftl 1 19.
Definition ARENA_CAP : Z := Z.shiftl 1 19.
Definition MIN_ARENA_CAP : Z := Z.shiftl 1 18.
Definition MAX_ARENA_CAP : Z := Z.shiftl 1 27.

(** [Ord::clamp] *)
Definition clamp (lo hi z : Z) : Z := Z.max lo (Z.min hi z).

Definition clamp_arena_cap (requested : Z) : Z :=
  if requested =? 0 then ARENA_CAP
  else next_power_of_two (clamp MIN_ARENA_CAP MAX_ARENA_CAP requested).

Definition control_segment_bytes : Z := usize (SUBMISSION_BASE + ring_bytes SUBMISSION_CAP).

Definition format_control (seg : Segment) (broker_pid epoch : Z) : prog (io_result Ring) :=
  let? ring := format seg SUBMISSION_BASE SUBMISSION_CAP in
  do! store_u32 (seg_ptr seg) CTL_OFF_VERSION CTL_VERSION in
  do! store_u32 (seg_ptr seg) CTL_OFF_PID (u32 broker_pid) in
  do! store_u64 (seg_ptr seg) CTL_OFF_EPOCH epoch in
  do! store_u64 (seg_ptr seg) CTL_OFF_MAGIC CTL_MAGIC in
  ret (Ok ring).

Definition attach_control (seg : Segment) : prog (io_result Ring) :=
  let! magic := load_u64 (seg_ptr seg) CTL_OFF_MAGIC in
  if negb (magic =? CTL_MAGIC)
  then ret (Err (io_other "control magic mismatch (broker not running?)")) else
  let! version := load_u32 (seg_ptr seg) CTL_OFF_VERSION in
  if negb (version =? CTL_VERSION)
  then ret (Err (io_other ("control version " +:+ dec version +:+ " unsupported"))) else
  attach seg SUBMISSION_BASE.

Definition broker_pid (seg : Segment) : prog Z :=
  let! v := load_u32 (seg_ptr seg) CTL_OFF_PID in ret (i32 v).

Definition broker_epoch (seg : Segment) : prog Z :=
  load_u64 (seg_ptr seg) CTL_OFF_EPOCH.

(** ** The superblock of a formatted segment *)

Record superblock (bs : list byte) (pid epoch : Z) : Prop := {
  sb_magic : from_le (sub bs CTL_OFF_MAGIC 8) = CTL_MAGIC;
  sb_version : from_le (sub bs CTL_OFF_VERSION 4) = CTL_VERSION;
  sb_pid : from_le (sub bs CTL_OFF_PID 4) = u32 pid;
  sb_epoch : from_le (sub bs CTL_OFF_EPOCH 8) = epoch;
}.

Definition submission_ring (seg : Segment) : Ring :=
  MkRing seg SUBMISSION_BASE SUBMISSION_CAP (SUBMISSION_CAP - 1).

(** The control segment is ready: superblock and submission ring, both attachable. *)
Definition ctl_ready (seg : Segment) (w : world) (pid epoch : Z) : Prop :=
  exists bs, w_mem w !! seg_ptr seg = Some bs /\ blen bs = seg_len seg /\
    superblock bs pid epoch /\ fits (submission_ring seg) bs /\
    fget (submission_ring seg) bs FMagic = MAGIC /\
    fget (submission_ring seg) bs FCap = SUBMISSION_CAP.

Lemma submission_geom seg : ring_geom (submission_ring seg).
Proof. constructor; [exists 18; split; [lia | reflexivity] | reflexivity | vm_compute; discriminate]. Qed.

(** Bounds of updated blocks. *)
Ltac upd_lia :=
  first [lia | rewrite blen_le_bytes; upd_lia | rewrite blen_upd; upd_lia].

(** A little-endian store outside the ring leaves its fields alone. *)
Lemma fget_upd_outside r bs o n v f :
  ring_geom r -> fits r bs -> 0 <= o -> o + Z.of_nat n <= r_base r ->
  fget r (upd bs o (le_bytes n v)) f = fget r bs f.
Proof.
  intros Hg Hf Ho Hn. pose proof (foff_bound f). pose proof (foff_range r Hg f). pose proof (cap_pos r Hg).
  unfold fits, RING_HEADER in *. unfold fget. f_equal.
  apply sub_upd_disjoint; upd_lia.
Qed.

Lemma dget_upd_outside r bs o n v :
  ring_geom r -> fits r bs -> 0 <= o -> o + Z.of_nat n <= r_base r ->
  dget r (upd bs o (le_bytes n v)) = dget r bs.
Proof.
  intros Hg Hf Ho Hn. pose proof (cap_pos r Hg).
  unfold dget, fits, RING_HEADER in *. apply sub_upd_disjoint; upd_lia.
Qed.

(** The four stores of [format_control] on a block. *)
Definition superblocked (bs : list byte) (pid epoch : Z) : list byte :=
  upd (upd (upd (upd bs CTL_OFF_VERSION (le_bytes 4 CTL_VERSION))
    CTL_OFF_PID (le_bytes 4 (u32 pid))) CTL_OFF_EPOCH (le_bytes 8 epoch))
    CTL_OFF_MAGIC (le_bytes 8 CTL_MAGIC).

Lemma blen_superblocked bs pid epoch : 64 <= blen bs -> blen (superblocked bs pid epoch) = blen bs.
Proof.
  intros. unfold superblocked, CTL_OFF_MAGIC, CTL_OFF_VERSION, CTL_OFF_PID, CTL_OFF_EPOCH.
  do 4 rewrite blen_upd by upd_lia. done.
Qed.

Lemma sub_superblocked bs pid epoch o n :
  64 <= blen bs -> 24 <= o -> sub (superblocked bs pid epoch) o n = sub bs o n.
Proof.
  intros H Ho. unfold superblocked, CTL_OFF_MAGIC, CTL_OFF_VERSION, CTL_OFF_PID, CTL_OFF_EPOCH.
  by do 4 rewrite sub_upd_disjoint by upd_lia.
Qed.

Lemma superblocked_superblock bs pid epoch :
  64 <= blen bs -> in_u 64 epoch -> superblock (superblocked bs pid epoch) pid epoch.
Proof.
  intros H Hep. unfold superblocked.
  constructor; unfold CTL_OFF_MAGIC, CTL_OFF_VERSION, CTL_OFF_PID, CTL_OFF_EPOCH;
    repeat (rewrite sub_upd_disjoint by upd_lia).
  - rewrite (from_le_sub_upd _ 0 8) by upd_lia. reflexivity.
  - rewrite (from_le_sub_upd _ 8 4) by upd_lia. reflexivity.
  - rewrite (from_le_sub_upd _ 12 4) by upd_lia. apply Z.mod_small. by apply wrap_u_range.
  - rewrite (from_le_sub_upd _ 16 8) by upd_lia. by apply Z.mod_small.
Qed.

(** A store into a block that was just written. *)
Lemma store_twice p bs width off v w :
  0 <= off -> off + Z.of_nat width <= blen bs ->
  store width p off v (upd_block p bs w) = Done (tt, upd_block p (upd bs off (le_bytes width v)) w).
Proof.
  intros. rewrite (store_ok _ _ bs) by (done || apply upd_block_lookup).
  exact (f_equal (fun x => Done (tt, x)) (upd_block_twice _ _ _ _)).
Qed.

(** [format_control], executed. *)
Lemma format_control_eq seg w bs pid epoch :
  w_mem w !! seg_ptr seg = Some bs -> blen bs = seg_len seg ->
  control_segment_bytes <= seg_len seg < 2 ^ 64 ->
  format_control seg pid epoch w =
    Done (Ok (submission_ring seg),
          upd_block (seg_ptr seg)
            (superblocked (formatted (submission_ring seg) bs) pid epoch) w).
Proof.
  intros Hbs Hl Hs. change control_segment_bytes with 262400 in Hs.
  destruct (format_eq seg 64 18 w bs Hbs Hl ltac:(lia) ltac:(lia) eq_refl
              ltac:(unfold RING_HEADER; lia)) as (Hg & Hf & E).
  change (MkRing seg 64 (2 ^ 18) (2 ^ 18 - 1)) with (submission_ring seg) in *.
  unfold format_control, bind_io.
  erewrite bind_done by exact E. cbv beta iota.
  set (b0 := formatted _ bs) in *.
  assert (fits (submission_ring seg) b0) as Hf0 by (by apply formatted_fields).
  change (64 + 192 + 262144 <= blen b0) in Hf0.
  unfold superblocked, CTL_OFF_MAGIC, CTL_OFF_VERSION, CTL_OFF_PID, CTL_OFF_EPOCH.
  do 4 (erewrite bind_done
    by (apply store_twice; upd_lia)).
  done.
Qed.

(** The submission ring after [format_control] is empty and unlocked. *)
Lemma superblocked_has seg w bs pid epoch :
  w_mem w !! seg_ptr seg = Some bs -> fits (submission_ring seg) bs ->
  ring_has (submission_ring seg)
    (upd_block (seg_ptr seg) (superblocked (formatted (submission_ring seg) bs) pid epoch) w) [].
Proof.
  intros Hbs Hf. pose proof (submission_geom seg) as Hg.
  set (r := submission_ring seg) in *. set (b0 := formatted r bs).
  destruct (formatted_fields r Hg bs Hf) as (Hh & Ht & Hl & _ & _ & Hf0). fold b0 in Hh, Ht, Hl, Hf0.
  assert (64 <= blen b0) as H64.
  { unfold fits, RING_HEADER in Hf0. change (64 + 192 + 262144 <= blen b0) in Hf0. lia. }
  assert (forall o n, 64 <= o -> sub (superblocked b0 pid epoch) o n = sub b0 o n) as Hsub
    by (intros; apply sub_superblocked; lia).
  assert (forall f, fget r (superblocked b0 pid epoch) f = fget r b0 f) as Hget.
  { intros f. unfold fget. rewrite Hsub; [done|]. pose proof (foff_bound f).
    change (r_base r) with 64. lia. }
  exists (superblocked b0 pid epoch).
  split; [apply upd_block_lookup|]. rewrite !Hget. split; [|done].
  destruct (formatted_holds r Hg bs Hf) as (h & t & [? ? ? ? Hrh Hrt Hrd]). exists h, t.
  constructor; rewrite ?Hget; try done.
  - unfold fits. rewrite blen_superblocked by exact H64. exact Hf0.
  - assert (dget r (superblocked b0 pid epoch) = dget r b0) as ->; [|exact Hrd].
    apply Hsub. vm_compute. discriminate.
Qed.

(** A run on the ring keeps everything of the block that is outside it. *)
Lemma run_ops_framed r w q os :
  ring_geom r -> ring_has r w q ->
  exists w', run_ops r os w = Done (fifo_run (r_capacity r) q os, w') /\
    exists bs bs', w_mem w !! r_ptr r = Some bs /\ w_mem w' !! r_ptr r = Some bs' /\
      ring_frame r bs bs'.
Proof.
  intros Hg. revert w q. induction os as [|o os IH]; intros w q H; simpl.
  { exists w. split; [done|]. destruct H as (bs & Hbs & _). by exists bs, bs. }
  assert (exists w1, run_op r o w = Done (fst (fifo_op (r_capacity r) q o), w1) /\
    ring_has r w1 (snd (fifo_op (r_capacity r) q o)) /\
    exists bs bs', w_mem w !! r_ptr r = Some bs /\ w_mem w1 !! r_ptr r = Some bs' /\
      ring_frame r bs bs') as (w1 & E & H1 & (bs & b1 & Hbs & Hb1 & Hfr)).
  { destruct o as [d|]; simpl.
    - destruct (try_push_sim r Hg w q d H) as (w' & E & H' & [Hb _ _ _ _ _ _]). exists w'.
      erewrite bind_done by exact E. by destruct (fifo_push _ q d).
    - destruct (try_pop_sim r Hg w q H) as (w' & E & H' & [Hb _ _ _ _ _ _]). exists w'.
      erewrite bind_done by exact E. by destruct (fifo_pop q). }
  erewrite bind_done by exact E. destruct (fifo_op (r_capacity r) q o) as [x q1]. simpl in *.
  destruct (IH w1 q1 H1) as (w2 & E2 & (c1 & b2 & Hc1 & Hb2 & Hfr2)).
  exists w2. erewrite bind_done by exact E2. split; [done|]. exists bs, b2.
  split_and!; [done..|]. rewrite Hb1 in Hc1. injection Hc1 as <-. by etransitivity.
Qed.

(** What the connector reads in a ready segment. *)
Lemma ctl_ready_reads seg w pid epoch :
  ctl_ready seg w pid epoch -> in_i 32 pid -> seg_len seg < 2 ^ 64 ->
  attach_control seg w = Done (Ok (submission_ring seg), w) /\
  broker_pid seg w = Done (pid, w) /\ broker_epoch seg w = Done (epoch, w).
Proof.
  intros (bs & Hbs & Hl & [Hm Hv Hp He] & Hf & Hrm & Hrc) Hpid Hs.
  assert (64 <= blen bs) as H64.
  { unfold fits, RING_HEADER in Hf. change (64 + 192 + 262144 <= blen bs) in Hf. lia. }
  unfold attach_control, broker_pid, broker_epoch, load_u64, load_u32.
  assert (forall n o, 0 <= o -> o + Z.of_nat n <= 64 ->
    load n (seg_ptr seg) o w = Done (from_le (sub bs o (Z.of_nat n)), w)) as Hload
    by (intros; apply load_ok; [done | lia | lia]).
  unfold CTL_OFF_MAGIC, CTL_OFF_VERSION, CTL_OFF_PID, CTL_OFF_EPOCH in *. split_and!.
  - erewrite bind_done by (apply (Hload 8%nat); lia).
    rewrite (Hm : from_le (sub bs 0 (Z.of_nat 8)) = _), Z.eqb_refl. cbn [negb].
    erewrite bind_done by (apply (Hload 4%nat); lia).
    rewrite (Hv : from_le (sub bs 8 (Z.of_nat 4)) = _), Z.eqb_refl. cbn [negb].
    by eapply (attach_eq (submission_ring seg)); try done; apply submission_geom.
  - erewrite bind_done by (apply (Hload 4%nat); lia).
    rewrite (Hp : from_le (sub bs 12 (Z.of_nat 4)) = _). unfold ret.
    by rewrite wrap_i_wrap_u, wrap_i_small.
  - rewrite (Hload 8%nat) by lia. by rewrite (He : from_le (sub bs 16 (Z.of_nat 8)) = _).
Qed.

(** ** Properties *)

(** From the formatted segment on, whatever is pushed and popped on the submission ring. *)
Lemma superblocked_keeps (seg : Segment) (w : world) (bs : list byte) (pid epoch : Z) (os : list ring_op) :
  let w1 := upd_block (seg_ptr seg) (superblocked (formatted (submission_ring seg) bs) pid epoch) w in
  w_mem w !! seg_ptr seg = Some bs -> blen bs = seg_len seg ->
  control_segment_bytes <= seg_len seg < 2 ^ 64 -> in_i 32 pid -> in_u 64 epoch ->
  exists w2, run_ops (submission_ring seg) os w1 = Done (fifo_run SUBMISSION_CAP [] os, w2) /\
    attach_control seg w2 = Done (Ok (submission_ring seg), w2) /\
    broker_pid seg w2 = Done (pid, w2) /\ broker_epoch seg w2 = Done (epoch, w2).
Proof.
  intros w1 Hbs Hl Hs Hpid Hep.
  pose proof (submission_geom seg) as Hg.
  assert (fits (submission_ring seg) bs) as Hf.
  { change control_segment_bytes with 262400 in Hs.
    change (64 + 192 + 262144 <= blen bs). lia. }
  destruct (run_ops_framed _ _ _ os Hg (superblocked_has seg w bs pid epoch Hbs Hf))
    as (w2 & E2 & (b1 & b2 & Hb1 & Hb2 & [Lf Of Mf Cf])).
  eexists. split; [exact E2|].
  apply ctl_ready_reads; [|done|lia].
  change (r_ptr (submission_ring seg)) with (seg_ptr seg) in *.
  rewrite upd_block_lookup in Hb1. injection Hb1 as <-.
  set (b0 := formatted (submission_ring seg) bs) in *.
  destruct (formatted_fields _ Hg bs Hf) as (_ & _ & _ & Hc & Hm & Hf0). fold b0 in Hc, Hm, Hf0.
  assert (64 <= blen b0) as H64.
  { unfold fits, RING_HEADER in Hf0. change (64 + 192 + 262144 <= blen b0) in Hf0. lia. }
  assert (blen b0 = blen bs) as Hlb.
  { unfold b0, formatted. by rewrite !(blen_fset _ Hg) by (repeat apply (fits_fset _ Hg); done). }
  destruct (superblocked_superblock b0 pid epoch H64 Hep) as [S1 S2 S3 S4].
  assert (forall o n, 0 <= o -> o + n <= 64 ->
    sub b2 o n = sub (superblocked b0 pid epoch) o n) as Hsub.
  { intros o n Ho Hn. apply Of. split; [done | left; done]. }
  exists b2. rewrite blen_superblocked in Lf by done.
  split_and!; [done | lia | | unfold fits; by rewrite Lf | rewrite Mf | rewrite Cf].
  - constructor; rewrite Hsub by (vm_compute; discriminate); done.
  - unfold fget. rewrite sub_superblocked; [done | done | vm_compute; discriminate].
  - unfold fget. rewrite sub_superblocked; [done | done | vm_compute; discriminate].
Qed.

(** C25: A control segment the broker has formatted is what every connector reads, at any
    later time: after any history of pushes and pops on the submission ring the
    ring still answers like a FIFO queue of capacity [SUBMISSION_CAP], attaching
    still yields that ring, and the broker's pid and epoch are the ones the broker
    wrote (the ring never runs into the superblock). *)
Theorem control_bootstrap (seg : Segment) (w : world) (bs : list byte) (pid epoch : Z)
    (os : list ring_op) :
  w_mem w !! seg_ptr seg = Some bs -> blen bs = seg_len seg ->
  control_segment_bytes <= seg_len seg < 2 ^ 64 ->
  in_i 32 pid -> in_u 64 epoch ->
  exists r w1 w2,
    format_control seg pid epoch w = Done (Ok r, w1) /\
    run_ops r os w1 = Done (fifo_run SUBMISSION_CAP [] os, w2) /\
    attach_control seg w2 = Done (Ok r, w2) /\
    broker_pid seg w2 = Done (pid, w2) /\
    broker_epoch seg w2 = Done (epoch, w2).
Proof.
  intros Hbs Hl Hs Hpid Hep.
  destruct (superblocked_keeps seg w bs pid epoch os Hbs Hl Hs Hpid Hep) as (w2 & E2 & Hrest).
  do 3 eexists. split; [by apply format_control_eq|]. by split.
Qed.

Definition demo_ctl_seg : Segment := MkSegment "/impulse-ring.ctl.v1" 9 262400 true.
Definition demo_ctl_world : world :=
  World {[ 9 := replicate (Z.to_nat 262400) Byte.x00 ]} 0 demo_sys [] 0 [].

Lemma control_bootstrap_witness :
  exists r w1 w2,
    format_control demo_ctl_seg 4242 1000 demo_ctl_world = Done (Ok r, w1) /\
    run_ops r [OpPush rec20; OpPop; OpPop] w1 =
      Done ([OutPush true; OutPop (Some rec20); OutPop None], w2) /\
    attach_control demo_ctl_seg w2 = Done (Ok r, w2) /\
    broker_pid demo_ctl_seg w2 = Done (4242, w2) /\
    broker_epoch demo_ctl_seg w2 = Done (1000, w2).
Proof.
  apply (control_bootstrap demo_ctl_seg demo_ctl_world (replicate (Z.to_nat 262400) Byte.x00)
           4242 1000 [OpPush rec20; OpPop; OpPop]).
  - reflexivity.
  - unfold blen. rewrite length_replicate. exact (Z2Nat.id 262400 ltac:(lia)).
  - vm_compute. split; [discriminate | reflexivity].
  - vm_compute. split; [discriminate | reflexivity].
  - vm_compute. split; [discriminate | reflexivity].
Defined.

(** C36: [attach_control] is safe on whatever a segment of 72 bytes or more contains (the
    superblock and the magic of the ring): it never panics, never reads outside the
    mapping, changes nothing, and when it accepts the segment, magic and version are the
    expected ones and the ring it returns lies inside the mapping with a power-of-two
    capacity, which is what the safety of every later operation needs. It relies on
    the length: a mapping shorter than the first field it reads past its end. *)
Theorem attach_control_sound (seg : Segment) (w : world) (bs : list byte) :
  w_mem w !! seg_ptr seg = Some bs -> blen bs = seg_len seg -> seg_len seg < 2 ^ 64 ->
  (72 <= seg_len seg ->
   exists res, attach_control seg w = Done (res, w) /\
     forall r, res = Ok r ->
       from_le (sub bs CTL_OFF_MAGIC 8) = CTL_MAGIC /\
       from_le (sub bs CTL_OFF_VERSION 4) = CTL_VERSION /\
       r_seg r = seg /\ r_base r = SUBMISSION_BASE /\ ring_geom r /\ fits r bs) /\
  (seg_len seg < 8 -> exists why, attach_control seg w = Undefined why).
Proof.
  intros Hbs Hl Hs2. split.
  2:{ intros Hs. eexists. unfold attach_control, load_u64, load, read_bytes, bind, CTL_OFF_MAGIC.
      rewrite Hbs. destruct (in_range bs 0 (Z.of_nat 8)) eqn:Hr; [|reflexivity].
      apply in_range_spec in Hr. lia. }
  intros Hs1. assert (72 <= seg_len seg < 2 ^ 64) as Hs by done. unfold attach_control, attach, load_u64, load_u32.
  assert (forall n o, 0 <= o -> o + Z.of_nat n <= 72 ->
    load n (seg_ptr seg) o w = Done (from_le (sub bs o (Z.of_nat n)), w)) as Hload
    by (intros; apply load_ok; [done | lia | lia]).
  unfold CTL_OFF_MAGIC, CTL_OFF_VERSION, SUBMISSION_BASE, OFF_MAGIC, OFF_CAP.
  erewrite bind_done by (apply Hload; lia).
  destruct (Z.eqb_spec (from_le (sub bs 0 (Z.of_nat 8))) CTL_MAGIC) as [Hm|]; cbn [negb];
    [|eexists; split; [reflexivity | done]].
  erewrite bind_done by (apply Hload; lia).
  destruct (Z.eqb_spec (from_le (sub bs 8 (Z.of_nat 4))) CTL_VERSION) as [Hv|]; cbn [negb];
    [|eexists; split; [reflexivity | done]].
  erewrite bind_done by (apply Hload; lia).
  destruct (Z.eqb_spec (from_le (sub bs (64 + 0) (Z.of_nat 4))) MAGIC) as [Hrm|]; cbn [negb];
    [|eexists; split; [reflexivity | done]].
  erewrite bind_done by (apply Hload; lia).
  pose proof (from_le_range (sub bs (64 + 4) (Z.of_nat 4))) as Hcr.
  assert (length (sub bs (64 + 4) (Z.of_nat 4)) = 4%nat) as Hlen.
  { pose proof (blen_sub bs (64 + 4) 4 ltac:(lia) ltac:(lia) ltac:(lia)) as B.
    unfold blen in B. change (Z.of_nat 4) with 4. lia. }
  rewrite Hlen in Hcr. set (cap := from_le (sub bs (64 + 4) (Z.of_nat 4))) in *. clearbody cap.
  change (256 ^ Z.of_nat 4) with (2 ^ 32) in Hcr.
  destruct (is_power_of_two cap) eqn:Hpow; cbn [negb orb];
    [|eexists; split; [reflexivity | done]].
  destruct (Z.ltb_spec (seg_len seg) (usize (64 + ring_bytes cap))) as [|Hfit];
    [eexists; split; [reflexivity | done]|].
  apply is_power_of_two_spec in Hpow as (k & Hk & ->).
  assert (k < 32) as Hk32 by (apply (Z.pow_lt_mono_r_iff 2); lia).
  assert (0 < 2 ^ k) by (apply Z.pow_pos_nonneg; lia).
  unfold ring_bytes, RING_HEADER in Hfit.
  rewrite !wrap_u_small in Hfit by (unfold in_u; rewrite ?wrap_u_small; unfold in_u; lia).
  eexists. split; [reflexivity|]. intros r [= <-].
  split_and!; [done..| |].
  - constructor; [exists k; split; [lia | done] | | done]. simpl.
    apply wrap_u_small. unfold in_u. lia.
  - unfold fits. simpl. unfold RING_HEADER. lia.
Qed.

(** A hand-made segment of 512 bytes with a ring of 64 bytes passes the checks; one of four
    bytes is too short to be looked at. *)
Definition short_seg : Segment := MkSegment "/impulse-ring.ctl.v1" 7 4 false.
Definition tiny_seg : Segment := MkSegment "/impulse-ring.ctl.v1" 7 512 false.
Definition tiny_ring : Ring := MkRing tiny_seg 64 64 63.
Definition tiny_bytes : list byte :=
  superblocked (formatted tiny_ring (replicate 512 Byte.x00)) 1 1.
Definition tiny_world : world := upd_block 7 tiny_bytes (demo_world []).

Lemma attach_control_sound_witness :
  match attach_control tiny_seg tiny_world with
  | Done (Ok r, _) => r_capacity r =? 64
  | _ => false
  end = true /\
  (exists res, attach_control tiny_seg tiny_world = Done (res, tiny_world) /\
    forall r, res = Ok r ->
      from_le (sub tiny_bytes CTL_OFF_MAGIC 8) = CTL_MAGIC /\
      from_le (sub tiny_bytes CTL_OFF_VERSION 4) = CTL_VERSION /\
      r_seg r = tiny_seg /\ r_base r = SUBMISSION_BASE /\ ring_geom r /\ fits r tiny_bytes) /\
  exists why, attach_control short_seg (upd_block 7 (replicate 4 Byte.x00) (demo_world [])) = Undefined why.
Proof.
  split; [vm_compute; reflexivity|]. split.
  - apply (attach_control_sound tiny_seg tiny_world tiny_bytes); [reflexivity | vm_compute; reflexivity..|].
    vm_compute. discriminate.
  - apply (attach_control_sound short_seg (upd_block 7 (replicate 4 Byte.x00) (demo_world []))
      (replicate 4 Byte.x00)); vm_compute; reflexivity.
Defined.

(** A legal ring capacity, whatever is requested. *)
Lemma clamp_arena_cap_pow requested :
  in_u 64 requested -> exists k, 18 <= k <= 27 /\ clamp_arena_cap requested = 2 ^ k.
Proof.
  intros Hr. unfold clamp_arena_cap. destruct (Z.eqb_spec requested 0); [by exists 19|].
  change MIN_ARENA_CAP with (2 ^ 18). change MAX_ARENA_CAP with (2 ^ 27).
  unfold clamp. set (x := Z.max (2 ^ 18) (Z.min (2 ^ 27) requested)).
  assert (2 ^ 18 <= x <= 2 ^ 27) as Hx by lia.
  pose proof (next_power_of_two_ge x) as Hge.
  pose proof (next_power_of_two_le x 27 ltac:(lia) ltac:(lia)) as Hle.
  destruct (next_power_of_two_pow x) as (k & Hk & E). exists k. split; [|done]. rewrite E in *.
  split; apply (Z.pow_le_mono_r_iff 2); lia.
Qed.

(** C35: The capacity the broker gives an arena is always a legal ring capacity, a power
    of two between [MIN_ARENA_CAP] and [MAX_ARENA_CAP]; a request of 0 gets the
    default, a request up to the minimum gets the minimum, any other request gets at
    least what it asked for (up to the maximum), and rounding up to a capacity above the
    minimum gives less than twice the request. *)
Theorem clamp_arena_cap_spec (requested : Z) :
  in_u 64 requested ->
  let c := clamp_arena_cap requested in
  (exists k, 18 <= k <= 27 /\ c = 2 ^ k) /\
  MIN_ARENA_CAP <= c <= MAX_ARENA_CAP /\
  (requested = 0 -> c = ARENA_CAP) /\
  (requested <> 0 -> Z.min requested MAX_ARENA_CAP <= c) /\
  (requested <> 0 -> requested <= MIN_ARENA_CAP -> c = MIN_ARENA_CAP) /\
  (requested <> 0 -> MIN_ARENA_CAP < c -> c < 2 * requested).
Proof.
  intros Hr c. split; [by apply clamp_arena_cap_pow|]. revert c. unfold in_u in Hr. unfold clamp_arena_cap.
  change ARENA_CAP with (2 ^ 19). change MIN_ARENA_CAP with (2 ^ 18). change MAX_ARENA_CAP with (2 ^ 27).
  destruct (Z.eqb_spec requested 0) as [->|Hne]; cbv zeta.
  { split_and!; lia. }
  unfold clamp. set (x := Z.max (2 ^ 18) (Z.min (2 ^ 27) requested)).
  assert (2 ^ 18 <= x <= 2 ^ 27) as Hx by lia.
  pose proof (next_power_of_two_ge x) as Hge.
  pose proof (next_power_of_two_le x 27 ltac:(lia) ltac:(lia)) as Hle.
  split_and!; try lia.
  - intros _ Hsm. assert (x = 2 ^ 18) as -> by lia. reflexivity.
  - intros _ Hmin. assert (requested <= 2 ^ 18 \/ 2 ^ 18 < x /\ x <= requested) as [Hsm|[Hsm Hxr]] by lia.
    + assert (x = 2 ^ 18) as Ex by lia. rewrite Ex in Hmin. vm_compute in Hmin. discriminate.
    + unfold next_power_of_two. destruct (Z.leb_spec x 1); [lia|].
      pose proof (Z.log2_up_spec x ltac:(lia)) as [Hl _].
      pose proof (Z.log2_up_pos x ltac:(lia)).
      replace (2 ^ Z.log2_up x) with (2 * 2 ^ Z.pred (Z.log2_up x)); [lia|].
      rewrite <- Z.pow_succ_r by lia. f_equal. lia.
Qed.

Lemma clamp_arena_cap_spec_witness :
  let c := clamp_arena_cap (300 * 1024) in
  (exists k, 18 <= k <= 27 /\ c = 2 ^ k) /\
  MIN_ARENA_CAP <= c <= MAX_ARENA_CAP /\
  (300 * 1024 = 0 -> c = ARENA_CAP) /\
  (300 * 1024 <> 0 -> Z.min (300 * 1024) MAX_ARENA_CAP <= c) /\
  (300 * 1024 <> 0 -> 300 * 1024 <= MIN_ARENA_CAP -> c = MIN_ARENA_CAP) /\
  (300 * 1024 <> 0 -> MIN_ARENA_CAP < c -> c < 2 * (300 * 1024)).
Proof. apply (clamp_arena_cap_spec (300 * 1024)). vm_compute. split; [discriminate | reflexivity]. Defined.
