(* ===== verification/Util.v ===== *)
(** * Segment names and access keys (crates/core/src/util.rs)

    SHA-256 is third-party code: a parameter of the model, with the length of its
    digest as its only law. *)

From S2P Require Import Prelude Machine Shm.

Definition CONTROL_SEGMENT : string := "/impulse-ring.ctl.v1".

Definition client_segment (nonce : Z) : string :=
  "/impulse-ring.cli." +:+ dec nonce +:+ ".v1".
Definition channel_arena (channel_id : Z) : string :=
  "/impulse-ring.arena." +:+ dec channel_id +:+ ".v1".
Definition function_arena (fn_id : Z) : string :=
  "/impulse-ring.fn." +:+ dec fn_id +:+ ".v1".

(** Eight random bytes, copied into the array [b]; a failure panics. *)
Definition random_u64 : prog Z :=
  let! r := getrandom in
  match r with
  | Ok b => ret (from_le (take 8 b))
  | Err _ => panic "getrandom failed"
  end.

(** The [sha2] crate. *)
Class Sha256 : Type := {
  sha256 : list byte -> list byte;
  sha256_len : forall m, length (sha256 m) = 32%nat;
}.

Section keys.
Context `{Sha256}.

Definition key_hash (key : string) : list byte :=
  sha256 (string_bytes "impulse-ring/key/v1:" ++ string_bytes key).

(** One turn of the comparison loop: [diff |= h[i] ^ stored[i]]. *)
Definition diff_step (h stored : list byte) (diff : Z) (i : nat) : Z :=
  Z.lor diff (Z.lxor (byte_to_Z (nth i h Byte.x00)) (byte_to_Z (nth i stored Byte.x00))).

Definition key_matches (presented : string) (stored_hash : list byte) : bool :=
  let h := key_hash presented in
  let diff := foldl (diff_step h stored_hash) 0 (seq 0 32) in
  diff =? 0.

Lemma diff_zero h s l diff :
  foldl (diff_step h s) diff l = 0 <->
  diff = 0 /\ forall i, i ∈ l -> nth i h Byte.x00 = nth i s Byte.x00.
Proof.
  revert diff. induction l as [|i l IH]; intros diff; simpl.
  - split; [intros ->; split; [done|] | by intros [-> _]]. intros i Hi. set_solver.
  - rewrite IH. unfold diff_step at 1. rewrite Z.lor_eq_0_iff, Z.lxor_eq_0_iff. split.
    + intros [[-> E] Hl]. split; [done|]. intros j Hj. apply elem_of_cons in Hj as [->|Hj]; [|auto].
      apply (f_equal byte_of_Z) in E. by rewrite !byte_of_to_Z in E.
    + intros [-> Hl]. split; [split; [done|]|].
      * rewrite Hl; [done | by left].
      * intros j Hj. apply Hl. by right.
Qed.

Lemma length_key_hash key : length (key_hash key) = 32%nat.
Proof. apply sha256_len. Qed.

Lemma key_matches_iff (presented : string) (stored : list byte) :
  length stored = 32%nat ->
  key_matches presented stored = true <-> key_hash presented = stored.
Proof.
  intros Hs. unfold key_matches. rewrite Z.eqb_eq, diff_zero. split; [|by intros ->].
  intros [_ Hn]. apply (nth_ext _ _ Byte.x00 Byte.x00); [by rewrite length_key_hash|].
  intros i Hi. apply Hn. rewrite length_key_hash in Hi. apply elem_of_seq. lia.
Qed.
End keys.

(** ** Names *)

(** The segments the program creates. *)
Inductive seg_id : Type :=
| SegControl
| SegClient (nonce : Z)
| SegChannel (channel_id : Z)
| SegFunction (fn_id : Z).

Definition seg_id_name (s : seg_id) : string :=
  match s with
  | SegControl => CONTROL_SEGMENT
  | SegClient n => client_segment n
  | SegChannel n => channel_arena n
  | SegFunction n => function_arena n
  end.

Lemma name_digits_inj (p s : string) n m :
  p +:+ dec n +:+ s = p +:+ dec m +:+ s -> n = m.
Proof. intros E. by apply str_app_inj_l, str_app_inj_r, dec_inj in E. Qed.

Lemma seg_id_name_inj a b : seg_id_name a = seg_id_name b -> a = b.
Proof.
  destruct a as [|n|n|n], b as [|m|m|m]; simpl;
    unfold CONTROL_SEGMENT, client_segment, channel_arena, function_arena; intros E;
    try done; try (rewrite !str_app_cons in E; discriminate E);
    f_equal; by apply name_digits_inj in E.
Qed.

Lemma string_bytes_app s t : string_bytes (s +:+ t) = string_bytes s ++ string_bytes t.
Proof. induction s as [|a s IH]; [done|]. rewrite str_app_cons. unfold string_bytes in *. cbn. by f_equal. Qed.

(** No name of the program contains a NUL, so [CString::new] never refuses one. *)
Lemma has_nul_app s t : has_nul (s +:+ t) = has_nul s || has_nul t.
Proof.
  unfold has_nul. by rewrite string_bytes_app, existsb_app.
Qed.

Lemma has_nul_digit x : has_nul (String (pretty_N_char x) "") = false.
Proof. unfold pretty_N_char. by repeat case_match. Qed.

Lemma has_nul_pretty_N_go x s : has_nul s = false -> has_nul (pretty_N_go x s) = false.
Proof.
  revert s. induction (N.lt_wf_0 x) as [x _ IH]. intros s Hs.
  destruct (decide (0 < x)%N) as [Hx|Hx].
  - rewrite pretty_N_go_step by done. apply IH; [by apply N.div_lt|].
    change (String (pretty_N_char (x `mod` 10)) s) with (String (pretty_N_char (x `mod` 10)) "" +:+ s).
    by rewrite has_nul_app, has_nul_digit.
  - assert (x = 0%N) as -> by lia. by rewrite pretty_N_go_0.
Qed.

Lemma has_nul_dec n : has_nul (dec n) = false.
Proof.
  assert (forall m : N, has_nul (pretty m) = false) as HN.
  { intros m. unfold pretty, pretty_N. case_decide; [done|]. by apply has_nul_pretty_N_go. }
  unfold dec, pretty, pretty_Z. destruct n; [done | apply HN |].
  change (has_nul ("-" +:+ pretty (N.pos p)) = false). by rewrite has_nul_app, HN.
Qed.

Lemma has_nul_seg_id s : has_nul (seg_id_name s) = false.
Proof.
  destruct s; [done | | |]; simpl;
    unfold client_segment, channel_arena, function_arena;
    by rewrite !has_nul_app, has_nul_dec.
Qed.

(** The names are the ones [list_segments] finds in the directory. *)
Lemma seg_id_prefix s : exists rest, seg_id_name s = "/" +:+ NAME_PREFIX +:+ rest.
Proof.
  destruct s; eexists; simpl;
    unfold CONTROL_SEGMENT, client_segment, channel_arena, function_arena, NAME_PREFIX;
    rewrite !str_app_cons; reflexivity.
Qed.

(** ** Properties *)

(** Every segment of the bus has a name of its own (no two channels, functions,
    clients or kinds of segment ever share one), the name is a legal C string, and
    it starts with the prefix under which the start-up cleanup looks for stale
    segments. *)
Theorem segment_names_disjoint (a b : seg_id) :
  (seg_id_name a = seg_id_name b <-> a = b) /\
  has_nul (seg_id_name a) = false /\
  exists rest, seg_id_name a = "/" +:+ NAME_PREFIX +:+ rest.
Proof.
  split; [|split; [apply has_nul_seg_id | apply seg_id_prefix]].
  split; [apply seg_id_name_inj | by intros ->].
Qed.
