(* ===== verification/Avro.v ===== *)
(** * Schemas, fingerprints and datums (crates/core/src/avro.rs)

    The [apache_avro] crate is third-party code: the class [Avro] holds the
    functions the program calls, the class [Serde] the conversion of one Rust
    type to and from Avro values. What is defined here is the program's own use of
    them: errors, the truncation of the digest, the registry. *)

From S2P Require Import Prelude.

(** [apache_avro]; an error is its [to_string()]. *)
Class Avro : Type := {
  Schema : Type;
  Value : Type;
  parse_str : string -> result Schema string;
  rabin : Schema -> list byte;                    (** [fingerprint::<Rabin>().bytes] *)
  resolve : Value -> Schema -> result Value string;
  to_avro_datum : Schema -> Value -> result (list byte) string;
  from_avro_datum : Schema -> list byte -> result Value string;
}.

(** [Serialize] and [DeserializeOwned] of one type, through Avro values. *)
Class Serde `{Avro} (T : Type) : Type := {
  to_value : T -> result Value string;
  from_value : Value -> result T string;
}.

(** [map_err(|e| io::Error::other(e.to_string()))] *)
Definition map_other {A} (r : result A string) : io_result A :=
  match r with Ok a => Ok a | Err e => Err (io_other e) end.

(** [?] on an [io::Result] in pure code. *)
Definition try_io {A B} (r : io_result A) (f : A -> io_result B) : io_result B :=
  match r with Ok a => f a | Err e => Err e end.

Section avro.
Context `{Avro}.

(** The first eight bytes of the digest, zero-padded, little-endian. *)
Definition fingerprint (s : Schema) : Z :=
  let bytes := rabin s in
  let n := Nat.min (length bytes) 8 in
  let b := take n bytes ++ replicate (8 - n) Byte.x00 in
  from_le b.

Definition parse (json : string) : io_result (Schema * Z) :=
  try_io (map_other (parse_str json)) (fun schema => Ok (schema, fingerprint schema)).

Definition avro_encode {T} `{!Serde T} (schema : Schema) (value : T) : io_result (list byte) :=
  try_io (map_other (to_value value)) (fun v =>
  try_io (map_other (resolve v schema)) (fun v =>
  map_other (to_avro_datum schema v))).

Definition avro_decode {T} `{!Serde T} (schema : Schema) (bytes : list byte) : io_result T :=
  try_io (map_other (from_avro_datum schema bytes)) (fun value =>
  map_other (from_value value)).

Lemma fingerprint_range s : in_u 64 (fingerprint s).
Proof.
  unfold in_u, fingerprint. pose proof (from_le_range
    (take (Nat.min (length (rabin s)) 8) (rabin s) ++
     replicate (8 - Nat.min (length (rabin s)) 8) Byte.x00)) as Hr.
  rewrite length_app, length_take, length_replicate in Hr.
  replace (Nat.min (Nat.min (length (rabin s)) 8) (length (rabin s)) +
           (8 - Nat.min (length (rabin s)) 8))%nat with 8%nat in Hr by lia.
  exact Hr.
Qed.

Lemma parse_ok_inv json s fp :
  parse json = Ok (s, fp) -> parse_str json = Ok s /\ fp = fingerprint s.
Proof. unfold parse. destruct (parse_str json); simpl; intros [= -> <-]. done. Qed.

(** ** [SchemaRegistry] *)

Record SchemaRegistry : Type := MkSchemaRegistry { by_fp : gmap Z Schema }.

Definition empty_registry : SchemaRegistry := MkSchemaRegistry ∅.

(** [by_fp.entry(fp).or_insert(schema)] *)
Definition or_insert {A} (m : gmap Z A) (k : Z) (a : A) : gmap Z A :=
  match m !! k with Some _ => m | None => <[k := a]> m end.

Definition register_schema (r : SchemaRegistry) (schema : Schema) : SchemaRegistry * Z :=
  let fp := fingerprint schema in
  (MkSchemaRegistry (or_insert (by_fp r) fp schema), fp).

Definition register_json (r : SchemaRegistry) (json : string) : SchemaRegistry * io_result Z :=
  match parse json with
  | Ok (schema, _) => let (r, fp) := register_schema r schema in (r, Ok fp)
  | Err e => (r, Err e)
  end.

Definition get_schema (r : SchemaRegistry) (fp : Z) : option Schema := by_fp r !! fp.

Definition compatible (expected actual : Z) : bool := expected =? actual.
End avro.

(** The program relies on a type's encoding being readable with its schema. *)
Definition codec_ok `{Avro} (T : Type) `{!Serde T} (s : Schema) : Prop :=
  forall (v : T) bs, avro_encode s v = Ok bs -> avro_decode s bs = Ok v.

Lemma lookup_or_insert {A} (m : gmap Z A) k a i :
  or_insert m k a !! i = match m !! i with Some x => Some x | None => if bool_decide (i = k) then Some a else None end.
Proof.
  unfold or_insert. destruct (m !! k) eqn:E; case_bool_decide; subst; rewrite ?E.
  - done.
  - by destruct (m !! i).
  - by rewrite lookup_insert_eq.
  - rewrite lookup_insert_ne by done. by destruct (m !! i).
Qed.
