(* ===== verification/Proto.v ===== *)
(** * The control protocol (crates/core/src/proto.rs)

    The message kinds, the message records, their Avro schemas (the JSON text of
    the source, written with apostrophes for the quotation marks), the catalog of
    current and superseded schemas, and the conversion of messages to and from
    frames. *)

From S2P Require Import Prelude Machine Frame Avro.

(** ** Status codes *)

Definition STATUS_OK : Z := 0.
Definition ERR_NOT_FOUND : Z := 1.
Definition ERR_DENIED : Z := 2.
Definition ERR_SCHEMA_MISMATCH : Z := 3.
Definition ERR_INTERNAL : Z := 4.
Definition ERR_EXISTS : Z := 5.

Definition fp_to_i64 (fp : Z) : Z := i64 fp.
Definition i64_to_fp (v : Z) : Z := u64 v.

(** ** Kinds *)

Inductive Kind : Type :=
| KRegister
| KRegisterReply
| KUnregister
| KPublishChannel
| KPublishReply
| KUnpublish
| KListChannels
| KChannelList
| KSubscribe
| KSubscribeReply
| KExposeFunction
| KExposeReply
| KLookupFunction
| KLookupReply
| KHeartbeat
| KRpcRequest
| KRpcResponse.

#[export] Instance Kind_eq_dec : EqDecision Kind.
Proof. solve_decision. Defined.

Definition ALL_KINDS : list Kind := [
  KRegister; KRegisterReply; KUnregister; KPublishChannel; KPublishReply; KUnpublish;
  KListChannels; KChannelList; KSubscribe; KSubscribeReply; KExposeFunction; KExposeReply;
  KLookupFunction; KLookupReply; KHeartbeat; KRpcRequest; KRpcResponse].

Definition kind_index (k : Kind) : nat :=
  match k with
  | KRegister => 0
  | KRegisterReply => 1
  | KUnregister => 2
  | KPublishChannel => 3
  | KPublishReply => 4
  | KUnpublish => 5
  | KListChannels => 6
  | KChannelList => 7
  | KSubscribe => 8
  | KSubscribeReply => 9
  | KExposeFunction => 10
  | KExposeReply => 11
  | KLookupFunction => 12
  | KLookupReply => 13
  | KHeartbeat => 14
  | KRpcRequest => 15
  | KRpcResponse => 16
  end%nat.

(** The derived [Debug] of a kind. *)
Definition kind_name (k : Kind) : string :=
  match k with
  | KRegister => "Register"
  | KRegisterReply => "RegisterReply"
  | KUnregister => "Unregister"
  | KPublishChannel => "PublishChannel"
  | KPublishReply => "PublishReply"
  | KUnpublish => "Unpublish"
  | KListChannels => "ListChannels"
  | KChannelList => "ChannelList"
  | KSubscribe => "Subscribe"
  | KSubscribeReply => "SubscribeReply"
  | KExposeFunction => "ExposeFunction"
  | KExposeReply => "ExposeReply"
  | KLookupFunction => "LookupFunction"
  | KLookupReply => "LookupReply"
  | KHeartbeat => "Heartbeat"
  | KRpcRequest => "RpcRequest"
  | KRpcResponse => "RpcResponse"
  end.

Lemma ALL_KINDS_index k : ALL_KINDS !! kind_index k = Some k.
Proof. by destruct k. Qed.

#[export] Program Instance Kind_countable : Countable Kind :=
  inj_countable kind_index (fun n => ALL_KINDS !! n) _.
Next Obligation. exact ALL_KINDS_index. Qed.

Lemma ALL_KINDS_complete k : k ∈ ALL_KINDS.
Proof. eapply list_elem_of_lookup_2, ALL_KINDS_index. Qed.

(** ** Messages *)

Record Register : Type := MkRegister {
  register_correlation_id : Z;
  register_app_name : string;
  register_nonce : Z;
  register_reply_segment : string;
  register_heartbeat_ms : Z;
  register_pid : Z;   (** [#[serde(default)]] *)
}.

Record RegisterReply : Type := MkRegisterReply {
  register_reply_correlation_id : Z;
  register_reply_client_id : Z;
  register_reply_status : Z;   (** i32 *)
  register_reply_message : string;
}.

Record Unregister : Type := MkUnregister {
  unregister_correlation_id : Z;
  unregister_client_id : Z;
}.

Record PublishChannel : Type := MkPublishChannel {
  publish_correlation_id : Z;
  publish_client_id : Z;
  publish_channel : string;
  publish_schema_json : string;
  publish_access_key : string;
  publish_arena_cap : Z;   (** [#[serde(default)]] *)
}.

Record PublishReply : Type := MkPublishReply {
  publish_reply_correlation_id : Z;
  publish_reply_channel_id : Z;
  publish_reply_schema_fp : Z;
  publish_reply_arena : string;
  publish_reply_status : Z;   (** i32 *)
  publish_reply_message : string;
}.

Record Unpublish : Type := MkUnpublish {
  unpublish_correlation_id : Z;
  unpublish_client_id : Z;
  unpublish_channel : string;
}.

Record ListChannels : Type := MkListChannels {
  list_correlation_id : Z;
  list_client_id : Z;
}.

Record ChannelInfo : Type := MkChannelInfo {
  info_channel_id : Z;
  info_name : string;
  info_owner_app : string;
  info_schema_fp : Z;
  info_requires_key : bool;
}.

Record ChannelList : Type := MkChannelList {
  channel_list_correlation_id : Z;
  channel_list_channels : list ChannelInfo;
}.

Record Subscribe : Type := MkSubscribe {
  subscribe_correlation_id : Z;
  subscribe_client_id : Z;
  subscribe_channel_id : Z;
  subscribe_access_key : string;
  subscribe_expected_fp : Z;
}.

Record SubscribeReply : Type := MkSubscribeReply {
  subscribe_reply_correlation_id : Z;
  subscribe_reply_arena : string;
  subscribe_reply_schema_fp : Z;
  subscribe_reply_status : Z;   (** i32 *)
  subscribe_reply_message : string;
}.

Record ExposeFunction : Type := MkExposeFunction {
  expose_correlation_id : Z;
  expose_client_id : Z;
  expose_fn_name : string;
  expose_req_schema_json : string;
  expose_resp_schema_json : string;
  expose_access_key : string;
  expose_req_arena_cap : Z;   (** [#[serde(default)]] *)
}.

Record ExposeReply : Type := MkExposeReply {
  expose_reply_correlation_id : Z;
  expose_reply_fn_id : Z;
  expose_reply_req_fp : Z;
  expose_reply_resp_fp : Z;
  expose_reply_req_arena : string;
  expose_reply_status : Z;   (** i32 *)
  expose_reply_message : string;
}.

Record LookupFunction : Type := MkLookupFunction {
  lkp_correlation_id : Z;
  lkp_client_id : Z;
  lkp_fn_name : string;
  lkp_access_key : string;
}.

Record LookupReply : Type := MkLookupReply {
  lkp_reply_correlation_id : Z;
  lkp_reply_fn_id : Z;
  lkp_reply_req_fp : Z;
  lkp_reply_resp_fp : Z;
  lkp_reply_req_arena : string;
  lkp_reply_status : Z;   (** i32 *)
  lkp_reply_message : string;
}.

Record Heartbeat : Type := MkHeartbeat {
  heartbeat_correlation_id : Z;
  heartbeat_client_id : Z;
  heartbeat_seq : Z;
}.

Record RpcRequest : Type := MkRpcRequest {
  rpc_request_correlation_id : Z;
  rpc_request_caller_id : Z;
  rpc_request_reply_segment : string;
  rpc_request_arg_fp : Z;
  rpc_request_args : list byte;
}.

Record RpcResponse : Type := MkRpcResponse {
  rpc_response_correlation_id : Z;
  rpc_response_status : Z;   (** i32 *)
  rpc_response_message : string;
  rpc_response_result_fp : Z;
  rpc_response_result : list byte;
}.

(** ** Schemas *)

(** The macro [schema_json!]. *)
Definition schema_json (name fields : string) : string :=
  json_text ("{'type':'record','name':'" +:+ name +:+ "','namespace':'ring.proto','fields':["
             +:+ fields +:+ "]}").

Definition schema_for (kind : Kind) : string :=
  match kind with
  | KRegister => schema_json "Register" (
       "{'name':'correlation_id','type':'long'},"
       +:+ "{'name':'app_name','type':'string'},"
       +:+ "{'name':'nonce','type':'long'},"
       +:+ "{'name':'reply_segment','type':'string'},"
       +:+ "{'name':'heartbeat_ms','type':'long'},"
       +:+ "{'name':'pid','type':'long','default':0}")
  | KRegisterReply => schema_json "RegisterReply" (
       "{'name':'correlation_id','type':'long'},"
       +:+ "{'name':'client_id','type':'long'},"
       +:+ "{'name':'status','type':'int'},"
       +:+ "{'name':'message','type':'string'}")
  | KUnregister => schema_json "Unregister" (
       "{'name':'correlation_id','type':'long'},"
       +:+ "{'name':'client_id','type':'long'}")
  | KPublishChannel => schema_json "PublishChannel" (
       "{'name':'correlation_id','type':'long'},"
       +:+ "{'name':'client_id','type':'long'},"
       +:+ "{'name':'channel','type':'string'},"
       +:+ "{'name':'schema_json','type':'string'},"
       +:+ "{'name':'access_key','type':'string'},"
       +:+ "{'name':'arena_cap','type':'long','default':0}")
  | KPublishReply => schema_json "PublishReply" (
       "{'name':'correlation_id','type':'long'},"
       +:+ "{'name':'channel_id','type':'long'},"
       +:+ "{'name':'schema_fp','type':'long'},"
       +:+ "{'name':'arena','type':'string'},"
       +:+ "{'name':'status','type':'int'},"
       +:+ "{'name':'message','type':'string'}")
  | KUnpublish => schema_json "Unpublish" (
       "{'name':'correlation_id','type':'long'},"
       +:+ "{'name':'client_id','type':'long'},"
       +:+ "{'name':'channel','type':'string'}")
  | KListChannels => schema_json "ListChannels" (
       "{'name':'correlation_id','type':'long'},"
       +:+ "{'name':'client_id','type':'long'}")
  | KChannelList => json_text (
      "{'type':'record','name':'ChannelList','namespace':'ring.proto','fields':["
       +:+ "{'name':'correlation_id','type':'long'},"
       +:+ "{'name':'channels','type':{'type':'array','items':{'type':'record','name':'ChannelInfo','fields':["
       +:+ "{'name':'channel_id','type':'long'},{'name':'name','type':'string'},{'name':'owner_app','type':'string'},{'name':'schema_fp','type':'long'},{'name':'requires_key','type':'boolean'}"
       +:+ "]}}}]}")
  | KSubscribe => schema_json "Subscribe" (
       "{'name':'correlation_id','type':'long'},"
       +:+ "{'name':'client_id','type':'long'},"
       +:+ "{'name':'channel_id','type':'long'},"
       +:+ "{'name':'access_key','type':'string'},"
       +:+ "{'name':'expected_fp','type':'long'}")
  | KSubscribeReply => schema_json "SubscribeReply" (
       "{'name':'correlation_id','type':'long'},"
       +:+ "{'name':'arena','type':'string'},"
       +:+ "{'name':'schema_fp','type':'long'},"
       +:+ "{'name':'status','type':'int'},"
       +:+ "{'name':'message','type':'string'}")
  | KExposeFunction => schema_json "ExposeFunction" (
       "{'name':'correlation_id','type':'long'},"
       +:+ "{'name':'client_id','type':'long'},"
       +:+ "{'name':'fn_name','type':'string'},"
       +:+ "{'name':'req_schema_json','type':'string'},"
       +:+ "{'name':'resp_schema_json','type':'string'},"
       +:+ "{'name':'access_key','type':'string'},"
       +:+ "{'name':'req_arena_cap','type':'long','default':0}")
  | KExposeReply => schema_json "ExposeReply" (
       "{'name':'correlation_id','type':'long'},"
       +:+ "{'name':'fn_id','type':'long'},"
       +:+ "{'name':'req_fp','type':'long'},"
       +:+ "{'name':'resp_fp','type':'long'},"
       +:+ "{'name':'req_arena','type':'string'},"
       +:+ "{'name':'status','type':'int'},"
       +:+ "{'name':'message','type':'string'}")
  | KLookupFunction => schema_json "LookupFunction" (
       "{'name':'correlation_id','type':'long'},"
       +:+ "{'name':'client_id','type':'long'},"
       +:+ "{'name':'fn_name','type':'string'},"
       +:+ "{'name':'access_key','type':'string'}")
  | KLookupReply => schema_json "LookupReply" (
       "{'name':'correlation_id','type':'long'},"
       +:+ "{'name':'fn_id','type':'long'},"
       +:+ "{'name':'req_fp','type':'long'},"
       +:+ "{'name':'resp_fp','type':'long'},"
       +:+ "{'name':'req_arena','type':'string'},"
       +:+ "{'name':'status','type':'int'},"
       +:+ "{'name':'message','type':'string'}")
  | KHeartbeat => schema_json "Heartbeat" (
       "{'name':'correlation_id','type':'long'},"
       +:+ "{'name':'client_id','type':'long'},"
       +:+ "{'name':'seq','type':'long'}")
  | KRpcRequest => schema_json "RpcRequest" (
       "{'name':'correlation_id','type':'long'},"
       +:+ "{'name':'caller_id','type':'long'},"
       +:+ "{'name':'reply_segment','type':'string'},"
       +:+ "{'name':'arg_fp','type':'long'},"
       +:+ "{'name':'args','type':'bytes'}")
  | KRpcResponse => schema_json "RpcResponse" (
       "{'name':'correlation_id','type':'long'},"
       +:+ "{'name':'status','type':'int'},"
       +:+ "{'name':'message','type':'string'},"
       +:+ "{'name':'result_fp','type':'long'},"
       +:+ "{'name':'result','type':'bytes'}")
  end.

Definition legacy_schemas : list (Kind * string) := [
  (KRegister, schema_json "Register" (
       "{'name':'correlation_id','type':'long'},"
       +:+ "{'name':'app_name','type':'string'},"
       +:+ "{'name':'nonce','type':'long'},"
       +:+ "{'name':'reply_segment','type':'string'},"
       +:+ "{'name':'heartbeat_ms','type':'long'}"));
  (KPublishChannel, schema_json "PublishChannel" (
       "{'name':'correlation_id','type':'long'},"
       +:+ "{'name':'client_id','type':'long'},"
       +:+ "{'name':'channel','type':'string'},"
       +:+ "{'name':'schema_json','type':'string'},"
       +:+ "{'name':'access_key','type':'string'}"));
  (KExposeFunction, schema_json "ExposeFunction" (
       "{'name':'correlation_id','type':'long'},"
       +:+ "{'name':'client_id','type':'long'},"
       +:+ "{'name':'fn_name','type':'string'},"
       +:+ "{'name':'req_schema_json','type':'string'},"
       +:+ "{'name':'resp_schema_json','type':'string'},"
       +:+ "{'name':'access_key','type':'string'}"))].

(** ** The catalog *)

Section catalog.
Context `{Avro}.

Record Catalog : Type := MkCatalog {
  c_schemas : gmap Kind Schema;
  c_fps : gmap Kind Z;
  c_by_fp : gmap Z Kind;
  c_writer_schemas : gmap Z Schema;
}.

(** The body of the first loop of [Catalog::build]. *)
Definition add_current (c : Catalog) (k : Kind) : outcome Catalog :=
  obind (expect_ok (parse (schema_for k)) "control schema must parse") (fun '(schema, fp) =>
  Done (MkCatalog (<[k := schema]> (c_schemas c)) (<[k := fp]> (c_fps c))
          (<[fp := k]> (c_by_fp c)) (<[fp := schema]> (c_writer_schemas c)))).

(** The body of the second loop. *)
Definition add_legacy (c : Catalog) (e : Kind * string) : outcome Catalog :=
  let (k, json) := e in
  obind (expect_ok (parse json) "legacy control schema must parse") (fun '(schema, fp) =>
  Done (MkCatalog (c_schemas c) (c_fps c)
          (or_insert (c_by_fp c) fp k) (or_insert (c_writer_schemas c) fp schema))).

Fixpoint for_each {A} (step : Catalog -> A -> outcome Catalog) (l : list A) (c : Catalog)
  : outcome Catalog :=
  match l with
  | [] => Done c
  | a :: l => obind (step c a) (for_each step l)
  end.

(** [Catalog::build], and the process-wide [catalog()] (a [OnceLock]). *)
Definition build : outcome Catalog :=
  obind (for_each add_current ALL_KINDS (MkCatalog ∅ ∅ ∅ ∅)) (fun c =>
  for_each add_legacy legacy_schemas c).

Definition catalog : outcome Catalog := build.

(** Indexing a [HashMap] panics on a missing key. *)
Definition c_schema (c : Catalog) (k : Kind) : outcome Schema :=
  expect_some (c_schemas c !! k) "no entry found for key".
Definition c_fp (c : Catalog) (k : Kind) : outcome Z :=
  expect_some (c_fps c !! k) "no entry found for key".
Definition kind_of (c : Catalog) (fp : Z) : option Kind := c_by_fp c !! fp.
Definition writer_schema (c : Catalog) (fp : Z) : option Schema := c_writer_schemas c !! fp.

(** ** Frames *)

Definition to_frame {T} `{!Serde T} (kind : Kind) (msg : T) : outcome (io_result Frame) :=
  obind catalog (fun c =>
  obind (c_schema c kind) (fun s =>
  match avro_encode s msg with
  | Err e => Done (Err e)
  | Ok body => obind (c_fp c kind) (fun fp => Done (Ok (Frame.new fp body)))
  end)).

Definition from_frame {T} `{!Serde T} (kind : Kind) (frame : Frame) : outcome (io_result T) :=
  obind catalog (fun c =>
  obind (c_schema c kind) (fun s =>
  Done (avro_decode s (body frame)))).

Definition from_frame_compat {T} `{!Serde T} (frame : Frame) : outcome (io_result T) :=
  obind catalog (fun c =>
  match writer_schema c (schema_fp frame) with
  | None => Done (Err (io_other "unknown frame fingerprint"))
  | Some schema => Done (avro_decode schema (body frame))
  end).
End catalog.

(** The serde derives of the message records. *)
Class ProtoSerde `{Avro} : Type := {
  serde_Register : Serde Register;
  serde_RegisterReply : Serde RegisterReply;
  serde_Unregister : Serde Unregister;
  serde_PublishChannel : Serde PublishChannel;
  serde_PublishReply : Serde PublishReply;
  serde_Unpublish : Serde Unpublish;
  serde_ListChannels : Serde ListChannels;
  serde_ChannelList : Serde ChannelList;
  serde_Subscribe : Serde Subscribe;
  serde_SubscribeReply : Serde SubscribeReply;
  serde_ExposeFunction : Serde ExposeFunction;
  serde_ExposeReply : Serde ExposeReply;
  serde_LookupFunction : Serde LookupFunction;
  serde_LookupReply : Serde LookupReply;
  serde_Heartbeat : Serde Heartbeat;
  serde_RpcRequest : Serde RpcRequest;
  serde_RpcResponse : Serde RpcResponse;
}.
#[export] Existing Instances serde_Register serde_RegisterReply serde_Unregister serde_PublishChannel serde_PublishReply serde_Unpublish serde_ListChannels serde_ChannelList serde_Subscribe serde_SubscribeReply serde_ExposeFunction serde_ExposeReply serde_LookupFunction serde_LookupReply serde_Heartbeat serde_RpcRequest serde_RpcResponse.

(** [.map(|m| m.correlation_id)] on a decoded message. *)
Definition corr_of {T} (f : T -> Z) (o : outcome (io_result T)) : outcome (io_result Z) :=
  obind o (fun r => Done (match r with Ok m => Ok (f m) | Err e => Err e end)).

Definition correlation_id `{ProtoSerde} (frame : Frame) : outcome (io_result Z) :=
  obind catalog (fun c =>
  match kind_of c (schema_fp frame) with
  | None => Done (Err (io_other "unknown frame fingerprint"))
  | Some kind =>
      match kind with
      | KRegisterReply => corr_of register_reply_correlation_id (from_frame kind frame)
      | KPublishReply => corr_of publish_reply_correlation_id (from_frame kind frame)
      | KChannelList => corr_of channel_list_correlation_id (from_frame kind frame)
      | KSubscribeReply => corr_of subscribe_reply_correlation_id (from_frame kind frame)
      | KExposeReply => corr_of expose_reply_correlation_id (from_frame kind frame)
      | KLookupReply => corr_of lkp_reply_correlation_id (from_frame kind frame)
      | KRpcResponse => corr_of rpc_response_correlation_id (from_frame kind frame)
      | other => Done (Err (io_other ("frame kind " +:+ kind_name other +:+ " is not a routable reply")))
      end
  end).
