(* ===== verification/Toy.v ===== *)
(** * A concrete codec for the witnesses

    An instance of the third-party interfaces ([Avro], the serde derives, SHA-256)
    small enough to compute with: values are trees, a datum is the tree's own
    encoding, a schema is its text, and the fingerprint is a polynomial hash of
    the text. Only the witnesses use it. *)

From S2P Require Import Prelude Machine Frame Util Avro Proto.

#[warnings="-register-all"]
Inductive aval : Type :=
| ALong (z : Z)
| AInt (z : Z)
| AStr (s : string)
| ABool (b : bool)
| ABytes (bs : list byte)
| ARec (fields : list aval)
| AArr (items : list aval).

(** A prefix code: a tag byte, then the length-prefixed content. *)
Definition put_long (z : Z) : list byte := le_bytes 8 z.
Definition put_bytes (bs : list byte) : list byte := le_bytes 8 (blen bs) ++ bs.

Fixpoint put (v : aval) : list byte :=
  match v with
  | ALong z => Byte.x00 :: put_long z
  | AInt z => Byte.x01 :: put_long z
  | AStr s => Byte.x02 :: put_bytes (string_bytes s)
  | ABool b => Byte.x03 :: [if b then Byte.x01 else Byte.x00]
  | ABytes bs => Byte.x04 :: put_bytes bs
  | ARec l => Byte.x05 :: put_long (blen l) ++ concat (put <$> l)
  | AArr l => Byte.x06 :: put_long (blen l) ++ concat (put <$> l)
  end.

Definition get_long (bs : list byte) : option (Z * list byte) :=
  if blen bs <? 8 then None else Some (i64 (from_le (take 8 bs)), drop 8 bs).

Definition get_bytes (bs : list byte) : option (list byte * list byte) :=
  match get_long bs with
  | Some (n, rest) =>
      if (0 <=? n) && (n <=? blen rest)
      then Some (take (Z.to_nat n) rest, drop (Z.to_nat n) rest) else None
  | None => None
  end.

Fixpoint get_list (get : list byte -> option (aval * list byte)) (n : nat) (bs : list byte)
  : option (list aval * list byte) :=
  match n with
  | O => Some ([], bs)
  | S n =>
      match get bs with
      | Some (v, bs) =>
          match get_list get n bs with Some (l, bs) => Some (v :: l, bs) | None => None end
      | None => None
      end
  end.

Fixpoint get (fuel : nat) (bs : list byte) : option (aval * list byte) :=
  match fuel, bs with
  | S fuel, Byte.x00 :: bs => match get_long bs with Some (z, bs) => Some (ALong z, bs) | None => None end
  | S fuel, Byte.x01 :: bs => match get_long bs with Some (z, bs) => Some (AInt z, bs) | None => None end
  | S fuel, Byte.x02 :: bs =>
      match get_bytes bs with
      | Some (s, bs) => Some (AStr (String.string_of_list_byte s), bs) | None => None end
  | S fuel, Byte.x03 :: b :: bs => Some (ABool (bool_decide (b = Byte.x01)), bs)
  | S fuel, Byte.x04 :: bs => match get_bytes bs with Some (s, bs) => Some (ABytes s, bs) | None => None end
  | S fuel, Byte.x05 :: bs =>
      match get_long bs with
      | Some (n, bs) =>
          match get_list (get fuel) (Z.to_nat n) bs with Some (l, bs) => Some (ARec l, bs) | None => None end
      | None => None
      end
  | S fuel, Byte.x06 :: bs =>
      match get_long bs with
      | Some (n, bs) =>
          match get_list (get fuel) (Z.to_nat n) bs with Some (l, bs) => Some (AArr l, bs) | None => None end
      | None => None
      end
  | _, _ => None
  end.

(** The values the code can write: integers in range, lengths below 2^63, and a
    depth of at most [fuel]. *)
Definition long_ok (z : Z) : bool := (- 2 ^ 63 <=? z) && (z <? 2 ^ 63).

Fixpoint aval_ok (fuel : nat) (v : aval) : bool :=
  match fuel with
  | O => false
  | S fuel =>
      match v with
      | ALong z | AInt z => long_ok z
      | AStr s => long_ok (blen (string_bytes s))
      | ABool _ => true
      | ABytes bs => long_ok (blen bs)
      | ARec l | AArr l => long_ok (blen l) && forallb (aval_ok fuel) l
      end
  end.

Fixpoint text_hash (s : string) (h : Z) : Z :=
  match s with
  | EmptyString => h
  | String a s => text_hash s (Z.land (h * 1000003 + Z.of_N (Ascii.N_of_ascii a) + 1) (Z.ones 64))
  end.

(** A schema is any text that starts like a JSON object or string. *)
#[export] Instance toy_avro : Avro := {|
  Schema := string;
  Value := aval;
  parse_str s := match s with
    | String a _ => if bool_decide (a = Ascii.ascii_of_nat 123) || bool_decide (a = Ascii.ascii_of_nat 34)
                    then Ok s else Err "Failed to parse schema"
    | EmptyString => Err "Failed to parse schema"
    end;
  rabin s := le_bytes 8 (text_hash s 7);
  resolve v _ := Ok v;
  to_avro_datum _ v := if aval_ok 4 v then Ok (put v) else Err "value out of range";
  from_avro_datum _ bs :=
    match get 4 bs with Some (v, _) => Ok v | None => Err "bad datum" end;
|}.

(** ** The code is a prefix code *)

Lemma get_put_long z rest : long_ok z = true -> get_long (put_long z ++ rest) = Some (z, rest).
Proof.
  unfold long_ok. rewrite andb_true_iff, Z.leb_le, Z.ltb_lt. intros Hz.
  unfold get_long, put_long. pose proof (blen_nonneg rest).
  rewrite blen_app, blen_le_bytes, (proj2 (Z.ltb_ge _ _)) by lia.
  pose proof (length_le_bytes 8 z) as Hl.
  rewrite take_app_length', drop_app_length', from_le_bytes by done.
  change (256 ^ Z.of_nat 8) with (2 ^ 64). do 2 f_equal.
  rewrite (wrap_i_wrap_u 64 z ltac:(lia) : i64 (z mod 2 ^ 64) = i64 z).
  apply wrap_i_small; [lia | unfold in_i; lia].
Qed.

Lemma get_put_bytes bs rest :
  long_ok (blen bs) = true -> get_bytes (put_bytes bs ++ rest) = Some (bs, rest).
Proof.
  intros H. unfold get_bytes, put_bytes. rewrite <- app_assoc.
  rewrite (get_put_long (blen bs)) by done.
  pose proof (blen_nonneg bs). pose proof (blen_nonneg rest). rewrite blen_app.
  rewrite (proj2 (Z.leb_le _ _)), (proj2 (Z.leb_le _ _)) by lia. cbn [andb].
  unfold blen. by rewrite Nat2Z.id, take_app_length, drop_app_length.
Qed.

Lemma get_put_list fuel l rest :
  (forall v rest, aval_ok fuel v = true -> get fuel (put v ++ rest) = Some (v, rest)) ->
  forallb (aval_ok fuel) l = true ->
  get_list (get fuel) (length l) (concat (put <$> l) ++ rest) = Some (l, rest).
Proof.
  intros IH. induction l as [|v l IHl]; [done|].
  cbn [forallb length get_list]. rewrite fmap_cons, andb_true_iff. intros [Hv Hl]. cbn [concat].
  rewrite <- app_assoc, IH by done. by rewrite IHl.
Qed.

Lemma get_put fuel v rest : aval_ok fuel v = true -> get fuel (put v ++ rest) = Some (v, rest).
Proof.
  revert v rest. induction fuel as [|fuel IH]; intros v rest; [done|].
  destruct v as [z|z|s|b|bs|l|l]; cbn [aval_ok put get app].
  - intros H. by rewrite get_put_long.
  - intros H. by rewrite get_put_long.
  - intros H. rewrite get_put_bytes by done.
    unfold string_bytes. by rewrite String.string_of_list_byte_of_string.
  - by destruct b.
  - intros H. by rewrite get_put_bytes.
  - rewrite andb_true_iff, <- app_assoc. intros [H1 H2]. rewrite get_put_long by done.
    unfold blen. by rewrite Nat2Z.id, get_put_list.
  - rewrite andb_true_iff, <- app_assoc. intros [H1 H2]. rewrite get_put_long by done.
    unfold blen. by rewrite Nat2Z.id, get_put_list.
Qed.

(** A type whose two conversions are inverse has a working codec. *)
Lemma toy_codec {T} `{!Serde T} (s : Schema) :
  (forall m v, to_value m = Ok v -> from_value v = Ok m) -> codec_ok T s.
Proof.
  intros Hinv m bs. unfold avro_encode, avro_decode.
  destruct (to_value m) as [v|] eqn:Ev; [|done].
  cbn [map_other try_io resolve toy_avro to_avro_datum from_avro_datum].
  destruct (aval_ok 4 v) eqn:Eok; [|done]. intros [= <-].
  rewrite <- (app_nil_r (put v)), (get_put 4) by exact Eok. cbn [map_other try_io]. by rewrite (Hinv m v Ev).
Qed.

Definition toy_mismatch {T} : result T string := Err "type mismatch".

(** ** The derives *)

#[export] Instance toy_Register : Serde Register := {|
  to_value m := Ok (ARec [ALong (register_correlation_id m); AStr (register_app_name m); ALong (register_nonce m); AStr (register_reply_segment m); ALong (register_heartbeat_ms m); ALong (register_pid m)]);
  from_value v := match v with
  | ARec [ALong x0; AStr x1; ALong x2; AStr x3; ALong x4; ALong x5] => Ok (MkRegister x0 x1 x2 x3 x4 x5)
  | ARec [ALong x0; AStr x1; ALong x2; AStr x3; ALong x4] => Ok (MkRegister x0 x1 x2 x3 x4 0)
  | _ => toy_mismatch
  end |}.

#[export] Instance toy_RegisterReply : Serde RegisterReply := {|
  to_value m := Ok (ARec [ALong (register_reply_correlation_id m); ALong (register_reply_client_id m); AInt (register_reply_status m); AStr (register_reply_message m)]);
  from_value v := match v with
  | ARec [ALong x0; ALong x1; AInt x2; AStr x3] => Ok (MkRegisterReply x0 x1 x2 x3)
  | _ => toy_mismatch
  end |}.

#[export] Instance toy_Unregister : Serde Unregister := {|
  to_value m := Ok (ARec [ALong (unregister_correlation_id m); ALong (unregister_client_id m)]);
  from_value v := match v with
  | ARec [ALong x0; ALong x1] => Ok (MkUnregister x0 x1)
  | _ => toy_mismatch
  end |}.

#[export] Instance toy_PublishChannel : Serde PublishChannel := {|
  to_value m := Ok (ARec [ALong (publish_correlation_id m); ALong (publish_client_id m); AStr (publish_channel m); AStr (publish_schema_json m); AStr (publish_access_key m); ALong (publish_arena_cap m)]);
  from_value v := match v with
  | ARec [ALong x0; ALong x1; AStr x2; AStr x3; AStr x4; ALong x5] => Ok (MkPublishChannel x0 x1 x2 x3 x4 x5)
  | ARec [ALong x0; ALong x1; AStr x2; AStr x3; AStr x4] => Ok (MkPublishChannel x0 x1 x2 x3 x4 0)
  | _ => toy_mismatch
  end |}.

#[export] Instance toy_PublishReply : Serde PublishReply := {|
  to_value m := Ok (ARec [ALong (publish_reply_correlation_id m); ALong (publish_reply_channel_id m); ALong (publish_reply_schema_fp m); AStr (publish_reply_arena m); AInt (publish_reply_status m); AStr (publish_reply_message m)]);
  from_value v := match v with
  | ARec [ALong x0; ALong x1; ALong x2; AStr x3; AInt x4; AStr x5] => Ok (MkPublishReply x0 x1 x2 x3 x4 x5)
  | _ => toy_mismatch
  end |}.

#[export] Instance toy_Unpublish : Serde Unpublish := {|
  to_value m := Ok (ARec [ALong (unpublish_correlation_id m); ALong (unpublish_client_id m); AStr (unpublish_channel m)]);
  from_value v := match v with
  | ARec [ALong x0; ALong x1; AStr x2] => Ok (MkUnpublish x0 x1 x2)
  | _ => toy_mismatch
  end |}.

#[export] Instance toy_ListChannels : Serde ListChannels := {|
  to_value m := Ok (ARec [ALong (list_correlation_id m); ALong (list_client_id m)]);
  from_value v := match v with
  | ARec [ALong x0; ALong x1] => Ok (MkListChannels x0 x1)
  | _ => toy_mismatch
  end |}.

Definition toy_info (v : aval) : option ChannelInfo :=
  match v with
  | ARec [ALong i; AStr n; AStr o; ALong fp; ABool k] => Some (MkChannelInfo i n o fp k)
  | _ => None
  end.

#[export] Instance toy_ChannelList : Serde ChannelList := {|
  to_value m := Ok (ARec [ALong (channel_list_correlation_id m); AArr ((fun c => ARec [ALong (info_channel_id c); AStr (info_name c); AStr (info_owner_app c); ALong (info_schema_fp c); ABool (info_requires_key c)]) <$> channel_list_channels m)]);
  from_value v := match v with
  | ARec [ALong x0; AArr x1] => match mapM toy_info x1 with Some l => Ok (MkChannelList x0 l) | None => toy_mismatch end
  | _ => toy_mismatch
  end |}.

#[export] Instance toy_Subscribe : Serde Subscribe := {|
  to_value m := Ok (ARec [ALong (subscribe_correlation_id m); ALong (subscribe_client_id m); ALong (subscribe_channel_id m); AStr (subscribe_access_key m); ALong (subscribe_expected_fp m)]);
  from_value v := match v with
  | ARec [ALong x0; ALong x1; ALong x2; AStr x3; ALong x4] => Ok (MkSubscribe x0 x1 x2 x3 x4)
  | _ => toy_mismatch
  end |}.

#[export] Instance toy_SubscribeReply : Serde SubscribeReply := {|
  to_value m := Ok (ARec [ALong (subscribe_reply_correlation_id m); AStr (subscribe_reply_arena m); ALong (subscribe_reply_schema_fp m); AInt (subscribe_reply_status m); AStr (subscribe_reply_message m)]);
  from_value v := match v with
  | ARec [ALong x0; AStr x1; ALong x2; AInt x3; AStr x4] => Ok (MkSubscribeReply x0 x1 x2 x3 x4)
  | _ => toy_mismatch
  end |}.

#[export] Instance toy_ExposeFunction : Serde ExposeFunction := {|
  to_value m := Ok (ARec [ALong (expose_correlation_id m); ALong (expose_client_id m); AStr (expose_fn_name m); AStr (expose_req_schema_json m); AStr (expose_resp_schema_json m); AStr (expose_access_key m); ALong (expose_req_arena_cap m)]);
  from_value v := match v with
  | ARec [ALong x0; ALong x1; AStr x2; AStr x3; AStr x4; AStr x5; ALong x6] => Ok (MkExposeFunction x0 x1 x2 x3 x4 x5 x6)
  | ARec [ALong x0; ALong x1; AStr x2; AStr x3; AStr x4; AStr x5] => Ok (MkExposeFunction x0 x1 x2 x3 x4 x5 0)
  | _ => toy_mismatch
  end |}.

#[export] Instance toy_ExposeReply : Serde ExposeReply := {|
  to_value m := Ok (ARec [ALong (expose_reply_correlation_id m); ALong (expose_reply_fn_id m); ALong (expose_reply_req_fp m); ALong (expose_reply_resp_fp m); AStr (expose_reply_req_arena m); AInt (expose_reply_status m); AStr (expose_reply_message m)]);
  from_value v := match v with
  | ARec [ALong x0; ALong x1; ALong x2; ALong x3; AStr x4; AInt x5; AStr x6] => Ok (MkExposeReply x0 x1 x2 x3 x4 x5 x6)
  | _ => toy_mismatch
  end |}.

#[export] Instance toy_LookupFunction : Serde LookupFunction := {|
  to_value m := Ok (ARec [ALong (lkp_correlation_id m); ALong (lkp_client_id m); AStr (lkp_fn_name m); AStr (lkp_access_key m)]);
  from_value v := match v with
  | ARec [ALong x0; ALong x1; AStr x2; AStr x3] => Ok (MkLookupFunction x0 x1 x2 x3)
  | _ => toy_mismatch
  end |}.

#[export] Instance toy_LookupReply : Serde LookupReply := {|
  to_value m := Ok (ARec [ALong (lkp_reply_correlation_id m); ALong (lkp_reply_fn_id m); ALong (lkp_reply_req_fp m); ALong (lkp_reply_resp_fp m); AStr (lkp_reply_req_arena m); AInt (lkp_reply_status m); AStr (lkp_reply_message m)]);
  from_value v := match v with
  | ARec [ALong x0; ALong x1; ALong x2; ALong x3; AStr x4; AInt x5; AStr x6] => Ok (MkLookupReply x0 x1 x2 x3 x4 x5 x6)
  | _ => toy_mismatch
  end |}.

#[export] Instance toy_Heartbeat : Serde Heartbeat := {|
  to_value m := Ok (ARec [ALong (heartbeat_correlation_id m); ALong (heartbeat_client_id m); ALong (heartbeat_seq m)]);
  from_value v := match v with
  | ARec [ALong x0; ALong x1; ALong x2] => Ok (MkHeartbeat x0 x1 x2)
  | _ => toy_mismatch
  end |}.

#[export] Instance toy_RpcRequest : Serde RpcRequest := {|
  to_value m := Ok (ARec [ALong (rpc_request_correlation_id m); ALong (rpc_request_caller_id m); AStr (rpc_request_reply_segment m); ALong (rpc_request_arg_fp m); ABytes (rpc_request_args m)]);
  from_value v := match v with
  | ARec [ALong x0; ALong x1; AStr x2; ALong x3; ABytes x4] => Ok (MkRpcRequest x0 x1 x2 x3 x4)
  | _ => toy_mismatch
  end |}.

#[export] Instance toy_RpcResponse : Serde RpcResponse := {|
  to_value m := Ok (ARec [ALong (rpc_response_correlation_id m); AInt (rpc_response_status m); AStr (rpc_response_message m); ALong (rpc_response_result_fp m); ABytes (rpc_response_result m)]);
  from_value v := match v with
  | ARec [ALong x0; AInt x1; AStr x2; ALong x3; ABytes x4] => Ok (MkRpcResponse x0 x1 x2 x3 x4)
  | _ => toy_mismatch
  end |}.

#[export] Instance toy_serde : ProtoSerde := {|
  serde_Register := toy_Register;
  serde_RegisterReply := toy_RegisterReply;
  serde_Unregister := toy_Unregister;
  serde_PublishChannel := toy_PublishChannel;
  serde_PublishReply := toy_PublishReply;
  serde_Unpublish := toy_Unpublish;
  serde_ListChannels := toy_ListChannels;
  serde_ChannelList := toy_ChannelList;
  serde_Subscribe := toy_Subscribe;
  serde_SubscribeReply := toy_SubscribeReply;
  serde_ExposeFunction := toy_ExposeFunction;
  serde_ExposeReply := toy_ExposeReply;
  serde_LookupFunction := toy_LookupFunction;
  serde_LookupReply := toy_LookupReply;
  serde_Heartbeat := toy_Heartbeat;
  serde_RpcRequest := toy_RpcRequest;
  serde_RpcResponse := toy_RpcResponse |}.

(** Thirty-two bytes that depend on every byte of the message. *)
#[export] Program Instance toy_sha256 : Sha256 :=
  {| sha256 m := le_bytes 32 (foldl (fun h b => (h * 257 + byte_to_Z b + 1) mod 2 ^ 256) 1 m) |}.
Next Obligation. intros m. apply length_le_bytes. Defined.

(** A payload type for the calls and channels of the witnesses. *)
#[export] Instance toy_Z : Serde Z := {|
  to_value z := Ok (ALong z);
  from_value v := match v with ALong z => Ok z | _ => toy_mismatch end |}.

Definition toy_long : Schema (Avro := toy_avro) := json_text "'long'".

Lemma toy_Z_codec s : codec_ok Z s.
Proof. apply toy_codec. by intros m v [= <-]. Qed.
