(* ===== verification/ProtoProps.v ===== *)
(** * The properties of schemas, frames of messages and the catalog *)

From S2P Require Import Prelude Machine Frame Util Avro Proto Toy.

(** The schema registry never forgets or replaces a schema and files every schema
    under its own fingerprint: after registering from JSON, what was registered
    before is unchanged, the returned fingerprint is known with a schema of that
    fingerprint, and a text that does not parse changes nothing. *)
Theorem register_json_stable `{Avro} (r : SchemaRegistry) (json : string) :
  (forall fp s, get_schema r fp = Some s -> fingerprint s = fp) ->
  let (r', res) := register_json r json in
  (forall fp s, get_schema r fp = Some s -> get_schema r' fp = Some s) /\
  (forall fp s, get_schema r' fp = Some s -> fingerprint s = fp) /\
  match res with
  | Ok fp => is_Some (get_schema r' fp) /\ exists s, parse json = Ok (s, fp)
  | Err _ => r' = r
  end.
Proof.
  intros Hinv. unfold register_json. destruct (parse json) as [[s fp]|e] eqn:Hp; simpl; [|done].
  apply parse_ok_inv in Hp as [_ ->]. unfold get_schema in *. simpl. split_and!.
  - intros fp s' Hs. by rewrite lookup_or_insert, Hs.
  - intros fp s'. rewrite lookup_or_insert. destruct (by_fp r !! fp) eqn:E.
    + intros [= <-]. by apply Hinv.
    + case_bool_decide; [|done]. by intros [= <-].
  - rewrite lookup_or_insert. destruct (by_fp r !! fingerprint s) eqn:E; [by eexists|].
    by rewrite bool_decide_eq_true_2.
  - by exists s.
Qed.

Lemma register_json_stable_witness :
  let (r', res) := register_json (empty_registry (H := toy_avro)) (schema_for KRegister) in
  (forall fp s, get_schema empty_registry fp = Some s -> get_schema r' fp = Some s) /\
  (forall fp s, get_schema r' fp = Some s -> fingerprint s = fp) /\
  match res with
  | Ok fp => is_Some (get_schema r' fp) /\ exists s, parse (schema_for KRegister) = Ok (s, fp)
  | Err _ => r' = empty_registry
  end.
Proof. apply (register_json_stable (H := toy_avro) empty_registry (schema_for KRegister)). done. Defined.

(** ** How the catalog is built *)

Section build.
Context `{Avro}.

(** A fingerprint has a kind exactly when it has a writer schema. *)
Definition same_dom (c : Catalog) : Prop :=
  forall fp, is_Some (c_by_fp c !! fp) <-> is_Some (c_writer_schemas c !! fp).

(** What is in the catalog after the first loop has gone over [l]. *)
Record current_inv (l : list Kind) (c : Catalog) : Prop := {
  ci_kind : forall k, k ∈ l -> exists s fp, parse (schema_for k) = Ok (s, fp) /\
    c_schemas c !! k = Some s /\ c_fps c !! k = Some fp /\ is_Some (c_by_fp c !! fp);
  ci_fp : forall fp k, c_by_fp c !! fp = Some k ->
    exists s, parse (schema_for k) = Ok (s, fp) /\ c_writer_schemas c !! fp = Some s;
  ci_dom : same_dom c;
}.

Lemma for_each_inv {A} (P : list A -> Catalog -> Prop) step l done c c' :
  (forall done a c c', P done c -> step c a = Done c' -> P (done ++ [a]) c') ->
  P done c -> for_each step l c = Done c' -> P (done ++ l) c'.
Proof.
  intros Hstep. revert done c. induction l as [|a l IH]; intros done c HP E; simpl in E.
  - injection E as <-. by rewrite app_nil_r.
  - destruct (step c a) as [c1| | |] eqn:E1; simpl in E; try done.
    rewrite cons_middle, app_assoc. eapply IH; [|done]. by eapply Hstep.
Qed.

Lemma is_Some_insert {B} (m : gmap Z B) fp fp' b :
  is_Some (<[fp := b]> m !! fp') <-> fp = fp' \/ is_Some (m !! fp').
Proof.
  destruct (decide (fp = fp')) as [->|].
  - rewrite lookup_insert_eq. split; [by left | by eauto].
  - rewrite lookup_insert_ne by done. split; [by right | by intros [?|?]].
Qed.

Lemma is_Some_or_insert {B} (m : gmap Z B) fp fp' b :
  is_Some (or_insert m fp b !! fp') <-> fp = fp' \/ is_Some (m !! fp').
Proof.
  rewrite lookup_or_insert. destruct (m !! fp') as [b'|] eqn:E; [split; by eauto|].
  case_bool_decide; subst; [split; by eauto|].
  split; [by intros [? ?] | intros [->|[? ?]]; done].
Qed.

Lemma add_current_inv l k c c' :
  current_inv l c -> add_current c k = Done c' -> current_inv (l ++ [k]) c'.
Proof.
  intros [Hk Hf Hd] E. unfold add_current in E.
  destruct (parse (schema_for k)) as [[s fp]|] eqn:Hp; simpl in E; [|done]. injection E as <-.
  constructor; simpl.
  - intros k' Hk'. destruct (decide (k' = k)) as [->|Hne].
    + exists s, fp. rewrite !lookup_insert_eq. by eauto.
    + apply elem_of_app in Hk' as [Hk'|Hk']; [|by apply list_elem_of_singleton in Hk'].
      destruct (Hk k' Hk') as (s' & fp' & ? & ? & ? & ?). exists s', fp'.
      rewrite !(lookup_insert_ne _ k), is_Some_insert by done. by eauto 10.
  - intros fp' k'. destruct (decide (fp = fp')) as [->|].
    + rewrite !lookup_insert_eq. intros [= <-]. by exists s.
    + rewrite !lookup_insert_ne by done. apply Hf.
  - intros fp'. simpl. by rewrite !is_Some_insert, (Hd fp').
Qed.

(** What the second loop adds to the catalog [c0] of the first. *)
Record legacy_inv (c0 : Catalog) (l : list (Kind * string)) (c : Catalog) : Prop := {
  li_schemas : c_schemas c = c_schemas c0;
  li_fps : c_fps c = c_fps c0;
  li_keep : forall fp k, c_by_fp c0 !! fp = Some k ->
    c_by_fp c !! fp = Some k /\ c_writer_schemas c !! fp = c_writer_schemas c0 !! fp;
  li_new : forall fp k, c_by_fp c0 !! fp = None -> c_by_fp c !! fp = Some k ->
    exists s json, (k, json) ∈ l /\ parse json = Ok (s, fp) /\ c_writer_schemas c !! fp = Some s;
  li_all : forall k json, (k, json) ∈ l -> exists s fp, parse json = Ok (s, fp) /\
    is_Some (c_by_fp c !! fp);
  li_dom : same_dom c;
}.

Lemma add_legacy_inv c0 l e c c' :
  legacy_inv c0 l c -> add_legacy c e = Done c' -> legacy_inv c0 (l ++ [e]) c'.
Proof.
  intros [Hs Hf Hk Hn Ha Hd] E. destruct e as [k json]. unfold add_legacy in E.
  destruct (parse json) as [[s fp]|] eqn:Hp; simpl in E; [|done]. injection E as <-.
  constructor; simpl; [done | done | | | |].
  - intros fp' k' H0. destruct (Hk fp' k' H0) as [H1 H2].
    rewrite !lookup_or_insert, H1. split; [done|].
    destruct (proj1 (Hd fp') ltac:(by eexists)) as [s' E]. by rewrite E, <- H2.
  - intros fp' k' H0. rewrite !lookup_or_insert. destruct (c_by_fp c !! fp') as [k1|] eqn:E1.
    + intros [= ->]. destruct (Hn fp' k' H0 E1) as (s' & j' & ? & ? & E2).
      exists s', j'. rewrite E2. split_and!; [|done..]. by apply elem_of_app; left.
    + case_bool_decide; [|done]. subst. intros [= <-]. exists s, json.
      split_and!; [by apply elem_of_app; right; left | done|].
      destruct (c_writer_schemas c !! fp) eqn:E2; [|done].
      destruct (proj2 (Hd fp) ltac:(by eexists)) as [? E3]. by rewrite E1 in E3.
  - intros k' j' Hin. apply elem_of_app in Hin as [Hin|Hin].
    + destruct (Ha k' j' Hin) as (s' & fp' & ? & ?). exists s', fp'.
      rewrite is_Some_or_insert. by eauto.
    + apply list_elem_of_singleton in Hin as [= -> ->]. exists s, fp.
      rewrite is_Some_or_insert. by eauto.
  - intros fp'. simpl. by rewrite !is_Some_or_insert, (Hd fp').
Qed.

Lemma build_inv c :
  build = Done c -> exists c0, current_inv ALL_KINDS c0 /\ legacy_inv c0 legacy_schemas c.
Proof.
  unfold build. destruct (for_each add_current _ _) as [c0| | |] eqn:E0; simpl; try done.
  intros E. exists c0.
  assert (current_inv ALL_KINDS c0) as Hc.
  { apply (for_each_inv current_inv add_current ALL_KINDS [] (MkCatalog ∅ ∅ ∅ ∅));
      [intros; eapply add_current_inv; eassumption | | done].
    constructor; simpl; [by intros k ?%elem_of_nil | done |].
    intros fp. simpl. split; by intros [? ?]. }
  split; [done|]. destruct Hc as [_ Hf Hd].
  apply (for_each_inv (legacy_inv c0) add_legacy legacy_schemas [] c0);
    [intros; eapply add_legacy_inv; eassumption | | done].
  constructor; try done; [|by intros k j ?%elem_of_nil]. intros fp k H1 H2. by rewrite H1 in H2.
Qed.
End build.

(** A catalog that builds has a schema and a fingerprint of every kind. *)
Lemma schema_total `{Avro} c k : catalog = Done c ->
  exists s fp, c_schema c k = Done s /\ c_fp c k = Done fp.
Proof.
  intros Hc. destruct (build_inv c Hc) as (c0 & [Hk _ _] & [Es Ef _ _ _ _]).
  destruct (Hk k (ALL_KINDS_complete k)) as (s & fp & _ & E1 & E2 & _).
  exists s, fp. unfold c_schema, c_fp. by rewrite Es, Ef, E1, E2.
Qed.

Lemma from_frame_total `{Avro} {T} `{!Serde T} c k f : catalog = Done c ->
  exists r : io_result T, from_frame k f = Done r.
Proof.
  intros Hc. unfold from_frame. rewrite Hc. cbn [obind].
  destruct (schema_total c k Hc) as (s & fp & -> & _). by eexists.
Qed.

(** ** Properties *)

(** The catalog is right: when it builds and no two current schemas collide, every
    kind has its parsed schema and fingerprint, that fingerprint leads back to the
    kind, and its frames are read with that schema; every superseded schema is
    still known; and whatever fingerprint the catalog knows, the writer schema it
    keeps is one of that very fingerprint, current or superseded, of the kind it
    reports, with current schemas winning over superseded ones. *)
Theorem catalog_spec `{Avro} (c : Catalog) :
  catalog = Done c ->
  (forall k1 k2 s1 s2 fp, parse (schema_for k1) = Ok (s1, fp) ->
     parse (schema_for k2) = Ok (s2, fp) -> k1 = k2) ->
  (forall k, exists s fp, parse (schema_for k) = Ok (s, fp) /\
     c_schema c k = Done s /\ c_fp c k = Done fp /\
     kind_of c fp = Some k /\ writer_schema c fp = Some s) /\
  (forall k json, (k, json) ∈ legacy_schemas ->
     exists s fp, parse json = Ok (s, fp) /\ is_Some (kind_of c fp)) /\
  (forall fp k, kind_of c fp = Some k ->
     exists s, writer_schema c fp = Some s /\ fingerprint s = fp /\
       (parse (schema_for k) = Ok (s, fp) \/
        exists json, (k, json) ∈ legacy_schemas /\ parse json = Ok (s, fp))).
Proof.
  intros E Hinj. destruct (build_inv c E) as (c0 & [Hk Hf Hd] & [Es Ef Hkeep Hnew Hall _]).
  unfold c_schema, c_fp, kind_of, writer_schema. rewrite Es, Ef. split_and!.
  - intros k. destruct (Hk k (ALL_KINDS_complete k)) as (s & fp & Hp & -> & -> & [k' Hk']).
    exists s, fp. destruct (Hf fp k' Hk') as (s' & Hp' & Hw).
    assert (k' = k) as -> by (by eapply Hinj). rewrite Hp in Hp'. injection Hp' as <-.
    destruct (Hkeep fp k Hk') as [-> ->]. by rewrite Hw.
  - done.
  - intros fp k Hfp. destruct (c_by_fp c0 !! fp) as [k0|] eqn:E0.
    + destruct (Hkeep fp k0 E0) as [E1 E2]. rewrite E1 in Hfp. injection Hfp as ->.
      destruct (Hf fp k E0) as (s & Hp & Hw). exists s. rewrite E2.
      pose proof (parse_ok_inv _ _ _ Hp) as [_ ->]. by eauto.
    + destruct (Hnew fp k E0 Hfp) as (s & j & Hj & Hp & Hw). exists s.
      pose proof (parse_ok_inv _ _ _ Hp) as [_ ->]. by eauto 10.
Qed.

Definition toy_catalog : Catalog :=
  match catalog with Done c => c | _ => MkCatalog ∅ ∅ ∅ ∅ end.

Definition fp_for (k : Kind) : Z :=
  match parse (schema_for k) with Ok (_, fp) => fp | Err _ => 0 end.

Lemma toy_fps_nodup : NoDup (fp_for <$> ALL_KINDS).
Proof. apply (bool_decide_unpack _). vm_compute. exact I. Qed.

Lemma toy_no_collision k1 k2 (s1 s2 : Schema) fp :
  parse (schema_for k1) = Ok (s1, fp) -> parse (schema_for k2) = Ok (s2, fp) -> k1 = k2.
Proof.
  intros E1 E2. assert (fp_for k1 = fp_for k2) as E by (unfold fp_for; by rewrite E1, E2).
  assert (forall k, (fp_for <$> ALL_KINDS) !! kind_index k = Some (fp_for k)) as Hl
    by (intros k; by rewrite list_lookup_fmap, ALL_KINDS_index).
  pose proof (NoDup_lookup _ _ _ _ toy_fps_nodup (Hl k1) (eq_trans (Hl k2) (f_equal Some (eq_sym E)))) as Ei.
  pose proof (ALL_KINDS_index k1) as L. rewrite Ei, ALL_KINDS_index in L. by injection L.
Qed.

Definition is_done {A} (o : outcome A) : bool := match o with Done _ => true | _ => false end.

Lemma toy_catalog_done : catalog = Done toy_catalog.
Proof.
  assert (is_done catalog = true) as E by (vm_compute; reflexivity).
  unfold toy_catalog. by destruct catalog.
Qed.

Lemma catalog_spec_witness :
  catalog = Done toy_catalog /\
  (forall k, exists s fp, parse (schema_for k) = Ok (s, fp) /\
     c_schema toy_catalog k = Done s /\ c_fp toy_catalog k = Done fp /\
     kind_of toy_catalog fp = Some k /\ writer_schema toy_catalog fp = Some s) /\
  (forall k json, (k, json) ∈ legacy_schemas ->
     exists s fp, parse json = Ok (s, fp) /\ is_Some (kind_of toy_catalog fp)) /\
  (forall fp k, kind_of toy_catalog fp = Some k ->
     exists s, writer_schema toy_catalog fp = Some s /\ fingerprint s = fp /\
       (parse (schema_for k) = Ok (s, fp) \/
        exists json, (k, json) ∈ legacy_schemas /\ parse json = Ok (s, fp))).
Proof.
  split; [exact toy_catalog_done|].
  exact (catalog_spec toy_catalog toy_catalog_done toy_no_collision).
Defined.

(** ** Frames of messages *)

(** A message the connector's dispatcher routes, with its kind and the caller that
    waits for it. *)
Inductive reply_msg : Type :=
| RRegister (m : RegisterReply)
| RPublish (m : PublishReply)
| RList (m : ChannelList)
| RSubscribe (m : SubscribeReply)
| RExpose (m : ExposeReply)
| RLookup (m : LookupReply)
| RRpc (m : RpcResponse).

Definition reply_kind (r : reply_msg) : Kind :=
  match r with
  | RRegister _ => KRegisterReply | RPublish _ => KPublishReply | RList _ => KChannelList
  | RSubscribe _ => KSubscribeReply | RExpose _ => KExposeReply | RLookup _ => KLookupReply
  | RRpc _ => KRpcResponse
  end.

Definition reply_corr (r : reply_msg) : Z :=
  match r with
  | RRegister m => register_reply_correlation_id m
  | RPublish m => publish_reply_correlation_id m
  | RList m => channel_list_correlation_id m
  | RSubscribe m => subscribe_reply_correlation_id m
  | RExpose m => expose_reply_correlation_id m
  | RLookup m => lkp_reply_correlation_id m
  | RRpc m => rpc_response_correlation_id m
  end.

Definition reply_frame `{ProtoSerde} (r : reply_msg) : outcome (io_result Frame) :=
  match r with
  | RRegister m => to_frame KRegisterReply m
  | RPublish m => to_frame KPublishReply m
  | RList m => to_frame KChannelList m
  | RSubscribe m => to_frame KSubscribeReply m
  | RExpose m => to_frame KExposeReply m
  | RLookup m => to_frame KLookupReply m
  | RRpc m => to_frame KRpcResponse m
  end.

(** The body of the frame decodes to the reply. *)
Definition reads `{ProtoSerde} (r : reply_msg) (f : Frame) : Prop :=
  match r with
  | RRegister m => from_frame KRegisterReply f = Done (Ok m)
  | RPublish m => from_frame KPublishReply f = Done (Ok m)
  | RList m => from_frame KChannelList f = Done (Ok m)
  | RSubscribe m => from_frame KSubscribeReply f = Done (Ok m)
  | RExpose m => from_frame KExposeReply f = Done (Ok m)
  | RLookup m => from_frame KLookupReply f = Done (Ok m)
  | RRpc m => from_frame KRpcResponse f = Done (Ok m)
  end.

(** The kinds that are not replies. *)
Definition is_request (k : Kind) : bool :=
  match k with
  | KRegisterReply | KPublishReply | KChannelList | KSubscribeReply | KExposeReply
  | KLookupReply | KRpcResponse => false
  | _ => true
  end.

(** The codecs of the reply records, each with the schema of its kind. *)
Record reply_codecs `{ProtoSerde} (c : Catalog) : Prop := {
  rc_register s : c_schema c KRegisterReply = Done s -> codec_ok RegisterReply s;
  rc_publish s : c_schema c KPublishReply = Done s -> codec_ok PublishReply s;
  rc_list s : c_schema c KChannelList = Done s -> codec_ok ChannelList s;
  rc_subscribe s : c_schema c KSubscribeReply = Done s -> codec_ok SubscribeReply s;
  rc_expose s : c_schema c KExposeReply = Done s -> codec_ok ExposeReply s;
  rc_lookup s : c_schema c KLookupReply = Done s -> codec_ok LookupReply s;
  rc_rpc s : c_schema c KRpcResponse = Done s -> codec_ok RpcResponse s;
}.

Lemma to_frame_inv `{Avro} {T} `{!Serde T} c k (m : T) f :
  catalog = Done c -> to_frame k m = Done (Ok f) ->
  exists s fp, c_schema c k = Done s /\ c_fp c k = Done fp /\
    avro_encode s m = Ok (body f) /\ schema_fp f = fp /\ flags f = 0.
Proof.
  intros Ec. unfold to_frame. rewrite Ec. simpl.
  destruct (c_schema c k) as [s| | |] eqn:Es; simpl; try done.
  destruct (avro_encode s m) as [bs|] eqn:Eb; [|done].
  destruct (c_fp c k) as [fp| | |] eqn:Ef; simpl; try done.
  intros [= <-]. by exists s, fp.
Qed.

Lemma from_frame_to_frame `{Avro} {T} `{!Serde T} c k (m : T) f :
  catalog = Done c -> (forall s, c_schema c k = Done s -> codec_ok T s) ->
  to_frame k m = Done (Ok f) -> from_frame k f = Done (Ok m).
Proof.
  intros Ec Hc (s & fp & Es & Ef & Hb & _ & _)%(to_frame_inv c); [|done].
  unfold from_frame. rewrite Ec. simpl. rewrite Es. simpl. f_equal. by apply Hc.
Qed.

(** A reply's frame is well formed and carries the reply's id. *)
Lemma reply_is_routed `{ProtoSerde} (c : Catalog) r f :
  catalog = Done c -> reply_codecs c ->
  (forall k fp, c_fp c k = Done fp -> kind_of c fp = Some k /\ in_u 64 fp) ->
  reply_frame r = Done (Ok f) -> in_u 32 (blen (body f)) ->
  frame_wf f /\ correlation_id f = Done (Ok (reply_corr r)).
Proof.
  intros Ec [C1 C2 C3 C4 C5 C6 C7] Hfp Hr Hlen.
  assert (exists fp, c_fp c (reply_kind r) = Done fp /\ schema_fp f = fp /\ flags f = 0)
    as (fp & Ef & Efp & Efl).
  { destruct r; simpl in *;
      (apply (to_frame_inv c) in Hr as (s & fp & _ & ? & _ & ? & ?); [by exists fp | done]). }
  destruct (Hfp _ _ Ef) as [Hk Hu]. split; [constructor; [rewrite Efl; done | by rewrite Efp | done]|].
  unfold correlation_id. rewrite Ec. simpl. rewrite Efp, Hk.
  destruct r as [m|m|m|m|m|m|m]; simpl in *;
    rewrite (from_frame_to_frame c _ m f Ec) by assumption; done.
Qed.

(** What [correlation_id] says of any frame: the id of the reply its body decodes to under
    the kind of its fingerprint, and an error when there is no such reply. *)
Lemma correlation_cases `{ProtoSerde} (c : Catalog) f : catalog = Done c ->
  (exists r, kind_of c (schema_fp f) = Some (reply_kind r) /\ reads r f /\
     correlation_id f = Done (Ok (reply_corr r))) \/
  (exists e, correlation_id f = Done (Err e) /\
     forall r, kind_of c (schema_fp f) = Some (reply_kind r) -> ~ reads r f).
Proof.
  intros Ec. unfold correlation_id. rewrite Ec. simpl.
  destruct (kind_of c (schema_fp f)) as [k|]; [|by right; eexists].
  destruct k; try (right; eexists; split; [done | by intros []]).
  all: match goal with |- context [from_frame (T := ?T) ?k ?g] =>
    destruct (from_frame_total (T := T) c k g Ec) as [[m|e] E]; rewrite E; simpl end.
  all: try (right; eexists; split; [done |]; intros r [= Hk]; destruct r; simpl in *; congruence).
  all: left.
  - by exists (RRegister m).
  - by exists (RPublish m).
  - by exists (RList m).
  - by exists (RSubscribe m).
  - by exists (RExpose m).
  - by exists (RLookup m).
  - by exists (RRpc m).
Qed.

(** C29: A reply reaches the caller it is for: put into a frame, written to the wire and
    read back, a reply of any of the seven routable kinds yields the correlation id
    it was given. Of any frame at all, whatever its fingerprint and body, routing answers
    the correlation id of the reply its body decodes to under the kind of its fingerprint,
    and an error when it decodes to none; in particular a frame of any other kind, or of an
    unknown fingerprint, is an error. It is never a panic. *)
Theorem correlation_routes `{ProtoSerde} (c : Catalog) :
  catalog = Done c -> reply_codecs c ->
  (forall k fp, c_fp c k = Done fp -> kind_of c fp = Some k /\ in_u 64 fp) ->
  (forall r f, reply_frame r = Done (Ok f) -> in_u 32 (blen (body f)) ->
     decode (encode f) = Ok f /\ correlation_id f = Done (Ok (reply_corr r))) /\
  (forall f, match kind_of c (schema_fp f) with Some k => is_request k | None => true end = true ->
     exists e, correlation_id f = Done (Err e)) /\
  (forall f,
     (exists r, kind_of c (schema_fp f) = Some (reply_kind r) /\ reads r f /\
        correlation_id f = Done (Ok (reply_corr r))) \/
     (exists e, correlation_id f = Done (Err e) /\
        forall r, kind_of c (schema_fp f) = Some (reply_kind r) -> ~ reads r f)).
Proof.
  intros Ec Hcod Hfp. split_and!.
  - intros r f Hr Hlen. destruct (reply_is_routed c r f Ec Hcod Hfp Hr Hlen) as [Hwf Hcorr].
    split; [|done]. rewrite <- (app_nil_r (encode f)). by apply decode_encode_app.
  - intros f Hk. destruct (correlation_cases c f Ec) as [(r & E & _)|(e & E & _)]; [|by exists e].
    rewrite E in Hk. by destruct r.
  - intros f. by apply correlation_cases.
Qed.

Lemma toy_infos (l : list ChannelInfo) :
  mapM toy_info ((fun c => ARec [ALong (info_channel_id c); AStr (info_name c);
    AStr (info_owner_app c); ALong (info_schema_fp c); ABool (info_requires_key c)]) <$> l) = Some l.
Proof. induction l as [|i l IH]; [done|]. rewrite fmap_cons. simpl. rewrite IH. by destruct i. Qed.

Lemma toy_reply_codecs : reply_codecs toy_catalog.
Proof.
  constructor; intros s _; apply toy_codec; intros m v; destruct m; simpl; intros [= <-]; try done.
  simpl. by rewrite toy_infos.
Qed.

Lemma toy_fp_kind k fp : c_fp toy_catalog k = Done fp -> kind_of toy_catalog fp = Some k /\ in_u 64 fp.
Proof.
  intros E.
  assert (forallb (fun k => match c_fp toy_catalog k with
      | Done fp => bool_decide (kind_of toy_catalog fp = Some k) && (0 <=? fp) && (fp <? 2 ^ 64)
      | _ => false end) ALL_KINDS = true) as Hall by (vm_compute; reflexivity).
  rewrite forallb_forall in Hall. specialize (Hall k (proj1 (list_elem_of_In _ _) (ALL_KINDS_complete k))).
  rewrite E in Hall. apply andb_prop in Hall as [Hall H2]. apply andb_prop in Hall as [H0 H1].
  apply bool_decide_eq_true_1 in H0. apply Z.leb_le in H1. apply Z.ltb_lt in H2.
  split; [done | by split].
Qed.

Lemma correlation_routes_witness :
  (forall r f, reply_frame r = Done (Ok f) -> in_u 32 (blen (body f)) ->
     decode (encode f) = Ok f /\ correlation_id f = Done (Ok (reply_corr r))) /\
  (forall f, match kind_of toy_catalog (schema_fp f) with Some k => is_request k | None => true end = true ->
     exists e, correlation_id f = Done (Err e)) /\
  (forall f,
     (exists r, kind_of toy_catalog (schema_fp f) = Some (reply_kind r) /\ reads r f /\
        correlation_id f = Done (Ok (reply_corr r))) \/
     (exists e, correlation_id f = Done (Err e) /\
        forall r, kind_of toy_catalog (schema_fp f) = Some (reply_kind r) -> ~ reads r f)).
Proof. exact (correlation_routes toy_catalog toy_catalog_done toy_reply_codecs toy_fp_kind). Defined.
