(* ===== verification/Registry.v ===== *)
(** * The broker's registry (crates/impulsed/src/registry.rs)

    Clients, channels, functions, their names, the release bookkeeping and the
    access checks. A [HashMap] is a [gmap]; iterating one visits its bindings in
    an order the program does not rely on ([map_to_list] here, and the theorems
    speak of the results as sets or up to permutation). *)

From S2P Require Import Prelude Machine Util Proto.

Record ClientMeta : Type := MkClientMeta { cl_app_name : string; cl_pid : Z (** i32 *) }.

Record ChannelMeta : Type := MkChannelMeta {
  ch_id : Z;
  ch_name : string;
  ch_owner : Z;
  ch_schema_fp : Z;
  ch_key : option (list byte);
  ch_arena : string;
}.

Record FunctionMeta : Type := MkFunctionMeta {
  fn_id : Z;
  fn_name : string;
  fn_owner : Z;
  fn_req_fp : Z;
  fn_resp_fp : Z;
  fn_key : option (list byte);
  fn_req_arena : string;
}.

(** An error status and its message. *)
Definition denial : Type := (Z * string)%type.
Definition AccessResult : Type := result unit denial.

Inductive Release : Type :=
| RelNow (arena : string)
| RelDeferred
| RelRefused.

Record Registry : Type := MkRegistry {
  clients : gmap Z ClientMeta;
  channels : gmap Z ChannelMeta;
  chan_by_name : gmap string Z;
  functions : gmap Z FunctionMeta;
  fn_by_name : gmap string Z;
  subscribed : gset Z;
  released : gmap Z Z;      (** channel id, moment of release *)
  next_client : Z;
  next_channel : Z;
  next_fn : Z;
}.

Definition new_registry : Registry := MkRegistry ∅ ∅ ∅ ∅ ∅ ∅ ∅ 1 1 1.

(** ** Field updates *)

Definition set_clients (m : gmap Z ClientMeta) (r : Registry) : Registry :=
  MkRegistry m (channels r) (chan_by_name r) (functions r) (fn_by_name r) (subscribed r)
    (released r) (next_client r) (next_channel r) (next_fn r).
Definition set_channels (m : gmap Z ChannelMeta) (n : gmap string Z) (r : Registry) : Registry :=
  MkRegistry (clients r) m n (functions r) (fn_by_name r) (subscribed r)
    (released r) (next_client r) (next_channel r) (next_fn r).
Definition set_functions (m : gmap Z FunctionMeta) (n : gmap string Z) (r : Registry) : Registry :=
  MkRegistry (clients r) (channels r) (chan_by_name r) m n (subscribed r)
    (released r) (next_client r) (next_channel r) (next_fn r).
Definition set_book (s : gset Z) (rel : gmap Z Z) (r : Registry) : Registry :=
  MkRegistry (clients r) (channels r) (chan_by_name r) (functions r) (fn_by_name r) s
    rel (next_client r) (next_channel r) (next_fn r).
Definition set_next (c ch f : Z) (r : Registry) : Registry :=
  MkRegistry (clients r) (channels r) (chan_by_name r) (functions r) (fn_by_name r)
    (subscribed r) (released r) c ch f.

(** ** Clients *)

Definition add_client (app_name : string) (pid : Z) (r : Registry) : Registry * Z :=
  let id := next_client r in
  let r := set_next (i64 (next_client r + 1)) (next_channel r) (next_fn r) r in
  (set_clients (<[id := MkClientMeta app_name pid]> (clients r)) r, id).

Definition remove_client (id : Z) (r : Registry) : Registry :=
  set_clients (delete id (clients r)) r.

(** [self.clients.get(&owner).map(|c| c.pid).unwrap_or(0)] *)
Definition owner_pid (r : Registry) (owner : Z) : Z :=
  match clients r !! owner with Some c => cl_pid c | None => 0 end.

Definition dead_function_owner (r : Registry) (name : string) (alive : Z -> prog bool)
  : prog (option Z) :=
  match fn_by_name r !! name with
  | None => ret None
  | Some fid =>
      match functions r !! fid with
      | None => ret None
      | Some f =>
          let! a := alive (owner_pid r (fn_owner f)) in
          ret (if negb a then Some (fn_owner f) else None)
      end
  end.

Definition dead_channel_owner (r : Registry) (name : string) (alive : Z -> prog bool)
  : prog (option Z) :=
  match chan_by_name r !! name with
  | None => ret None
  | Some cid =>
      match channels r !! cid with
      | None => ret None
      | Some c =>
          let! a := alive (owner_pid r (ch_owner c)) in
          ret (if negb a then Some (ch_owner c) else None)
      end
  end.

(** ** Channels *)

Definition drop_channel (id : Z) (r : Registry) : Registry * option string :=
  match channels r !! id with
  | None => (r, None)
  | Some c =>
      let r := set_channels (delete id (channels r)) (delete (ch_name c) (chan_by_name r)) r in
      (set_book (subscribed r ∖ {[id]}) (delete id (released r)) r, Some (ch_arena c))
  end.

(** Drop each of a list of channels, collecting the arenas. *)
Fixpoint drop_channels (ids : list Z) (r : Registry) : Registry * list string :=
  match ids with
  | [] => (r, [])
  | id :: ids =>
      let (r, a) := drop_channel id r in
      let (r, arenas) := drop_channels ids r in
      (r, match a with Some a => a :: arenas | None => arenas end)
  end.

Definition remove_client_channels (owner : Z) (r : Registry) : Registry * list string :=
  let ids := fst <$> filter (fun p => ch_owner (snd p) = owner) (map_to_list (channels r)) in
  drop_channels ids r.

Definition mark_subscribed (channel_id : Z) (r : Registry) : Registry :=
  set_book (subscribed r ∪ {[channel_id]}) (released r) r.

Definition release_channel (name : string) (owner : Z) (now : Z) (r : Registry)
  : Registry * Release :=
  match chan_by_name r !! name with
  | None => (r, RelRefused)
  | Some id =>
      if negb (bool_decide (ch_owner <$> channels r !! id = Some owner)) then (r, RelRefused) else
      if bool_decide (id ∈ subscribed r) then
        match drop_channel id r with
        | (r, Some arena) => (r, RelNow arena)
        | (r, None) => (r, RelRefused)
        end
      else (set_book (subscribed r) (<[id := now]> (released r)) r, RelDeferred)
  end.

(** [at.elapsed() >= grace]; [elapsed] saturates at zero. *)
Definition due (now grace at_ : Z) : bool := grace <=? Z.max 0 (now - at_).

Definition reap_released (grace now : Z) (r : Registry) : Registry * list string :=
  let ids := fst <$> filter (fun p => due now grace (snd p) = true) (map_to_list (released r)) in
  drop_channels ids r.

Definition reap_if_released (name : string) (r : Registry) : Registry * option string :=
  match chan_by_name r !! name with
  | None => (r, None)
  | Some id =>
      match released r !! id with
      | None => (r, None)
      | Some _ => drop_channel id r
      end
  end.

(** ** Functions *)

Definition drop_function (id : Z) (r : Registry) : Registry * option string :=
  match functions r !! id with
  | None => (r, None)
  | Some f =>
      (set_functions (delete id (functions r)) (delete (fn_name f) (fn_by_name r)) r,
       Some (fn_req_arena f))
  end.

Fixpoint drop_functions (ids : list Z) (r : Registry) : Registry * list string :=
  match ids with
  | [] => (r, [])
  | id :: ids =>
      let (r, a) := drop_function id r in
      let (r, arenas) := drop_functions ids r in
      (r, match a with Some a => a :: arenas | None => arenas end)
  end.

Definition remove_client_functions (owner : Z) (r : Registry) : Registry * list string :=
  let ids := fst <$> filter (fun p => fn_owner (snd p) = owner) (map_to_list (functions r)) in
  drop_functions ids r.

Definition alloc_channel_id (r : Registry) : Registry * Z :=
  (set_next (next_client r) (i64 (next_channel r + 1)) (next_fn r) r, next_channel r).

Definition alloc_fn_id (r : Registry) : Registry * Z :=
  (set_next (next_client r) (next_channel r) (i64 (next_fn r + 1)) r, next_fn r).

Definition channel_name_taken (r : Registry) (name : string) : bool :=
  bool_decide (is_Some (chan_by_name r !! name)).

Definition insert_channel (c : ChannelMeta) (r : Registry) : Registry :=
  set_channels (<[ch_id c := c]> (channels r)) (<[ch_name c := ch_id c]> (chan_by_name r)) r.

Definition function_name_taken (r : Registry) (name : string) : bool :=
  bool_decide (is_Some (fn_by_name r !! name)).

Definition insert_function (f : FunctionMeta) (r : Registry) : Registry :=
  set_functions (<[fn_id f := f]> (functions r)) (<[fn_name f := fn_id f]> (fn_by_name r)) r.

Definition find_function_by_name (r : Registry) (name : string) : option FunctionMeta :=
  match fn_by_name r !! name with Some id => functions r !! id | None => None end.

Definition channel_info (r : Registry) (c : ChannelMeta) : ChannelInfo :=
  MkChannelInfo (ch_id c) (ch_name c)
    (match clients r !! ch_owner c with Some m => cl_app_name m | None => "" end)
    (fp_to_i64 (ch_schema_fp c)) (bool_decide (is_Some (ch_key c))).

Definition list_channels (r : Registry) : list ChannelInfo :=
  channel_info r <$> (snd <$> map_to_list (channels r)).

(** ** Access control *)

Section access.
Context `{Sha256}.

Definition check_key (policy : option (list byte)) (presented : string) : AccessResult :=
  match policy with
  | None => Ok tt
  | Some hash =>
      if key_matches presented hash then Ok tt else Err (ERR_DENIED, "invalid access key")
  end.

Definition check_fp (expected actual : Z) : AccessResult :=
  if (expected =? 0) || (expected =? actual) then Ok tt
  else Err (ERR_SCHEMA_MISMATCH,
            "schema mismatch: expected " +:+ hex_alt expected +:+ ", got " +:+ hex_alt actual).

Definition resolve_subscribe (r : Registry) (channel_id : Z) (access_key : string)
    (expected_fp : Z) : result (string * Z) denial :=
  match channels r !! channel_id with
  | None => Err (ERR_NOT_FOUND, "no such channel")
  | Some c =>
      match check_key (ch_key c) access_key with
      | Err e => Err e
      | Ok _ =>
          match check_fp expected_fp (ch_schema_fp c) with
          | Err e => Err e
          | Ok _ => Ok (ch_arena c, ch_schema_fp c)
          end
      end
  end.

Definition resolve_lookup (r : Registry) (name access_key : string)
  : result (Z * Z * Z * string) denial :=
  match find_function_by_name r name with
  | None => Err (ERR_NOT_FOUND, "no such function")
  | Some f =>
      match check_key (fn_key f) access_key with
      | Err e => Err e
      | Ok _ => Ok (fn_id f, fn_req_fp f, fn_resp_fp f, fn_req_arena f)
      end
  end.
End access.
