(* ===== verification/RegistryThm.v ===== *)
(** * The registry's invariant and what its operations do

    The two name tables and the two object tables are inverse to each other, the
    release bookkeeping only speaks of existing channels, and ids are below the
    counters. Every operation keeps this, and changes nothing it is not about. *)

From S2P Require Import Prelude Machine Util Proto Registry.

Record reg_inv (r : Registry) : Prop := {
  ri_chan : forall id c, channels r !! id = Some c ->
    ch_id c = id /\ chan_by_name r !! ch_name c = Some id;
  ri_chan_name : forall n id, chan_by_name r !! n = Some id ->
    exists c, channels r !! id = Some c /\ ch_name c = n;
  ri_fn : forall id f, functions r !! id = Some f ->
    fn_id f = id /\ fn_by_name r !! fn_name f = Some id;
  ri_fn_name : forall n id, fn_by_name r !! n = Some id ->
    exists f, functions r !! id = Some f /\ fn_name f = n;
  ri_sub : forall id, id ∈ subscribed r -> is_Some (channels r !! id);
  ri_rel : forall id, is_Some (released r !! id) -> is_Some (channels r !! id);
  ri_client_id : forall id, is_Some (clients r !! id) -> 1 <= id < next_client r;
  ri_chan_id : forall id, is_Some (channels r !! id) -> 1 <= id < next_channel r;
  ri_fn_id : forall id, is_Some (functions r !! id) -> 1 <= id < next_fn r;
  ri_next : 1 <= next_client r < 2 ^ 63 /\ 1 <= next_channel r < 2 ^ 63 /\ 1 <= next_fn r < 2 ^ 63;
}.

(** The counters have not reached the end of the [i64] range. *)
Definition ids_left (r : Registry) : Prop :=
  next_client r < 2 ^ 63 - 1 /\ next_channel r < 2 ^ 63 - 1 /\ next_fn r < 2 ^ 63 - 1.

(** What an operation on channels leaves alone, and the counterpart for functions. *)
Definition fn_same (r r' : Registry) : Prop :=
  clients r' = clients r /\ functions r' = functions r /\ fn_by_name r' = fn_by_name r /\
  next_client r' = next_client r /\ next_channel r' = next_channel r /\ next_fn r' = next_fn r.

Definition chan_same (r r' : Registry) : Prop :=
  clients r' = clients r /\ channels r' = channels r /\ chan_by_name r' = chan_by_name r /\
  subscribed r' = subscribed r /\ released r' = released r /\
  next_client r' = next_client r /\ next_channel r' = next_channel r /\ next_fn r' = next_fn r.

Lemma fn_same_trans r1 r2 r3 : fn_same r1 r2 -> fn_same r2 r3 -> fn_same r1 r3.
Proof. unfold fn_same. intuition congruence. Qed.

Lemma chan_same_trans r1 r2 r3 : chan_same r1 r2 -> chan_same r2 r3 -> chan_same r1 r3.
Proof. unfold chan_same. intuition congruence. Qed.

Lemma new_registry_inv : reg_inv new_registry.
Proof.
  constructor; simpl; try done; try (by intros ? ? ?); try (by intros ? [? ?]).
Qed.

Section channels.
Context (r : Registry).
Hypothesis Hi : reg_inv r.

Lemma chan_name_inj id1 id2 c1 c2 :
  channels r !! id1 = Some c1 -> channels r !! id2 = Some c2 -> ch_name c1 = ch_name c2 ->
  id1 = id2.
Proof using Hi.
  intros H1%(ri_chan _ Hi) H2%(ri_chan _ Hi) E. destruct H1 as [_ H1], H2 as [_ H2]. congruence.
Qed.

Lemma drop_channel_inv id c :
  channels r !! id = Some c -> reg_inv (fst (drop_channel id r)).
Proof using Hi.
  intros Hc. unfold drop_channel. rewrite Hc. simpl.
  pose proof Hi as [I1 I2 I3 I4 I5 I6 I7 I8 I9 I10].
  constructor; simpl; try done.
  - intros id' c'. rewrite lookup_delete_Some. intros [Hne Hc'].
    destruct (I1 id' c' Hc') as [? ?]. split; [done|]. apply lookup_delete_Some. split; [|done].
    intros E. apply Hne. by eapply chan_name_inj.
  - intros n id'. rewrite lookup_delete_Some. intros [Hne Hn].
    destruct (I2 n id' Hn) as (c' & Hc' & <-). exists c'. split; [|done].
    apply lookup_delete_Some. split; [|done]. intros <-. rewrite Hc in Hc'. by injection Hc' as ->.
  - intros id' [Hs Hne]%elem_of_difference. rewrite lookup_delete_ne; [by apply I5 | set_solver].
  - intros id'. destruct (decide (id = id')) as [->|].
    + rewrite lookup_delete_eq. by intros [? ?].
    + rewrite !lookup_delete_ne by done. apply I6.
  - intros id' [c' Hc']. apply lookup_delete_Some in Hc' as [_ Hc']. apply I8. by eexists.
Qed.

(** The effect on each lookup. *)
Lemma drop_channel_spec id c :
  channels r !! id = Some c ->
  snd (drop_channel id r) = Some (ch_arena c) /\
  channels (fst (drop_channel id r)) = delete id (channels r) /\
  subscribed (fst (drop_channel id r)) = subscribed r ∖ {[id]} /\
  released (fst (drop_channel id r)) = delete id (released r) /\
  fn_same r (fst (drop_channel id r)).
Proof using. intros Hc. unfold drop_channel. by rewrite Hc. Qed.
End channels.

(** A name is taken exactly when a channel of that name exists. *)
Lemma chan_name_free r n :
  reg_inv r -> chan_by_name r !! n = None <-> forall id c, channels r !! id = Some c -> ch_name c <> n.
Proof.
  intros Hi. split.
  - intros Hn id c Hc E. apply (ri_chan _ Hi) in Hc as [_ Hc]. congruence.
  - intros H. destruct (chan_by_name r !! n) as [id|] eqn:E; [|done].
    destruct (ri_chan_name _ Hi n id E) as (c & Hc & ?). by destruct (H id c Hc).
Qed.

Lemma omap_ext_in {A B} (f g : A -> option B) (l : list A) :
  (forall a, a ∈ l -> f a = g a) -> omap f l = omap g l.
Proof.
  induction l as [|a l IH]; intros H; [done|].
  assert (omap f l = omap g l) as E by (apply IH; intros b Hb; apply H; by right).
  cbn. rewrite (H a) by (by left). destruct (g a); [f_equal|]; exact E.
Qed.

Lemma decide_cons_ne {A} (id id' : Z) ids (a b : A) :
  id' <> id ->
  (if decide (id' ∈ ids) then a else b) = (if decide (id' ∈ id :: ids) then a else b).
Proof.
  intros Hne. destruct (decide (id' ∈ ids)) as [H1|H1], (decide (id' ∈ id :: ids)) as [H2|H2];
    try done; exfalso; rewrite elem_of_cons in H2; tauto.
Qed.

Lemma drop_channels_spec ids r :
  reg_inv r -> NoDup ids -> (forall id, id ∈ ids -> is_Some (channels r !! id)) ->
  let r' := fst (drop_channels ids r) in
  reg_inv r' /\ fn_same r r' /\
  (forall id, channels r' !! id = if decide (id ∈ ids) then None else channels r !! id) /\
  (forall id, released r' !! id = if decide (id ∈ ids) then None else released r !! id) /\
  subscribed r' = subscribed r ∖ list_to_set ids /\
  snd (drop_channels ids r) = omap (fun id => ch_arena <$> channels r !! id) ids.
Proof.
  revert r. induction ids as [|id ids IH]; intros r Hi Hnd Hin; simpl.
  { split_and!; try done. by rewrite difference_empty_L. }
  inversion_clear Hnd as [|? ? Hni Hnd1]. rename Hnd1 into Hnd.
  destruct (Hin id ltac:(by left)) as [c Hc].
  pose proof (drop_channel_inv r Hi id c Hc) as Hi1.
  destruct (drop_channel_spec r id c Hc) as (Ea & Ech & Es & Er & Hs).
  destruct (drop_channel id r) as [r1 a]. simpl in *. subst a.
  destruct (IH r1 Hi1 Hnd) as (Hi2 & Hs2 & Hch & Hrel & Hsub & Har).
  { intros id' Hid'. rewrite Ech, lookup_delete_ne by (by intros ->).
    apply Hin. by right. }
  destruct (drop_channels ids r1) as [r2 arenas]. simpl in *.
  split_and!; [done | by eapply fn_same_trans | | | |].
  - intros id'. rewrite Hch, Ech. destruct (decide (id' = id)) as [->|Hne].
    + rewrite lookup_delete_eq. rewrite (decide_True (P := id ∈ id :: ids)) by (by left).
      by case_decide.
    + rewrite lookup_delete_ne by done.
      by apply decide_cons_ne.
  - intros id'. rewrite Hrel, Er. destruct (decide (id' = id)) as [->|Hne].
    + rewrite lookup_delete_eq. rewrite (decide_True (P := id ∈ id :: ids)) by (by left).
      by case_decide.
    + rewrite lookup_delete_ne by done.
      by apply decide_cons_ne.
  - rewrite Hsub, Es. clear. set_solver.
  - rewrite Har. cbn. rewrite Hc. cbn. f_equal. apply omap_ext_in. intros id' Hid'.
    by rewrite Ech, lookup_delete_ne by (by intros ->).
Qed.

(** The keys of a map's bindings that satisfy a predicate. *)
Section keys.
Context {V : Type} (P : Z * V -> Prop) `{!forall x, Decision (P x)} (m : gmap Z V).

Lemma keys_NoDup : NoDup (fst <$> filter P (map_to_list m)).
Proof using.
  eapply sublist_NoDup; [apply (NoDup_fst_map_to_list m)|].
  apply fmap_sublist, sublist_filter.
Qed.

Lemma elem_of_keys id :
  id ∈ fst <$> filter P (map_to_list m) <-> exists v, m !! id = Some v /\ P (id, v).
Proof using.
  rewrite list_elem_of_fmap. split.
  - intros ([id' v] & -> & [HP Hin]%list_elem_of_filter).
    apply elem_of_map_to_list in Hin. by exists v.
  - intros (v & Hv & HP). exists (id, v). split; [done|].
    apply list_elem_of_filter. split; [done|]. by apply elem_of_map_to_list.
Qed.
End keys.

(** Everything [owner] has is gone and nothing else is. *)
Lemma remove_client_channels_spec owner r :
  reg_inv r ->
  let r' := fst (remove_client_channels owner r) in
  reg_inv r' /\ fn_same r r' /\
  (forall id c, channels r' !! id = Some c <-> channels r !! id = Some c /\ ch_owner c <> owner) /\
  (forall a, a ∈ snd (remove_client_channels owner r) <->
     exists id c, channels r !! id = Some c /\ ch_owner c = owner /\ a = ch_arena c).
Proof.
  intros Hi. unfold remove_client_channels. set (ids := fst <$> _).
  assert (forall id, id ∈ ids <-> exists c, channels r !! id = Some c /\ ch_owner c = owner) as Hids
    by (intros id; apply elem_of_keys).
  destruct (drop_channels_spec ids r Hi) as (Hi' & Hs & Hch & _ & _ & Ha).
  { apply keys_NoDup. }
  { intros id (c & Hc & _)%Hids. by eexists. }
  cbv zeta. split_and!; [done | done | |].
  - intros id c. rewrite Hch. case_decide as Hid; rewrite Hids in Hid.
    + split; [done|]. intros [Hc Hne]. destruct Hid as (c' & Hc' & <-). congruence.
    + split; [|by intros [??]]. intros Hc. split; [done|]. intros E. apply Hid. by exists c.
  - intros a. rewrite Ha, list_elem_of_omap. split.
    + intros (id & (c & Hc & Ho)%Hids & E). rewrite Hc in E. injection E as <-. by exists id, c.
    + intros (id & c & Hc & Ho & ->). exists id. rewrite Hc. split; [|done]. apply Hids. by exists c.
Qed.

(** A channel released at least [grace] ago. *)
Definition is_due_at (r : Registry) (now grace id : Z) : Prop :=
  exists t, released r !! id = Some t /\ due now grace t = true.

#[export] Instance is_due_at_dec r now grace id : Decision (is_due_at r now grace id).
Proof.
  unfold is_due_at. destruct (released r !! id) as [t|]; [|right; by intros (? & ? & _)].
  destruct (due now grace t) eqn:E; [left; by exists t | right; intros (? & [= <-] & ?); congruence].
Defined.

Lemma reap_released_spec grace now r :
  reg_inv r ->
  let r' := fst (reap_released grace now r) in
  let is_due := is_due_at r now grace in
  reg_inv r' /\ fn_same r r' /\
  (forall id, is_due id -> channels r' !! id = None /\ released r' !! id = None) /\
  (forall id, ~ is_due id -> channels r' !! id = channels r !! id /\
                             released r' !! id = released r !! id) /\
  (forall a, a ∈ snd (reap_released grace now r) <->
     exists id c, is_due id /\ channels r !! id = Some c /\ a = ch_arena c).
Proof.
  intros Hi. unfold reap_released. set (ids := fst <$> _). cbv zeta. unfold is_due_at.
  assert (forall id, id ∈ ids <-> exists t, released r !! id = Some t /\ due now grace t = true) as Hids
    by (intros id; apply elem_of_keys).
  destruct (drop_channels_spec ids r Hi) as (Hi' & Hs & Hch & Hrel & _ & Ha).
  { apply keys_NoDup. }
  { intros id (t & Ht & _)%Hids. apply (ri_rel _ Hi). by eexists. }
  split_and!; [done | done | | |].
  - intros id Hd%Hids. by rewrite Hch, Hrel, !decide_True.
  - intros id Hd. rewrite <- Hids in Hd. by rewrite Hch, Hrel, !decide_False.
  - intros a. rewrite Ha, list_elem_of_omap. split.
    + intros (id & Hid%Hids & E). destruct (channels r !! id) as [c|] eqn:Hc; [|done].
      injection E as <-. by exists id, c.
    + intros (id & c & Hd & Hc & ->). exists id. rewrite Hc. split; [|done]. by apply Hids.
Qed.

(** ** Functions *)

Lemma fn_name_inj r id1 id2 f1 f2 :
  reg_inv r -> functions r !! id1 = Some f1 -> functions r !! id2 = Some f2 ->
  fn_name f1 = fn_name f2 -> id1 = id2.
Proof.
  intros Hi H1%(ri_fn _ Hi) H2%(ri_fn _ Hi) E. destruct H1 as [_ H1], H2 as [_ H2]. congruence.
Qed.

Lemma drop_function_inv r id f :
  reg_inv r -> functions r !! id = Some f -> reg_inv (fst (drop_function id r)).
Proof.
  intros Hi Hf. unfold drop_function. rewrite Hf. simpl.
  pose proof Hi as [I1 I2 I3 I4 I5 I6 I7 I8 I9 I10].
  constructor; simpl; try done.
  - intros id' f'. rewrite lookup_delete_Some. intros [Hne Hf'].
    destruct (I3 id' f' Hf') as [? ?]. split; [done|]. apply lookup_delete_Some. split; [|done].
    intros E. apply Hne. by eapply fn_name_inj.
  - intros n id'. rewrite lookup_delete_Some. intros [Hne Hn].
    destruct (I4 n id' Hn) as (f' & Hf' & <-). exists f'. split; [|done].
    apply lookup_delete_Some. split; [|done]. intros <-. rewrite Hf in Hf'. by injection Hf' as ->.
  - intros id' [f' Hf']. apply lookup_delete_Some in Hf' as [_ Hf']. apply I9. by eexists.
Qed.

Lemma drop_functions_spec ids r :
  reg_inv r -> NoDup ids -> (forall id, id ∈ ids -> is_Some (functions r !! id)) ->
  let r' := fst (drop_functions ids r) in
  reg_inv r' /\ chan_same r r' /\
  (forall id, functions r' !! id = if decide (id ∈ ids) then None else functions r !! id) /\
  snd (drop_functions ids r) = omap (fun id => fn_req_arena <$> functions r !! id) ids.
Proof.
  revert r. induction ids as [|id ids IH]; intros r Hi Hnd Hin; simpl; [done|].
  inversion_clear Hnd as [|? ? Hni Hnd1]. rename Hnd1 into Hnd.
  destruct (Hin id ltac:(by left)) as [f Hf].
  pose proof (drop_function_inv r id f Hi Hf) as Hi1.
  unfold drop_function in *. rewrite Hf in *. simpl in Hi1. set (r1 := set_functions _ _ r) in *.
  destruct (IH r1 Hi1 Hnd) as (Hi2 & Hs2 & Hfn & Har).
  { intros id' Hid'. unfold r1. simpl. rewrite lookup_delete_ne by (by intros ->).
    apply Hin. by right. }
  destruct (drop_functions ids r1) as [r2 arenas]. simpl in *.
  split_and!; [done | by eapply chan_same_trans | |].
  - intros id'. rewrite Hfn. destruct (decide (id' = id)) as [->|Hne].
    + rewrite lookup_delete_eq. rewrite (decide_True (P := id ∈ id :: ids)) by (by left).
      by case_decide.
    + rewrite lookup_delete_ne by done. by apply decide_cons_ne.
  - rewrite Har. cbn. f_equal. apply omap_ext_in. intros id' Hid'. simpl.
    by rewrite lookup_delete_ne by (by intros ->).
Qed.

Lemma remove_client_functions_spec owner r :
  reg_inv r ->
  let r' := fst (remove_client_functions owner r) in
  reg_inv r' /\ chan_same r r' /\
  (forall id f, functions r' !! id = Some f <-> functions r !! id = Some f /\ fn_owner f <> owner) /\
  (forall a, a ∈ snd (remove_client_functions owner r) <->
     exists id f, functions r !! id = Some f /\ fn_owner f = owner /\ a = fn_req_arena f).
Proof.
  intros Hi. unfold remove_client_functions. set (ids := fst <$> _).
  assert (forall id, id ∈ ids <-> exists f, functions r !! id = Some f /\ fn_owner f = owner) as Hids
    by (intros id; apply elem_of_keys).
  destruct (drop_functions_spec ids r Hi) as (Hi' & Hs & Hfn & Ha).
  { apply keys_NoDup. }
  { intros id (f & Hf & _)%Hids. by eexists. }
  cbv zeta. split_and!; [done | done | |].
  - intros id f. rewrite Hfn. case_decide as Hid; rewrite Hids in Hid.
    + split; [done|]. intros [Hf Hne]. destruct Hid as (f' & Hf' & <-). congruence.
    + split; [|by intros [??]]. intros Hf. split; [done|]. intros E. apply Hid. by exists f.
  - intros a. rewrite Ha, list_elem_of_omap. split.
    + intros (id & (f & Hf & Ho)%Hids & E). rewrite Hf in E. injection E as <-. by exists id, f.
    + intros (id & f & Hf & Ho & ->). exists id. rewrite Hf. split; [|done]. apply Hids. by exists f.
Qed.

(** ** The other operations *)

Section ops.
Context (r : Registry).
Hypothesis Hi : reg_inv r.

Lemma add_client_inv app pid :
  next_client r < 2 ^ 63 - 1 -> reg_inv (fst (add_client app pid r)).
Proof using Hi.
  intros Hn. pose proof Hi as [I1 I2 I3 I4 I5 I6 I7 I8 I9 I10].
  constructor; simpl; rewrite ?wrap_i_small by (unfold in_i; lia); try done; [|lia].
  intros id. destruct (decide (id = next_client r)) as [->|Hne]; [lia|].
  rewrite lookup_insert_ne by done. intros Hid%I7. lia.
Qed.

Lemma add_client_fresh : clients r !! next_client r = None.
Proof using Hi.
  destruct (clients r !! next_client r) eqn:E; [|done].
  pose proof (ri_client_id _ Hi (next_client r) ltac:(by eexists)). lia.
Qed.

Lemma remove_client_inv id : reg_inv (remove_client id r).
Proof using Hi.
  pose proof Hi as [I1 I2 I3 I4 I5 I6 I7 I8 I9 I10]. constructor; simpl; try done.
  intros id' [c [_ Hc]%lookup_delete_Some]. apply I7. by eexists.
Qed.

Lemma alloc_channel_inv :
  next_channel r < 2 ^ 63 - 1 -> reg_inv (fst (alloc_channel_id r)).
Proof using Hi.
  intros Hn. pose proof Hi as [I1 I2 I3 I4 I5 I6 I7 I8 I9 I10].
  constructor; simpl; rewrite ?wrap_i_small by (unfold in_i; lia); try done; [|lia].
  intros id Hid%I8. lia.
Qed.

Lemma alloc_fn_inv : next_fn r < 2 ^ 63 - 1 -> reg_inv (fst (alloc_fn_id r)).
Proof using Hi.
  intros Hn. pose proof Hi as [I1 I2 I3 I4 I5 I6 I7 I8 I9 I10].
  constructor; simpl; rewrite ?wrap_i_small by (unfold in_i; lia); try done; [|lia].
  intros id Hid%I9. lia.
Qed.

Lemma insert_channel_inv c :
  1 <= ch_id c < next_channel r -> channels r !! ch_id c = None ->
  chan_by_name r !! ch_name c = None -> reg_inv (insert_channel c r).
Proof using Hi.
  intros Hid Hfresh Hfree. pose proof Hi as [I1 I2 I3 I4 I5 I6 I7 I8 I9 I10].
  constructor; simpl; try done.
  - intros id c'. destruct (decide (id = ch_id c)) as [->|Hne].
    + rewrite lookup_insert_eq. intros [= <-]. by rewrite lookup_insert_eq.
    + rewrite lookup_insert_ne by done. intros Hc'. destruct (I1 id c' Hc') as [? Hn].
      split; [done|]. rewrite lookup_insert_ne; [done|]. intros E. congruence.
  - intros n id. destruct (decide (n = ch_name c)) as [->|Hne].
    + rewrite lookup_insert_eq. intros [= <-]. exists c. by rewrite lookup_insert_eq.
    + rewrite lookup_insert_ne by done. intros Hn. destruct (I2 n id Hn) as (c' & Hc' & ?).
      exists c'. rewrite lookup_insert_ne; [done|]. intros E. congruence.
  - intros id Hs%I5. destruct (decide (id = ch_id c)) as [->|Hne];
      [by rewrite lookup_insert_eq | by rewrite lookup_insert_ne].
  - intros id Hs%I6. destruct (decide (id = ch_id c)) as [->|Hne];
      [by rewrite lookup_insert_eq | by rewrite lookup_insert_ne].
  - intros id. destruct (decide (id = ch_id c)) as [->|Hne]; [done|].
    rewrite lookup_insert_ne by done. apply I8.
Qed.

Lemma insert_function_inv f :
  1 <= fn_id f < next_fn r -> functions r !! fn_id f = None ->
  fn_by_name r !! fn_name f = None -> reg_inv (insert_function f r).
Proof using Hi.
  intros Hid Hfresh Hfree. pose proof Hi as [I1 I2 I3 I4 I5 I6 I7 I8 I9 I10].
  constructor; simpl; try done.
  - intros id f'. destruct (decide (id = fn_id f)) as [->|Hne].
    + rewrite lookup_insert_eq. intros [= <-]. by rewrite lookup_insert_eq.
    + rewrite lookup_insert_ne by done. intros Hf'. destruct (I3 id f' Hf') as [? Hn].
      split; [done|]. rewrite lookup_insert_ne; [done|]. intros E. congruence.
  - intros n id. destruct (decide (n = fn_name f)) as [->|Hne].
    + rewrite lookup_insert_eq. intros [= <-]. exists f. by rewrite lookup_insert_eq.
    + rewrite lookup_insert_ne by done. intros Hn. destruct (I4 n id Hn) as (f' & Hf' & ?).
      exists f'. rewrite lookup_insert_ne; [done|]. intros E. congruence.
  - intros id. destruct (decide (id = fn_id f)) as [->|Hne]; [done|].
    rewrite lookup_insert_ne by done. apply I9.
Qed.

Lemma next_channel_fresh : channels r !! next_channel r = None.
Proof using Hi.
  destruct (channels r !! next_channel r) eqn:E; [|done].
  pose proof (ri_chan_id _ Hi (next_channel r) ltac:(by eexists)). lia.
Qed.

Lemma next_fn_fresh : functions r !! next_fn r = None.
Proof using Hi.
  destruct (functions r !! next_fn r) eqn:E; [|done].
  pose proof (ri_fn_id _ Hi (next_fn r) ltac:(by eexists)). lia.
Qed.

Lemma mark_subscribed_inv id : is_Some (channels r !! id) -> reg_inv (mark_subscribed id r).
Proof using Hi.
  intros Hc. pose proof Hi as [I1 I2 I3 I4 I5 I6 I7 I8 I9 I10]. constructor; simpl; try done.
  intros id' [Hs| ->%elem_of_singleton]%elem_of_union; [by apply I5 | done].
Qed.

Lemma release_channel_inv name owner t : reg_inv (fst (release_channel name owner t r)).
Proof using Hi.
  unfold release_channel. destruct (chan_by_name r !! name) as [id|] eqn:En; [|done].
  case_bool_decide as Ho; [|done]. cbn [negb].
  destruct (channels r !! id) as [c|] eqn:Hc; [|done].
  case_bool_decide as Hs.
  - pose proof (drop_channel_inv r Hi id c Hc) as Hd.
    by destruct (drop_channel id r) as [r1 [a|]].
  - pose proof Hi as [I1 I2 I3 I4 I5 I6 I7 I8 I9 I10]. constructor; simpl; try done.
    intros id'. destruct (decide (id' = id)) as [->|Hne]; [by rewrite Hc|].
    rewrite lookup_insert_ne by done. apply I6.
Qed.

Lemma reap_if_released_inv name : reg_inv (fst (reap_if_released name r)).
Proof using Hi.
  unfold reap_if_released. destruct (chan_by_name r !! name) as [id|] eqn:En; [|done].
  destruct (released r !! id) eqn:Er; [|done].
  destruct (ri_chan_name _ Hi _ _ En) as (c & Hc & _). by eapply drop_channel_inv.
Qed.
End ops.

(** ** Reachable registries

    The ways the broker changes its registry, with the guards it has checked. *)

Inductive reg_step : Registry -> Registry -> Prop :=
| st_add_client r app pid :
    ids_left r -> reg_step r (fst (add_client app pid r))
| st_remove_client r id : reg_step r (remove_client id r)
| st_alloc_channel r : ids_left r -> reg_step r (fst (alloc_channel_id r))
| st_alloc_fn r : ids_left r -> reg_step r (fst (alloc_fn_id r))
| st_publish r name owner fp key arena :
    ids_left r -> channel_name_taken r name = false ->
    reg_step r (let (r, id) := alloc_channel_id r in
                insert_channel (MkChannelMeta id name owner fp key arena) r)
| st_expose r name owner qfp pfp key arena :
    ids_left r -> function_name_taken r name = false ->
    reg_step r (let (r, id) := alloc_fn_id r in
                insert_function (MkFunctionMeta id name owner qfp pfp key arena) r)
| st_subscribe `{Sha256} r id key fp res :
    resolve_subscribe r id key fp = Ok res -> reg_step r (mark_subscribed id r)
| st_release r name owner t : reg_step r (fst (release_channel name owner t r))
| st_reap r grace t : reg_step r (fst (reap_released grace t r))
| st_reap_if r name : reg_step r (fst (reap_if_released name r))
| st_remove_channels r owner : reg_step r (fst (remove_client_channels owner r))
| st_remove_functions r owner : reg_step r (fst (remove_client_functions owner r)).

Lemma resolve_subscribe_exists `{Sha256} r id key fp res :
  resolve_subscribe r id key fp = Ok res -> is_Some (channels r !! id).
Proof. unfold resolve_subscribe. destruct (channels r !! id); [by eexists | done]. Qed.

Lemma reg_step_inv r r' : reg_inv r -> reg_step r r' -> reg_inv r'.
Proof.
  intros Hi Hst. destruct Hst as [r app pid [Hc _]|r id|r (_ & Hc & _)|r (_ & _ & Hf)
    |r name owner fp key arena (_ & Hc & _) Hfree|r name owner qfp pfp key arena (_ & _ & Hf) Hfree
    |sha r id key fp res Hres|r name owner t|r grace t|r name|r owner|r owner].
  - by apply add_client_inv.
  - by apply remove_client_inv.
  - by apply alloc_channel_inv.
  - by apply alloc_fn_inv.
  - apply insert_channel_inv; simpl.
    + by apply (alloc_channel_inv r Hi).
    + rewrite wrap_i_small by (pose proof (ri_next _ Hi); unfold in_i; lia).
      pose proof (ri_next _ Hi). lia.
    + by apply next_channel_fresh.
    + apply bool_decide_eq_false_1 in Hfree. by apply eq_None_not_Some.
  - apply insert_function_inv; simpl.
    + by apply (alloc_fn_inv r Hi).
    + rewrite wrap_i_small by (pose proof (ri_next _ Hi); unfold in_i; lia).
      pose proof (ri_next _ Hi). lia.
    + by apply next_fn_fresh.
    + apply bool_decide_eq_false_1 in Hfree. by apply eq_None_not_Some.
  - apply mark_subscribed_inv; [done|]. by eapply resolve_subscribe_exists.
  - by apply release_channel_inv.
  - by apply reap_released_spec.
  - by apply reap_if_released_inv.
  - by apply remove_client_channels_spec.
  - by apply remove_client_functions_spec.
Qed.
