(* ===== verification/RegistryProps.v ===== *)
(** * The properties of the registry *)

From S2P Require Import Prelude Machine Util Avro Proto Toy Registry RegistryThm.

(** C24: Whatever the broker does to its registry, names and objects stay in one-to-one
    correspondence (a name is taken exactly when a channel or function of that name
    exists, and leads to it), the release bookkeeping and the subscriber marks speak
    only of existing channels, and all ids are below the counters, as long as the
    64-bit counters have not run out. *)
Theorem registry_invariant (r : Registry) :
  rtc reg_step new_registry r -> reg_inv r.
Proof.
  intros Hr. cut (forall r0, rtc reg_step r0 r -> reg_inv r0 -> reg_inv r).
  { intros H. apply (H _ Hr), new_registry_inv. }
  clear Hr. intros r0 Hr. induction Hr as [|x y z Hst _ IH]; [done|].
  intros Hi. apply IH. by eapply reg_step_inv.
Qed.

Definition demo_registry : Registry :=
  let r := fst (add_client "svc" 77 new_registry) in
  let (r, id) := alloc_channel_id r in
  insert_channel (MkChannelMeta id "news" 1 9 None "/impulse-ring.arena.1.v1") r.

Lemma registry_invariant_witness :
  rtc reg_step new_registry demo_registry /\ reg_inv demo_registry.
Proof.
  assert (rtc reg_step new_registry demo_registry) as Hr.
  { eapply rtc_l; [apply (st_add_client new_registry "svc" 77); vm_compute; done|].
    eapply rtc_l; [|apply rtc_refl].
    apply (st_publish _ "news" 1 9 None "/impulse-ring.arena.1.v1"); [vm_compute; done | reflexivity]. }
  split; [exact Hr | exact (registry_invariant demo_registry Hr)].
Defined.

(** C38: Releasing a channel: only its owner can ([RelRefused] otherwise, and nothing
    changes). With a subscriber exactly the channel and its name go at once; without one it
    stays fully resolvable, the sweep leaves it alone until the grace has passed and
    takes it (freeing the name) from then on, and a fresh publish of the name may
    take it over at any time. The release itself touches no other channel or name and no
    function. *)
Theorem release_channel_spec (r : Registry) (name : string) (owner t : Z) :
  reg_inv r ->
  let r' := fst (release_channel name owner t r) in
  match snd (release_channel name owner t r) with
  | RelRefused =>
      r' = r /\ forall id c, channels r !! id = Some c -> ch_name c = name -> ch_owner c <> owner
  | RelNow arena =>
      exists id c, channels r !! id = Some c /\ ch_name c = name /\ ch_owner c = owner /\
        id ∈ subscribed r /\ arena = ch_arena c /\
        channels r' = delete id (channels r) /\ chan_by_name r' = delete name (chan_by_name r) /\ fn_same r r'
  | RelDeferred =>
      exists id c, channels r !! id = Some c /\ ch_name c = name /\ ch_owner c = owner /\
        ~ (id ∈ subscribed r) /\
        channels r' = channels r /\ chan_by_name r' = chan_by_name r /\ fn_same r r' /\
        (forall now grace, 0 < grace -> now - t < grace ->
           channels (fst (reap_released grace now r')) !! id = Some c) /\
        (forall now grace, grace <= now - t ->
           chan_by_name (fst (reap_released grace now r')) !! name = None /\
           ch_arena c ∈ snd (reap_released grace now r')) /\
        snd (reap_if_released name r') = Some (ch_arena c) /\
        chan_by_name (fst (reap_if_released name r')) !! name = None
  end.
Proof.
  intros Hi. pose proof (release_channel_inv r Hi name owner t) as Hi'. revert Hi'.
  unfold release_channel. destruct (chan_by_name r !! name) as [id|] eqn:En; simpl.
  2:{ intros _. split; [done|]. intros id c Hc Ec. by destruct (proj1 (chan_name_free r name Hi) En id c Hc). }
  destruct (ri_chan_name _ Hi _ _ En) as (c & Hc & Ec).
  case_bool_decide as Ho; cbn [negb]; rewrite Hc in Ho; simpl in Ho.
  2:{ intros _. split; [done|]. intros id' c' Hc' Ec' Eo.
      assert (id' = id) as -> by (eapply chan_name_inj; [done..|by rewrite Ec']). congruence. }
  injection Ho as Ho. case_bool_decide as Hs.
  - unfold drop_channel. rewrite Hc. simpl. intros _. exists id, c.
    split_and!; try done. by rewrite Ec.
  - simpl. set (r' := set_book _ _ r). intros Hi'. exists id, c.
    assert (released r' !! id = Some t) as Hrel by apply lookup_insert_eq.
    split_and!; try done.
    + intros now grace Hg Hnow.
      destruct (reap_released_spec grace now r' Hi') as (_ & _ & _ & Hkeep & _).
      destruct (Hkeep id) as [-> _]; [|done]. unfold due.
      intros (t' & Ht' & Hd%Z.leb_le). rewrite Hrel in Ht'. injection Ht' as <-. lia.
    + intros now grace Hnow.
      destruct (reap_released_spec grace now r' Hi') as (Hi2 & _ & Hgone & Hkeep & Ha).
      assert (exists t', released r' !! id = Some t' /\ due now grace t' = true) as Hdue.
      { exists t. split; [done|]. apply Z.leb_le. lia. }
      split; [|apply Ha; by exists id, c].
      apply (chan_name_free _ _ Hi2). intros id' c' Hc' Ec'.
      destruct (decide (id' = id)) as [->|Hne]; [by rewrite (proj1 (Hgone id Hdue)) in Hc'|].
      destruct (decide (is_due_at r' now grace id')) as [Hd|Hd].
      * by rewrite (proj1 (Hgone id' Hd)) in Hc'.
      * rewrite (proj1 (Hkeep id' Hd)) in Hc'. apply Hne.
        eapply (chan_name_inj r Hi id' id c' c); [done | done | by rewrite Ec, Ec'].
    + unfold reap_if_released. change (chan_by_name r' !! name) with (chan_by_name r !! name).
      rewrite En, Hrel. unfold drop_channel. change (channels r' !! id) with (channels r !! id).
      by rewrite Hc.
    + unfold reap_if_released. change (chan_by_name r' !! name) with (chan_by_name r !! name).
      rewrite En, Hrel. unfold drop_channel. change (channels r' !! id) with (channels r !! id).
      rewrite Hc. simpl. rewrite Ec. apply lookup_delete_eq.
Qed.

Lemma release_channel_spec_witness :
  let r' := fst (release_channel "news" 1 500 demo_registry) in
  exists id c, channels demo_registry !! id = Some c /\ ch_name c = "news" /\ ch_owner c = 1 /\
    ~ (id ∈ subscribed demo_registry) /\
    channels r' = channels demo_registry /\ chan_by_name r' = chan_by_name demo_registry /\
    fn_same demo_registry r' /\
    (forall now grace, 0 < grace -> now - 500 < grace ->
       channels (fst (reap_released grace now r')) !! id = Some c) /\
    (forall now grace, grace <= now - 500 ->
       chan_by_name (fst (reap_released grace now r')) !! "news" = None /\
       ch_arena c ∈ snd (reap_released grace now r')) /\
    snd (reap_if_released "news" r') = Some (ch_arena c) /\
    chan_by_name (fst (reap_if_released "news" r')) !! "news" = None.
Proof.
  assert (reg_inv demo_registry) as Hi.
  { eapply reg_step_inv; [eapply reg_step_inv; [apply new_registry_inv|]|].
    - apply (st_add_client new_registry "svc" 77). vm_compute. done.
    - apply (st_publish _ "news" 1 9 None "/impulse-ring.arena.1.v1"); [vm_compute; done | reflexivity]. }
  exact (release_channel_spec demo_registry "news" 1 500 Hi).
Defined.

(** The access policy of a channel or function, as a proposition: a public one, or
    one whose key has the stored hash. *)
Definition key_admits `{Sha256} (policy : option (list byte)) (presented : string) : Prop :=
  match policy with None => True | Some h => key_hash presented = h end.

Definition key_wf (policy : option (list byte)) : Prop :=
  match policy with None => True | Some h => length h = 32%nat end.

Lemma check_key_spec `{Sha256} policy presented :
  key_wf policy ->
  (check_key policy presented = Ok tt /\ key_admits policy presented) \/
  (check_key policy presented = Err (ERR_DENIED, "invalid access key") /\ ~ key_admits policy presented).
Proof.
  unfold check_key, key_admits, key_wf. destruct policy as [h|]; [|by left]. intros Hh.
  destruct (key_matches presented h) eqn:E.
  - left. by apply key_matches_iff in E.
  - right. split; [done|]. rewrite <- key_matches_iff by done. by rewrite E.
Qed.

(** C21: A subscription is granted exactly when the channel exists, the presented key has
    the stored hash (or the channel is public), and the expected fingerprint is the
    channel's (or none is expected); it then yields the channel's own arena and
    fingerprint. Otherwise the status says which check failed, the key being checked
    before the schema, so a caller without the key learns nothing about the schema. *)
Theorem resolve_subscribe_spec `{Sha256} (r : Registry) (id : Z) (key : string) (fp : Z) :
  (forall c, channels r !! id = Some c -> key_wf (ch_key c)) ->
  match channels r !! id with
  | None => resolve_subscribe r id key fp = Err (ERR_NOT_FOUND, "no such channel")
  | Some c =>
      (key_admits (ch_key c) key -> fp = 0 \/ fp = ch_schema_fp c ->
         resolve_subscribe r id key fp = Ok (ch_arena c, ch_schema_fp c)) /\
      (key_admits (ch_key c) key -> fp <> 0 -> fp <> ch_schema_fp c ->
         exists msg, resolve_subscribe r id key fp = Err (ERR_SCHEMA_MISMATCH, msg)) /\
      (~ key_admits (ch_key c) key ->
         resolve_subscribe r id key fp = Err (ERR_DENIED, "invalid access key"))
  end.
Proof.
  intros Hwf. unfold resolve_subscribe. destruct (channels r !! id) as [c|]; [|done].
  destruct (check_key_spec (ch_key c) key (Hwf c eq_refl)) as [[-> Hk]|[-> Hk]];
    (split_and!; [| | done || intros ?; done]); try (by intros); intros _; unfold check_fp.
  - intros Hfp. destruct (Z.eqb_spec fp 0), (Z.eqb_spec fp (ch_schema_fp c)); simpl; try done. lia.
  - intros H0 Hne. destruct (Z.eqb_spec fp 0), (Z.eqb_spec fp (ch_schema_fp c)); simpl; try done.
    by eexists.
Qed.

Definition demo_keyed : Registry :=
  insert_channel (MkChannelMeta 1 "vault" 1 9 (Some (key_hash "secret")) "/impulse-ring.arena.1.v1")
    (set_next 1 2 1 new_registry).

Lemma resolve_subscribe_spec_witness :
  key_admits (Some (key_hash "secret")) "secret" /\
  let c := MkChannelMeta 1 "vault" 1 9 (Some (key_hash "secret")) "/impulse-ring.arena.1.v1" in
  (key_admits (ch_key c) "secret" -> 9 = 0 \/ 9 = ch_schema_fp c ->
     resolve_subscribe demo_keyed 1 "secret" 9 = Ok (ch_arena c, ch_schema_fp c)) /\
  (key_admits (ch_key c) "secret" -> 9 <> 0 -> 9 <> ch_schema_fp c ->
     exists msg, resolve_subscribe demo_keyed 1 "secret" 9 = Err (ERR_SCHEMA_MISMATCH, msg)) /\
  (~ key_admits (ch_key c) "secret" ->
     resolve_subscribe demo_keyed 1 "secret" 9 = Err (ERR_DENIED, "invalid access key")).
Proof.
  split; [reflexivity|].
  refine (resolve_subscribe_spec demo_keyed 1 "secret" 9 _).
  intros c [= <-]. exact (length_key_hash "secret").
Defined.

(** A lookup by name finds the function of that name and no other, and hands out its
    id, fingerprints and request arena exactly to callers with the right key. *)
Theorem resolve_lookup_spec `{Sha256} (r : Registry) (name key : string) :
  reg_inv r -> (forall id f, functions r !! id = Some f -> key_wf (fn_key f)) ->
  (resolve_lookup r name key = Err (ERR_NOT_FOUND, "no such function") /\
     forall id f, functions r !! id = Some f -> fn_name f <> name) \/
  (exists id f, functions r !! id = Some f /\ fn_name f = name /\
     (forall id' f', functions r !! id' = Some f' -> fn_name f' = name -> id' = id) /\
     (key_admits (fn_key f) key ->
        resolve_lookup r name key = Ok (id, fn_req_fp f, fn_resp_fp f, fn_req_arena f)) /\
     (~ key_admits (fn_key f) key ->
        resolve_lookup r name key = Err (ERR_DENIED, "invalid access key"))).
Proof.
  intros Hi Hwf. unfold resolve_lookup, find_function_by_name.
  destruct (fn_by_name r !! name) as [id|] eqn:En.
  - right. destruct (ri_fn_name _ Hi _ _ En) as (f & Hf & Ef). exists id, f. rewrite Hf.
    destruct (ri_fn _ Hi _ _ Hf) as [Eid _].
    split_and!; [done | done | | |].
    + intros id' f' Hf' Ef'. eapply fn_name_inj; [done..|]. by rewrite Ef'.
    + intros Hk. destruct (check_key_spec (fn_key f) key (Hwf _ _ Hf)) as [[-> _]|[_ Hn]]; [|done].
      by rewrite Eid.
    + intros Hk. by destruct (check_key_spec (fn_key f) key (Hwf _ _ Hf)) as [[_ ?]|[-> _]].
  - left. split; [done|]. intros id f Hf E. apply (ri_fn _ Hi) in Hf as [_ Hf]. congruence.
Qed.

Definition demo_fn_registry : Registry :=
  let (r, id) := alloc_fn_id new_registry in
  insert_function (MkFunctionMeta id "http.web" 1 3 4 None "/impulse-ring.fn.1.v1") r.

Lemma resolve_lookup_spec_witness :
  (resolve_lookup demo_fn_registry "http.web" "" = Err (ERR_NOT_FOUND, "no such function") /\
     forall id f, functions demo_fn_registry !! id = Some f -> fn_name f <> "http.web") \/
  (exists id f, functions demo_fn_registry !! id = Some f /\ fn_name f = "http.web" /\
     (forall id' f', functions demo_fn_registry !! id' = Some f' -> fn_name f' = "http.web" -> id' = id) /\
     (key_admits (fn_key f) "" ->
        resolve_lookup demo_fn_registry "http.web" "" = Ok (id, fn_req_fp f, fn_resp_fp f, fn_req_arena f)) /\
     (~ key_admits (fn_key f) "" ->
        resolve_lookup demo_fn_registry "http.web" "" = Err (ERR_DENIED, "invalid access key"))).
Proof.
  apply (resolve_lookup_spec demo_fn_registry "http.web" "").
  - eapply reg_step_inv; [apply new_registry_inv|].
    apply (st_expose new_registry "http.web" 1 3 4 None "/impulse-ring.fn.1.v1");
      [vm_compute; done | reflexivity].
  - intros id f. change (functions demo_fn_registry) with
      ({[1 := MkFunctionMeta 1 "http.web" 1 3 4 None "/impulse-ring.fn.1.v1"]} : gmap Z FunctionMeta).
    intros [_ <-]%lookup_singleton_Some. exact I.
Defined.
