(* ===== verification/Broker.v ===== *)
(** * The broker (crates/impulsed/src/broker.rs)

    Its state, the handler of every control message, the control loop, start-up
    with the singleton guard and the clean-up, and shutdown. A handler takes the
    broker to a new broker and the [io::Result] of the Rust function; logging is
    left out. An [Arc<Segment>] is the segment, dropped where its last owner goes. *)

From S2P Require Import Prelude Machine Shm Ring Frame Control Util Avro Proto Registry.

Definition RELEASE_GRACE : Z := 30 * 1000 * MILLIS.
Definition SWEEP_INTERVAL : Z := 1 * 1000 * MILLIS.
Definition REPLY_PUSH_TIMEOUT : Z := 50 * MILLIS.
Definition POP_TIMEOUT : Z := 200 * MILLIS.

Record Broker : Type := MkBroker {
  b_control_seg : Segment;
  b_submission : Ring;
  b_reg : Registry;
  b_reply_rings : gmap Z Ring;
  b_reply_segs : gmap Z Segment;
  b_arenas : gmap string Segment;
  b_reply_names : list string;
}.

Inductive StartError : Type :=
| AlreadyRunning
| StartIo (e : io_error).

Definition set_reg (r : Registry) (b : Broker) : Broker :=
  MkBroker (b_control_seg b) (b_submission b) r (b_reply_rings b) (b_reply_segs b)
    (b_arenas b) (b_reply_names b).
Definition set_replies (rings : gmap Z Ring) (segs : gmap Z Segment) (names : list string)
    (b : Broker) : Broker :=
  MkBroker (b_control_seg b) (b_submission b) (b_reg b) rings segs (b_arenas b) names.
Definition set_arenas (m : gmap string Segment) (b : Broker) : Broker :=
  MkBroker (b_control_seg b) (b_submission b) (b_reg b) (b_reply_rings b) (b_reply_segs b)
    m (b_reply_names b).

(** A handler's run: the broker it leaves and its [io::Result]. *)
Definition handler (A : Type) : Type := prog (Broker * io_result A).

(** [?] in a method of [&mut self]: an error returns with the state as it is. *)
Definition try_in {A B} (b : Broker) (p : prog (io_result A)) (f : A -> handler B) : handler B :=
  let! r := p in
  match r with Ok a => f a | Err e => ret (b, Err e) end.

Definition return_in {A} (b : Broker) (p : prog (io_result A)) : handler A :=
  let! r := p in ret (b, r).

Section broker.
Context `{ProtoSerde} `{!Sha256}.

(** [Broker::reply] *)
Definition reply {T} `{!Serde T} (b : Broker) (client_id : Z) (kind : Kind) (msg : T)
  : prog (io_result unit) :=
  match b_reply_rings b !! client_id with
  | None => ret (Err (io_other "reply ring for client not found"))
  | Some ring =>
      let? frame := lift (to_frame kind msg) in
      let! ok := push_blocking ring (encode frame) (Some REPLY_PUSH_TIMEOUT) in
      if ok then ret (Ok tt) else ret (Err (io_other "reply ring full (client stuck?)"))
  end.

Definition owner_alive (pid : Z) : prog bool :=
  if pid =? 0 then ret true else pid_alive pid.

(** [self.arenas.remove(name)]: the segment is unmapped and unlinked. *)
Definition reclaim_arena (name : string) (b : Broker) : prog Broker :=
  match b_arenas b !! name with
  | None => ret b
  | Some seg =>
      do! drop_segment seg in
      ret (set_arenas (delete name (b_arenas b)) b)
  end.

Fixpoint reclaim_arenas (names : list string) (b : Broker) : prog Broker :=
  match names with
  | [] => ret b
  | n :: names => let! b := reclaim_arena n b in reclaim_arenas names b
  end.

Definition release_client (client_id : Z) (b : Broker) : prog Broker :=
  let (reg, arenas) := remove_client_channels client_id (b_reg b) in
  let! b := reclaim_arenas arenas (set_reg reg b) in
  let (reg, arenas) := remove_client_functions client_id (b_reg b) in
  let! b := reclaim_arenas arenas (set_reg reg b) in
  let b := set_reg (remove_client client_id (b_reg b)) b in
  let seg := b_reply_segs b !! client_id in
  let b := set_replies (delete client_id (b_reply_rings b))
             (delete client_id (b_reply_segs b)) (b_reply_names b) b in
  match seg with
  | Some seg => do! drop_segment seg in ret b
  | None => ret b
  end.

Definition make_arena (name : string) (cap : Z) (b : Broker) : handler string :=
  try_in b (create name (ring_bytes cap)) (fun seg =>
  let! res := format seg 0 cap in
  match res with
  | Err e => do! drop_segment seg in ret (b, Err e)
  | Ok _ =>
      let old := b_arenas b !! name in
      let b := set_arenas (<[name := seg]> (b_arenas b)) b in
      match old with
      | Some old => do! drop_segment old in ret (b, Ok name)
      | None => ret (b, Ok name)
      end
  end).

(** ** Registration *)

Definition on_register (b : Broker) (frame : Frame) : handler unit :=
  try_in b (lift (from_frame_compat frame)) (fun m : Register =>
  try_in b (open (register_reply_segment m)) (fun seg =>
  let! res := attach seg 0 in
  match res with
  | Err e => do! drop_segment seg in ret (b, Err e)
  | Ok ring =>
      let (reg, client_id) := add_client (register_app_name m) (i32 (register_pid m)) (b_reg b) in
      let b := set_reg reg b in
      let b := set_replies (<[client_id := ring]> (b_reply_rings b))
                 (<[client_id := seg]> (b_reply_segs b))
                 (b_reply_names b ++ [register_reply_segment m]) b in
      return_in b (reply b client_id KRegisterReply
        (MkRegisterReply (register_correlation_id m) client_id STATUS_OK ""))
  end)).

Definition on_unregister (b : Broker) (frame : Frame) : handler unit :=
  try_in b (lift (from_frame KUnregister frame)) (fun m : Unregister =>
  let! b := release_client (unregister_client_id m) b in
  ret (b, Ok tt)).

(** ** Channels *)

Definition err_publish (m : PublishChannel) (code : Z) (msg : string) : PublishReply :=
  MkPublishReply (publish_correlation_id m) 0 0 "" code msg.

(** The first part of [on_publish]: make the name free, or say it is not. *)
Definition free_channel_name (m : PublishChannel) (b : Broker) : prog (Broker * bool) :=
  if channel_name_taken (b_reg b) (publish_channel m) then
    match reap_if_released (publish_channel m) (b_reg b) with
    | (reg, Some arena) =>
        let! b := reclaim_arena arena (set_reg reg b) in ret (b, true)
    | (reg, None) =>
        let! dead := dead_channel_owner (b_reg b) (publish_channel m) owner_alive in
        match dead with
        | Some dead => let! b := release_client dead b in ret (b, true)
        | None => ret (b, false)
        end
    end
  else ret (b, true).

Definition access_key_hash (key : string) : option (list byte) :=
  match key with EmptyString => None | _ => Some (key_hash key) end.

Definition on_publish (b : Broker) (frame : Frame) : handler unit :=
  try_in b (lift (from_frame_compat frame)) (fun m : PublishChannel =>
  let! (b, free) := free_channel_name m b in
  if negb free then
    return_in b (reply b (publish_client_id m) KPublishReply
      (err_publish m ERR_EXISTS "channel already exists"))
  else
  match parse (publish_schema_json m) with
  | Err e =>
      return_in b (reply b (publish_client_id m) KPublishReply
        (err_publish m ERR_INTERNAL ("bad schema: " +:+ err_msg e)))
  | Ok (_, fp) =>
      let (reg, channel_id) := alloc_channel_id (b_reg b) in
      let b := set_reg reg b in
      let arena_cap := clamp_arena_cap (usize (Z.max (publish_arena_cap m) 0)) in
      let! (b, res) := make_arena (channel_arena (u64 channel_id)) arena_cap b in
      match res with
      | Err e =>
          return_in b (reply b (publish_client_id m) KPublishReply
            (err_publish m ERR_INTERNAL ("cannot allocate a channel arena: " +:+ err_msg e)))
      | Ok arena =>
          let key := access_key_hash (publish_access_key m) in
          let b := set_reg (insert_channel (MkChannelMeta channel_id (publish_channel m)
                     (publish_client_id m) fp key arena) (b_reg b)) b in
          return_in b (reply b (publish_client_id m) KPublishReply
            (MkPublishReply (publish_correlation_id m) channel_id (fp_to_i64 fp) arena STATUS_OK ""))
      end
  end).

Definition on_unpublish (b : Broker) (frame : Frame) : handler unit :=
  try_in b (lift (from_frame KUnpublish frame)) (fun m : Unpublish =>
  let! t := now in
  match release_channel (unpublish_channel m) (unpublish_client_id m) t (b_reg b) with
  | (reg, RelNow arena) => let! b := reclaim_arena arena (set_reg reg b) in ret (b, Ok tt)
  | (reg, RelDeferred) => ret (set_reg reg b, Ok tt)
  | (reg, RelRefused) => ret (set_reg reg b, Ok tt)
  end).

Definition on_list (b : Broker) (frame : Frame) : handler unit :=
  try_in b (lift (from_frame KListChannels frame)) (fun m : ListChannels =>
  let channels := list_channels (b_reg b) in
  return_in b (reply b (list_client_id m) KChannelList
    (MkChannelList (list_correlation_id m) channels))).

Definition on_subscribe (b : Broker) (frame : Frame) : handler unit :=
  try_in b (lift (from_frame KSubscribe frame)) (fun m : Subscribe =>
  match resolve_subscribe (b_reg b) (subscribe_channel_id m) (subscribe_access_key m)
          (i64_to_fp (subscribe_expected_fp m)) with
  | Ok (arena, fp) =>
      let b := set_reg (mark_subscribed (subscribe_channel_id m) (b_reg b)) b in
      return_in b (reply b (subscribe_client_id m) KSubscribeReply
        (MkSubscribeReply (subscribe_correlation_id m) arena (fp_to_i64 fp) STATUS_OK ""))
  | Err (code, msg) =>
      return_in b (reply b (subscribe_client_id m) KSubscribeReply
        (MkSubscribeReply (subscribe_correlation_id m) "" 0 code msg))
  end).

(** ** Functions *)

Definition err_expose (correlation_id code : Z) (msg : string) : ExposeReply :=
  MkExposeReply correlation_id 0 0 0 "" code msg.

Definition free_function_name (m : ExposeFunction) (b : Broker) : prog (Broker * bool) :=
  if function_name_taken (b_reg b) (expose_fn_name m) then
    let! dead := dead_function_owner (b_reg b) (expose_fn_name m) owner_alive in
    match dead with
    | Some dead => let! b := release_client dead b in ret (b, true)
    | None => ret (b, false)
    end
  else ret (b, true).

Definition on_expose (b : Broker) (frame : Frame) : handler unit :=
  try_in b (lift (from_frame_compat frame)) (fun m : ExposeFunction =>
  let! (b, free) := free_function_name m b in
  if negb free then
    return_in b (reply b (expose_client_id m) KExposeReply
      (err_expose (expose_correlation_id m) ERR_EXISTS "function exists"))
  else
  match parse (expose_req_schema_json m), parse (expose_resp_schema_json m) with
  | Ok (_, req_fp), Ok (_, resp_fp) =>
      let (reg, fid) := alloc_fn_id (b_reg b) in
      let b := set_reg reg b in
      let arena_cap := clamp_arena_cap (usize (Z.max (expose_req_arena_cap m) 0)) in
      let! (b, res) := make_arena (function_arena (u64 fid)) arena_cap b in
      match res with
      | Err e =>
          return_in b (reply b (expose_client_id m) KExposeReply
            (err_expose (expose_correlation_id m) ERR_INTERNAL
               ("cannot allocate a request arena: " +:+ err_msg e)))
      | Ok req_arena =>
          let key := access_key_hash (expose_access_key m) in
          let b := set_reg (insert_function (MkFunctionMeta fid (expose_fn_name m)
                     (expose_client_id m) req_fp resp_fp key req_arena) (b_reg b)) b in
          return_in b (reply b (expose_client_id m) KExposeReply
            (MkExposeReply (expose_correlation_id m) fid (fp_to_i64 req_fp)
               (fp_to_i64 resp_fp) req_arena STATUS_OK ""))
      end
  | _, _ =>
      return_in b (reply b (expose_client_id m) KExposeReply
        (err_expose (expose_correlation_id m) ERR_INTERNAL "bad schema"))
  end).

Definition on_lookup (b : Broker) (frame : Frame) : handler unit :=
  try_in b (lift (from_frame KLookupFunction frame)) (fun m : LookupFunction =>
  let r :=
    match resolve_lookup (b_reg b) (lkp_fn_name m) (lkp_access_key m) with
    | Ok (fid, req_fp, resp_fp, req_arena) =>
        MkLookupReply (lkp_correlation_id m) fid (fp_to_i64 req_fp) (fp_to_i64 resp_fp)
          req_arena STATUS_OK ""
    | Err (code, msg) => MkLookupReply (lkp_correlation_id m) 0 0 0 "" code msg
    end in
  return_in b (reply b (lkp_client_id m) KLookupReply r)).

(** ** The control loop *)

(** [Broker::handle] *)
Definition handle (b : Broker) (bytes : list byte) : handler unit :=
  match decode bytes with
  | Err e => ret (b, Err e)
  | Ok frame =>
      let! c := lift catalog in
      match kind_of c (schema_fp frame) with
      | None => ret (b, Err (io_other "unknown control schema fingerprint"))
      | Some kind =>
          match kind with
          | KRegister => on_register b frame
          | KUnregister => on_unregister b frame
          | KPublishChannel => on_publish b frame
          | KUnpublish => on_unpublish b frame
          | KListChannels => on_list b frame
          | KSubscribe => on_subscribe b frame
          | KExposeFunction => on_expose b frame
          | KLookupFunction => on_lookup b frame
          | KHeartbeat => ret (b, Ok tt)
          | other => ret (b, Err (io_other ("unexpected control kind " +:+ kind_name other)))
          end
      end
  end.

(** One turn of the loop of [Broker::run]. *)
Definition turn (b : Broker) (last_sweep : Z) : prog (Broker * Z) :=
  let! msg := pop_blocking (b_submission b) (Some POP_TIMEOUT) in
  let! b :=
    match msg with
    | Some bytes => let! (b, _) := handle b bytes in ret b
    | None => ret b
    end in
  let! t := now in
  if SWEEP_INTERVAL <=? Z.max 0 (t - last_sweep) then
    let (reg, arenas) := reap_released RELEASE_GRACE t (b_reg b) in
    let! b := reclaim_arenas arenas (set_reg reg b) in
    ret (b, t)
  else ret (b, last_sweep).

(** [while should_run()]: the answers of the predicate, one per turn. *)
Fixpoint run_loop (should_run : list bool) (b : Broker) (last_sweep : Z) : prog Broker :=
  match should_run with
  | true :: rest => let! (b, last_sweep) := turn b last_sweep in run_loop rest b last_sweep
  | false :: _ => ret b
  | [] => fun _ => Starved
  end.

Definition run (should_run : list bool) (b : Broker) : prog Broker :=
  let! t := now in run_loop should_run b t.
End broker.

(** ** Start-up and shutdown *)

Definition guard_singleton : prog (result unit StartError) :=
  let! r := open CONTROL_SEGMENT in
  match r with
  | Ok seg =>
      let! a := attach_control seg in
      let! live :=
        match a with
        | Ok _ => let! pid := broker_pid seg in pid_alive pid
        | Err _ => ret false
        end in
      do! drop_segment seg in
      if live then ret (Err AlreadyRunning)
      else do! unlink CONTROL_SEGMENT in ret (Ok tt)
  | Err e =>
      if bool_decide (err_kind e = NotFound) then ret (Ok tt)
      else if bool_decide (err_raw e = Some EACCES) then ret (Err AlreadyRunning)
      else ret (Err (StartIo e))
  end.

Fixpoint unlink_all (names : list string) : prog unit :=
  match names with
  | [] => ret tt
  | n :: names => do! unlink n in unlink_all names
  end.

Definition cleanup_stale : prog unit :=
  let! r := list_segments in
  match r with Ok names => unlink_all names | Err _ => ret tt end.

Definition start : prog (result Broker StartError) :=
  let! g := guard_singleton in
  match g with
  | Err e => ret (Err e)
  | Ok _ =>
      do! cleanup_stale in
      let! r := create CONTROL_SEGMENT control_segment_bytes in
      match r with
      | Err e => ret (Err (StartIo e))
      | Ok seg =>
          let! s := get_sys in
          let pid := i32 (sys_getpid s) in
          let epoch := match sys_realtime s with Some d => u64 d | None => 0 end in
          let! r := format_control seg pid epoch in
          match r with
          | Err e => do! drop_segment seg in ret (Err (StartIo e))
          | Ok submission =>
              ret (Ok (MkBroker seg submission new_registry ∅ ∅ ∅ []))
          end
      end
  end.

Fixpoint drop_segments (segs : list Segment) : prog unit :=
  match segs with
  | [] => ret tt
  | s :: segs => do! drop_segment s in drop_segments segs
  end.

(** [Drop for Broker], then its fields in order. *)
Definition drop_broker (b : Broker) : prog unit :=
  do! unlink_all (b_reply_names b) in
  do! drop_segment (b_control_seg b) in
  do! drop_segments (snd <$> map_to_list (b_reply_segs b)) in
  drop_segments (snd <$> map_to_list (b_arenas b)).
