(* ===== verification/BrokerThm.v ===== *)
(** * The broker's invariant and the effect of its operations

    The arenas the broker keeps are exactly those of the channels and functions in
    its registry, each under the name derived from its id, and every registered
    client has its reply ring and segment: nothing leaks and nothing dangles. *)

From S2P Require Import Prelude Machine Shm Ring Frame Control Util Avro Proto Registry RegistryThm RegistryProps Broker.

(** The arena names the registry speaks of. *)
Definition reg_arena (r : Registry) (n : string) : Prop :=
  (exists id c, channels r !! id = Some c /\ n = ch_arena c) \/
  (exists id f, functions r !! id = Some f /\ n = fn_req_arena f).

Record broker_inv (b : Broker) : Prop := {
  bi_reg : reg_inv (b_reg b);
  bi_chan : forall id c, channels (b_reg b) !! id = Some c ->
    ch_arena c = channel_arena id /\ key_wf (ch_key c);
  bi_fn : forall id f, functions (b_reg b) !! id = Some f ->
    fn_req_arena f = function_arena id /\ key_wf (fn_key f);
  bi_arenas : forall n, is_Some (b_arenas b !! n) <-> reg_arena (b_reg b) n;
  bi_segs : forall n s, b_arenas b !! n = Some s -> seg_name s = n /\ owns_unlink s = true;
  bi_rings : forall id, is_Some (b_reply_rings b !! id) <-> is_Some (clients (b_reg b) !! id);
  bi_reply_segs : forall id, b_reply_segs b !! id = r_seg <$> b_reply_rings b !! id;
  bi_reply_own : forall id s, b_reply_segs b !! id = Some s -> owns_unlink s = false;
}.

Lemma channel_arena_inj a b : channel_arena a = channel_arena b -> a = b.
Proof. intros E. assert (SegChannel a = SegChannel b) as [=]; [by apply seg_id_name_inj | done]. Qed.

Lemma function_arena_inj a b : function_arena a = function_arena b -> a = b.
Proof. intros E. assert (SegFunction a = SegFunction b) as [=]; [by apply seg_id_name_inj | done]. Qed.

Lemma channel_function_arena a b : channel_arena a <> function_arena b.
Proof. intros E. assert (SegChannel a = SegFunction b) as [=]. by apply seg_id_name_inj. Qed.

(** ** Dropping segments *)

(** From [w] to [w'] only mappings went away and events were logged. *)
Record world_dropped (ptrs : list Z) (evs : list event) (w w' : world) : Prop := {
  wd_mem : w_mem w' = foldr delete (w_mem w) ptrs;
  wd_now : w_now w' = w_now w;
  wd_sys : w_sys w' = w_sys w;
  wd_ticks : w_ticks w' = w_ticks w;
  wd_rng : w_rng w' = w_rng w;
  wd_log : w_log w' = w_log w ++ evs;
}.

Lemma world_dropped_nil w : world_dropped [] [] w w.
Proof. constructor; try done. by rewrite app_nil_r. Qed.

Lemma world_dropped_app p1 e1 p2 e2 w1 w2 w3 :
  world_dropped p1 e1 w1 w2 -> world_dropped p2 e2 w2 w3 ->
  world_dropped (p2 ++ p1) (e1 ++ e2) w1 w3.
Proof.
  intros [M1 N1 S1 T1 R1 L1] [M2 N2 S2 T2 R2 L2]. constructor; try congruence.
  - by rewrite M2, M1, foldr_app.
  - by rewrite L2, L1, app_assoc.
Qed.

Lemma fail_os_done {A} errno w : exists e, fail_os (A := A) errno w = Done (Err e, w).
Proof. by eexists. Qed.

Lemma unlink_done n w :
  exists r w', unlink n w = Done (r, w') /\
    world_dropped [] (if has_nul n then [] else [EvUnlink n]) w w'.
Proof.
  unfold unlink. destruct (has_nul n).
  { do 2 eexists. split; [reflexivity|]. apply world_dropped_nil. }
  unfold bind, get_sys, log_event. destruct (sys_shm_unlink (w_sys w) n) as [r errno].
  destruct (r <? 0).
  - destruct (bool_decide (errno = ENOENT));
      (do 2 eexists; split; [reflexivity|]; by constructor).
  - do 2 eexists. split; [reflexivity|]. by constructor.
Qed.

Definition drop_events (s : Segment) : list event :=
  EvMunmap (seg_ptr s) (seg_len s) ::
  (if owns_unlink s && negb (has_nul (seg_name s)) then [EvUnlink (seg_name s)] else []).

Lemma drop_segment_done s w :
  exists w', drop_segment s w = Done (tt, w') /\ world_dropped [seg_ptr s] (drop_events s) w w'.
Proof.
  unfold drop_segment, munmap, bind at 1. set (w1 := add_log _ _).
  assert (world_dropped [seg_ptr s] [EvMunmap (seg_ptr s) (seg_len s)] w w1) as H1
    by (by constructor).
  unfold drop_events. destruct (owns_unlink s); simpl.
  - destruct (unlink_done (seg_name s) w1) as (r & w2 & E & H2).
    exists w2. unfold bind. rewrite E. split; [done|].
    pose proof (world_dropped_app _ _ _ _ _ _ _ H1 H2) as H. by destruct (has_nul (seg_name s)).
  - exists w1. done.
Qed.

(** ** Reclaiming arenas *)

Lemma set_arenas_twice m1 m2 b : set_arenas m1 (set_arenas m2 b) = set_arenas m1 b.
Proof. reflexivity. Qed.

Lemma reclaim_arena_done n b w :
  exists w', reclaim_arena n b w = Done (set_arenas (delete n (b_arenas b)) b, w') /\
    match b_arenas b !! n with
    | None => w' = w
    | Some s => world_dropped [seg_ptr s] (drop_events s) w w'
    end.
Proof.
  unfold reclaim_arena. destruct (b_arenas b !! n) as [s|] eqn:E.
  - destruct (drop_segment_done s w) as (w' & Ed & Hw). exists w'.
    erewrite bind_done by exact Ed. done.
  - exists w. split; [|done]. rewrite delete_id by done. by destruct b.
Qed.

(** The segments a list of names takes out of the arena table, in order. *)
Fixpoint taken (names : list string) (m : gmap string Segment) : list Segment :=
  match names with
  | [] => []
  | n :: names =>
      match m !! n with
      | Some s => s :: taken names (delete n m)
      | None => taken names m
      end
  end.

Definition without (names : list string) (m : gmap string Segment) : gmap string Segment :=
  foldl (fun m n => delete n m) m names.

Lemma lookup_without names m n :
  without names m !! n = if decide (n ∈ names) then None else m !! n.
Proof.
  revert m. induction names as [|n' names IH]; intros m; [done|]. simpl. unfold without in *. simpl.
  rewrite IH. destruct (decide (n ∈ names)) as [H1|H1], (decide (n ∈ n' :: names)) as [H2|H2];
    rewrite elem_of_cons in H2; try tauto.
  - destruct H2 as [->|]; [apply lookup_delete_eq | tauto].
  - apply lookup_delete_ne. intros ->. tauto.
Qed.

Definition drops_of (segs : list Segment) (w w' : world) : Prop :=
  world_dropped (rev (seg_ptr <$> segs)) (concat (drop_events <$> segs)) w w'.

Lemma drops_of_nil w : drops_of [] w w.
Proof. apply world_dropped_nil. Qed.

Lemma drops_of_one s w w' :
  world_dropped [seg_ptr s] (drop_events s) w w' -> drops_of [s] w w'.
Proof. unfold drops_of. cbn. by rewrite app_nil_r. Qed.

Lemma drops_of_app l1 l2 w1 w2 w3 : drops_of l1 w1 w2 -> drops_of l2 w2 w3 -> drops_of (l1 ++ l2) w1 w3.
Proof.
  unfold drops_of. intros H1 H2. rewrite !fmap_app, rev_app_distr, concat_app.
  by eapply world_dropped_app.
Qed.

Lemma reclaim_arenas_done names b w :
  exists w', reclaim_arenas names b w = Done (set_arenas (without names (b_arenas b)) b, w') /\
    drops_of (taken names (b_arenas b)) w w'.
Proof.
  revert b w. induction names as [|n names IH]; intros b w; simpl.
  { exists w. split; [by destruct b | apply drops_of_nil]. }
  destruct (reclaim_arena_done n b w) as (w1 & E1 & H1). erewrite bind_done by exact E1.
  destruct (IH (set_arenas (delete n (b_arenas b)) b) w1) as (w2 & E2 & H2).
  exists w2. rewrite E2. split; [done|]. simpl in H2.
  destruct (b_arenas b !! n) as [s|] eqn:E.
  - apply (drops_of_app [s] _ w w1 w2); [by apply drops_of_one | done].
  - subst w1. by rewrite delete_id in H2 by done.
Qed.

(** ** A departing client *)

(** The registry without [client_id], and the broker without it. *)
Definition departed_reg (client_id : Z) (r : Registry) : Registry :=
  remove_client client_id
    (fst (remove_client_functions client_id (fst (remove_client_channels client_id r)))).

Arguments departed_reg : simpl never.

Definition departed_arenas (client_id : Z) (r : Registry) : list string :=
  snd (remove_client_channels client_id r) ++
  snd (remove_client_functions client_id (fst (remove_client_channels client_id r))).

Definition departed (client_id : Z) (b : Broker) : Broker :=
  MkBroker (b_control_seg b) (b_submission b) (departed_reg client_id (b_reg b))
    (delete client_id (b_reply_rings b)) (delete client_id (b_reply_segs b))
    (without (departed_arenas client_id (b_reg b)) (b_arenas b)) (b_reply_names b).

Lemma taken_app l1 l2 m : taken (l1 ++ l2) m = taken l1 m ++ taken l2 (without l1 m).
Proof.
  revert m. induction l1 as [|n l1 IH]; intros m; [done|]. simpl. unfold without. simpl.
  destruct (m !! n) eqn:E; rewrite IH; [done|]. unfold without. by rewrite (delete_id m n).
Qed.

Lemma without_app l1 l2 m : without (l1 ++ l2) m = without l2 (without l1 m).
Proof. apply foldl_app. Qed.

(** The segments a departing client takes along: its arenas, then its reply segment. *)
Definition departing_segs (client_id : Z) (b : Broker) : list Segment :=
  taken (departed_arenas client_id (b_reg b)) (b_arenas b) ++
  match b_reply_segs b !! client_id with Some s => [s] | None => [] end.

Lemma release_client_done client_id b w :
  exists w', release_client client_id b w = Done (departed client_id b, w') /\
    drops_of (departing_segs client_id b) w w'.
Proof.
  unfold release_client, departed, departing_segs, departed_arenas, departed_reg.
  destruct (remove_client_channels client_id (b_reg b)) as [r1 a1]. simpl.
  destruct (reclaim_arenas_done a1 (set_reg r1 b) w) as (w1 & E1 & H1).
  erewrite bind_done by exact E1. cbn [b_reg set_arenas set_reg b_arenas] in *.
  destruct (remove_client_functions client_id r1) as [r2 a2]. simpl.
  destruct (reclaim_arenas_done a2 (set_reg r2 (set_arenas (without a1 (b_arenas b)) (set_reg r1 b))) w1)
    as (w2 & E2 & H2).
  erewrite bind_done by exact E2. simpl in *.
  rewrite taken_app, without_app.
  destruct (b_reply_segs b !! client_id) as [s|].
  - destruct (drop_segment_done s w2) as (w3 & E3 & H3). exists w3.
    erewrite bind_done by exact E3. split; [done|].
    eapply drops_of_app; [by eapply drops_of_app | by apply drops_of_one].
  - exists w2. split; [done|]. rewrite app_nil_r. by eapply drops_of_app.
Qed.

Section departed.
Context (id0 : Z) (r : Registry).
Hypothesis Hi : reg_inv r.

Lemma departed_reg_spec :
  reg_inv (departed_reg id0 r) /\
  (forall id c, channels (departed_reg id0 r) !! id = Some c <->
     channels r !! id = Some c /\ ch_owner c <> id0) /\
  (forall id f, functions (departed_reg id0 r) !! id = Some f <->
     functions r !! id = Some f /\ fn_owner f <> id0) /\
  clients (departed_reg id0 r) = delete id0 (clients r) /\
  next_client (departed_reg id0 r) = next_client r /\
  next_channel (departed_reg id0 r) = next_channel r /\
  next_fn (departed_reg id0 r) = next_fn r /\
  (forall a, a ∈ departed_arenas id0 r <->
     (exists id c, channels r !! id = Some c /\ ch_owner c = id0 /\ a = ch_arena c) \/
     (exists id f, functions r !! id = Some f /\ fn_owner f = id0 /\ a = fn_req_arena f)).
Proof using Hi.
  unfold departed_reg, departed_arenas.
  destruct (remove_client_channels_spec id0 r Hi) as (Hi1 & Hs1 & Hc1 & Ha1).
  destruct (remove_client_channels id0 r) as [r1 a1]. simpl in *.
  destruct (remove_client_functions_spec id0 r1 Hi1) as (Hi2 & Hs2 & Hf2 & Ha2).
  destruct (remove_client_functions id0 r1) as [r2 a2]. simpl in *.
  destruct Hs1 as (S1 & S2 & S3 & S4 & S5 & S6), Hs2 as (T1 & T2 & T3 & T4 & T5 & T6 & T7 & T8).
  split_and!; try congruence.
  - by apply remove_client_inv.
  - intros id c. by rewrite T2, Hc1.
  - intros id f. by rewrite Hf2, S2.
  - intros a. rewrite elem_of_app, Ha1, Ha2. by setoid_rewrite S2.
Qed.
End departed.

Lemma departed_inv id0 b : broker_inv b -> broker_inv (departed id0 b).
Proof.
  intros [Hr Hc Hf Ha Hs Hrr Hrs Hro].
  destruct (departed_reg_spec id0 (b_reg b) Hr) as (Hi & Dc & Df & Dcl & _ & _ & _ & Da).
  constructor; cbn [departed b_reg b_arenas b_reply_rings b_reply_segs].
  - done.
  - intros id c [H _]%Dc. by apply Hc.
  - intros id f [H _]%Df. by apply Hf.
  - intros n. rewrite lookup_without. case_decide as Hn.
    + split; [by intros [??]|]. apply Da in Hn. intros [(id & c & [Hin Ho]%Dc & ->)|(id & f & [Hin Ho]%Df & ->)].
      * rewrite (proj1 (Hc _ _ Hin)) in Hn. destruct Hn as [(id' & c' & Hin' & Ho' & E)|(id' & f' & Hin' & Ho' & E)].
        -- rewrite (proj1 (Hc _ _ Hin')) in E. apply channel_arena_inj in E as <-. congruence.
        -- rewrite (proj1 (Hf _ _ Hin')) in E. by apply channel_function_arena in E.
      * rewrite (proj1 (Hf _ _ Hin)) in Hn. destruct Hn as [(id' & c' & Hin' & Ho' & E)|(id' & f' & Hin' & Ho' & E)].
        -- rewrite (proj1 (Hc _ _ Hin')) in E. by apply eq_sym, channel_function_arena in E.
        -- rewrite (proj1 (Hf _ _ Hin')) in E. apply function_arena_inj in E as <-. congruence.
    + rewrite Ha. rewrite Da in Hn. unfold reg_arena. split.
      * intros [(id & c & Hin & ->)|(id & f & Hin & ->)].
        -- left. exists id, c. rewrite Dc. split; [|done]. split; [done|]. intros Ho. apply Hn. left. by exists id, c.
        -- right. exists id, f. rewrite Df. split; [|done]. split; [done|]. intros Ho. apply Hn. right. by exists id, f.
      * intros [(id & c & [Hin _]%Dc & ->)|(id & f & [Hin _]%Df & ->)]; [left | right]; by do 2 eexists.
  - intros n s. rewrite lookup_without. case_decide; [done|]. apply Hs.
  - intros id. rewrite Dcl. destruct (decide (id = id0)) as [->|Hne].
    + by rewrite !lookup_delete_eq.
    + rewrite !lookup_delete_ne by done. apply Hrr.
  - intros id. destruct (decide (id = id0)) as [->|Hne].
    + by rewrite !lookup_delete_eq.
    + rewrite !lookup_delete_ne by done. apply Hrs.
  - intros id s [_ H]%lookup_delete_Some. by eapply Hro.
Qed.

(** ** Changing the registry only *)

Lemma set_reg_same b : set_reg (b_reg b) b = b.
Proof. by destruct b. Qed.

(** A registry change that keeps the objects keeps the broker's invariant. *)
Lemma set_reg_inv r b :
  broker_inv b -> reg_inv r -> channels r = channels (b_reg b) ->
  functions r = functions (b_reg b) -> clients r = clients (b_reg b) ->
  broker_inv (set_reg r b).
Proof.
  intros [Hr Hc Hf Ha Hs Hrr Hrs Hro] Hi E1 E2 E3.
  constructor; simpl; rewrite ?E1, ?E2, ?E3; try done.
  intros n. rewrite Ha. unfold reg_arena. by rewrite E1, E2.
Qed.

(** Channels leave together with their arenas: [ids] from the registry, the names
    [arenas] from the arena table. *)
Lemma chans_gone_inv (b : Broker) (r : Registry) (gone : Z -> Prop) (arenas : list string) :
  broker_inv b -> reg_inv r -> fn_same (b_reg b) r ->
  (forall id c, channels r !! id = Some c <-> channels (b_reg b) !! id = Some c /\ ~ gone id) ->
  (forall a, a ∈ arenas <-> exists id c, channels (b_reg b) !! id = Some c /\ gone id /\ a = ch_arena c) ->
  broker_inv (set_arenas (without arenas (b_arenas b)) (set_reg r b)).
Proof.
  intros [Hr Hc Hf Ha Hs Hrr Hrs Hro] Hi (S1 & S2 & _) Hch Har.
  constructor; cbn [set_arenas set_reg b_reg b_arenas b_reply_rings b_reply_segs].
  - done.
  - intros id c [H _]%Hch. by apply Hc.
  - rewrite S2. apply Hf.
  - intros n. rewrite lookup_without. unfold reg_arena. rewrite S2. case_decide as Hn.
    + split; [by intros [??]|]. apply Har in Hn as (id' & c' & Hin' & Ho' & E).
      rewrite (proj1 (Hc _ _ Hin')) in E.
      intros [(id & c & [Hin Ho]%Hch & ->)|(id & f & Hin & ->)].
      * rewrite (proj1 (Hc _ _ Hin)) in E. by apply channel_arena_inj in E as ->.
      * rewrite (proj1 (Hf _ _ Hin)) in E. by apply eq_sym, channel_function_arena in E.
    + rewrite Ha. unfold reg_arena. rewrite Har in Hn. split.
      * intros [(id & c & Hin & ->)|?]; [|by right]. left. exists id, c. rewrite Hch.
        split; [|done]. split; [done|]. intros Ho. apply Hn. by exists id, c.
      * intros [(id & c & [Hin _]%Hch & ->)|?]; [|by right]. left. by exists id, c.
  - intros n s. rewrite lookup_without. case_decide; [done|]. apply Hs.
  - rewrite S1. apply Hrr.
  - apply Hrs.
  - apply Hro.
Qed.

(** One channel leaves. *)
Lemma chan_gone_inv b r id c :
  broker_inv b -> channels (b_reg b) !! id = Some c -> reg_inv r -> fn_same (b_reg b) r ->
  channels r = delete id (channels (b_reg b)) ->
  broker_inv (set_arenas (delete (ch_arena c) (b_arenas b)) (set_reg r b)).
Proof.
  intros Hb Hc Hi Hs Hd.
  apply (chans_gone_inv b r (fun i => i = id) [ch_arena c]); try done.
  - intros id' c'. rewrite Hd, lookup_delete_Some. naive_solver.
  - intros a. rewrite list_elem_of_singleton. split; [intros ->; by exists id, c|].
    intros (id' & c' & Hc' & -> & ->). by rewrite Hc in Hc'; injection Hc' as ->.
Qed.

(** ** Partial correctness of handlers *)

Definition leaves {A} (p : handler A) (P : Broker -> io_result A -> Prop) : Prop :=
  forall w b r w', p w = Done ((b, r), w') -> P b r.

Lemma leaves_ret {A} b (r : io_result A) (P : Broker -> io_result A -> Prop) :
  P b r -> leaves (ret (b, r)) P.
Proof. intros HP w b' r' w' [= <- <- <-]. done. Qed.

Lemma leaves_return_in {A} b (p : prog (io_result A)) (P : Broker -> io_result A -> Prop) :
  (forall r, P b r) -> leaves (return_in b p) P.
Proof.
  intros HP w b' r' w' H. unfold return_in in H.
  apply bind_done_inv in H as (r & w1 & _ & [= <- <- <-]). apply HP.
Qed.

Lemma leaves_try_in {A B} b (p : prog (io_result A)) (f : A -> handler B)
    (P : Broker -> io_result B -> Prop) :
  (forall e, P b (Err e)) -> (forall a, leaves (f a) P) -> leaves (try_in b p f) P.
Proof.
  intros He Hf w b' r' w' H. unfold try_in in H.
  apply bind_done_inv in H as ([a|e] & w1 & _ & H); [by eapply Hf|].
  injection H as <- <- <-. apply He.
Qed.

(** The arena of a new object. *)
Lemma make_arena_leaves name cap b :
  leaves (make_arena name cap b) (fun b' r =>
    match r with
    | Err _ => b' = b
    | Ok a => a = name /\ exists seg, seg_name seg = name /\ owns_unlink seg = true /\
                b' = set_arenas (<[name := seg]> (b_arenas b)) b
    end).
Proof.
  intros w b' r w' H. unfold make_arena, try_in in H.
  apply bind_done_inv in H as ([seg|e] & w1 & Ec & H); [|by injection H as <- <- <-].
  assert (seg_name seg = name /\ owns_unlink seg = true) as [Hn Ho].
  { unfold create in Ec. destruct (has_nul name); [done|].
    apply bind_done_inv in Ec as (s & w2 & _ & Ec).
    destruct (sys_shm_open s name (Z.lor O_CREAT O_RDWR) SEGMENT_MODE) as [fd errno].
    destruct (fd <? 0); [done|].
    apply bind_done_inv in Ec as (res & w3 & _ & Ec).
    apply bind_done_inv in Ec as (? & w4 & _ & Ec).
    destruct res as [ptr|e]; [|done]. by injection Ec as <- <-. }
  apply bind_done_inv in H as ([ring|e] & w2 & _ & H).
  - destruct (b_arenas b !! name) as [old|] eqn:Eo; simpl in H.
    + apply bind_done_inv in H as (? & w3 & _ & [= <- <- <-]). split; [done|]. by exists seg.
    + injection H as <- <- <-. split; [done|]. by exists seg.
  - apply bind_done_inv in H as (? & w3 & _ & [= <- <- <-]). done.
Qed.

(** Publishing: the channel and its arena come in together. *)
Lemma publish_inv b seg id name owner fp key :
  broker_inv b -> 1 <= id < next_channel (b_reg b) -> channels (b_reg b) !! id = None ->
  chan_by_name (b_reg b) !! name = None -> key_wf key ->
  seg_name seg = channel_arena id -> owns_unlink seg = true ->
  broker_inv (set_reg
    (insert_channel (MkChannelMeta id name owner fp key (channel_arena id)) (b_reg b))
    (set_arenas (<[channel_arena id := seg]> (b_arenas b)) b)).
Proof.
  intros [Hr Hc Hf Ha Hs Hrr Hrs Hro] Hid Hfresh Hfree Hk Hn Ho.
  constructor; cbn [set_arenas set_reg b_reg b_arenas b_reply_rings b_reply_segs]; try done.
  - by apply insert_channel_inv.
  - intros id' c. simpl. destruct (decide (id = id')) as [->|Hne].
    + rewrite lookup_insert_eq. by intros [= <-].
    + rewrite lookup_insert_ne by done. apply Hc.
  - intros n. unfold reg_arena. simpl. destruct (decide (channel_arena id = n)) as [<-|Hne].
    + rewrite lookup_insert_eq. split; [|by eauto]. intros _. left.
      eexists id, _. by rewrite lookup_insert_eq.
    + rewrite lookup_insert_ne by done. rewrite Ha. unfold reg_arena. split.
      * intros [(id' & c & Hin & ->)|?]; [|by right]. left. exists id', c.
        rewrite lookup_insert_ne; [done|]. intros ->. congruence.
      * intros [(id' & c & Hin & ->)|?]; [|by right]. left.
        destruct (decide (id = id')) as [->|]; [rewrite lookup_insert_eq in Hin; by injection Hin as <-|].
        rewrite lookup_insert_ne in Hin by done. by exists id', c.
  - intros n s. destruct (decide (channel_arena id = n)) as [<-|Hne].
    + rewrite lookup_insert_eq. by intros [= <-].
    + rewrite lookup_insert_ne by done. apply Hs.
Qed.

Lemma expose_inv b seg id name owner qfp pfp key :
  broker_inv b -> 1 <= id < next_fn (b_reg b) -> functions (b_reg b) !! id = None ->
  fn_by_name (b_reg b) !! name = None -> key_wf key ->
  seg_name seg = function_arena id -> owns_unlink seg = true ->
  broker_inv (set_reg
    (insert_function (MkFunctionMeta id name owner qfp pfp key (function_arena id)) (b_reg b))
    (set_arenas (<[function_arena id := seg]> (b_arenas b)) b)).
Proof.
  intros [Hr Hc Hf Ha Hs Hrr Hrs Hro] Hid Hfresh Hfree Hk Hn Ho.
  constructor; cbn [set_arenas set_reg b_reg b_arenas b_reply_rings b_reply_segs]; try done.
  - by apply insert_function_inv.
  - intros id' f. simpl. destruct (decide (id = id')) as [->|Hne].
    + rewrite lookup_insert_eq. by intros [= <-].
    + rewrite lookup_insert_ne by done. apply Hf.
  - intros n. unfold reg_arena. simpl. destruct (decide (function_arena id = n)) as [<-|Hne].
    + rewrite lookup_insert_eq. split; [|by eauto]. intros _. right.
      eexists id, _. by rewrite lookup_insert_eq.
    + rewrite lookup_insert_ne by done. rewrite Ha. unfold reg_arena. split.
      * intros [?|(id' & f & Hin & ->)]; [by left|]. right. exists id', f.
        rewrite lookup_insert_ne; [done|]. intros ->. congruence.
      * intros [?|(id' & f & Hin & ->)]; [by left|]. right.
        destruct (decide (id = id')) as [->|]; [rewrite lookup_insert_eq in Hin; by injection Hin as <-|].
        rewrite lookup_insert_ne in Hin by done. by exists id', f.
  - intros n s. destruct (decide (function_arena id = n)) as [<-|Hne].
    + rewrite lookup_insert_eq. by intros [= <-].
    + rewrite lookup_insert_ne by done. apply Hs.
Qed.

(** ** Making a name free *)

(** [shm::pid_alive] and [Broker::owner_alive] as functions of the system calls. *)
Definition proc_alive (s : sys) (pid : Z) : bool :=
  if pid <=? 0 then false
  else let (r, errno) := sys_kill s pid 0 in (r =? 0) || bool_decide (errno = EPERM).

Definition alive_owner (s : sys) (pid : Z) : bool := (pid =? 0) || proc_alive s pid.

Lemma pid_alive_eq pid w : pid_alive pid w = Done (proc_alive (w_sys w) pid, w).
Proof.
  unfold pid_alive, proc_alive. destruct (pid <=? 0); [done|].
  unfold bind, get_sys. destruct (sys_kill (w_sys w) pid 0) as [r errno]. by destruct (r =? 0).
Qed.

Lemma owner_alive_eq pid w : owner_alive pid w = Done (alive_owner (w_sys w) pid, w).
Proof. unfold owner_alive, alive_owner. destruct (pid =? 0); [done|]. apply pid_alive_eq. Qed.

(** What [free_channel_name] does: the broker without the channel that was sitting
    out its grace, or without the dead owner, and whether the name is free now. *)
Definition chan_freed (s : sys) (name : string) (b : Broker) : Broker * bool :=
  match chan_by_name (b_reg b) !! name with
  | None => (b, true)
  | Some id =>
      match channels (b_reg b) !! id with
      | None => (b, false)
      | Some c =>
          if bool_decide (is_Some (released (b_reg b) !! id))
          then (set_arenas (delete (ch_arena c) (b_arenas b))
                  (set_reg (fst (drop_channel id (b_reg b))) b), true)
          else if alive_owner s (owner_pid (b_reg b) (ch_owner c)) then (b, false)
          else (departed (ch_owner c) b, true)
      end
  end.

Definition fn_freed (s : sys) (name : string) (b : Broker) : Broker * bool :=
  match fn_by_name (b_reg b) !! name with
  | None => (b, true)
  | Some id =>
      match functions (b_reg b) !! id with
      | None => (b, false)
      | Some f =>
          if alive_owner s (owner_pid (b_reg b) (fn_owner f)) then (b, false)
          else (departed (fn_owner f) b, true)
      end
  end.

Lemma free_channel_name_done m b w :
  broker_inv b ->
  exists segs w', free_channel_name m b w =
      Done (chan_freed (w_sys w) (publish_channel m) b, w') /\ drops_of segs w w'.
Proof.
  intros Hb. unfold free_channel_name, chan_freed, channel_name_taken, reap_if_released,
    dead_channel_owner.
  destruct (chan_by_name (b_reg b) !! publish_channel m) as [id|] eqn:En.
  2:{ rewrite bool_decide_eq_false_2 by (by intros [??]). exists [], w. split; [done|]. apply drops_of_nil. }
  rewrite bool_decide_eq_true_2 by (by eexists).
  destruct (ri_chan_name _ (bi_reg _ Hb) _ _ En) as (c & Hc & _). rewrite Hc.
  destruct (released (b_reg b) !! id) as [t|] eqn:Er.
  - rewrite bool_decide_eq_true_2 by (by eexists). unfold drop_channel. rewrite Hc. simpl.
    match goal with |- context [reclaim_arena ?n ?b0] =>
      destruct (reclaim_arena_done n b0 w) as (w1 & E1 & H1) end.
    erewrite bind_done by exact E1. cbn [b_arenas set_reg] in *.
    destruct (b_arenas b !! ch_arena c) as [sg|].
    + exists [sg], w1. split; [done|]. by apply drops_of_one.
    + exists [], w1. split; [done|]. subst w1. apply drops_of_nil.
  - rewrite bool_decide_eq_false_2 by (by intros [??]).
    rewrite bind_assoc. erewrite bind_done by apply owner_alive_eq. rewrite bind_ret.
    destruct (alive_owner _ _); simpl.
    + exists [], w. split; [done|]. apply drops_of_nil.
    + destruct (release_client_done (ch_owner c) b w) as (w1 & E1 & H1).
      erewrite bind_done by exact E1. by exists (departing_segs (ch_owner c) b), w1.
Qed.

Lemma free_function_name_done m b w :
  broker_inv b ->
  exists segs w', free_function_name m b w =
      Done (fn_freed (w_sys w) (expose_fn_name m) b, w') /\ drops_of segs w w'.
Proof.
  intros Hb. unfold free_function_name, fn_freed, function_name_taken, dead_function_owner.
  destruct (fn_by_name (b_reg b) !! expose_fn_name m) as [id|] eqn:En.
  2:{ rewrite bool_decide_eq_false_2 by (by intros [??]). exists [], w. split; [done|]. apply drops_of_nil. }
  rewrite bool_decide_eq_true_2 by (by eexists).
  destruct (ri_fn_name _ (bi_reg _ Hb) _ _ En) as (f & Hf & _). rewrite Hf.
  rewrite bind_assoc. erewrite bind_done by apply owner_alive_eq. rewrite bind_ret.
  destruct (alive_owner _ _); simpl.
  - exists [], w. split; [done|]. apply drops_of_nil.
  - destruct (release_client_done (fn_owner f) b w) as (w1 & E1 & H1).
    erewrite bind_done by exact E1. by exists (departing_segs (fn_owner f) b), w1.
Qed.

(** The ids still to be given out are those of before. *)
Definition same_next (r r' : Registry) : Prop :=
  next_client r' = next_client r /\ next_channel r' = next_channel r /\ next_fn r' = next_fn r.

(** At most one id of each sort was given out. *)
Definition ids_grow (r r' : Registry) : Prop :=
  next_client r' <= next_client r + 1 /\ next_channel r' <= next_channel r + 1 /\
  next_fn r' <= next_fn r + 1.

Lemma chan_freed_inv s name b :
  broker_inv b ->
  broker_inv (fst (chan_freed s name b)) /\
  same_next (b_reg b) (b_reg (fst (chan_freed s name b))) /\
  (if snd (chan_freed s name b)
   then chan_by_name (b_reg (fst (chan_freed s name b))) !! name = None
   else fst (chan_freed s name b) = b).
Proof.
  intros Hb. pose proof (bi_reg _ Hb) as Hr. unfold chan_freed.
  destruct (chan_by_name (b_reg b) !! name) as [id|] eqn:En; [|done].
  destruct (ri_chan_name _ Hr _ _ En) as (c & Hc & Ec). rewrite Hc.
  case_bool_decide as Hrel; [|destruct (alive_owner _ _); [done|]]; cbn [fst snd].
  - destruct (drop_channel_spec (b_reg b) id c Hc) as (_ & Ech & _ & _ & Hs).
    pose proof (drop_channel_inv _ Hr id c Hc) as Hi. split_and!.
    + by eapply chan_gone_inv.
    + destruct Hs as (_ & _ & _ & ? & ? & ?). by split_and!.
    + unfold drop_channel. rewrite Hc. simpl. rewrite Ec. apply lookup_delete_eq.
  - destruct (departed_reg_spec (ch_owner c) (b_reg b) Hr) as (Hi & Dc & _ & _ & N1 & N2 & N3 & _).
    split_and!; [by apply departed_inv | exact (conj N1 (conj N2 N3)) |].
    apply (chan_name_free _ _ Hi). intros id' c' [Hc' Ho]%Dc E.
    assert (id' = id) as -> by (apply (chan_name_inj (b_reg b) Hr id' id c' c); [done | done | congruence]). congruence.
Qed.

Lemma fn_freed_inv s name b :
  broker_inv b ->
  broker_inv (fst (fn_freed s name b)) /\
  same_next (b_reg b) (b_reg (fst (fn_freed s name b))) /\
  (if snd (fn_freed s name b)
   then fn_by_name (b_reg (fst (fn_freed s name b))) !! name = None
   else fst (fn_freed s name b) = b).
Proof.
  intros Hb. pose proof (bi_reg _ Hb) as Hr. unfold fn_freed.
  destruct (fn_by_name (b_reg b) !! name) as [id|] eqn:En; [|done].
  destruct (ri_fn_name _ Hr _ _ En) as (f & Hf & Ef). rewrite Hf.
  destruct (alive_owner _ _); [done|]. cbn [fst snd].
  destruct (departed_reg_spec (fn_owner f) (b_reg b) Hr) as (Hi & _ & Df & _ & N1 & N2 & N3 & _).
  split_and!; [by apply departed_inv | exact (conj N1 (conj N2 N3)) |]. cbn [departed b_reg].
  destruct (fn_by_name (departed_reg (fn_owner f) (b_reg b)) !! name) as [id'|] eqn:E'; [|done].
  destruct (ri_fn_name _ Hi _ _ E') as (f' & [Hf' Ho]%Df & E).
  assert (id' = id) as -> by (apply (fn_name_inj (b_reg b) id' id f' f Hr); [done | done | congruence]). congruence.
Qed.

(** ** The handlers keep the invariant *)

Section handlers.
Context `{ProtoSerde} `{!Sha256}.
Context (b : Broker).
Hypothesis Hb : broker_inv b.
Hypothesis Hids : ids_left (b_reg b).

Definition inv_post : Broker -> io_result unit -> Prop := fun b' _ =>
  broker_inv b' /\ ids_grow (b_reg b) (b_reg b').

Lemma inv_post_same r : inv_post b r.
Proof using Hb. split; [done|]. by split_and!; lia. Qed.

Lemma inv_post_next b' r : broker_inv b' -> same_next (b_reg b) (b_reg b') -> inv_post b' r.
Proof using. intros Hb' (? & ? & ?). split; [done|]. split_and!; lia. Qed.

Lemma register_inv ring seg app pid name :
  r_seg ring = seg -> owns_unlink seg = false ->
  let (reg, client_id) := add_client app pid (b_reg b) in
  broker_inv (set_replies (<[client_id := ring]> (b_reply_rings b))
    (<[client_id := seg]> (b_reply_segs b)) (b_reply_names b ++ [name]) (set_reg reg b)).
Proof using Hb Hids.
  intros Es Eo. pose proof Hb as [Hr Hc Hf Ha Hs Hrr Hrs Hro].
  pose proof (add_client_inv _ Hr app pid (proj1 Hids)) as Hi. simpl in *.
  constructor; simpl; try done.
  - intros id. destruct (decide (next_client (b_reg b) = id)) as [<-|Hne].
    + rewrite !lookup_insert_eq. split; by eexists.
    + rewrite !lookup_insert_ne by done. apply Hrr.
  - intros id. destruct (decide (next_client (b_reg b) = id)) as [<-|Hne].
    + rewrite !lookup_insert_eq. simpl. by rewrite Es.
    + rewrite !lookup_insert_ne by done. apply Hrs.
  - intros id s. destruct (decide (next_client (b_reg b) = id)) as [<-|Hne].
    + rewrite lookup_insert_eq. by intros [= <-].
    + rewrite lookup_insert_ne by done. apply Hro.
Qed.

Lemma open_owns name w seg w' :
  open name w = Done (Ok seg, w') -> owns_unlink seg = false /\ seg_name seg = name.
Proof using.
  unfold open. destruct (has_nul name); [done|]. intros E.
  apply bind_done_inv in E as (s & w1 & _ & E).
  destruct (sys_shm_open s name O_RDWR 384) as [fd errno]. destruct (fd <? 0); [done|].
  apply bind_done_inv in E as (res & w2 & _ & E).
  apply bind_done_inv in E as (? & w3 & _ & E).
  destruct res as [[ptr size]|e]; [|done]. by injection E as <- <-.
Qed.

Lemma attach_seg seg base w r w' : attach seg base w = Done (Ok r, w') -> r_seg r = seg.
Proof using.
  unfold attach. intros E. apply bind_done_inv in E as (? & ? & _ & E).
  destruct (negb _); [done|]. apply bind_done_inv in E as (? & ? & _ & E).
  destruct (_ || _); [done|]. by injection E as <- <-.
Qed.

Lemma on_register_inv frame : leaves (on_register b frame) inv_post.
Proof using Hb Hids.
  apply leaves_try_in; [intros; apply inv_post_same|]. intros m.
  intros w b' r w' E. unfold try_in in E.
  apply bind_done_inv in E as ([seg|e] & w0 & Eo & E);
    [|injection E as <- <- <-; apply inv_post_same].
  apply bind_done_inv in E as ([ring|e] & w1 & Ea & E).
  - pose proof (register_inv ring seg (register_app_name m) (i32 (register_pid m))
      (register_reply_segment m) (attach_seg _ _ _ _ _ Ea) (proj1 (open_owns _ _ _ _ Eo))) as Hinv.
    unfold add_client in *. eapply (leaves_return_in _ _ inv_post); [|exact E]. intros ?.
    split; [exact Hinv|]. destruct Hids as (? & ? & ?).
    pose proof (ri_next _ (bi_reg _ Hb)).
    split_and!; simpl; rewrite ?wrap_i_small by (unfold in_i; lia); lia.
  - apply bind_done_inv in E as (? & w2 & _ & [= <- <- <-]). apply inv_post_same.
Qed.

Lemma departed_post id r : inv_post (departed id b) r.
Proof using Hb.
  apply inv_post_next; [by apply departed_inv|].
  destruct (departed_reg_spec id (b_reg b) (bi_reg _ Hb)) as (_ & _ & _ & _ & N1 & N2 & N3 & _).
  exact (conj N1 (conj N2 N3)).
Qed.

Lemma on_unregister_inv frame : leaves (on_unregister b frame) inv_post.
Proof using Hb Hids.
  apply leaves_try_in; [intros; apply inv_post_same|]. intros m w b' r w' E.
  destruct (release_client_done (unregister_client_id m) b w) as (w1 & E1 & _).
  erewrite bind_done in E by exact E1. injection E as <- <- <-. apply departed_post.
Qed.

Lemma access_key_hash_wf key : key_wf (access_key_hash key).
Proof using. destruct key; [done|]. apply length_key_hash. Qed.

Lemma on_publish_inv frame : leaves (on_publish b frame) inv_post.
Proof using Hb Hids.
  apply leaves_try_in; [intros; apply inv_post_same|]. intros m w b' r w' E.
  destruct (free_channel_name_done m b w Hb) as (segs & w1 & E1 & _).
  erewrite bind_done in E by exact E1.
  destruct (chan_freed_inv (w_sys w) (publish_channel m) b Hb) as (Hb1 & HN & Hfree).
  destruct (chan_freed _ _ b) as [b1 free]. cbn [fst snd] in *.
  destruct free; cbn [negb] in E;
    [|eapply (leaves_return_in _ _ inv_post); [|exact E]; intros ?; by apply inv_post_next].
  destruct (parse _) as [[sch fp]|e];
    [|eapply (leaves_return_in _ _ inv_post); [|exact E]; intros ?; by apply inv_post_next].
  pose proof (bi_reg _ Hb1) as Hr1. destruct Hids as (_ & Hn & _). destruct HN as (Nc & N & Nf).
  pose proof (alloc_channel_inv _ Hr1 ltac:(lia)) as Hi2.
  pose proof (next_channel_fresh _ Hr1) as Hfr. pose proof (ri_next _ Hr1) as Hnx.
  unfold alloc_channel_id in E, Hi2. cbn [fst] in Hi2.
  set (id := next_channel (b_reg b1)) in *. set (r2 := set_next _ _ _ _) in *.
  assert (broker_inv (set_reg r2 b1)) as Hb2 by (by apply set_reg_inv).
  assert (next_channel r2 = id + 1) as Hn2.
  { unfold r2. simpl. apply wrap_i_small; [lia | unfold in_i; lia]. }
  assert (ids_grow (b_reg b) r2) as Hg.
  { split_and!; [change (next_client r2) with (next_client (b_reg b1)) | |
      change (next_fn r2) with (next_fn (b_reg b1))]; lia. }
  apply bind_done_inv in E as ([b3 res] & w3 & Em & E).
  pose proof (make_arena_leaves _ _ _ _ _ _ _ Em) as Hm. cbn beta in Hm.
  destruct res as [arena|e];
    [|subst b3; eapply (leaves_return_in _ _ inv_post); [|exact E]; intros ?; by split].
  destruct Hm as (Ea & seg & Hsn & Hso & Eb). subst arena.
  eapply (leaves_return_in _ _ inv_post); [|exact E]. intros ?. rewrite Eb.
  rewrite wrap_u_small in * by (unfold in_u; lia). split; [|exact Hg].
  apply (publish_inv (set_reg r2 b1)); try done.
  - change (b_reg (set_reg r2 b1)) with r2. lia.
  - apply access_key_hash_wf.
Qed.

Lemma on_expose_inv frame : leaves (on_expose b frame) inv_post.
Proof using Hb Hids.
  apply leaves_try_in; [intros; apply inv_post_same|]. intros m w b' r w' E.
  destruct (free_function_name_done m b w Hb) as (segs & w1 & E1 & _).
  erewrite bind_done in E by exact E1.
  destruct (fn_freed_inv (w_sys w) (expose_fn_name m) b Hb) as (Hb1 & HN & Hfree).
  destruct (fn_freed _ _ b) as [b1 free]. cbn [fst snd] in *.
  destruct free; cbn [negb] in E;
    [|eapply (leaves_return_in _ _ inv_post); [|exact E]; intros ?; by apply inv_post_next].
  destruct (parse (expose_req_schema_json m)) as [[qs qfp]|e];
    [|eapply (leaves_return_in _ _ inv_post); [|exact E]; intros ?; by apply inv_post_next].
  destruct (parse (expose_resp_schema_json m)) as [[ps pfp]|e];
    [|eapply (leaves_return_in _ _ inv_post); [|exact E]; intros ?; by apply inv_post_next].
  pose proof (bi_reg _ Hb1) as Hr1. destruct Hids as (_ & _ & Hn). destruct HN as (Nc & Nch & N).
  pose proof (alloc_fn_inv _ Hr1 ltac:(lia)) as Hi2.
  pose proof (next_fn_fresh _ Hr1) as Hfr. pose proof (ri_next _ Hr1) as Hnx.
  unfold alloc_fn_id in E, Hi2. cbn [fst] in Hi2.
  set (id := next_fn (b_reg b1)) in *. set (r2 := set_next _ _ _ _) in *.
  assert (broker_inv (set_reg r2 b1)) as Hb2 by (by apply set_reg_inv).
  assert (next_fn r2 = id + 1) as Hn2.
  { unfold r2. simpl. apply wrap_i_small; [lia | unfold in_i; lia]. }
  assert (ids_grow (b_reg b) r2) as Hg.
  { split_and!; [change (next_client r2) with (next_client (b_reg b1)) |
      change (next_channel r2) with (next_channel (b_reg b1)) |]; lia. }
  apply bind_done_inv in E as ([b3 res] & w3 & Em & E).
  pose proof (make_arena_leaves _ _ _ _ _ _ _ Em) as Hm. cbn beta in Hm.
  destruct res as [arena|e];
    [|subst b3; eapply (leaves_return_in _ _ inv_post); [|exact E]; intros ?; by split].
  destruct Hm as (Ea & seg & Hsn & Hso & Eb). subst arena.
  eapply (leaves_return_in _ _ inv_post); [|exact E]. intros ?. rewrite Eb.
  rewrite wrap_u_small in * by (unfold in_u; lia). split; [|exact Hg].
  apply (expose_inv (set_reg r2 b1)); try done.
  - change (b_reg (set_reg r2 b1)) with r2. lia.
  - apply access_key_hash_wf.
Qed.

Lemma on_unpublish_inv frame : leaves (on_unpublish b frame) inv_post.
Proof using Hb Hids.
  apply leaves_try_in; [intros; apply inv_post_same|]. intros m w b' r w' E.
  apply bind_done_inv in E as (t & w1 & _ & E).
  pose proof (bi_reg _ Hb) as Hr.
  pose proof (release_channel_inv _ Hr (unpublish_channel m) (unpublish_client_id m) t) as Hi.
  revert E Hi. unfold release_channel.
  destruct (chan_by_name (b_reg b) !! unpublish_channel m) as [id|] eqn:En.
  2:{ intros [= <- <- <-] _. rewrite set_reg_same. apply inv_post_same. }
  destruct (ri_chan_name _ Hr _ _ En) as (c & Hc & _).
  case_bool_decide as Ho; cbn [negb].
  2:{ intros [= <- <- <-] _. rewrite set_reg_same. apply inv_post_same. }
  case_bool_decide as Hs.
  - destruct (drop_channel_spec (b_reg b) id c Hc) as (Ea & Ech & _ & _ & Hsame).
    destruct (drop_channel id (b_reg b)) as [r1 a]. simpl in *. subst a. intros E Hi.
    destruct (reclaim_arena_done (ch_arena c) (set_reg r1 b) w1) as (w2 & E2 & _).
    erewrite bind_done in E by exact E2. injection E as <- <- <-.
    apply inv_post_next; [by eapply chan_gone_inv|].
    destruct Hsame as (_ & _ & _ & ? & ? & ?). by split_and!.
  - intros [= <- <- <-] Hi. apply inv_post_next; [by apply set_reg_inv | done].
Qed.

Lemma on_list_inv frame : leaves (on_list b frame) inv_post.
Proof using Hb Hids.
  apply leaves_try_in; [intros; apply inv_post_same|]. intros m.
  apply leaves_return_in. intros; apply inv_post_same.
Qed.

Lemma on_lookup_inv frame : leaves (on_lookup b frame) inv_post.
Proof using Hb Hids.
  apply leaves_try_in; [intros; apply inv_post_same|]. intros m.
  apply leaves_return_in. intros; apply inv_post_same.
Qed.

Lemma on_subscribe_inv frame : leaves (on_subscribe b frame) inv_post.
Proof using Hb Hids.
  apply leaves_try_in; [intros; apply inv_post_same|]. intros m.
  destruct (resolve_subscribe _ _ _ _) as [[arena fp]|[code msg]] eqn:E.
  - apply leaves_return_in. intros r. apply inv_post_next; [|done].
    apply set_reg_inv; try done. apply mark_subscribed_inv; [apply Hb|].
    by eapply resolve_subscribe_exists.
  - apply leaves_return_in. intros; apply inv_post_same.
Qed.

Lemma handle_inv bytes : leaves (handle b bytes) inv_post.
Proof using Hb Hids.
  unfold handle. destruct (decode bytes) as [frame|e]; [|apply leaves_ret, inv_post_same].
  intros w b' r w' E. apply bind_done_inv in E as (c & w1 & _ & E).
  revert E. destruct (kind_of c (schema_fp frame)) as [k|];
    [|intros [= <- <- <-]; apply inv_post_same].
  destruct k; try (intros [= <- <- <-]; apply inv_post_same); intros E.
  - by eapply on_register_inv.
  - by eapply on_unregister_inv.
  - by eapply on_publish_inv.
  - by eapply on_unpublish_inv.
  - by eapply on_list_inv.
  - by eapply on_subscribe_inv.
  - by eapply on_expose_inv.
  - by eapply on_lookup_inv.
Qed.
End handlers.
