(* ===== verification/BrokerOps.v ===== *)
(** * What the broker's building blocks do when nothing is in the way

    A push that has room, a pop that finds a record, a reply to a client that reads
    its ring, and the creation of an arena when the system grants the memory. *)

From S2P Require Import Prelude Machine Shm Circ Ring RingMem RingSpec RingThm Frame Control Util Avro Proto Registry RegistryThm Broker BrokerThm.

Section ring.
Context (r : Ring).
Hypothesis Hg : ring_geom r.

(** A push that succeeds at once does the same blocking or not. *)
Lemma push_loop_try fuel d dl w w' :
  try_push r d w = Done (true, w') -> push_loop (S fuel) r d dl w = Done (true, w').
Proof using.
  unfold try_push. cbn [push_loop]. unfold bind.
  destruct (lock_producer r w) as [[u w1]| | |]; try done.
  destruct (push_locked r d w1) as [[ok w2]| | |]; try done.
  destruct ok.
  - destruct (unlock_producer r w2) as [[u3 w3]| | |]; done.
  - destruct (unlock_producer r w2) as [[u3 w3]| | |]; done.
Qed.

Lemma push_blocking_room w q d tmo :
  ring_has r w q -> fst (fifo_push (r_capacity r) q d) = true ->
  exists w', push_blocking r d tmo w = Done (true, w') /\ ring_has r w' (q ++ [d]) /\
    ring_only r w w' [EvWake (r_ptr r) (r_base r + OFF_DATA_SEQ) 1].
Proof using Hg.
  intros Hq Hroom. destruct (try_push_sim r Hg w q d Hq) as (w' & E & Hq' & Ho).
  unfold fifo_push in *. destruct (_ <=? _); [|done]. exists w'. simpl in *.
  split_and!; [|done|done]. unfold push_blocking. erewrite bind_done by reflexivity.
  by apply push_loop_try.
Qed.

Lemma pop_blocking_ready w d q tmo :
  ring_has r w (d :: q) ->
  exists w', pop_blocking r tmo w = Done (Some d, w') /\ ring_has r w' q /\
    ring_only r w w' [EvWake (r_ptr r) (r_base r + OFF_SPACE_SEQ) I32_MAX].
Proof using Hg.
  intros Hq. destruct (try_pop_sim r Hg w (d :: q) Hq) as (w' & E & Hq' & Ho). simpl in *.
  exists w'. split_and!; [|done|done]. unfold pop_blocking. erewrite bind_done by reflexivity.
  cbn [pop_loop]. unfold SPIN_LIMIT. change 256%nat with (S 255) at 1. cbn [spin_pop].
  rewrite bind_assoc. by erewrite bind_done by exact E.
Qed.
End ring.

(** ** Replies *)

Section reply.
Context `{ProtoSerde}.

Lemma reply_ok {T} `{!Serde T} b client kind (msg : T) ring frame q w :
  b_reply_rings b !! client = Some ring -> ring_geom ring -> ring_has ring w q ->
  to_frame kind msg = Done (Ok frame) ->
  fst (fifo_push (r_capacity ring) q (encode frame)) = true ->
  exists w', reply b client kind msg w = Done (Ok tt, w') /\
    ring_has ring w' (q ++ [encode frame]) /\
    ring_only ring w w' [EvWake (r_ptr ring) (r_base ring + OFF_DATA_SEQ) 1].
Proof using.
  intros Hr Hg Hq Hf Hroom. unfold reply. rewrite Hr.
  destruct (push_blocking_room ring Hg w q (encode frame) (Some REPLY_PUSH_TIMEOUT) Hq Hroom)
    as (w' & E & Hq' & Ho).
  exists w'. split_and!; [|done|done]. unfold bind_io, lift. rewrite Hf.
  erewrite bind_done by reflexivity. cbv beta iota. by erewrite bind_done by exact E.
Qed.
End reply.

(** ** Arenas *)

(** The system grants a new segment [name] of [size] bytes. *)
Definition shm_grants (s : sys) (name : string) (size : Z) : Prop :=
  let fd := fst (sys_shm_open s name (Z.lor O_CREAT O_RDWR) SEGMENT_MODE) in
  0 <= fd /\ 0 <= fst (sys_fchmod s fd SEGMENT_MODE) /\ 0 <= fst (sys_ftruncate s fd size) /\
  forall m, fst (fst (sys_mmap s size fd m)) <> MAP_FAILED.

(** The same with the law of [mmap] for this segment only: it is mapped at a new address. *)
Definition shm_creates (s : sys) (name : string) (size : Z) : Prop :=
  let fd := fst (sys_shm_open s name (Z.lor O_CREAT O_RDWR) SEGMENT_MODE) in
  0 <= fd /\ 0 <= fst (sys_fchmod s fd SEGMENT_MODE) /\ 0 <= fst (sys_ftruncate s fd size) /\
  forall m ptr errno m', sys_mmap s size fd m = (ptr, errno, m') -> ptr <> MAP_FAILED /\ m !! ptr = None /\
    (exists bs, m' !! ptr = Some bs /\ blen bs = size) /\ (forall q, q <> ptr -> m' !! q = m !! q).

Lemma grants_creates s name size : 0 <= size -> mmap_ok s -> shm_grants s name size -> shm_creates s name size.
Proof.
  intros H0 Hm (H1 & H2 & H3 & H4). split_and!; [done..|]. intros m ptr errno m' E.
  specialize (H4 m). rewrite E in H4. split; [exact H4 | by eapply Hm].
Qed.

(** Where the system puts a new segment. *)
Definition lands (s : sys) (name : string) (size : Z) (m : gmap Z (list byte)) : Z :=
  fst (fst (sys_mmap s size (fst (sys_shm_open s name (Z.lor O_CREAT O_RDWR) SEGMENT_MODE)) m)).

(** From [w] to [w'] one block appeared at [ptr]. *)
Record world_mapped (name : string) (ptr size : Z) (w w' : world) : Prop := {
  wm_lands : lands (w_sys w) name size (w_mem w) = ptr;
  wm_new : w_mem w !! ptr = None;
  wm_ptr : ptr <> MAP_FAILED;
  wm_block : exists bs, w_mem w' !! ptr = Some bs /\ blen bs = size;
  wm_others : forall q, q <> ptr -> w_mem w' !! q = w_mem w !! q;
  wm_now : w_now w' = w_now w;
  wm_sys : w_sys w' = w_sys w;
  wm_ticks : w_ticks w' = w_ticks w;
  wm_rng : w_rng w' = w_rng w;
  wm_log : exists fd, w_log w' = w_log w ++ [EvClose fd];
}.

Lemma create_fresh name size w :
  has_nul name = false -> shm_creates (w_sys w) name size ->
  exists ptr w', create name size w = Done (Ok (MkSegment name ptr size true), w') /\
    world_mapped name ptr size w w'.
Proof.
  intros Hn Hs. unfold create. rewrite Hn. unfold shm_creates in Hs.
  erewrite bind_done by reflexivity.
  destruct (sys_shm_open _ _ _ _) as [fd e1] eqn:Eo. cbn [fst] in Hs. destruct Hs as (H1 & H2 & H3 & H4).
  rewrite (proj2 (Z.ltb_ge _ _) H1). unfold create_mapped. rewrite bind_assoc.
  erewrite bind_done by reflexivity.
  destruct (sys_fchmod _ _ _) as [r2 e2]. cbn [fst] in H2. rewrite (proj2 (Z.ltb_ge _ _) H2).
  destruct (sys_ftruncate _ _ _) as [r3 e3]. cbn [fst] in H3. rewrite (proj2 (Z.ltb_ge _ _) H3).
  unfold mmap_fd, bind. destruct (sys_mmap (w_sys w) size fd (w_mem w)) as [[ptr e4] m'] eqn:Em.
  destruct (H4 _ _ _ _ Em) as (Hne & Hnew & Hbs & Hoth). rewrite bool_decide_eq_false_2 by done.
  do 2 eexists. split; [reflexivity|]. constructor; try done; [|by exists fd].
  unfold lands. rewrite Eo. cbn [fst]. by rewrite Em.
Qed.

Lemma create_ok name size w :
  has_nul name = false -> 0 <= size -> mmap_ok (w_sys w) -> shm_grants (w_sys w) name size ->
  exists ptr w', create name size w = Done (Ok (MkSegment name ptr size true), w') /\
    world_mapped name ptr size w w'.
Proof. intros Hn H0 Hm Hs. by apply create_fresh, grants_creates. Qed.

Lemma ring_bytes_small k : 0 <= k <= 31 -> ring_bytes (2 ^ k) = RING_HEADER + 2 ^ k.
Proof.
  intros Hk. unfold ring_bytes, RING_HEADER. apply wrap_u_small. unfold in_u.
  assert (0 < 2 ^ k <= 2 ^ 31) by (split; [apply Z.pow_pos_nonneg; lia | apply Z.pow_le_mono_r; lia]).
  lia.
Qed.

(** The ring of an arena of capacity [cap] at [seg]. *)
Definition arena_ring (seg : Segment) (cap : Z) : Ring := MkRing seg 0 cap (cap - 1).

(** The segment of [r] is one that [Ring::attach] accepts. *)
Definition attachable (r : Ring) (m : gmap Z (list byte)) : Prop :=
  exists bs, m !! r_ptr r = Some bs /\ fits r bs /\ blen bs = seg_len (r_seg r) /\
    fget r bs FMagic = MAGIC /\ fget r bs FCap = r_capacity r.

Record arena_made (seg : Segment) (cap : Z) (w w' : world) : Prop := {
  am_lands : lands (w_sys w) (seg_name seg) (seg_len seg) (w_mem w) = seg_ptr seg;
  am_new : w_mem w !! seg_ptr seg = None;
  am_ptr : seg_ptr seg <> MAP_FAILED;
  am_geom : ring_geom (arena_ring seg cap);
  am_ring : ring_has (arena_ring seg cap) w' [];
  am_attach : attachable (arena_ring seg cap) (w_mem w');
  am_others : forall q, q <> seg_ptr seg -> w_mem w' !! q = w_mem w !! q;
  am_now : w_now w' = w_now w;
  am_sys : w_sys w' = w_sys w;
  am_ticks : w_ticks w' = w_ticks w;
  am_rng : w_rng w' = w_rng w;
}.

(** A new segment with a ring in it: [Segment::create] and [Ring::format]. *)
Lemma segment_made name k w :
  has_nul name = false -> 0 <= k <= 31 -> shm_creates (w_sys w) name (ring_bytes (2 ^ k)) ->
  exists ptr w1 w', let seg := MkSegment name ptr (ring_bytes (2 ^ k)) true in
    create name (ring_bytes (2 ^ k)) w = Done (Ok seg, w1) /\
    format seg 0 (2 ^ k) w1 = Done (Ok (arena_ring seg (2 ^ k)), w') /\ arena_made seg (2 ^ k) w w'.
Proof.
  intros Hn Hk Hs. rewrite ring_bytes_small in * by done.
  assert (0 < 2 ^ k <= 2 ^ 31) by (split; [apply Z.pow_pos_nonneg; lia | apply Z.pow_le_mono_r; lia]).
  destruct (create_fresh name (RING_HEADER + 2 ^ k) w Hn Hs)
    as (ptr & w1 & E1 & [Hland Hnew Hptr (bs & Hbs & Hl) Hoth N1 S1 T1 R1 _]).
  set (seg := MkSegment name ptr (RING_HEADER + 2 ^ k) true) in *.
  destruct (format_sim seg 0 k w1 bs Hbs Hl Hk ltac:(lia) eq_refl) as (w2 & E2 & Hg & Hhas & Ew2).
  { change (seg_len seg) with (RING_HEADER + 2 ^ k). unfold RING_HEADER. lia. }
  exists ptr, w1, w2. cbv zeta. split_and!; [exact E1 | exact E2 |].
  constructor; try done; rewrite Ew2; cbn [upd_block set_mem w_mem w_now w_sys w_ticks w_rng]; try done.
  - assert (fits (arena_ring seg (2 ^ k)) bs) as Hf by (unfold fits; simpl; rewrite Hl; lia).
    exists (formatted (arena_ring seg (2 ^ k)) bs). split; [apply lookup_insert_eq|].
    destruct (formatted_fields _ Hg _ Hf) as (_ & _ & _ & E3 & E4 & E5).
    split_and!; [done | | done | done]. unfold formatted. repeat rewrite (blen_fset _ Hg) by auto 10 using fits_fset. exact Hl.
  - intros q Hq. change (seg_ptr seg) with ptr in *. rewrite lookup_insert_ne by done. by apply Hoth.
Qed.

Lemma make_arena_ok name k b w :
  has_nul name = false -> 0 <= k <= 31 -> b_arenas b !! name = None ->
  shm_creates (w_sys w) name (ring_bytes (2 ^ k)) ->
  exists ptr w',
    let seg := MkSegment name ptr (ring_bytes (2 ^ k)) true in
    make_arena name (2 ^ k) b w =
      Done ((set_arenas (<[name := seg]> (b_arenas b)) b, Ok name), w') /\
    arena_made seg (2 ^ k) w w'.
Proof.
  intros Hn Hk Hfree Hs.
  destruct (segment_made name k w Hn Hk Hs) as (ptr & w1 & w2 & E1 & E2 & Ham).
  exists ptr, w2. cbv zeta. split; [|exact Ham].
  unfold make_arena, try_in. erewrite bind_done by exact E1.
  cbv beta iota. erewrite bind_done by exact E2. cbv beta iota. by rewrite Hfree.
Qed.

Lemma arena_made_dom seg cap w w' : arena_made seg cap w w' -> dom (w_mem w') = {[seg_ptr seg]} ∪ dom (w_mem w).
Proof.
  intros [_ _ _ _ (bs & Hbs & _) _ Ho _ _ _ _]. apply set_eq. intros p. rewrite elem_of_union, elem_of_singleton, !elem_of_dom.
  destruct (decide (p = seg_ptr seg)) as [->|Hp]; [|rewrite Ho by done; naive_solver].
  change (r_ptr (arena_ring seg cap)) with (seg_ptr seg) in Hbs. rewrite Hbs. naive_solver.
Qed.

(** A ring keeps its queue when its own block is untouched. *)
Lemma ring_has_mem r w w' q :
  ring_has r w q -> w_mem w' !! r_ptr r = w_mem w !! r_ptr r -> ring_has r w' q.
Proof. intros (bs & Hbs & Hh & Hl) E. exists bs. by rewrite E. Qed.
