(* ===== verification/BrokerProps.v ===== *)
(** * The properties of the broker *)

From S2P Require Import Prelude Machine Shm Circ Ring RingMem RingSpec RingThm Demo Frame Control Util Avro Proto Toy ProtoProps Registry RegistryThm RegistryProps Broker BrokerThm BrokerOps.

(** ** The control loop *)

Lemma ids_left_grow r r' n :
  ids_grow r r' -> next_client r + Z.of_nat (S n) < 2 ^ 63 ->
  next_channel r + Z.of_nat (S n) < 2 ^ 63 -> next_fn r + Z.of_nat (S n) < 2 ^ 63 ->
  next_client r' + Z.of_nat n < 2 ^ 63 /\ next_channel r' + Z.of_nat n < 2 ^ 63 /\
  next_fn r' + Z.of_nat n < 2 ^ 63.
Proof. intros (? & ? & ?) ? ? ?. lia. Qed.

Lemma reap_inv t b w b' w' :
  broker_inv b ->
  (let (reg, arenas) := reap_released RELEASE_GRACE t (b_reg b) in
   reclaim_arenas arenas (set_reg reg b)) w = Done (b', w') ->
  broker_inv b' /\ same_next (b_reg b) (b_reg b').
Proof.
  intros Hb. pose proof (bi_reg _ Hb) as Hr.
  destruct (reap_released_spec RELEASE_GRACE t (b_reg b) Hr) as (Hi & Hs & Hgone & Hkeep & Ha).
  destruct (reap_released _ _ _) as [reg arenas]. cbn [fst snd] in *. intros E.
  destruct (reclaim_arenas_done arenas (set_reg reg b) w) as (w1 & E1 & _).
  rewrite E1 in E. injection E as <- <-. split; [|by destruct Hs as (_ & _ & _ & ? & ? & ?)].
  apply (chans_gone_inv b reg (is_due_at (b_reg b) t RELEASE_GRACE) arenas); try done.
  - intros id c. destruct (decide (is_due_at (b_reg b) t RELEASE_GRACE id)) as [Hd|Hd].
    + rewrite (proj1 (Hgone id Hd)). split; [done | by intros [_ ?]].
    + rewrite (proj1 (Hkeep id Hd)). split; [done | by intros [? _]].
  - intros a. rewrite Ha. naive_solver.
Qed.

Section loop.
Context `{ProtoSerde} `{!Sha256}.

Lemma turn_inv b ls w b' ls' w' :
  broker_inv b -> ids_left (b_reg b) -> turn b ls w = Done ((b', ls'), w') ->
  broker_inv b' /\ ids_grow (b_reg b) (b_reg b').
Proof using.
  intros Hb Hids E. unfold turn in E.
  apply bind_done_inv in E as (msg & w1 & _ & E).
  apply bind_done_inv in E as (b1 & w2 & E1 & E).
  assert (broker_inv b1 /\ ids_grow (b_reg b) (b_reg b1)) as [Hb1 Hg1].
  { destruct msg as [bytes|].
    - apply bind_done_inv in E1 as ([b2 r] & w3 & Eh & [= <- <-]).
      exact (handle_inv b Hb Hids bytes w1 b2 r w3 Eh).
    - injection E1 as <- <-. split; [done|]. split_and!; lia. }
  apply bind_done_inv in E as (t & w3 & _ & E).
  destruct (_ <=? _); [|by injection E as <- <- <-].
  destruct (reap_released RELEASE_GRACE t (b_reg b1)) as [reg arenas] eqn:Er.
  apply bind_done_inv in E as (b3 & w4 & E3 & [= <- <- <-]).
  destruct (reap_inv t b1 w3 b3 w4 Hb1) as [Hb3 (N1 & N2 & N3)]; [by rewrite Er|].
  split; [done|]. destruct Hg1 as (? & ? & ?). split_and!; lia.
Qed.

Lemma run_loop_inv sr b ls w b' w' :
  broker_inv b ->
  next_client (b_reg b) + Z.of_nat (length sr) < 2 ^ 63 ->
  next_channel (b_reg b) + Z.of_nat (length sr) < 2 ^ 63 ->
  next_fn (b_reg b) + Z.of_nat (length sr) < 2 ^ 63 ->
  run_loop sr b ls w = Done (b', w') -> broker_inv b'.
Proof using.
  revert b ls w. induction sr as [|go sr IH]; intros b ls w Hb L1 L2 L3 E; [done|].
  cbn [run_loop] in E. destruct go; [|by injection E as <- <-].
  apply bind_done_inv in E as ([b1 ls1] & w1 & Et & E).
  cbn [length] in *.
  destruct (turn_inv b ls w b1 ls1 w1 Hb) as [Hb1 Hg]; [by split_and!; lia | done |].
  destruct (ids_left_grow _ _ _ Hg L1 L2 L3) as (G1 & G2 & G3). by eapply IH.
Qed.
End loop.

(** C17: The broker leaks nothing and loses nothing: from a broker whose tables agree,
    whatever messages arrive, well-formed or not, and however the control loop's
    sweeps fall, the broker it leaves keeps exactly the arenas of the channels and
    functions in its registry, each under the name derived from its id, and exactly
    one reply ring and segment per registered client (for runs short enough that the
    64-bit id counters do not run out). *)
Theorem broker_run_invariant `{ProtoSerde} `{!Sha256} (b : Broker) (should_run : list bool)
    (w : world) (b' : Broker) (w' : world) :
  broker_inv b ->
  next_client (b_reg b) + Z.of_nat (length should_run) < 2 ^ 63 ->
  next_channel (b_reg b) + Z.of_nat (length should_run) < 2 ^ 63 ->
  next_fn (b_reg b) + Z.of_nat (length should_run) < 2 ^ 63 ->
  run should_run b w = Done (b', w') -> broker_inv b'.
Proof.
  intros Hb L1 L2 L3 E. unfold run in E. apply bind_done_inv in E as (t & w1 & _ & E).
  by eapply run_loop_inv.
Qed.

Definition demo_broker : Broker := MkBroker demo_seg demo_ring new_registry ∅ ∅ ∅ [].

Lemma demo_broker_inv : broker_inv demo_broker.
Proof.
  constructor; simpl.
  - apply new_registry_inv.
  - by intros.
  - by intros.
  - intros n. split; [by intros [? ?]|]. by intros [(? & ? & ? & _)|(? & ? & ? & _)].
  - by intros.
  - intros id. split; by intros [? ?].
  - done.
  - by intros.
Defined.

(** A bus on which somebody has pushed twenty bytes that are not a frame. *)
Definition demo_busy : world :=
  match try_push demo_ring rec20 (demo_ready []) with Done (_, w) => w | _ => demo_world [] end.

Lemma broker_run_invariant_witness :
  exists b' w', run (H := toy_avro) [true; false] demo_broker demo_busy = Done (b', w') /\
    broker_inv b'.
Proof.
  assert (is_done (run (H := toy_avro) [true; false] demo_broker demo_busy) = true) as Hd
    by (vm_compute; reflexivity).
  destruct (run (H := toy_avro) [true; false] demo_broker demo_busy) as [[b' w']| | |] eqn:E;
    try discriminate Hd.
  exists b', w'. split; [reflexivity|].
  apply (broker_run_invariant demo_broker [true; false] demo_busy b' w' demo_broker_inv);
    [reflexivity | reflexivity | reflexivity | exact E].
Defined.

(** ** Departure *)

Lemma elem_of_taken names m s :
  s ∈ taken names m <-> exists n, n ∈ names /\ m !! n = Some s.
Proof.
  revert m. induction names as [|n names IH]; intros m; simpl.
  { split; [by intros ?%elem_of_nil | by intros (? & ?%elem_of_nil & _)]. }
  destruct (m !! n) as [s'|] eqn:E.
  - rewrite elem_of_cons, IH. split.
    + intros [->|(n' & Hn' & [_ Hs]%lookup_delete_Some)]; [by exists n; split; [left|]|].
      exists n'. split; [by right | done].
    + intros (n' & [->|Hn']%elem_of_cons & Hs); [left; congruence|].
      destruct (decide (n' = n)) as [->|Hne]; [left; congruence|]. right. exists n'.
      split; [done|]. by rewrite lookup_delete_ne.
  - rewrite IH. split; intros (n' & Hn' & Hs); exists n'.
    + split; [by right | done].
    + apply elem_of_cons in Hn' as [->|Hn']; [congruence | done].
Qed.

Lemma unlink_in_drop n s : EvUnlink n ∈ drop_events s <-> owns_unlink s = true /\ has_nul n = false /\ n = seg_name s.
Proof.
  unfold drop_events. rewrite elem_of_cons. destruct (owns_unlink s); simpl.
  - destruct (has_nul (seg_name s)) eqn:En; simpl.
    + split; [by intros [?|?%elem_of_nil]|]. intros (_ & Hn & ->). congruence.
    + rewrite list_elem_of_singleton. split; [intros [?|[= ->]]; [done|by split_and!]|].
      intros (_ & _ & ->). by right.
  - split; [by intros [?|?%elem_of_nil] | by intros [? _]].
Qed.

Lemma unlink_in_drops n segs :
  EvUnlink n ∈ concat (drop_events <$> segs) <->
  exists s, s ∈ segs /\ owns_unlink s = true /\ has_nul n = false /\ n = seg_name s.
Proof.
  induction segs as [|s segs IH].
  - cbn. split; [by intros ?%elem_of_nil | by intros (? & ?%elem_of_nil & _)].
  - rewrite fmap_cons. cbn [concat]. rewrite elem_of_app, IH, unlink_in_drop.
    setoid_rewrite elem_of_cons. naive_solver.
Qed.

(** C18: A departing client (one that unregisters, or is found dead when its name is
    wanted) takes exactly its own things along: afterwards the broker has none of
    its channels and functions, all of everybody else's, no reply ring or segment for
    it, and its invariant; and the names unlinked from the system are exactly the
    arenas of the departed channels and functions. *)
Theorem departure_exact (b : Broker) (client_id : Z) (w : world) :
  broker_inv b ->
  exists b' w' evs, release_client client_id b w = Done (b', w') /\ broker_inv b' /\
    (forall id c, channels (b_reg b') !! id = Some c <->
       channels (b_reg b) !! id = Some c /\ ch_owner c <> client_id) /\
    (forall id f, functions (b_reg b') !! id = Some f <->
       functions (b_reg b) !! id = Some f /\ fn_owner f <> client_id) /\
    clients (b_reg b') = delete client_id (clients (b_reg b)) /\
    b_reply_rings b' = delete client_id (b_reply_rings b) /\
    b_reply_segs b' = delete client_id (b_reply_segs b) /\
    w_log w' = w_log w ++ evs /\
    (forall n, EvUnlink n ∈ evs <->
       (exists id c, channels (b_reg b) !! id = Some c /\ ch_owner c = client_id /\ n = ch_arena c) \/
       (exists id f, functions (b_reg b) !! id = Some f /\ fn_owner f = client_id /\ n = fn_req_arena f)).
Proof.
  intros Hb. destruct (release_client_done client_id b w) as (w' & E & Hd).
  destruct (departed_reg_spec client_id (b_reg b) (bi_reg _ Hb))
    as (_ & Dc & Df & Dcl & _ & _ & _ & Da).
  exists (departed client_id b), w', (concat (drop_events <$> departing_segs client_id b)).
  split_and!; [done | by apply departed_inv | done | done | done | done | done | apply Hd |].
  intros n. rewrite <- Da, unlink_in_drops. unfold departing_segs. split.
  - intros (s & Hs & Ho & _ & ->). apply elem_of_app in Hs as [Hs|Hs].
    + apply elem_of_taken in Hs as (n & Hn & Hs). by destruct (bi_segs _ Hb _ _ Hs) as [-> _].
    + destruct (b_reply_segs b !! client_id) as [s'|] eqn:Es; [|by apply elem_of_nil in Hs].
      apply list_elem_of_singleton in Hs as ->. rewrite (bi_reply_own _ Hb _ _ Es) in Ho. done.
  - intros Hn. assert (is_Some (b_arenas b !! n)) as [s Hs].
    { apply (bi_arenas _ Hb). apply Da in Hn. unfold reg_arena. naive_solver. }
    destruct (bi_segs _ Hb _ _ Hs) as [E1 E2]. exists s. split_and!; [| done | | done].
    + apply elem_of_app. left. apply elem_of_taken. by exists n.
    + apply Da in Hn as [(id & c & Hin & _ & ->)|(id & f & Hin & _ & ->)].
      * rewrite (proj1 (bi_chan _ Hb _ _ Hin)). apply (has_nul_seg_id (SegChannel id)).
      * rewrite (proj1 (bi_fn _ Hb _ _ Hin)). apply (has_nul_seg_id (SegFunction id)).
Qed.

(** A broker with client 1 registered, in a world with its reply ring, and the same
    broker after the client has published a channel. *)
Definition demo_client_seg : Segment := MkSegment "/impulse-ring.cli.5.v1" 11 512 false.
Definition demo_client_ring : Ring := MkRing demo_client_seg 0 256 255.
Definition demo_client : Broker :=
  set_replies (<[1 := demo_client_ring]> ∅) (<[1 := demo_client_seg]> ∅) ["/impulse-ring.cli.5.v1"]
    (set_reg (fst (add_client "svc" 77 new_registry)) demo_broker).

Definition demo_pub_seg : Segment := MkSegment (channel_arena 1) 12 256 true.
Definition demo_alloc : Broker := set_reg (fst (alloc_channel_id (b_reg demo_client))) demo_client.
Definition demo_pub : Broker :=
  set_reg (insert_channel (MkChannelMeta 1 "news" 1 9 None (channel_arena 1)) (b_reg demo_alloc))
    (set_arenas (<[channel_arena 1 := demo_pub_seg]> (b_arenas demo_alloc)) demo_alloc).

Definition demo_bus : world :=
  World (<[11 := formatted demo_client_ring (replicate 512 Byte.x00)]> {[7 := demo_formatted]})
    0 demo_sys [] 0 [].

Lemma demo_ids_left : ids_left (b_reg demo_broker).
Proof. by split_and!. Qed.

Lemma demo_client_inv : broker_inv demo_client.
Proof.
  exact (register_inv demo_broker demo_broker_inv demo_ids_left demo_client_ring demo_client_seg "svc" 77
           "/impulse-ring.cli.5.v1" eq_refl eq_refl).
Qed.

Lemma demo_pub_inv : broker_inv demo_pub.
Proof.
  apply (publish_inv demo_alloc); try done.
  apply set_reg_inv; try done; [apply demo_client_inv|].
  apply alloc_channel_inv; [apply demo_client_inv | done].
Qed.

Lemma demo_client_geom : ring_geom demo_client_ring.
Proof. constructor; [exists 8; split; [lia | reflexivity] | reflexivity | vm_compute; discriminate]. Qed.

Lemma demo_bus_ring : ring_has demo_client_ring demo_bus [].
Proof.
  assert (fits demo_client_ring (replicate 512 Byte.x00)) as Hf by (vm_compute; discriminate).
  exists (formatted demo_client_ring (replicate 512 Byte.x00)). split; [apply lookup_insert_eq|].
  split; [apply formatted_holds; [apply demo_client_geom | exact Hf]|].
  apply (formatted_fields _ demo_client_geom _ Hf).
Qed.

Lemma departure_exact_witness :
  channels (b_reg demo_pub) !! 1 = Some (MkChannelMeta 1 "news" 1 9 None (channel_arena 1)) /\
  exists b' w' evs, release_client 1 demo_pub demo_bus = Done (b', w') /\ broker_inv b' /\
    (forall id c, channels (b_reg b') !! id = Some c <->
       channels (b_reg demo_pub) !! id = Some c /\ ch_owner c <> 1) /\
    (forall id f, functions (b_reg b') !! id = Some f <->
       functions (b_reg demo_pub) !! id = Some f /\ fn_owner f <> 1) /\
    clients (b_reg b') = delete 1 (clients (b_reg demo_pub)) /\
    b_reply_rings b' = delete 1 (b_reply_rings demo_pub) /\
    b_reply_segs b' = delete 1 (b_reply_segs demo_pub) /\
    w_log w' = w_log demo_bus ++ evs /\
    (forall n, EvUnlink n ∈ evs <->
       (exists id c, channels (b_reg demo_pub) !! id = Some c /\ ch_owner c = 1 /\ n = ch_arena c) \/
       (exists id f, functions (b_reg demo_pub) !! id = Some f /\ fn_owner f = 1 /\ n = fn_req_arena f)).
Proof. split; [reflexivity|]. exact (departure_exact demo_pub 1 demo_bus demo_pub_inv). Defined.

(** ** Who may take a name *)

Lemma free_channel_name_refused (m : PublishChannel) (b : Broker) (w : world) (id : Z) (c : ChannelMeta) :
  chan_by_name (b_reg b) !! publish_channel m = Some id -> channels (b_reg b) !! id = Some c ->
  released (b_reg b) !! id = None -> alive_owner (w_sys w) (owner_pid (b_reg b) (ch_owner c)) = true ->
  free_channel_name m b w = Done ((b, false), w).
Proof.
  intros En Hc Hrel Ha. unfold free_channel_name.
  unfold channel_name_taken. rewrite En, bool_decide_eq_true_2 by (by eexists).
  unfold reap_if_released. rewrite En, Hrel.
  unfold dead_channel_owner. rewrite En, Hc, bind_assoc.
  erewrite bind_done by apply owner_alive_eq. by rewrite bind_ret, Ha.
Qed.

(** C30: A wanted channel name is refused exactly when a channel holds it whose publisher
    has not released it and is not known to be dead (an unknown pid counts as
    alive). Otherwise it becomes free, and the only channels that disappear are the
    released one of that name, or those of the dead owner; when it is refused nothing
    changes at all. *)
Theorem channel_name_policy (m : PublishChannel) (b : Broker) (w : world) :
  broker_inv b ->
  exists b' free w', free_channel_name m b w = Done ((b', free), w') /\ broker_inv b' /\
    (free = false <-> exists id c, channels (b_reg b) !! id = Some c /\
        ch_name c = publish_channel m /\ released (b_reg b) !! id = None /\
        alive_owner (w_sys w) (owner_pid (b_reg b) (ch_owner c)) = true) /\
    (free = true -> chan_by_name (b_reg b') !! publish_channel m = None) /\
    (free = false -> b' = b /\ w' = w) /\
    (forall id c, channels (b_reg b) !! id = Some c -> channels (b_reg b') !! id = None ->
       exists id0 c0, channels (b_reg b) !! id0 = Some c0 /\ ch_name c0 = publish_channel m /\
         ((id = id0 /\ is_Some (released (b_reg b) !! id0)) \/
          (ch_owner c = ch_owner c0 /\
           alive_owner (w_sys w) (owner_pid (b_reg b) (ch_owner c0)) = false))).
Proof.
  intros Hb. pose proof (bi_reg _ Hb) as Hr.
  destruct (free_channel_name_done m b w Hb) as (segs & w' & E & Hd).
  destruct (chan_freed_inv (w_sys w) (publish_channel m) b Hb) as (Hb' & _ & Hfree).
  exists (fst (chan_freed (w_sys w) (publish_channel m) b)),
    (snd (chan_freed (w_sys w) (publish_channel m) b)), w'.
  rewrite <- surjective_pairing. split; [done|]. split; [done|].
  revert Hfree. unfold chan_freed in *.
  destruct (chan_by_name (b_reg b) !! publish_channel m) as [id|] eqn:En.
  2:{ intros Hfree. cbn [fst snd] in *. split_and!; try done.
      - split; [done|]. intros (id & c & Hc & Ec & _).
        by destruct (proj1 (chan_name_free _ _ Hr) En id c Hc).
      - intros id c Hc Hn. congruence. }
  destruct (ri_chan_name _ Hr _ _ En) as (c & Hc & Ec). rewrite Hc in *.
  assert (forall id' c', channels (b_reg b) !! id' = Some c' -> ch_name c' = publish_channel m ->
    id' = id /\ c' = c) as Huniq.
  { intros id' c' Hc' Ec'. assert (id' = id) as -> by
      (apply (chan_name_inj _ Hr id' id c' c); [done | done | congruence]). split; [done | congruence]. }
  case_bool_decide as Hrel; [|destruct (alive_owner _ _) eqn:Ea]; cbn [fst snd] in *; intros Hfree.
  - split_and!; try done.
    + split; [done|]. intros (id' & c' & Hc' & Ec' & Hn & _).
      destruct (Huniq _ _ Hc' Ec') as [-> ->]. rewrite Hn in Hrel. by destruct Hrel.
    + intros id' c' Hc' Hn'. exists id, c. split_and!; [done..|]. left. split; [|done].
      destruct (drop_channel_spec (b_reg b) id c Hc) as (_ & Ech & _).
      cbn [set_arenas set_reg b_reg] in Hn'. rewrite Ech in Hn'.
      destruct (decide (id = id')); [done|]. rewrite lookup_delete_ne in Hn' by done. congruence.
  - split_and!; try done.
    + split; [|done]. intros _. exists id, c. split_and!; try done. by apply eq_None_not_Some.
    + intros _. split; [done|]. apply eq_None_not_Some in Hrel.
      rewrite (free_channel_name_refused m b w id c En Hc Hrel Ea) in E. by injection E as <-.
    + intros id' c' Hc' Hn'. congruence.
  - split_and!; try done.
    + split; [done|]. intros (id' & c' & Hc' & Ec' & _ & Ha').
      destruct (Huniq _ _ Hc' Ec') as [-> ->]. congruence.
    + intros id' c' Hc' Hn'. exists id, c. split_and!; [done..|]. right. split; [|done].
      destruct (departed_reg_spec (ch_owner c) (b_reg b) Hr) as (_ & Dc & _).
      destruct (decide (ch_owner c' = ch_owner c)) as [|Hne]; [done|].
      cbn [departed b_reg] in Hn'. by rewrite (proj2 (Dc id' c') (conj Hc' Hne)) in Hn'.
Qed.

Definition demo_publish : PublishChannel := MkPublishChannel 40 1 "news" (schema_for KHeartbeat) "" 0.

Lemma channel_name_policy_witness :
  exists b' free w', free_channel_name demo_publish demo_pub demo_bus = Done ((b', free), w') /\
    broker_inv b' /\
    (free = false <-> exists id c, channels (b_reg demo_pub) !! id = Some c /\
        ch_name c = publish_channel demo_publish /\ released (b_reg demo_pub) !! id = None /\
        alive_owner demo_sys (owner_pid (b_reg demo_pub) (ch_owner c)) = true) /\
    (free = true -> chan_by_name (b_reg b') !! publish_channel demo_publish = None) /\
    (free = false -> b' = demo_pub /\ w' = demo_bus) /\
    (forall id c, channels (b_reg demo_pub) !! id = Some c -> channels (b_reg b') !! id = None ->
       exists id0 c0, channels (b_reg demo_pub) !! id0 = Some c0 /\ ch_name c0 = publish_channel demo_publish /\
         ((id = id0 /\ is_Some (released (b_reg demo_pub) !! id0)) \/
          (ch_owner c = ch_owner c0 /\
           alive_owner demo_sys (owner_pid (b_reg demo_pub) (ch_owner c0)) = false))).
Proof. exact (channel_name_policy demo_publish demo_pub demo_bus demo_pub_inv). Defined.
