(* ===== verification/BrokerFlow.v ===== *)
(** * Requests of clients, end to end

    What a publish, an expose and a refused publish do, from the frame on the
    submission ring to the reply on the client's ring. *)

From S2P Require Import Prelude Machine Shm Circ Ring RingMem RingSpec RingThm Demo Frame Control Util Avro Proto Toy ProtoProps Registry RegistryThm RegistryProps Broker BrokerThm BrokerOps BrokerProps.

(** The capacity the handlers compute from a request. *)
Lemma requested_cap z : in_i 64 z -> usize (Z.max z 0) = Z.max z 0 /\ in_u 64 (Z.max z 0).
Proof. intros Hz. assert (in_u 64 (Z.max z 0)) by (unfold in_i, in_u in *; lia). by rewrite wrap_u_small. Qed.

Section flow.
Context `{ProtoSerde} `{!Sha256}.
Context (b : Broker) (w : world).
Hypothesis Hb : broker_inv b.
Hypothesis Hids : ids_left (b_reg b).

(** The client that asks, and its reply ring with the queue [q]. *)
Context (client : Z) (ring : Ring) (q : list (list byte)).
Hypothesis Hring : b_reply_rings b !! client = Some ring.
Hypothesis Hgeom : ring_geom ring.
Hypothesis Hq : ring_has ring w q.

(** There is room for the frame [rf]. *)
Definition room_for (rf : Frame) : Prop := fst (fifo_push (r_capacity ring) q (encode rf)) = true.

Lemma return_reply {T} `{!Serde T} b' kind (msg : T) rf w1 :
  b_reply_rings b' !! client = Some ring -> ring_has ring w1 q ->
  to_frame kind msg = Done (Ok rf) -> room_for rf ->
  exists w', return_in b' (reply b' client kind msg) w1 = Done ((b', Ok tt), w') /\
    ring_has ring w' (q ++ [encode rf]) /\
    ring_only ring w1 w' [EvWake (r_ptr ring) (r_base ring + OFF_DATA_SEQ) 1].
Proof using Hgeom.
  intros Hr Hq1 Hf Hroom.
  destruct (reply_ok b' client kind msg ring rf q w1 Hr Hgeom Hq1 Hf Hroom) as (w' & E & Hq' & Ho).
  exists w'. unfold return_in. by erewrite bind_done by exact E.
Qed.

(** The reply ring survives the creation of an arena. *)
Lemma ring_after_arena seg cap w1 : arena_made seg cap w w1 -> r_ptr ring <> seg_ptr seg /\ ring_has ring w1 q.
Proof using Hq.
  intros Ham. destruct Ham as [_ Hnew _ _ _ _ Hoth _ _ _ _]. destruct Hq as (bs & Hbs & Hh & Hl).
  assert (r_ptr ring <> seg_ptr seg) as Hne by (intros E; rewrite E in Hbs; congruence).
  split; [done|]. exists bs. by rewrite Hoth.
Qed.

(** The new arena survives the reply. *)
Lemma arena_after_reply seg cap w1 w2 evs :
  arena_made seg cap w w1 -> r_ptr ring <> seg_ptr seg -> ring_only ring w1 w2 evs ->
  ring_has (arena_ring seg cap) w2 [].
Proof using.
  intros [_ _ _ _ Har _ _ _ _ _ _] Hne [_ Hoth _ _ _ _ _]. eapply ring_has_mem; [exact Har|].
  apply Hoth. intros E. apply Hne. by rewrite <- E.
Qed.

(** A new arena, and the reply that tells of it. *)
Lemma arena_and_reply {T} `{!Serde T} name k b1 (b' : Segment -> Broker) kind (msg : T) rf :
  has_nul name = false -> 0 <= k <= 31 -> b_arenas b1 !! name = None ->
  shm_creates (w_sys w) name (ring_bytes (2 ^ k)) ->
  (forall seg, b_reply_rings (b' seg) = b_reply_rings b) ->
  to_frame kind msg = Done (Ok rf) -> room_for rf ->
  exists ptr w1 w' evs, let seg := MkSegment name ptr (ring_bytes (2 ^ k)) true in
    make_arena name (2 ^ k) b1 w = Done ((set_arenas (<[name := seg]> (b_arenas b1)) b1, Ok name), w1) /\
    return_in (b' seg) (reply (b' seg) client kind msg) w1 = Done ((b' seg, Ok tt), w') /\
    arena_made seg (2 ^ k) w w1 /\ r_ptr ring <> ptr /\ ring_only ring w1 w' evs /\
    ring_has ring w' (q ++ [encode rf]).
Proof using Hgeom Hq Hring.
  intros Hn Hk Hfree Hgr Hrings Hf Hroom.
  destruct (make_arena_ok name k b1 w Hn Hk Hfree Hgr) as (ptr & w1 & Em & Ham).
  set (seg := MkSegment name ptr (ring_bytes (2 ^ k)) true) in *.
  destruct (ring_after_arena seg (2 ^ k) w1 Ham) as [Hne Hq1].
  destruct (return_reply (b' seg) kind msg rf w1) as (w' & Er & Hq' & Ho); [by rewrite Hrings|done..|].
  exists ptr, w1, w'. eexists. by split_and!.
Qed.
End flow.

(** The capacity of an arena for the request [z] of a client. *)
Lemma requested_arena z : in_i 64 z -> exists k, 0 <= k <= 31 /\ clamp_arena_cap (usize (Z.max z 0)) = 2 ^ k /\
  clamp_arena_cap (Z.max z 0) = 2 ^ k.
Proof.
  intros Hz. destruct (requested_cap _ Hz) as [-> Hu]. destruct (clamp_arena_cap_pow _ Hu) as (k & Hk & ->).
  exists k. split_and!; [lia.. | done | done].
Qed.

(** The broker after a publish: its arena [seg] is made, and the channel is entered. *)
Definition published `{!Sha256} (m : PublishChannel) (fp : Z) (seg : Segment) (b : Broker) : Broker :=
  let id := next_channel (b_reg b) in
  let reg := set_next (next_client (b_reg b)) (i64 (id + 1)) (next_fn (b_reg b)) (b_reg b) in
  set_reg (insert_channel (MkChannelMeta id (publish_channel m) (publish_client_id m) fp
      (access_key_hash (publish_access_key m)) (channel_arena id)) reg)
    (set_arenas (<[channel_arena id := seg]> (b_arenas b)) (set_reg reg b)).

Lemma on_publish_done `{ProtoSerde} `{!Sha256} (b : Broker) (w : world) (frame : Frame)
    (m : PublishChannel) (s : Schema) (fp : Z) (ring : Ring) (q : list (list byte)) (rf : Frame) :
  let id := next_channel (b_reg b) in
  let cap := clamp_arena_cap (Z.max (publish_arena_cap m) 0) in
  broker_inv b -> ids_left (b_reg b) ->
  from_frame_compat frame = Done (Ok m) -> in_i 64 (publish_arena_cap m) ->
  chan_by_name (b_reg b) !! publish_channel m = None ->
  parse (publish_schema_json m) = Ok (s, fp) ->
  shm_creates (w_sys w) (channel_arena id) (ring_bytes cap) ->
  b_reply_rings b !! publish_client_id m = Some ring -> ring_geom ring -> ring_has ring w q ->
  to_frame KPublishReply (MkPublishReply (publish_correlation_id m) id (fp_to_i64 fp)
    (channel_arena id) STATUS_OK "") = Done (Ok rf) ->
  fst (fifo_push (r_capacity ring) q (encode rf)) = true ->
  exists ptr w1 w' evs, let seg := MkSegment (channel_arena id) ptr (ring_bytes cap) true in
    on_publish b frame w = Done ((published m fp seg b, Ok tt), w') /\
    arena_made seg cap w w1 /\ r_ptr ring <> ptr /\ ring_only ring w1 w' evs /\
    ring_has ring w' (q ++ [encode rf]).
Proof.
  intros id cap Hb Hids Hm Hcap Hfree Hp Hgr Hring Hgeom Hq Hrf Hroom.
  pose proof (bi_reg _ Hb) as Hr. pose proof (ri_next _ Hr) as Hnx.
  destruct (requested_arena _ Hcap) as (k & Hk & Ek & Ek').
  assert (u64 id = id) as Eid by (apply wrap_u_small; unfold in_u, id; lia).
  set (r2 := set_next (next_client (b_reg b)) (i64 (id + 1)) (next_fn (b_reg b)) (b_reg b)).
  unfold cap in *. rewrite Ek' in *.
  assert (b_arenas b !! channel_arena id = None) as Harena.
  { destruct (b_arenas b !! channel_arena id) as [s0|] eqn:E; [|done].
    destruct (proj1 (bi_arenas _ Hb (channel_arena id)) (ltac:(by eexists)))
      as [(id' & c & Hc & En)|(id' & f & Hf & En)].
    - rewrite (proj1 (bi_chan _ Hb _ _ Hc)) in En. apply channel_arena_inj in En. subst id'.
      unfold id in Hc. by rewrite next_channel_fresh in Hc.
    - rewrite (proj1 (bi_fn _ Hb _ _ Hf)) in En. by apply channel_function_arena in En. }
  destruct (arena_and_reply b w (publish_client_id m) ring q Hring Hgeom Hq (channel_arena id) k (set_reg r2 b)
    (fun seg => published m fp seg b) KPublishReply _ rf (has_nul_seg_id (SegChannel id)) Hk Harena Hgr
    (fun _ => eq_refl) Hrf Hroom) as (ptr & w1 & w' & evs & Em & Er & Hrest).
  exists ptr, w1, w', evs. cbv zeta in *. split; [|exact Hrest].
  unfold on_publish, try_in, lift. rewrite Hm. erewrite bind_done by reflexivity. cbv beta iota.
  unfold free_channel_name, channel_name_taken. rewrite Hfree.
  rewrite bool_decide_eq_false_2 by (by intros [? ?]). rewrite bind_ret. cbv beta iota. cbn [negb].
  rewrite Hp. unfold alloc_channel_id. fold id r2. rewrite Eid, Ek.
  erewrite bind_done by exact Em. cbv beta iota. exact Er.
Qed.

(** Publishing a channel: the request of a registered client for a free name, with a
    schema that parses and memory to be had, is answered with status OK. The channel
    is entered under a fresh id and its name, owned by the client, protected by the
    hash of the key it gave (or public), with the fingerprint of its schema; its
    arena exists under the name derived from the id, formatted and empty, with the
    clamped capacity; nobody else's channel or function is touched; and the reply with
    all this is the last record of the client's reply ring. *)
Theorem publish_spec `{ProtoSerde} `{!Sha256} (b : Broker) (w : world) (frame : Frame)
    (m : PublishChannel) (s : Schema) (fp : Z) (ring : Ring) (q : list (list byte)) (rf : Frame) :
  let id := next_channel (b_reg b) in
  let cap := clamp_arena_cap (Z.max (publish_arena_cap m) 0) in
  broker_inv b -> ids_left (b_reg b) ->
  from_frame_compat frame = Done (Ok m) -> in_i 64 (publish_arena_cap m) ->
  chan_by_name (b_reg b) !! publish_channel m = None ->
  parse (publish_schema_json m) = Ok (s, fp) ->
  shm_creates (w_sys w) (channel_arena id) (ring_bytes cap) ->
  b_reply_rings b !! publish_client_id m = Some ring -> ring_geom ring -> ring_has ring w q ->
  to_frame KPublishReply (MkPublishReply (publish_correlation_id m) id (fp_to_i64 fp)
    (channel_arena id) STATUS_OK "") = Done (Ok rf) ->
  fst (fifo_push (r_capacity ring) q (encode rf)) = true ->
  exists b' seg w', on_publish b frame w = Done ((b', Ok tt), w') /\ broker_inv b' /\
    channels (b_reg b') = <[id := MkChannelMeta id (publish_channel m) (publish_client_id m) fp
      (access_key_hash (publish_access_key m)) (channel_arena id)]> (channels (b_reg b)) /\
    chan_by_name (b_reg b') = <[publish_channel m := id]> (chan_by_name (b_reg b)) /\
    functions (b_reg b') = functions (b_reg b) /\ clients (b_reg b') = clients (b_reg b) /\
    b_arenas b' = <[channel_arena id := seg]> (b_arenas b) /\ seg_name seg = channel_arena id /\
    ring_geom (arena_ring seg cap) /\ ring_has (arena_ring seg cap) w' [] /\
    ring_has ring w' (q ++ [encode rf]).
Proof.
  intros id cap Hb Hids Hm Hcap Hfree Hp Hgr Hring Hgeom Hq Hrf Hroom.
  destruct (on_publish_done b w frame m s fp ring q rf Hb Hids Hm Hcap Hfree Hp Hgr Hring Hgeom Hq Hrf Hroom)
    as (ptr & w1 & w' & evs & E & Ham & Hne & Ho & Hq'). fold id cap in E, Ham.
  eexists _, (MkSegment (channel_arena id) ptr (ring_bytes cap) true), w'. split; [exact E|]. split_and!; try done.
  - exact (proj1 (on_publish_inv b Hb Hids frame w _ (Ok tt) w' E)).
  - apply Ham.
  - by eapply arena_after_reply.
Qed.

Definition no_frame : Frame := Frame.new 0 [].
Definition frame_of (o : outcome (io_result Frame)) : Frame :=
  match o with Done (Ok f) => f | _ => no_frame end.

Definition demo_publish_frame : Frame := frame_of (to_frame KPublishChannel demo_publish).
Definition demo_publish_reply : Frame :=
  frame_of (to_frame KPublishReply (MkPublishReply 40 1
    (fp_to_i64 (fp_for KHeartbeat)) (channel_arena 1) STATUS_OK "")).

Lemma demo_mmap_law : mmap_ok demo_sys.
Proof. intros size fd m ptr errno m' E _ Hs. by eapply demo_mmap_ok. Qed.

Lemma demo_grants name size : shm_grants demo_sys name size.
Proof.
  unfold shm_grants. cbn. split_and!; try done. intros m.
  pose proof (next_ptr_bounds m) as [Hb _]. unfold MAP_FAILED. lia.
Qed.

Lemma demo_creates name cap : in_u 64 cap -> shm_creates demo_sys name (ring_bytes (clamp_arena_cap cap)).
Proof.
  intros Hcap. apply grants_creates; [|exact demo_mmap_law | apply demo_grants].
  destruct (clamp_arena_cap_pow _ Hcap) as (k & Hk & ->). rewrite ring_bytes_small by lia.
  assert (0 < 2 ^ k) by (apply Z.pow_pos_nonneg; lia). unfold RING_HEADER. lia.
Qed.

Lemma publish_spec_witness :
  exists b' seg w', on_publish demo_client demo_publish_frame demo_bus = Done ((b', Ok tt), w') /\
    broker_inv b' /\
    channels (b_reg b') = <[1 := MkChannelMeta 1 "news" 1 (fp_for KHeartbeat) None (channel_arena 1)]> ∅ /\
    chan_by_name (b_reg b') = <["news" := 1]> ∅ /\
    functions (b_reg b') = ∅ /\ clients (b_reg b') = clients (b_reg demo_client) /\
    b_arenas b' = <[channel_arena 1 := seg]> ∅ /\ seg_name seg = channel_arena 1 /\
    ring_geom (arena_ring seg (2 ^ 19)) /\ ring_has (arena_ring seg (2 ^ 19)) w' [] /\
    ring_has demo_client_ring w' ([] ++ [encode demo_publish_reply]).
Proof.
  refine (publish_spec demo_client demo_bus demo_publish_frame demo_publish
    (schema_for KHeartbeat) (fp_for KHeartbeat) demo_client_ring [] demo_publish_reply
    demo_client_inv _ _ _ _ _ (demo_creates _ _ _) _ demo_client_geom demo_bus_ring _ _).
  - by split_and!.
  - vm_compute. reflexivity.
  - vm_compute. split; [discriminate | reflexivity].
  - reflexivity.
  - vm_compute. reflexivity.
  - vm_compute. split; [discriminate | reflexivity].
  - reflexivity.
  - vm_compute. reflexivity.
  - vm_compute. reflexivity.
Defined.

(** The broker after an expose: the request arena [seg] is made, and the function is entered. *)
Definition exposed `{!Sha256} (m : ExposeFunction) (qfp pfp : Z) (seg : Segment) (b : Broker) : Broker :=
  let id := next_fn (b_reg b) in
  let reg := set_next (next_client (b_reg b)) (next_channel (b_reg b)) (i64 (id + 1)) (b_reg b) in
  set_reg (insert_function (MkFunctionMeta id (expose_fn_name m) (expose_client_id m) qfp pfp
      (access_key_hash (expose_access_key m)) (function_arena id)) reg)
    (set_arenas (<[function_arena id := seg]> (b_arenas b)) (set_reg reg b)).

Lemma on_expose_done `{ProtoSerde} `{!Sha256} (b : Broker) (w : world) (frame : Frame)
    (m : ExposeFunction) (s1 s2 : Schema) (qfp pfp : Z) (ring : Ring) (q : list (list byte))
    (rf : Frame) :
  let id := next_fn (b_reg b) in
  let cap := clamp_arena_cap (Z.max (expose_req_arena_cap m) 0) in
  broker_inv b -> ids_left (b_reg b) ->
  from_frame_compat frame = Done (Ok m) -> in_i 64 (expose_req_arena_cap m) ->
  fn_by_name (b_reg b) !! expose_fn_name m = None ->
  parse (expose_req_schema_json m) = Ok (s1, qfp) ->
  parse (expose_resp_schema_json m) = Ok (s2, pfp) ->
  shm_creates (w_sys w) (function_arena id) (ring_bytes cap) ->
  b_reply_rings b !! expose_client_id m = Some ring -> ring_geom ring -> ring_has ring w q ->
  to_frame KExposeReply (MkExposeReply (expose_correlation_id m) id (fp_to_i64 qfp)
    (fp_to_i64 pfp) (function_arena id) STATUS_OK "") = Done (Ok rf) ->
  fst (fifo_push (r_capacity ring) q (encode rf)) = true ->
  exists ptr w1 w' evs, let seg := MkSegment (function_arena id) ptr (ring_bytes cap) true in
    on_expose b frame w = Done ((exposed m qfp pfp seg b, Ok tt), w') /\
    arena_made seg cap w w1 /\ r_ptr ring <> ptr /\ ring_only ring w1 w' evs /\
    ring_has ring w' (q ++ [encode rf]).
Proof.
  intros id cap Hb Hids Hm Hcap Hfree Hp1 Hp2 Hgr Hring Hgeom Hq Hrf Hroom.
  pose proof (bi_reg _ Hb) as Hr. pose proof (ri_next _ Hr) as Hnx.
  destruct (requested_arena _ Hcap) as (k & Hk & Ek & Ek').
  assert (u64 id = id) as Eid by (apply wrap_u_small; unfold in_u, id; lia).
  set (r2 := set_next (next_client (b_reg b)) (next_channel (b_reg b)) (i64 (next_fn (b_reg b) + 1)) (b_reg b)).
  unfold cap in *. rewrite Ek' in *.
  assert (b_arenas b !! function_arena id = None) as Harena.
  { destruct (b_arenas b !! function_arena id) as [s0|] eqn:E; [|done].
    destruct (proj1 (bi_arenas _ Hb (function_arena id)) (ltac:(by eexists)))
      as [(id' & c & Hc & En)|(id' & f & Hf & En)].
    - rewrite (proj1 (bi_chan _ Hb _ _ Hc)) in En. by apply eq_sym, channel_function_arena in En.
    - rewrite (proj1 (bi_fn _ Hb _ _ Hf)) in En. apply function_arena_inj in En. subst id'.
      unfold id in Hf. by rewrite next_fn_fresh in Hf. }
  destruct (arena_and_reply b w (expose_client_id m) ring q Hring Hgeom Hq (function_arena id) k (set_reg r2 b)
    (fun seg => exposed m qfp pfp seg b) KExposeReply _ rf (has_nul_seg_id (SegFunction id)) Hk Harena Hgr
    (fun _ => eq_refl) Hrf Hroom) as (ptr & w1 & w' & evs & Em & Er & Hrest).
  exists ptr, w1, w', evs. cbv zeta in *. split; [|exact Hrest].
  unfold on_expose, try_in, lift. rewrite Hm. erewrite bind_done by reflexivity. cbv beta iota.
  unfold free_function_name, function_name_taken. rewrite Hfree.
  rewrite bool_decide_eq_false_2 by (by intros [? ?]). rewrite bind_ret. cbv beta iota. cbn [negb].
  rewrite Hp1, Hp2. unfold alloc_fn_id. fold id r2. rewrite Eid, Ek.
  erewrite bind_done by exact Em. cbv beta iota. exact Er.
Qed.

(** Exposing a function: the request of a registered client for a free function name,
    with two schemas that parse and memory to be had, is answered with status OK; the
    function is entered under a fresh id and its name with both fingerprints, the hash
    of its key and the client as owner, its request arena exists formatted and empty
    with the clamped capacity, no channel and no other function is touched, and the
    reply is the last record of the client's reply ring. *)
Theorem expose_spec `{ProtoSerde} `{!Sha256} (b : Broker) (w : world) (frame : Frame)
    (m : ExposeFunction) (s1 s2 : Schema) (qfp pfp : Z) (ring : Ring) (q : list (list byte))
    (rf : Frame) :
  let id := next_fn (b_reg b) in
  let cap := clamp_arena_cap (Z.max (expose_req_arena_cap m) 0) in
  broker_inv b -> ids_left (b_reg b) ->
  from_frame_compat frame = Done (Ok m) -> in_i 64 (expose_req_arena_cap m) ->
  fn_by_name (b_reg b) !! expose_fn_name m = None ->
  parse (expose_req_schema_json m) = Ok (s1, qfp) ->
  parse (expose_resp_schema_json m) = Ok (s2, pfp) ->
  shm_creates (w_sys w) (function_arena id) (ring_bytes cap) ->
  b_reply_rings b !! expose_client_id m = Some ring -> ring_geom ring -> ring_has ring w q ->
  to_frame KExposeReply (MkExposeReply (expose_correlation_id m) id (fp_to_i64 qfp)
    (fp_to_i64 pfp) (function_arena id) STATUS_OK "") = Done (Ok rf) ->
  fst (fifo_push (r_capacity ring) q (encode rf)) = true ->
  exists b' seg w', on_expose b frame w = Done ((b', Ok tt), w') /\ broker_inv b' /\
    functions (b_reg b') = <[id := MkFunctionMeta id (expose_fn_name m) (expose_client_id m) qfp pfp
      (access_key_hash (expose_access_key m)) (function_arena id)]> (functions (b_reg b)) /\
    fn_by_name (b_reg b') = <[expose_fn_name m := id]> (fn_by_name (b_reg b)) /\
    channels (b_reg b') = channels (b_reg b) /\ clients (b_reg b') = clients (b_reg b) /\
    b_arenas b' = <[function_arena id := seg]> (b_arenas b) /\ seg_name seg = function_arena id /\
    ring_geom (arena_ring seg cap) /\ ring_has (arena_ring seg cap) w' [] /\
    ring_has ring w' (q ++ [encode rf]).
Proof.
  intros id cap Hb Hids Hm Hcap Hfree Hp1 Hp2 Hgr Hring Hgeom Hq Hrf Hroom.
  destruct (on_expose_done b w frame m s1 s2 qfp pfp ring q rf Hb Hids Hm Hcap Hfree Hp1 Hp2 Hgr Hring Hgeom Hq Hrf Hroom)
    as (ptr & w1 & w' & evs & E & Ham & Hne & Ho & Hq'). fold id cap in E, Ham.
  eexists _, (MkSegment (function_arena id) ptr (ring_bytes cap) true), w'. split; [exact E|]. split_and!; try done.
  - exact (proj1 (on_expose_inv b Hb Hids frame w _ (Ok tt) w' E)).
  - apply Ham.
  - by eapply arena_after_reply.
Qed.

Definition demo_expose : ExposeFunction :=
  MkExposeFunction 41 1 "http.web" (schema_for KHeartbeat) (schema_for KRegister) "secret" 300000.
Definition demo_expose_frame : Frame := frame_of (to_frame KExposeFunction demo_expose).
Definition demo_expose_reply : Frame :=
  frame_of (to_frame KExposeReply (MkExposeReply 41 1 (fp_to_i64 (fp_for KHeartbeat))
    (fp_to_i64 (fp_for KRegister)) (function_arena 1) STATUS_OK "")).

Lemma expose_spec_witness :
  exists b' seg w', on_expose demo_client demo_expose_frame demo_bus = Done ((b', Ok tt), w') /\
    broker_inv b' /\
    functions (b_reg b') = <[1 := MkFunctionMeta 1 "http.web" 1 (fp_for KHeartbeat) (fp_for KRegister)
      (Some (key_hash "secret")) (function_arena 1)]> ∅ /\
    fn_by_name (b_reg b') = <["http.web" := 1]> ∅ /\
    channels (b_reg b') = ∅ /\ clients (b_reg b') = clients (b_reg demo_client) /\
    b_arenas b' = <[function_arena 1 := seg]> ∅ /\ seg_name seg = function_arena 1 /\
    ring_geom (arena_ring seg (2 ^ 19)) /\ ring_has (arena_ring seg (2 ^ 19)) w' [] /\
    ring_has demo_client_ring w' ([] ++ [encode demo_expose_reply]).
Proof.
  refine (expose_spec demo_client demo_bus demo_expose_frame demo_expose
    (schema_for KHeartbeat) (schema_for KRegister) (fp_for KHeartbeat) (fp_for KRegister)
    demo_client_ring [] demo_expose_reply
    demo_client_inv _ _ _ _ _ _ (demo_creates _ _ _) _ demo_client_geom demo_bus_ring _ _).
  - by split_and!.
  - vm_compute. reflexivity.
  - vm_compute. split; [discriminate | reflexivity].
  - reflexivity.
  - vm_compute. reflexivity.
  - vm_compute. reflexivity.
  - vm_compute. split; [discriminate | reflexivity].
  - reflexivity.
  - vm_compute. reflexivity.
  - vm_compute. reflexivity.
Defined.

(** A publish of a name that somebody holds (a channel not released, whose owner is
    not known to be dead) is answered with ERR_EXISTS and changes nothing in the
    broker: the holder keeps its channel, its arena and its name. *)
Theorem publish_refused `{ProtoSerde} `{!Sha256} (b : Broker) (w : world) (frame : Frame)
    (m : PublishChannel) (id : Z) (c : ChannelMeta) (ring : Ring) (q : list (list byte)) (rf : Frame) :
  broker_inv b -> from_frame_compat frame = Done (Ok m) ->
  channels (b_reg b) !! id = Some c -> ch_name c = publish_channel m ->
  released (b_reg b) !! id = None ->
  alive_owner (w_sys w) (owner_pid (b_reg b) (ch_owner c)) = true ->
  b_reply_rings b !! publish_client_id m = Some ring -> ring_geom ring -> ring_has ring w q ->
  to_frame KPublishReply (err_publish m ERR_EXISTS "channel already exists") = Done (Ok rf) ->
  fst (fifo_push (r_capacity ring) q (encode rf)) = true ->
  exists w', on_publish b frame w = Done ((b, Ok tt), w') /\ ring_has ring w' (q ++ [encode rf]) /\
    forall p, p <> r_ptr ring -> w_mem w' !! p = w_mem w !! p.
Proof.
  intros Hb Hm Hc Ec Hrel Ha Hring Hgeom Hq Hrf Hroom.
  assert (chan_by_name (b_reg b) !! publish_channel m = Some id) as En.
  { rewrite <- Ec. by apply (ri_chan _ (bi_reg _ Hb) _ _ Hc). }
  pose proof (free_channel_name_refused m b w id c En Hc Hrel Ha) as E1.
  destruct (return_reply (publish_client_id m) ring q Hgeom b KPublishReply _ rf w Hring Hq Hrf Hroom)
    as (w' & Er & Hq' & [_ Ho _ _ _ _ _]).
  exists w'. split_and!; [|done|done].
  unfold on_publish, try_in, lift. rewrite Hm. erewrite bind_done by reflexivity. cbv beta iota.
  erewrite bind_done by exact E1. cbv beta iota. cbn [negb]. exact Er.
Qed.

Definition demo_refusal : Frame :=
  frame_of (to_frame KPublishReply (err_publish demo_publish ERR_EXISTS "channel already exists")).

Lemma publish_refused_witness :
  exists w', on_publish demo_pub demo_publish_frame demo_bus = Done ((demo_pub, Ok tt), w') /\
    ring_has demo_client_ring w' ([] ++ [encode demo_refusal]) /\
    forall p, p <> r_ptr demo_client_ring -> w_mem w' !! p = w_mem demo_bus !! p.
Proof.
  refine (publish_refused demo_pub demo_bus demo_publish_frame demo_publish 1
    (MkChannelMeta 1 "news" 1 9 None (channel_arena 1)) demo_client_ring [] demo_refusal
    demo_pub_inv _ _ _ _ _ _ demo_client_geom demo_bus_ring _ _).
  - vm_compute. reflexivity.
  - reflexivity.
  - reflexivity.
  - reflexivity.
  - reflexivity.
  - reflexivity.
  - vm_compute. reflexivity.
  - vm_compute. reflexivity.
Defined.
