(* ===== verification/BrokerStart.v ===== *)
(** * Start-up, the singleton guard, and shutdown *)

From S2P Require Import Prelude Machine Shm Circ Ring RingMem RingSpec RingThm Demo Frame Control Util Avro Proto Registry RegistryThm RegistryProps Broker BrokerThm BrokerOps BrokerProps BrokerFlow.

(** Mapping a segment logs nothing but the closed descriptor. *)
Definition no_unlink_since (w w' : world) : Prop :=
  exists evs, w_log w' = w_log w ++ evs /\ forall n, ~ (EvUnlink n ∈ evs).

Lemma no_unlink_refl w : no_unlink_since w w.
Proof. exists []. rewrite app_nil_r. split; [done|]. intros n ?%elem_of_nil. done. Qed.

Lemma no_unlink_trans w1 w2 w3 :
  no_unlink_since w1 w2 -> no_unlink_since w2 w3 -> no_unlink_since w1 w3.
Proof.
  intros (e1 & E1 & H1) (e2 & E2 & H2). exists (e1 ++ e2). split; [by rewrite E2, E1, app_assoc|].
  intros n [H|H]%elem_of_app; [by eapply H1 | by eapply H2].
Qed.

Lemma open_quiet name w r w' : open name w = Done (r, w') -> no_unlink_since w w'.
Proof.
  unfold open. destruct (has_nul name); [intros [= <- <-]; apply no_unlink_refl|].
  unfold bind at 1, get_sys. destruct (sys_shm_open _ _ _ _) as [fd errno].
  destruct (fd <? 0); [intros [= <- <-]; apply no_unlink_refl|].
  intros E. apply bind_done_inv in E as (res & w1 & E1 & E).
  assert (w_log w1 = w_log w) as L1.
  { unfold open_mapped, bind, get_sys in E1. destruct (sys_fstat (w_sys w) fd) as [[r0 e0] sz].
    destruct (r0 <? 0); [by injection E1 as <- <-|].
    destruct (usize sz =? 0); [by injection E1 as <- <-|].
    unfold bind_io, bind, mmap_fd in E1. destruct (sys_mmap _ _ _ _) as [[ptr e] m'].
    destruct (bool_decide _); by injection E1 as <- <-. }
  unfold bind, log_event in E. exists [EvClose fd].
  split; [|intros n H; by apply list_elem_of_singleton in H].
  rewrite <- L1. destruct res as [[ptr sz]|e]; by injection E as <- <-.
Qed.

(** A refused start unlinks nothing. *)
Lemma attach_control_same seg w r w' : attach_control seg w = Done (r, w') -> w' = w.
Proof.
  unfold attach_control, attach. intros E.
  repeat match goal with
  | H : bind (_ _ _) _ _ = Done _ |- _ =>
      apply bind_done_inv in H as (? & ? & H1%load_same & H); subst
  | H : (if ?b then _ else _) _ = Done _ |- _ => destruct b
  | H : ret _ _ = Done _ |- _ => by injection H as <- <-
  end.
Qed.

Lemma drop_opened_quiet seg w w' :
  owns_unlink seg = false -> drop_segment seg w = Done (tt, w') -> no_unlink_since w w'.
Proof.
  intros Ho E. destruct (drop_segment_done seg w) as (w1 & E1 & [_ _ _ _ _ L]). rewrite E1 in E.
  injection E as <-. exists (drop_events seg). split; [done|]. unfold drop_events. rewrite Ho. cbn [andb].
  intros n Hn. by apply list_elem_of_singleton in Hn.
Qed.

Lemma guard_refused_quiet w w' :
  guard_singleton w = Done (Err AlreadyRunning, w') -> no_unlink_since w w'.
Proof.
  unfold guard_singleton. intros E. apply bind_done_inv in E as (r & w1 & Eo & E).
  destruct r as [seg|e].
  - apply bind_done_inv in E as (a & w2 & Ea & E). apply attach_control_same in Ea as ->.
    apply bind_done_inv in E as (live & w3 & El & E). apply bind_done_inv in E as ([] & w4 & Ed & E).
    assert (w3 = w1) as ->.
    { destruct a as [r|e]; [|by injection El as _ <-].
      apply bind_done_inv in El as (pid & w5 & Ep & El). rewrite pid_alive_eq in El. injection El as _ <-.
      unfold broker_pid in Ep. apply bind_done_inv in Ep as (v & w6 & Ep%load_same & [= _ <-]). done. }
    assert (w' = w4) as ->.
    { destruct live; [by injection E as <-|].
      apply bind_done_inv in E as (u & w5 & _ & [= ? _]). }
    eapply no_unlink_trans; [by eapply open_quiet|]. eapply drop_opened_quiet; [|exact Ed].
    by eapply open_owns.
  - eapply no_unlink_trans; [by eapply open_quiet|].
    destruct (bool_decide _); [done|]. destruct (bool_decide _); [|done].
    injection E as <-. apply no_unlink_refl.
Qed.

Lemma start_refused_quiet w w' : start w = Done (Err AlreadyRunning, w') -> no_unlink_since w w'.
Proof.
  unfold start. intros E. apply bind_done_inv in E as ([[]|e] & w1 & Eg & E).
  - exfalso. apply bind_done_inv in E as ([] & w2 & _ & E). apply bind_done_inv in E as ([seg|e] & w3 & _ & E);
      [|discriminate E].
    apply bind_done_inv in E as (s & w4 & _ & E). apply bind_done_inv in E as ([sub|e] & w5 & _ & E); [discriminate E|].
    apply bind_done_inv in E as ([] & w6 & _ & E). discriminate E.
  - injection E as -> <-. by apply guard_refused_quiet.
Qed.

(** A start that finds the segment of a live broker, or one of another user, is refused. *)
Lemma live_broker_refuses (w w1 : world) seg pid epoch :
  open CONTROL_SEGMENT w = Done (Ok seg, w1) ->
  ctl_ready seg w1 pid epoch -> in_i 32 pid -> seg_len seg < 2 ^ 64 ->
  proc_alive (w_sys w1) pid = true ->
  exists w', start w = Done (Err AlreadyRunning, w') /\ no_unlink_since w w' /\
    w_mem w' = delete (seg_ptr seg) (w_mem w1).
Proof.
  intros Eo Hready Hpid Hlen Hlive.
  destruct (ctl_ready_reads seg w1 pid epoch Hready Hpid Hlen) as (Ea & Ep & _).
  destruct (open_owns _ _ _ _ Eo) as [Hown _].
  destruct (drop_segment_done seg w1) as (w2 & Ed & Hd).
  unfold drop_events in Hd. rewrite Hown in Hd. cbn [andb] in Hd.
  exists w2. split_and!.
  + unfold start. rewrite (bind_done _ _ (Err AlreadyRunning) w w2); [done|].
    unfold guard_singleton. erewrite bind_done by exact Eo. cbv beta iota.
    erewrite bind_done by exact Ea. cbv beta iota.
    erewrite bind_done by (erewrite bind_done by exact Ep; apply pid_alive_eq).
    erewrite bind_done by exact Ed. by rewrite Hlive.
  + eapply no_unlink_trans; [by eapply open_quiet|].
    exists [EvMunmap (seg_ptr seg) (seg_len seg)]. split; [apply Hd|].
    intros n H. by apply list_elem_of_singleton in H.
  + apply Hd.
Qed.

Lemma foreign_segment_refuses (w w1 : world) e :
  open CONTROL_SEGMENT w = Done (Err e, w1) ->
  err_kind e <> NotFound -> err_raw e = Some EACCES ->
  start w = Done (Err AlreadyRunning, w1) /\ no_unlink_since w w1.
Proof.
  intros Eo Hk Hr. split; [|by eapply open_quiet].
  unfold start. rewrite (bind_done _ _ (Err AlreadyRunning) w w1); [done|].
  unfold guard_singleton. erewrite bind_done by exact Eo. cbv beta iota.
  rewrite bool_decide_eq_false_2 by done. by rewrite bool_decide_eq_true_2.
Qed.

(** C20: Two brokers never fight over the bus: when a live broker owns the control segment
    (the segment opens, its superblock is ready, and the recorded process exists), or
    when the segment belongs to another user, starting a second broker reports
    [AlreadyRunning], unlinks nothing, and leaves all memory as it was except for its
    own mapping, which is gone again. *)
Theorem start_respects_live_broker (w : world) :
  (forall seg w1 pid epoch, open CONTROL_SEGMENT w = Done (Ok seg, w1) ->
     ctl_ready seg w1 pid epoch -> in_i 32 pid -> seg_len seg < 2 ^ 64 ->
     proc_alive (w_sys w1) pid = true ->
     exists w', start w = Done (Err AlreadyRunning, w') /\ no_unlink_since w w' /\
       w_mem w' = delete (seg_ptr seg) (w_mem w1)) /\
  (forall e w1, open CONTROL_SEGMENT w = Done (Err e, w1) ->
     err_kind e <> NotFound -> err_raw e = Some EACCES ->
     start w = Done (Err AlreadyRunning, w1) /\ no_unlink_since w w1).
Proof.
  split; [intros *; apply live_broker_refuses | intros *; apply foreign_segment_refuses].
Qed.

(** A system on which the control segment is the one of broker 4242, which is alive. *)
Definition live_seg : Segment := MkSegment CONTROL_SEGMENT 9001 262400 false.
Definition live_bytes : list byte :=
  superblocked (formatted (submission_ring live_seg) (replicate (Z.to_nat 262400) Byte.x00)) 4242 1000.
Definition live_sys : sys := Sys
  (fun _ _ _ => (3, 0)) (fun _ _ => (0, 0)) (fun _ _ => (0, 0)) (fun _ => (0, 0, 262400))
  (fun _ _ m => (9001, 0, <[9001 := live_bytes]> m)) (fun _ => (0, 0)) (fun _ => Ok [])
  (fun _ _ => (0, 0)) 555 (Some 2000) (fun _ => Ok (le_bytes 8 0)) (fun _ => "error").
Definition live_world : world := World ∅ 0 live_sys [] 0 [].
Definition live_opened : world := World {[9001 := live_bytes]} 0 live_sys [] 0 [EvClose 3].

Lemma live_block : exists b0, live_bytes = superblocked b0 4242 1000 /\ blen b0 = 262400 /\
  fits (submission_ring live_seg) b0 /\ fget (submission_ring live_seg) b0 FMagic = MAGIC /\
  fget (submission_ring live_seg) b0 FCap = SUBMISSION_CAP.
Proof.
  pose proof (submission_geom live_seg) as Hg. set (z := replicate (Z.to_nat 262400) Byte.x00).
  assert (blen z = 262400) as Hz by (unfold blen, z; rewrite length_replicate; exact (Z2Nat.id 262400 ltac:(lia))).
  assert (live_bytes = superblocked (formatted (submission_ring live_seg) z) 4242 1000) as El by exact eq_refl.
  clearbody z.
  assert (fits (submission_ring live_seg) z) as Hf.
  { change (64 + 192 + 262144 <= blen z). rewrite Hz. lia. }
  destruct (formatted_fields _ Hg z Hf) as (_ & _ & _ & Hc & Hm & Hf0).
  set (b0 := formatted (submission_ring live_seg) z) in *.
  assert (blen b0 = 262400) as Hb0.
  { unfold b0, formatted. rewrite !(blen_fset _ Hg) by (repeat apply (fits_fset _ Hg); exact Hf). exact Hz. }
  exists b0. by split_and!.
Qed.

Lemma live_ready : ctl_ready live_seg live_opened 4242 1000.
Proof.
  destruct live_block as (b0 & E & Hb0 & Hf0 & Hm & Hc).
  assert (64 <= blen b0) as H64 by lia.
  exists live_bytes. rewrite E. split_and!.
  - rewrite <- E. apply lookup_singleton_eq.
  - rewrite blen_superblocked by exact H64. exact Hb0.
  - apply superblocked_superblock; [exact H64 | vm_compute; split; [discriminate | reflexivity]].
  - unfold fits. rewrite blen_superblocked by exact H64. exact Hf0.
  - unfold fget. rewrite sub_superblocked; [exact Hm | exact H64 | vm_compute; discriminate].
  - unfold fget. rewrite sub_superblocked; [exact Hc | exact H64 | vm_compute; discriminate].
Qed.

Lemma live_open : open CONTROL_SEGMENT live_world = Done (Ok live_seg, live_opened).
Proof. reflexivity. Qed.

Lemma start_respects_live_broker_witness :
  exists w', start live_world = Done (Err AlreadyRunning, w') /\ no_unlink_since live_world w' /\
    w_mem w' = delete 9001 (w_mem live_opened).
Proof.
  refine (proj1 (start_respects_live_broker live_world) live_seg live_opened 4242 1000
            live_open live_ready _ _ _).
  - vm_compute. split; [discriminate | reflexivity].
  - vm_compute. reflexivity.
  - vm_compute. reflexivity.
Defined.

(** ** Cleaning up and coming up *)

Lemma unlink_all_done names w :
  exists w', unlink_all names w = Done (tt, w') /\
    world_dropped [] (concat ((fun n => if has_nul n then [] else [EvUnlink n]) <$> names)) w w'.
Proof.
  revert w. induction names as [|n names IH]; intros w.
  - exists w. split; [done|]. apply world_dropped_nil.
  - cbn [unlink_all]. destruct (unlink_done n w) as (r & w1 & E1 & H1).
    destruct (IH w1) as (w2 & E2 & H2). exists w2. erewrite bind_done by exact E1.
    split; [done|]. rewrite fmap_cons. cbn [concat]. by apply (world_dropped_app [] _ [] _ w w1 w2).
Qed.

Lemma unlinked_in names n :
  n ∈ names -> has_nul n = false ->
  EvUnlink n ∈ concat ((fun n => if has_nul n then [] else [EvUnlink n]) <$> names).
Proof.
  intros Hn H0. induction names as [|n' names IH]; [by apply elem_of_nil in Hn|].
  rewrite fmap_cons. cbn [concat]. apply elem_of_app. apply elem_of_cons in Hn as [->|Hn].
  - left. rewrite H0. by left.
  - right. by apply IH.
Qed.

Definition stale_names (s : sys) : list string :=
  match sys_read_dir s SHM_DIR with
  | Err _ => []
  | Ok entries => (fun f => "/" +:+ f) <$> filter (fun f => str_prefix NAME_PREFIX f = true) entries
  end.

Lemma cleanup_stale_done w :
  exists w', cleanup_stale w = Done (tt, w') /\
    world_dropped [] (concat ((fun n => if has_nul n then [] else [EvUnlink n]) <$>
      stale_names (w_sys w))) w w'.
Proof.
  unfold cleanup_stale, list_segments, stale_names. rewrite bind_assoc. unfold bind at 1, get_sys.
  destruct (sys_read_dir (w_sys w) SHM_DIR) as [entries|errno].
  - rewrite bind_ret. apply unlink_all_done.
  - exists w. split; [done|]. apply world_dropped_nil.
Qed.

(** When the guard finds no live broker and the system grants the memory, the broker
    comes up: every stale segment of a previous run has been unlinked, the control
    segment is ready for connectors (they attach the broker's own submission ring and
    read its pid and start time), the ring is empty, and the broker's state satisfies
    its invariant. *)
Lemma start_comes_up (w w1 : world) :
  guard_singleton w = Done (Ok tt, w1) ->
  mmap_ok (w_sys w1) -> shm_grants (w_sys w1) CONTROL_SEGMENT control_segment_bytes ->
  exists b w', start w = Done (Ok b, w') /\ broker_inv b /\ b_reg b = new_registry /\
    (forall n, n ∈ stale_names (w_sys w1) -> has_nul n = false -> EvUnlink n ∈ w_log w') /\
    ring_has (b_submission b) w' [] /\
    attach_control (b_control_seg b) w' = Done (Ok (b_submission b), w') /\
    broker_pid (b_control_seg b) w' = Done (i32 (sys_getpid (w_sys w1)), w') /\
    broker_epoch (b_control_seg b) w' =
      Done (match sys_realtime (w_sys w1) with Some d => u64 d | None => 0 end, w') /\
    seg_name (b_control_seg b) = CONTROL_SEGMENT /\ owns_unlink (b_control_seg b) = true.
Proof.
  intros Eg Hm Hs.
  destruct (cleanup_stale_done w1) as (w2 & E2 & [M2 _ S2 _ _ L2]).
  rewrite <- S2 in Hm, Hs.
  destruct (create_ok CONTROL_SEGMENT control_segment_bytes w2 eq_refl ltac:(vm_compute; discriminate) Hm Hs)
    as (ptr & w3 & E3 & [_ _ _ (bs & Hbs & Hl) _ _ S3 _ _ (fd & L3)]).
  set (seg := MkSegment CONTROL_SEGMENT ptr control_segment_bytes true) in *.
  set (pid := i32 (sys_getpid (w_sys w1))).
  set (epoch := match sys_realtime (w_sys w1) with Some d => u64 d | None => 0 end).
  assert (control_segment_bytes <= seg_len seg < 2 ^ 64) as Hlen
    by (vm_compute; split; [discriminate | reflexivity]).
  pose proof (format_control_eq seg w3 bs pid epoch Hbs Hl Hlen) as E4.
  set (w4 := upd_block _ _ w3) in *.
  assert (in_i 32 pid) as Hpid by (by apply wrap_i_range).
  assert (in_u 64 epoch) as Hep.
  { unfold epoch. destruct (sys_realtime _); [by apply wrap_u_range | vm_compute; split; [discriminate | reflexivity]]. }
  destruct (superblocked_keeps seg w3 bs pid epoch [] Hbs Hl Hlen Hpid Hep) as (wb & Er & Ea & Ep & Ee).
  injection Er as <-. fold w4 in Ea, Ep, Ee.
  assert (fits (submission_ring seg) bs) as Hf.
  { change (64 + 192 + 262144 <= blen bs). rewrite Hl. vm_compute. discriminate. }
  exists (MkBroker seg (submission_ring seg) new_registry ∅ ∅ ∅ []), w4. split_and!; try done.
  - unfold start. erewrite bind_done by exact Eg. cbv beta iota.
    erewrite bind_done by exact E2. erewrite bind_done by exact E3. cbv beta iota.
    erewrite bind_done by reflexivity. rewrite S3, S2. fold pid epoch.
    by erewrite bind_done by exact E4.
  - constructor; simpl.
    + apply new_registry_inv.
    + by intros.
    + by intros.
    + intros n. split; [by intros [? ?]|]. by intros [(? & ? & ? & _)|(? & ? & ? & _)].
    + by intros.
    + intros id. split; by intros [? ?].
    + done.
    + by intros.
  - intros n Hn H0. change (w_log w4) with (w_log w3). rewrite L3, L2.
    apply elem_of_app. left. apply elem_of_app. right. by apply unlinked_in.
  - by apply superblocked_has.
Qed.

(** A bus with a segment of the right name that holds no broker. *)
Definition guard_ok (o : outcome (result unit StartError * world)) : bool :=
  match o with Done (Ok tt, _) => true | _ => false end.
Definition guarded (ticks : list tick) : world :=
  match guard_singleton (demo_world ticks) with Done (_, w) => w | _ => demo_world ticks end.

Lemma guarded_eq ticks :
  guard_singleton (demo_world ticks) = Done (Ok tt, guarded ticks) /\ w_sys (guarded ticks) = demo_sys.
Proof.
  assert (guard_ok (guard_singleton (demo_world ticks)) = true) as Hg by (vm_compute; reflexivity).
  unfold guarded.
  assert (w_sys (guarded ticks) = demo_sys) as Hs by reflexivity. unfold guarded in Hs.
  destruct (guard_singleton (demo_world ticks)) as [[[[]|e] w1]| | |]; try discriminate Hg. done.
Qed.

Lemma start_comes_up_witness :
  exists b w', start (demo_world []) = Done (Ok b, w') /\ broker_inv b /\ b_reg b = new_registry /\
    (forall n, n ∈ stale_names (w_sys (guarded [])) -> has_nul n = false -> EvUnlink n ∈ w_log w') /\
    ring_has (b_submission b) w' [] /\
    attach_control (b_control_seg b) w' = Done (Ok (b_submission b), w') /\
    broker_pid (b_control_seg b) w' = Done (i32 (sys_getpid (w_sys (guarded []))), w') /\
    broker_epoch (b_control_seg b) w' =
      Done (match sys_realtime (w_sys (guarded [])) with Some d => u64 d | None => 0 end, w') /\
    seg_name (b_control_seg b) = CONTROL_SEGMENT /\ owns_unlink (b_control_seg b) = true.
Proof.
  refine (start_comes_up (demo_world []) (guarded []) (proj1 (guarded_eq [])) _ _).
  - rewrite (proj2 (guarded_eq [])). exact demo_mmap_law.
  - rewrite (proj2 (guarded_eq [])). apply demo_grants.
Defined.

(** ** Shutdown *)

Lemma drop_segments_done segs w :
  exists w', drop_segments segs w = Done (tt, w') /\ drops_of segs w w'.
Proof.
  revert w. induction segs as [|s segs IH]; intros w.
  - exists w. split; [done|]. apply drops_of_nil.
  - cbn [drop_segments]. destruct (drop_segment_done s w) as (w1 & E1 & H1).
    destruct (IH w1) as (w2 & E2 & H2). exists w2. erewrite bind_done by exact E1.
    split; [done|]. apply (drops_of_app [s] segs w w1 w2); [by apply drops_of_one | done].
Qed.

(** Shutdown leaves nothing behind: dropping the broker unlinks the control segment it
    created, every arena it keeps, and the reply segment of every client that ever
    registered, and it does so whatever the individual calls return. *)
Lemma drop_broker_unlinks (b : Broker) (w : world) :
  broker_inv b -> owns_unlink (b_control_seg b) = true ->
  exists w' evs, drop_broker b w = Done (tt, w') /\ w_log w' = w_log w ++ evs /\
    (has_nul (seg_name (b_control_seg b)) = false -> EvUnlink (seg_name (b_control_seg b)) ∈ evs) /\
    (forall n, is_Some (b_arenas b !! n) -> EvUnlink n ∈ evs) /\
    (forall n, n ∈ b_reply_names b -> has_nul n = false -> EvUnlink n ∈ evs).
Proof.
  intros Hb Ho.
  destruct (unlink_all_done (b_reply_names b) w) as (w1 & E1 & [_ _ _ _ _ L1]).
  destruct (drop_segment_done (b_control_seg b) w1) as (w2 & E2 & [_ _ _ _ _ L2]).
  destruct (drop_segments_done (snd <$> map_to_list (b_reply_segs b)) w2) as (w3 & E3 & [_ _ _ _ _ L3]).
  destruct (drop_segments_done (snd <$> map_to_list (b_arenas b)) w3) as (w4 & E4 & [_ _ _ _ _ L4]).
  exists w4. eexists. split_and!.
  - unfold drop_broker. erewrite bind_done by exact E1. erewrite bind_done by exact E2.
    erewrite bind_done by exact E3. exact E4.
  - rewrite L4, L3, L2, L1. by rewrite <- !app_assoc.
  - intros H0. apply elem_of_app. right. apply elem_of_app. left. by apply unlink_in_drop.
  - intros n [s Hs]. do 3 (apply elem_of_app; right). apply unlink_in_drops. exists s.
    destruct (bi_segs _ Hb _ _ Hs) as [En Eo]. split_and!; try done.
    + apply list_elem_of_fmap. exists (n, s). split; [done|]. by apply elem_of_map_to_list.
    + destruct (proj1 (bi_arenas _ Hb n) ltac:(by eexists)) as [(id & c & Hc & ->)|(id & f & Hf & ->)].
      * rewrite (proj1 (bi_chan _ Hb _ _ Hc)). apply (has_nul_seg_id (SegChannel id)).
      * rewrite (proj1 (bi_fn _ Hb _ _ Hf)). apply (has_nul_seg_id (SegFunction id)).
  - intros n Hn H0. apply elem_of_app. left. by apply unlinked_in.
Qed.
