(* ===== verification/BrokerSafe.v ===== *)
(** * No message makes the broker panic

    A panic-freedom logic for [prog], and its application to the handlers and the
    control loop. *)

From S2P Require Import Prelude Machine Shm Ring Frame Control Util Avro Proto Toy ProtoProps Registry Broker BrokerProps.

Definition no_panic {A} (p : prog A) : Prop := forall w msg, p w <> Panicked msg.

Create HintDb nopanic discriminated.

Lemma np_ret {A} (a : A) : no_panic (ret a).
Proof. done. Qed.

Lemma np_starved {A} : no_panic (A := A) (fun _ => Starved).
Proof. done. Qed.

Lemma np_bind {A B} (p : prog A) (f : A -> prog B) :
  no_panic p -> (forall a, no_panic (f a)) -> no_panic (bind p f).
Proof.
  intros Hp Hf w msg. unfold bind. specialize (Hp w). destruct (p w) as [[a w1]|m| |]; try done.
  - apply Hf.
  - intros [= ->]. by destruct (Hp msg).
Qed.

Lemma np_bind_io {A B} (p : prog (io_result A)) (f : A -> prog (io_result B)) :
  no_panic p -> (forall a, no_panic (f a)) -> no_panic (bind_io p f).
Proof. intros Hp Hf. apply np_bind; [done|]. intros [a|e]; [apply Hf | apply np_ret]. Qed.

Lemma np_lift {A} (o : outcome A) : (forall msg, o <> Panicked msg) -> no_panic (lift o).
Proof. intros H w msg. unfold lift. specialize (H msg). destruct o; congruence. Qed.

Lemma np_try_in {A B} b (p : prog (io_result A)) (f : A -> handler B) :
  no_panic p -> (forall a, no_panic (f a)) -> no_panic (try_in b p f).
Proof. intros Hp Hf. apply np_bind; [done|]. intros [a|e]; [apply Hf | apply np_ret]. Qed.

Lemma np_return_in {A} b (p : prog (io_result A)) : no_panic p -> no_panic (return_in b p).
Proof. intros Hp. apply np_bind; [done|]. intros r. apply np_ret. Qed.

Lemma np_world {A} (p : prog A) (f : world -> prog A) :
  (forall w, no_panic (f w)) -> (forall w, p w = f w w) -> no_panic p.
Proof. intros Hf E w msg. rewrite E. apply Hf. Qed.

(** One step of the logic. *)
Ltac np_step :=
  lazymatch goal with
  | |- no_panic (bind_io _ _) => apply np_bind_io; [|intros ?]
  | |- no_panic (try_in _ _ _) => apply np_try_in; [|intros ?]
  | |- no_panic (return_in _ _) => apply np_return_in
  | |- no_panic (bind _ _) => apply np_bind; [|intros ?]
  | |- no_panic (ret _) => apply np_ret
  | |- no_panic (fun _ => Starved) => apply np_starved
  | |- no_panic (if ?b then _ else _) => destruct b
  | |- no_panic (match ?x with _ => _ end) => destruct x
  | |- no_panic (let _ := _ in _) => cbv zeta
  | |- no_panic _ => solve [eauto with nopanic]
  end.
Ltac np := repeat np_step.

(** ** The machine and the segments *)

Lemma np_get_sys : no_panic get_sys. Proof. done. Qed.
Lemma np_now : no_panic now. Proof. done. Qed.
Lemma np_log e : no_panic (log_event e). Proof. done. Qed.
Lemma np_munmap p l : no_panic (munmap p l). Proof. done. Qed.
Lemma np_yield : no_panic yield.
Proof. intros w msg. unfold yield. by destruct (w_ticks w). Qed.
Lemma np_read p o n : no_panic (read_bytes p o n).
Proof. intros w msg. unfold read_bytes. destruct (w_mem w !! p); [|done]. by destruct (in_range _ _ _). Qed.
Lemma np_write p o bs : no_panic (write_bytes p o bs).
Proof. intros w msg. unfold write_bytes. destruct (w_mem w !! p); [|done]. by destruct (in_range _ _ _). Qed.

#[export] Hint Resolve np_get_sys np_now np_log np_munmap np_yield np_read np_write np_ret : nopanic.

Lemma np_load n p o : no_panic (load n p o).
Proof. unfold load. np. Qed.
Lemma np_store n p o v : no_panic (store n p o v).
Proof. unfold store. np. Qed.
Lemma np_fail_os {A} e : no_panic (fail_os (A := A) e).
Proof. unfold fail_os, last_os_error. np. Qed.
#[export] Hint Resolve np_load np_store np_fail_os : nopanic.

Lemma np_load32 p o : no_panic (load_u32 p o). Proof. apply np_load. Qed.
Lemma np_load64 p o : no_panic (load_u64 p o). Proof. apply np_load. Qed.
Lemma np_store32 p o v : no_panic (store_u32 p o v). Proof. apply np_store. Qed.
Lemma np_store64 p o v : no_panic (store_u64 p o v). Proof. apply np_store. Qed.
#[export] Hint Resolve np_load32 np_load64 np_store32 np_store64 : nopanic.

Lemma np_mmap size fd : no_panic (mmap_fd size fd).
Proof.
  intros w msg. unfold mmap_fd. destruct (sys_mmap _ _ _ _) as [[ptr e] m].
  destruct (bool_decide _); done.
Qed.
#[export] Hint Resolve np_mmap : nopanic.

Lemma np_create name size : no_panic (create name size).
Proof. unfold create, create_mapped. np. Qed.
Lemma np_open name : no_panic (open name).
Proof. unfold open, open_mapped. np. Qed.
Lemma np_unlink name : no_panic (unlink name).
Proof. unfold unlink. np. Qed.
#[export] Hint Resolve np_create np_open np_unlink : nopanic.
Lemma np_drop s : no_panic (drop_segment s).
Proof. unfold drop_segment. np. Qed.
Lemma np_pid_alive pid : no_panic (pid_alive pid).
Proof. unfold pid_alive. np. Qed.
#[export] Hint Resolve np_drop np_pid_alive : nopanic.

(** ** The ring *)

Lemma np_futex_wait p o e : no_panic (futex_wait p o e).
Proof. unfold futex_wait. np. Qed.
Lemma np_futex_wake p o n : no_panic (futex_wake p o n).
Proof. unfold futex_wake. np. Qed.
#[export] Hint Resolve np_futex_wait np_futex_wake : nopanic.

Lemma np_cas p o a b : no_panic (cas_u32 p o a b).
Proof. unfold cas_u32. np. Qed.
Lemma np_swap p o v : no_panic (swap_u32 p o v).
Proof. unfold swap_u32. np. Qed.
Lemma np_fetch_add p o v : no_panic (fetch_add_u32 p o v).
Proof. unfold fetch_add_u32. np. Qed.
#[export] Hint Resolve np_cas np_swap np_fetch_add : nopanic.

Lemma np_write_wrapped r pos src : no_panic (write_wrapped r pos src).
Proof. unfold write_wrapped. np. Qed.
Lemma np_read_wrapped r pos n : no_panic (read_wrapped r pos n).
Proof. unfold read_wrapped. np. Qed.
#[export] Hint Resolve np_write_wrapped np_read_wrapped : nopanic.

Lemma np_lock_loop n r : no_panic (lock_loop n r).
Proof. induction n as [|n IH]; cbn [lock_loop]; np. Qed.
Lemma np_lock r : no_panic (lock_producer r).
Proof.
  unfold lock_producer. np.
  apply (np_world _ (fun w => lock_loop (S (length (w_ticks w))) r)); [intros; apply np_lock_loop | done].
Qed.
Lemma np_unlock r : no_panic (unlock_producer r).
Proof. unfold unlock_producer. np. Qed.
Lemma np_push_locked r d : no_panic (push_locked r d).
Proof. unfold push_locked. np. Qed.
Lemma np_signal r : no_panic (signal_data r).
Proof. unfold signal_data. np. Qed.
#[export] Hint Resolve np_lock np_unlock np_push_locked np_signal : nopanic.

Lemma np_push_loop n r d dl : no_panic (push_loop n r d dl).
Proof. induction n as [|n IH]; cbn [push_loop]; np. Qed.
Lemma np_push r d t : no_panic (push_blocking r d t).
Proof.
  unfold push_blocking. np.
  apply (np_world _ (fun w => push_loop (S (length (w_ticks w))) r d ((fun d => a + d) <$> t)));
    [intros; apply np_push_loop | done].
Qed.
Lemma np_try_pop r : no_panic (try_pop r).
Proof. unfold try_pop. np. Qed.
#[export] Hint Resolve np_push np_try_pop : nopanic.
Lemma np_spin n r : no_panic (spin_pop n r).
Proof. induction n as [|n IH]; cbn [spin_pop]; np. Qed.
#[export] Hint Resolve np_spin : nopanic.
Lemma np_pop_loop n r dl : no_panic (pop_loop n r dl).
Proof. induction n as [|n IH]; cbn [pop_loop]; np. Qed.
Lemma np_pop r t : no_panic (pop_blocking r t).
Proof.
  unfold pop_blocking. np.
  apply (np_world _ (fun w => pop_loop (S (length (w_ticks w))) r ((fun d => a + d) <$> t)));
    [intros; apply np_pop_loop | done].
Qed.
Lemma np_attach seg base : no_panic (attach seg base).
Proof. unfold attach. np. Qed.
#[export] Hint Resolve np_pop np_attach : nopanic.

(** Formatting asserts its preconditions, which the clamp establishes. *)
Lemma np_format seg cap :
  is_power_of_two cap = true -> no_panic (format seg 0 cap).
Proof. intros Hc. unfold format. rewrite Hc. change (0 mod 64 =? 0) with true. cbn [negb]. np. Qed.

Lemma clamp_is_power n : is_power_of_two (clamp_arena_cap (usize n)) = true.
Proof.
  destruct (clamp_arena_cap_pow (usize n) (wrap_u_range 64 n ltac:(lia))) as (k & Hk & ->).
  apply is_power_of_two_spec. exists k. split; [lia | done].
Qed.

(** ** The handlers *)

Section handlers.
Context `{ProtoSerde} `{!Sha256}.
Context (c : Catalog).
Hypothesis Hc : catalog = Done c.

Lemma np_from_frame {T} `{!Serde T} k f : no_panic (lift (from_frame (T := T) k f)).
Proof using Hc.
  apply np_lift. intros msg. unfold from_frame. rewrite Hc. cbn [obind].
  destruct (schema_total c k Hc) as (s & fp & -> & _). done.
Qed.

Lemma np_from_frame_compat {T} `{!Serde T} f : no_panic (lift (from_frame_compat (T := T) f)).
Proof using Hc.
  apply np_lift. intros msg. unfold from_frame_compat. rewrite Hc. cbn [obind].
  by destruct (writer_schema c (schema_fp f)).
Qed.

Lemma np_to_frame {T} `{!Serde T} k (m : T) : no_panic (lift (to_frame k m)).
Proof using Hc.
  apply np_lift. intros msg. unfold to_frame. rewrite Hc. cbn [obind].
  destruct (schema_total c k Hc) as (s & fp & -> & ->). cbn [obind].
  by destruct (avro_encode s m).
Qed.

Lemma np_catalog : no_panic (lift catalog).
Proof using Hc. apply np_lift. by rewrite Hc. Qed.

Hint Resolve np_from_frame np_from_frame_compat np_to_frame np_catalog : nopanic.

Lemma np_reply {T} `{!Serde T} b cl k (m : T) : no_panic (reply b cl k m).
Proof using Hc. unfold reply. np. Qed.

Lemma np_reclaim n b : no_panic (reclaim_arena n b).
Proof using. unfold reclaim_arena. np. Qed.
Hint Resolve np_reply np_reclaim : nopanic.

Lemma np_reclaims ns b : no_panic (reclaim_arenas ns b).
Proof using. revert b. induction ns as [|n ns IH]; intros b; cbn [reclaim_arenas]; np. Qed.
Hint Resolve np_reclaims : nopanic.

Lemma np_release id b : no_panic (release_client id b).
Proof using. unfold release_client. np. Qed.

Lemma np_owner_alive pid : no_panic (owner_alive pid).
Proof using. unfold owner_alive. np. Qed.
Hint Resolve np_release np_owner_alive : nopanic.

Lemma np_make_arena n cap b : is_power_of_two cap = true -> no_panic (make_arena n cap b).
Proof using. intros Hp. pose proof (fun seg => np_format seg cap Hp) as Hf. unfold make_arena. np. Qed.

Lemma np_free_channel m b : no_panic (free_channel_name m b).
Proof using. unfold free_channel_name, dead_channel_owner. np. Qed.

Lemma np_free_function m b : no_panic (free_function_name m b).
Proof using. unfold free_function_name, dead_function_owner. np. Qed.
Hint Resolve np_free_channel np_free_function : nopanic.

Lemma np_on_publish b f : no_panic (on_publish b f).
Proof using Hc.
  unfold on_publish. np. apply np_make_arena, clamp_is_power.
Qed.

Lemma np_on_expose b f : no_panic (on_expose b f).
Proof using Hc.
  unfold on_expose. np. apply np_make_arena, clamp_is_power.
Qed.

Lemma np_handle b bytes : no_panic (handle b bytes).
Proof using Hc.
  unfold handle. np_step; [|np]. np_step; [np|]. np_step; [|np].
  np_step; try np.
  - unfold on_register. np.
  - unfold on_unregister. np.
  - apply np_on_publish.
  - unfold on_unpublish. np.
  - unfold on_list. np.
  - unfold on_subscribe. np.
  - apply np_on_expose.
  - unfold on_lookup. np.
Qed.
Hint Resolve np_handle : nopanic.

Lemma np_turn b ls : no_panic (turn b ls).
Proof using Hc. unfold turn. np. Qed.
Hint Resolve np_turn : nopanic.

Lemma np_run_loop sr b ls : no_panic (run_loop sr b ls).
Proof using Hc.
  revert b ls. induction sr as [|go sr IH]; intros b ls; cbn [run_loop]; np.
Qed.
End handlers.

(** ** Properties *)

(** C26: No message can bring the broker down by a panic: whatever bytes arrive on the
    submission ring, in whatever state the broker is and whatever the system calls
    answer, no handler and no turn of the control loop panics (every capacity handed to
    [Ring::format] is a power of two at base 0, and every schema the handlers index is
    in the catalog). *)
Theorem control_loop_never_panics `{ProtoSerde} `{!Sha256} (c : Catalog) :
  catalog = Done c ->
  forall should_run b w msg, run should_run b w <> Panicked msg.
Proof.
  intros Hc sr b w msg. apply np_bind; [apply np_now|]. intros t. by eapply np_run_loop.
Qed.

Lemma control_loop_never_panics_witness :
  run (H := toy_avro) [true; true; false] demo_pub demo_bus <>
    Panicked "capacity must be power of two".
Proof. exact (control_loop_never_panics toy_catalog toy_catalog_done _ _ _ _). Defined.

(** The kinds the broker has a handler for. *)
Definition is_control (k : Kind) : bool :=
  match k with
  | KRegister | KUnregister | KPublishChannel | KUnpublish | KListChannels | KSubscribe
  | KExposeFunction | KLookupFunction | KHeartbeat => true
  | _ => false
  end.

(** A message the broker does not understand leaves no trace: bytes that are not a
    frame, a fingerprint no schema has, and a kind that is not a control request are
    each an error with the broker and the whole world unchanged; so is a heartbeat,
    which succeeds. *)
Theorem handle_rejects `{ProtoSerde} `{!Sha256} (c : Catalog) (b : Broker) (bytes : list byte)
    (w : world) :
  catalog = Done c ->
  match decode bytes with
  | Err e => handle b bytes w = Done ((b, Err e), w)
  | Ok f =>
      match kind_of c (schema_fp f) with
      | None => exists e, handle b bytes w = Done ((b, Err e), w)
      | Some k =>
          (is_control k = false -> exists e, handle b bytes w = Done ((b, Err e), w)) /\
          (k = KHeartbeat -> handle b bytes w = Done ((b, Ok tt), w))
      end
  end.
Proof.
  intros Hc. unfold handle. destruct (decode bytes) as [f|e]; [|done].
  unfold lift. rewrite Hc. erewrite bind_done by reflexivity.
  destruct (kind_of c (schema_fp f)) as [k|]; [|by eexists].
  split; [|by intros ->]. destruct k; intros Hk; try discriminate Hk; by eexists.
Qed.

Lemma handle_rejects_witness :
  handle (H := toy_avro) demo_broker (replicate 20 Byte.x2a) demo_busy =
    Done ((demo_broker, Err (io_other "bad frame magic")), demo_busy).
Proof. exact (handle_rejects toy_catalog demo_broker (replicate 20 Byte.x2a) demo_busy toy_catalog_done). Defined.
