(* ===== verification/Main.v ===== *)
(** * The broker executable (crates/impulsed/src/main.rs)

    [main]: start-up, the control loop with its stop flag, shutdown, and the exit
    status. The signal handler sets one flag, a watcher thread turns it into the stop
    flag that the loop asks: the three run independently, so their order is a list of
    events. The logger is left out. *)

From S2P Require Import Prelude Machine Shm Ring RingThm Demo Frame Control Util Avro Proto Toy ProtoProps Registry RegistryThm Broker BrokerThm BrokerOps BrokerProps BrokerFlow BrokerStart BrokerSafe.

(** ** The stop flag *)

Record stop_flags : Type := StopFlags {
  FLAG : bool;             (** set by the signal handler *)
  running : bool;
  watching : bool;         (** the watcher thread lives *)
}.

Inductive stop_event : Type :=
| SigHandler               (** SIGINT or SIGTERM *)
| WatcherTurn              (** a turn of the watcher's loop *)
| LoopAsks.                (** the control loop calls [should_run] *)

Definition install_signal_handler : stop_flags := StopFlags false true true.

Definition handler_sets (f : stop_flags) : stop_flags := StopFlags true (running f) (watching f).

Definition watcher_turn (f : stop_flags) : stop_flags :=
  if watching f && FLAG f then StopFlags (FLAG f) false false else f.

Fixpoint answers (es : list stop_event) (f : stop_flags) : list bool :=
  match es with
  | [] => []
  | SigHandler :: es => answers es (handler_sets f)
  | WatcherTurn :: es => answers es (watcher_turn f)
  | LoopAsks :: es => running f :: answers es f
  end.

Fixpoint flags_after (es : list stop_event) (f : stop_flags) : stop_flags :=
  match es with
  | [] => f
  | SigHandler :: es => flags_after es (handler_sets f)
  | WatcherTurn :: es => flags_after es (watcher_turn f)
  | LoopAsks :: es => flags_after es f
  end.

(** ** [main] *)

Section main.
Context `{ProtoSerde} `{!Sha256}.

(** The exit status. *)
Definition main (es : list stop_event) : prog Z :=
  let! r := start in
  match r with
  | Ok b =>
      let! b := run (answers es install_signal_handler) b in
      do! drop_broker b in
      ret 0
  | Err AlreadyRunning => ret 0
  | Err (StartIo e) => ret 1
  end.
End main.

(** ** How the flags move *)

Fixpoint asks (es : list stop_event) : nat :=
  match es with [] => 0 | LoopAsks :: es => S (asks es) | _ :: es => asks es end.

Lemma answers_app es es' f : answers (es ++ es') f = answers es f ++ answers es' (flags_after es f).
Proof. revert f. induction es as [|[] es IH]; intros f; simpl; auto. by rewrite IH. Qed.

Lemma length_answers es f : length (answers es f) = asks es.
Proof.
  revert f. induction es as [|[] es IH]; intros f; simpl; rewrite ?IH; done.
Qed.

Lemma answers_stopped es f : running f = false -> answers es f = replicate (asks es) false.
Proof.
  revert f. induction es as [|[] es IH]; intros f Hf; simpl; [done | | |].
  - by rewrite IH.
  - rewrite IH; [done|]. unfold watcher_turn. by destruct (_ && _).
  - by rewrite Hf, IH.
Qed.

Lemma answers_unsignalled es f :
  FLAG f = false -> running f = true -> SigHandler ∉ es ->
  answers es f = replicate (asks es) true /\ flags_after es f = f.
Proof.
  revert f. induction es as [|[] es IH]; intros f Hf Hr Hn; simpl; [done | | |];
    apply not_elem_of_cons in Hn as [He Hn]; try done.
  - unfold watcher_turn. rewrite Hf, andb_false_r. by apply IH.
  - destruct (IH f Hf Hr Hn) as [E1 E2]. by rewrite Hr, E1.
Qed.

(** The watcher lives as long as the loop is to run. *)
Definition flags_ok (f : stop_flags) : Prop := watching f = running f.

Lemma flags_after_ok es f : flags_ok f -> flags_ok (flags_after es f).
Proof.
  revert f. induction es as [|[] es IH]; intros f Hf; simpl; auto.
  apply IH. unfold watcher_turn. by destruct (_ && _).
Qed.

Lemma flag_stays es f : FLAG f = true -> FLAG (flags_after es f) = true.
Proof.
  revert f. induction es as [|[] es IH]; intros f Hf; simpl; auto.
  apply IH. unfold watcher_turn. by destruct (_ && _).
Qed.

(** C23: SIGINT and SIGTERM stop the broker, and nothing else does: without a signal every
    check of the stop flag lets the loop go on; once a signal came and the watcher
    then had a turn, every later check stops it, however the three are interleaved,
    and the flag never goes back. *)
Theorem signals_stop_the_loop (es1 es2 es3 : list stop_event) :
  (SigHandler ∉ es1 -> answers es1 install_signal_handler = replicate (asks es1) true) /\
  answers (es1 ++ [SigHandler] ++ es2 ++ [WatcherTurn] ++ es3) install_signal_handler =
    answers (es1 ++ [SigHandler] ++ es2) install_signal_handler ++ replicate (asks es3) false.
Proof.
  split; [intros; by apply answers_unsignalled|].
  replace (es1 ++ [SigHandler] ++ es2 ++ [WatcherTurn] ++ es3)
    with ((es1 ++ [SigHandler] ++ es2) ++ [WatcherTurn] ++ es3) by by rewrite <- !app_assoc.
  rewrite (answers_app _ ([WatcherTurn] ++ es3)). f_equal. set (f := flags_after _ _).
  assert (FLAG f = true) as Hf.
  { subst f. clear. generalize install_signal_handler as f. induction es1 as [|[] es1 IH]; intros f; simpl; auto.
    by apply flag_stays. }
  assert (watching f = running f) as Hok by by apply flags_after_ok.
  change (answers ([WatcherTurn] ++ es3) f) with (answers es3 (watcher_turn f)). apply answers_stopped.
  unfold watcher_turn. rewrite Hf, andb_true_r. by destruct (watching f) eqn:E.
Qed.

(** Two turns, the signal, a turn of the watcher, and the check that stops the loop. *)
Lemma signals_stop_the_loop_witness :
  answers [LoopAsks; WatcherTurn; LoopAsks] install_signal_handler = [true; true] /\
  answers [LoopAsks; WatcherTurn; LoopAsks; SigHandler; LoopAsks; WatcherTurn; LoopAsks] install_signal_handler =
    [true; true; true; false].
Proof.
  destruct (signals_stop_the_loop [LoopAsks; WatcherTurn; LoopAsks] [LoopAsks] [LoopAsks]) as [E1 E2].
  split; [apply E1; rewrite !elem_of_cons, elem_of_nil; intros [?|[?|[?|[]]]]; discriminate | exact E2].
Defined.

(** ** What no handler touches *)

(** The reply segment of every registered client is on the list of names to unlink. *)
Definition names_known (b : Broker) : Prop :=
  forall id seg, b_reply_segs b !! id = Some seg ->
    has_nul (seg_name seg) = false /\ seg_name seg ∈ b_reply_names b.

(** The broker keeps its control segment, forgets no reply segment it opened, and
    lists every one it opens. *)
Definition same_control (b b' : Broker) : Prop :=
  b_control_seg b' = b_control_seg b /\ b_reply_names b `prefix_of` b_reply_names b' /\
  (names_known b -> names_known b').

#[export] Instance same_control_preorder : PreOrder same_control.
Proof.
  split; [by intros b; split_and!|]. intros b1 b2 b3 (E1 & P1 & N1) (E2 & P2 & N2).
  split_and!; [congruence | by etrans | auto].
Qed.

Definition stays {A} (b : Broker) (p : prog A) (after : A -> Broker) : Prop :=
  forall w a w', p w = Done (a, w') -> same_control b (after a).

Section stays.
Context `{ProtoSerde} `{!Sha256}.

Lemma stays_ret {A} b (a : A) after : same_control b (after a) -> stays b (ret a) after.
Proof. by intros Hs w a' w' [= <- <-]. Qed.

Lemma stays_bind {A B} b (p : prog A) (f : A -> prog B) after :
  (forall a, stays b (f a) after) -> stays b (let! a := p in f a) after.
Proof. intros Hf w c w' E. apply bind_done_inv in E as (a & w1 & _ & E). by eapply Hf. Qed.

(** The broker is passed on through [p]. *)
Lemma stays_through {A B} b (p : prog A) (f : A -> prog B) mid after :
  stays b p mid -> (forall a, stays (mid a) (f a) after) -> stays b (let! a := p in f a) after.
Proof.
  intros Hp Hf w c w' E. apply bind_done_inv in E as (a & w1 & E1 & E2).
  etrans; [by eapply Hp | by eapply Hf].
Qed.

Lemma stays_from {A} b b1 (p : prog A) after : same_control b b1 -> stays b1 p after -> stays b p after.
Proof. intros Hs Hp w a w' E. etrans; [exact Hs | by eapply Hp]. Qed.

Lemma stays_try_in {A B} b (p : prog (io_result A)) (f : A -> handler B) :
  (forall a, stays b (f a) fst) -> stays b (try_in b p f) fst.
Proof. intros Hf. apply stays_bind. intros [a|e]; [apply Hf | by apply stays_ret]. Qed.

Lemma stays_return_in {A} b b1 (p : prog (io_result A)) : same_control b b1 -> stays b (return_in b1 p) fst.
Proof. intros Hs. apply stays_bind. intros r. by apply stays_ret. Qed.

Lemma stays_reclaims names b : stays b (reclaim_arenas names b) id.
Proof.
  intros w b' w' E. destruct (reclaim_arenas_done names b w) as (w1 & E1 & _). rewrite E1 in E.
  by injection E as <- <-.
Qed.

Lemma stays_reclaim n b : stays b (reclaim_arena n b) id.
Proof.
  intros w b' w' E. destruct (reclaim_arena_done n b w) as (w1 & E1 & _). rewrite E1 in E.
  by injection E as <- <-.
Qed.

Lemma stays_release id0 b : stays b (release_client id0 b) id.
Proof.
  intros w b' w' E. destruct (release_client_done id0 b w) as (w1 & E1 & _). rewrite E1 in E.
  injection E as <- <-. split_and!; [done..|]. intros Hn id seg Hs. apply (Hn id seg).
  cbn in Hs. by apply lookup_delete_Some in Hs as [_ Hs].
Qed.

Lemma stays_make_arena name cap b : stays b (make_arena name cap b) fst.
Proof.
  apply stays_try_in. intros seg. apply stays_bind. intros [r|e].
  - cbv zeta. destruct (b_arenas b !! name); [apply stays_bind; intros []|]; by apply stays_ret.
  - apply stays_bind. intros []. by apply stays_ret.
Qed.

Lemma same_set_reg r b : same_control b (set_reg r b).
Proof. done. Qed.

Lemma stays_free_channel m b : stays b (free_channel_name m b) fst.
Proof.
  unfold free_channel_name. destruct (channel_name_taken _ _); [|by apply stays_ret].
  destruct (reap_if_released _ _) as [reg [arena|]].
  - eapply stays_from; [apply (same_set_reg reg)|]. eapply stays_through; [apply stays_reclaim|].
    intros b1. by apply stays_ret.
  - apply stays_bind. intros [dead|]; [|by apply stays_ret].
    eapply stays_through; [apply stays_release|]. intros b1. by apply stays_ret.
Qed.

Lemma stays_free_function m b : stays b (free_function_name m b) fst.
Proof.
  unfold free_function_name. destruct (function_name_taken _ _); [|by apply stays_ret].
  apply stays_bind. intros [dead|]; [|by apply stays_ret].
  eapply stays_through; [apply stays_release|]. intros b1. by apply stays_ret.
Qed.

Lemma open_no_nul name w seg w' : open name w = Done (Ok seg, w') -> has_nul name = false.
Proof. unfold open. by destruct (has_nul name). Qed.

Lemma stays_register b frame : stays b (on_register b frame) fst.
Proof.
  apply stays_try_in. intros m w [b' r] w' E. apply bind_done_inv in E as ([seg|e] & w1 & Eo & E);
    [|by injection E as <- <- <-].
  pose proof (open_no_nul _ _ _ _ Eo) as Hz. destruct (open_owns _ _ _ _ Eo) as [_ Hn].
  clear Eo. refine (_ w1 (b', r) w' E).
  apply stays_bind. intros [ring|e].
  - destruct (add_client _ _ _) as [reg id]. cbv zeta. apply stays_return_in. split_and!; [done | |].
    + simpl. by apply prefix_app_r.
    + intros Hk id' seg'. simpl. intros [[_ <-]|[_ Hs]]%lookup_insert_Some; rewrite elem_of_app, list_elem_of_singleton.
      * rewrite Hn. split; [done | by right].
      * destruct (Hk _ _ Hs). split; [done | by left].
  - apply stays_bind. intros []. by apply stays_ret.
Qed.

Lemma stays_publish b frame : stays b (on_publish b frame) fst.
Proof.
  apply stays_try_in. intros m. eapply stays_through; [apply stays_free_channel|]. intros [b1 free]. cbn [fst].
  destruct (negb free); [by apply stays_return_in|].
  destruct (parse _) as [[sch fp]|e]; [|by apply stays_return_in].
  destruct (alloc_channel_id _) as [reg id]. cbv zeta.
  eapply stays_from; [apply (same_set_reg reg)|]. eapply stays_through; [apply stays_make_arena|].
  intros [b2 [arena|e]]; by apply stays_return_in.
Qed.

Lemma stays_expose b frame : stays b (on_expose b frame) fst.
Proof.
  apply stays_try_in. intros m. eapply stays_through; [apply stays_free_function|]. intros [b1 free]. cbn [fst].
  destruct (negb free); [by apply stays_return_in|].
  destruct (parse _) as [[s1 f1]|]; [|by apply stays_return_in].
  destruct (parse _) as [[s2 f2]|]; [|by apply stays_return_in].
  destruct (alloc_fn_id _) as [reg id]. cbv zeta.
  eapply stays_from; [apply (same_set_reg reg)|]. eapply stays_through; [apply stays_make_arena|].
  intros [b2 [arena|e]]; by apply stays_return_in.
Qed.

Lemma stays_handle b bytes : stays b (handle b bytes) fst.
Proof.
  unfold handle. destruct (decode bytes) as [frame|e]; [|by apply stays_ret].
  apply stays_bind. intros c. destruct (kind_of _ _) as [kind|]; [|by apply stays_ret].
  destruct kind; try (by apply stays_ret).
  - apply stays_register.
  - apply stays_try_in. intros m. eapply stays_through; [apply stays_release|]. intros b1. by apply stays_ret.
  - apply stays_publish.
  - apply stays_try_in. intros m. apply stays_bind. intros t.
    destruct (release_channel _ _ _ _) as [reg []]; try (by apply stays_ret).
    eapply stays_from; [apply (same_set_reg reg)|]. eapply stays_through; [apply stays_reclaim|].
    intros b1. by apply stays_ret.
  - apply stays_try_in. intros m. by apply stays_return_in.
  - apply stays_try_in. intros m. destruct (resolve_subscribe _ _ _ _) as [[arena fp]|[code msg]];
      by apply stays_return_in.
  - apply stays_expose.
  - apply stays_try_in. intros m. by apply stays_return_in.
Qed.

Lemma stays_turn b ls : stays b (turn b ls) fst.
Proof.
  apply stays_bind. intros msg. eapply (stays_through _ _ _ id).
  - destruct msg as [bytes|]; [|by apply stays_ret].
    eapply stays_through; [apply stays_handle|]. intros [b1 r]. by apply stays_ret.
  - intros b1. apply stays_bind. intros t. destruct (_ <=? _); [|by apply stays_ret].
    destruct (reap_released _ _ _) as [reg arenas]. eapply stays_from; [apply (same_set_reg reg)|].
    eapply stays_through; [apply stays_reclaims|]. intros b2. by apply stays_ret.
Qed.

Lemma stays_run_loop sr b t : stays b (run_loop sr b t) id.
Proof.
  revert b t. induction sr as [|[] sr IH]; intros b t; cbn [run_loop].
  - by intros w b' w' E.
  - eapply stays_through; [apply stays_turn|]. intros [b1 ls1]. apply IH.
  - by apply stays_ret.
Qed.

Lemma stays_run sr b : stays b (run sr b) id.
Proof. apply stays_bind. intros t. apply stays_run_loop. Qed.

(** The loop goes through the brokers that its first turns leave. *)
Lemma run_loop_passes n sr b ls w b1 w1 b' w' :
  take n sr = replicate n true ->
  run_loop (replicate n true ++ [false]) b ls w = Done (b1, w1) ->
  run_loop sr b ls w = Done (b', w') -> same_control b1 b'.
Proof.
  revert sr b ls w. induction n as [|n IH]; intros sr b ls w Ht E1 E2.
  - injection E1 as <- <-. exact (stays_run_loop sr b ls w b' w' E2).
  - destruct sr as [|go sr]; [done|]. injection Ht as -> Ht. cbn [replicate app run_loop] in E1, E2.
    apply bind_done_inv in E1 as ([b2 ls2] & w2 & E & E1). apply bind_done_inv in E2 as ([b3 ls3] & w3 & E' & E2).
    rewrite E in E'. injection E' as <- <- <-. by eapply IH.
Qed.

Lemma run_passes n sr b w b1 w1 b' w' :
  take n sr = replicate n true -> run (replicate n true ++ [false]) b w = Done (b1, w1) ->
  run sr b w = Done (b', w') -> same_control b1 b'.
Proof.
  intros Ht E1 E2. apply bind_done_inv in E1 as (t & w2 & En & E1). apply bind_done_inv in E2 as (t' & w3 & En' & E2).
  rewrite En in En'. injection En' as <- <-. by eapply run_loop_passes.
Qed.

Lemma run_keeps_inv sr b w b' w' :
  broker_inv b -> b_reg b = new_registry -> Z.of_nat (length sr) < 2 ^ 62 ->
  run sr b w = Done (b', w') -> broker_inv b'.
Proof.
  intros Hb Hreg Hn E. apply bind_done_inv in E as (t & w1 & _ & E). eapply run_loop_inv; [exact Hb|..|exact E];
    rewrite Hreg; simpl; change (2 ^ 62) with 4611686018427387904 in Hn;
    change (2 ^ 63) with 9223372036854775808; lia.
Qed.
End stays.

(** The memory the broker needs at its start is granted. *)
Definition memory_granted (s : sys) : Prop :=
  mmap_ok s /\ shm_grants s CONTROL_SEGMENT control_segment_bytes.

(** The loop that starts in [b] with the clients it is sent: after [n] of its turns it is
    [b1], which has the client [id]. *)
Definition has_client_after `{ProtoSerde} `{!Sha256} (es : list stop_event) (b : Broker) (w : world)
    (n : nat) (b1 : Broker) (id : Z) : Prop :=
  take n (answers es install_signal_handler) = replicate n true /\
  (exists w1, run (replicate n true ++ [false]) b w = Done (b1, w1)) /\
  is_Some (clients (b_reg b1) !! id).

Lemma clients_unlinked `{ProtoSerde} `{!Sha256} es b w b' w3 n b1 id :
  broker_inv b -> b_reg b = new_registry -> Z.of_nat (asks es) < 2 ^ 62 -> names_known b ->
  run (answers es install_signal_handler) b w = Done (b', w3) ->
  has_client_after es b w n b1 id ->
  exists seg, b_reply_segs b1 !! id = Some seg /\ has_nul (seg_name seg) = false /\
    seg_name seg ∈ b_reply_names b'.
Proof.
  intros Hb Hreg Hn Hk Er (Ht & [w1 E1] & Hid).
  assert (n <= asks es)%nat as Hle.
  { rewrite <- (length_answers es install_signal_handler). apply (f_equal length) in Ht.
    rewrite length_take, length_replicate in Ht. lia. }
  destruct (stays_run _ _ _ _ _ E1) as (_ & _ & Hk1).
  destruct (run_passes _ _ _ _ _ _ _ _ Ht E1 Er) as (_ & [more Hp] & _).
  assert (broker_inv b1) as Hb1.
  { apply bind_done_inv in E1 as (t & w2 & _ & E1). eapply run_loop_inv; [exact Hb|..|exact E1];
      rewrite length_app, length_replicate, Hreg; simpl; change (2 ^ 62) with 4611686018427387904 in Hn;
      change (2 ^ 63) with 9223372036854775808; lia. }
  apply (bi_rings _ Hb1) in Hid as [ring Hring].
  pose proof (bi_reply_segs _ Hb1 id) as Hs. rewrite Hring in Hs. exists (r_seg ring). split; [done|].
  destruct (Hk1 Hk _ _ Hs) as [G1 G2]. split; [done|]. rewrite Hp. apply elem_of_app. by left.
Qed.

(** C13: The life of the daemon, whatever arrives on the bus and whenever the signals come.
    When a live broker owns the control segment, or the segment belongs to another user,
    it exits with status 0 and unlinks nothing. When the start guard finds neither, and the
    memory for its control segment is to be had, it comes up: connectors attach an empty
    submission ring and read its pid. From there on it never panics, and if it gets to its
    end the status is 0 and it has left nothing behind: the control segment, every arena of
    the channels and functions it still knew, and the reply segment of every client that
    was registered after any of its turns, gone since or not, are unlinked. *)
Theorem broker_lifecycle `{ProtoSerde} `{!Sha256} (c : Catalog) (es : list stop_event) (w w1 : world) :
  catalog = Done c -> Z.of_nat (asks es) < 2 ^ 62 ->
  (forall seg pid epoch, open CONTROL_SEGMENT w = Done (Ok seg, w1) ->
     ctl_ready seg w1 pid epoch -> in_i 32 pid -> seg_len seg < 2 ^ 64 ->
     proc_alive (w_sys w1) pid = true ->
     exists w2, main es w = Done (0, w2) /\ no_unlink_since w w2) /\
  (forall e, open CONTROL_SEGMENT w = Done (Err e, w1) ->
     err_kind e <> NotFound -> err_raw e = Some EACCES ->
     main es w = Done (0, w1) /\ no_unlink_since w w1) /\
  (guard_singleton w = Done (Ok tt, w1) -> memory_granted (w_sys w1) ->
   exists b w2, start w = Done (Ok b, w2) /\
     attach_control (b_control_seg b) w2 = Done (Ok (b_submission b), w2) /\
     ring_has (b_submission b) w2 [] /\
     broker_pid (b_control_seg b) w2 = Done (i32 (sys_getpid (w_sys w1)), w2) /\
     match main es w with
     | Done (status, w') =>
         status = 0 /\ exists b' w3 evs,
           run (answers es install_signal_handler) b w2 = Done (b', w3) /\ w_log w' = w_log w3 ++ evs /\
           EvUnlink CONTROL_SEGMENT ∈ evs /\
           (forall id ch, channels (b_reg b') !! id = Some ch -> EvUnlink (ch_arena ch) ∈ evs) /\
           (forall id fn, functions (b_reg b') !! id = Some fn -> EvUnlink (fn_req_arena fn) ∈ evs) /\
           (forall n b1 id, has_client_after es b w2 n b1 id ->
              exists seg, b_reply_segs b1 !! id = Some seg /\ EvUnlink (seg_name seg) ∈ evs)
     | Panicked _ => False
     | Undefined _ | Starved => True
     end).
Proof.
  intros Hc Hn. split_and!.
  { intros seg pid epoch Eo Hr Hp Hl Ha.
    destruct (live_broker_refuses w w1 seg pid epoch Eo Hr Hp Hl Ha) as (w2 & E & Hq & _).
    exists w2. split; [|done]. unfold main. by rewrite (bind_done _ _ _ _ _ E). }
  { intros e Eo Hk Hr. destruct (foreign_segment_refuses w w1 e Eo Hk Hr) as [E Hq].
    split; [|done]. unfold main. by rewrite (bind_done _ _ _ _ _ E). }
  intros Eg [Hm Hs].
  destruct (start_comes_up w w1 Eg Hm Hs) as (b & w2 & Es & Hb & Hreg & _ & Hq & Ha & Hp & _ & Hname & Hown).
  exists b, w2. split_and!; [done..|]. unfold main. rewrite (bind_done _ _ _ _ _ Es). cbv iota.
  unfold bind at 1. destruct (run (answers es install_signal_handler) b w2) as [[b' w3]|msg| |] eqn:Er; try done.
  - destruct (stays_run _ _ _ _ _ Er) as (Eseg & _ & _). unfold id in Eseg.
    assert (broker_inv b') as Hb' by (eapply run_keeps_inv; [..|exact Er]; rewrite ?length_answers; done).
    assert (names_known b) as Hk.
    { intros i s Hi. rewrite (bi_reply_segs _ Hb) in Hi. destruct (b_reply_rings b !! i) eqn:E; [|done].
      assert (is_Some (clients (b_reg b) !! i)) as Hx by by apply (bi_rings _ Hb). rewrite Hreg in Hx. by destruct Hx. }
    destruct (drop_broker_unlinks b' w3 Hb') as (w' & evs & Ed & El & Hctl & Har & Hrep); [by rewrite Eseg|].
    rewrite (bind_done _ _ _ _ _ Ed). split; [done|]. exists b', w3, evs. rewrite Eseg, Hname in Hctl.
    split_and!; try done; [by apply Hctl | | |].
    + intros i ch Hch. apply Har, (bi_arenas _ Hb'). left. eauto.
    + intros i fn Hfn. apply Har, (bi_arenas _ Hb'). right. eauto.
    + intros n b1 i Hi.
      destruct (clients_unlinked es b w2 b' w3 n b1 i Hb Hreg Hn Hk Er Hi) as (seg & E1 & E2 & E3).
      exists seg. split; [done | by apply Hrep].
  - exfalso. revert Er. apply (np_bind now); [apply np_now|]. intros t. by eapply np_run_loop.
Qed.

(** A daemon that takes one message off the submission ring, the registration of a client
    that another process puts there while the loop waits, and is then told to stop. What
    it opens is a ring of 1024 bytes. *)
Definition life_ring : Ring := MkRing (MkSegment "" 0 1216 false) 0 1024 1023.
Definition life_mmap (size fd : Z) (m : gmap Z (list byte)) : Z * Z * gmap Z (list byte) :=
  let zeros := replicate (Z.to_nat size) Byte.x00 in
  (next_ptr m, 0, <[next_ptr m := if size =? 1216 then formatted life_ring zeros else zeros]> m).
Definition life_sys : sys := Sys
  (fun _ _ _ => (3, 0)) (fun _ _ => (0, 0)) (fun _ _ => (0, 0)) (fun _ => (0, 0, 1216))
  life_mmap (fun _ => (0, 0)) (fun _ => Ok []) (fun _ _ => (0, 0)) 4242 (Some 1000)
  (fun n => Ok (le_bytes 8 (77 + Z.of_nat n))) (fun _ => "error").

Definition demo_stop : list stop_event := [LoopAsks; SigHandler; WatcherTurn; LoopAsks].
Definition demo_submission : Ring := MkRing (MkSegment CONTROL_SEGMENT 7001 (2 ^ 18 + 128) true) 64 (2 ^ 18) (2 ^ 18 - 1).
Definition life_register : Frame :=
  frame_of (to_frame KRegister (MkRegister 78 "svc" 77 (client_segment 77) 1000 555)).
Definition demo_message : tick := Tick (fun m =>
  match try_push demo_submission (encode life_register) (World m 0 life_sys [] 0 []) with
  | Done (true, w) => w_mem w | _ => m end) 1.
Definition life_world : world := World ∅ 0 life_sys [demo_message] 0 [].
Definition life_guarded : world :=
  match guard_singleton life_world with Done (_, w) => w | _ => life_world end.

Lemma life_guarded_eq : guard_singleton life_world = Done (Ok tt, life_guarded) /\ w_sys life_guarded = life_sys.
Proof.
  assert (guard_ok (guard_singleton life_world) = true) as Hg by (vm_compute; reflexivity).
  assert (w_sys life_guarded = life_sys) as Hs by reflexivity. split; [|done].
  unfold life_guarded. destruct (guard_singleton life_world) as [[[[]|e] w1]| | |]; try discriminate Hg. done.
Qed.

Lemma life_granted : memory_granted life_sys.
Proof.
  split.
  - intros size fd m ptr errno m' E _ Hs. cbn in E. unfold life_mmap in E.
    injection E as <- _ <-. destruct (next_ptr_bounds m) as [_ Hb]. split_and!.
    + destruct (m !! next_ptr m) eqn:E; [|done]. specialize (Hb (next_ptr m) ltac:(by eexists)). lia.
    + eexists. split; [apply lookup_insert_eq|]. destruct (Z.eqb_spec size 1216) as [->|_]; [vm_compute; reflexivity|].
      unfold blen. rewrite length_replicate. lia.
    + intros q Hq. by apply lookup_insert_ne.
  - unfold shm_grants. cbn. split_and!; try done. intros m.
    pose proof (next_ptr_bounds m) as [Hb _]. unfold MAP_FAILED. lia.
Qed.

(** The client is registered after the first turn, and the daemon exits with status 0. *)
Definition lives (o : outcome (result Broker StartError * world)) : bool :=
  match o with
  | Done (Ok b, w) =>
      match run (H := toy_avro) (replicate 1 true ++ [false]) b w with
      | Done (b1, _) =>
          match clients (b_reg b1) !! 1, b_reply_segs b1 !! 1 with
          | Some _, Some seg => (seg_name seg =? client_segment 77)%string
          | _, _ => false
          end
      | _ => false
      end
  | _ => false
  end.
Definition exits (o : outcome (Z * world)) : bool :=
  match o with Done (status, _) => status =? 0 | _ => false end.

Lemma life_lives : lives (start life_world) = true.
Proof. vm_compute. reflexivity. Qed.
Lemma life_exits : exits (main (H := toy_avro) demo_stop life_world) = true.
Proof. vm_compute. reflexivity. Qed.

Lemma life_registers b w : start life_world = Done (Ok b, w) ->
  exists b1, has_client_after (H := toy_avro) demo_stop b w 1 b1 1 /\
    (forall seg, b_reply_segs b1 !! 1 = Some seg -> seg_name seg = client_segment 77).
Proof.
  intros E. pose proof life_lives as L. rewrite E in L. cbn [lives] in L.
  destruct (run (replicate 1 true ++ [false]) b w) as [[b1 w1]| | |] eqn:Er; try discriminate L.
  destruct (clients (b_reg b1) !! 1) as [ci|] eqn:Ec; [|discriminate L].
  destruct (b_reply_segs b1 !! 1) as [seg|] eqn:Eg; [|discriminate L].
  exists b1. split.
  - split_and!; [reflexivity | by exists w1 | by exists ci].
  - intros seg'. rewrite Eg. intros [= <-]. by apply String.eqb_eq.
Qed.

(** Next to a live broker, and alone with one client. *)
Lemma broker_lifecycle_witness :
  (exists w2, main (H := toy_avro) demo_stop live_world = Done (0, w2) /\ no_unlink_since live_world w2) /\
  exists b w2 w', start life_world = Done (Ok b, w2) /\
    main (H := toy_avro) demo_stop life_world = Done (0, w') /\
    exists evs before, w_log w' = before ++ evs /\ EvUnlink CONTROL_SEGMENT ∈ evs /\
      EvUnlink (client_segment 77) ∈ evs.
Proof.
  split.
  { apply (proj1 (broker_lifecycle toy_catalog demo_stop live_world live_opened toy_catalog_done eq_refl)
      live_seg 4242 1000 live_open live_ready); [vm_compute; split; [discriminate | reflexivity] | |]; vm_compute; reflexivity. }
  destruct life_guarded_eq as [Eg Esys].
  destruct (proj2 (proj2 (broker_lifecycle toy_catalog demo_stop life_world life_guarded
    toy_catalog_done eq_refl)) Eg) as (b & w2 & Es & _ & _ & _ & Hm); [rewrite Esys; exact life_granted|].
  pose proof life_exits as He. destruct (main demo_stop life_world) as [[status w']| | |]; try discriminate He.
  destruct Hm as (-> & b' & w3 & evs & _ & El & Hc & _ & _ & Hr). exists b, w2, w'.
  split_and!; [exact Es | reflexivity|]. exists evs, (w_log w3). split_and!; [exact El | exact Hc|].
  destruct (life_registers b w2 Es) as (b1 & Hb1 & Hname). destruct (Hr _ _ _ Hb1) as (seg & E1 & E2).
  by rewrite <- (Hname seg E1).
Defined.
