(* ===== verification/Http.v ===== *)
(** * The HTTP-over-Ring convention (crates/http/src/lib.rs)

    The records two ends exchange, the names they derive, the upgrade tokens, and the
    shares of a ring a body may take. *)

From S2P Require Import Prelude Machine Shm Ring RingMem RingSpec Control Util.

Definition PROTOCOL_VERSION : Z := 2.
Definition HTTP_FN_PREFIX : string := "impulse-ring-http/v1/".

Definition http_fn_name (app_name : string) : string := HTTP_FN_PREFIX +:+ app_name.

Record RingHeader : Type := MkRingHeader { header_name : string; header_value : string }.

Record RingHttpRequest : Type := MkRingHttpRequest {
  request_method : string;
  request_uri : string;
  request_headers : list RingHeader;
  request_body : list byte;
}.

Record RingHttpResponse : Type := MkRingHttpResponse {
  response_status : Z;   (** i32 *)
  response_headers : list RingHeader;
  response_body : list byte;
}.

(** The Avro schemas of the records. *)
Definition REQUEST_SCHEMA : string := json_text
"{
  'type': 'record',
  'name': 'RingHttpRequest',
  'fields': [
    {'name': 'method', 'type': 'string'},
    {'name': 'uri', 'type': 'string'},
    {'name': 'headers', 'type': {'type': 'array', 'items': {
      'type': 'record',
      'name': 'RingHeader',
      'fields': [
        {'name': 'name', 'type': 'string'},
        {'name': 'value', 'type': 'string'}
      ]
    }}},
    {'name': 'body', 'type': 'bytes'}
  ]
}".

Definition RESPONSE_SCHEMA : string := json_text
"{
  'type': 'record',
  'name': 'RingHttpResponse',
  'fields': [
    {'name': 'status', 'type': 'int'},
    {'name': 'headers', 'type': {'type': 'array', 'items': {
      'type': 'record',
      'name': 'RingHeader',
      'fields': [
        {'name': 'name', 'type': 'string'},
        {'name': 'value', 'type': 'string'}
      ]
    }}},
    {'name': 'body', 'type': 'bytes'}
  ]
}".

(** ** Upgrade kinds *)

Inductive RingUpgradeKind : Type := Sse | WebSocket | WebTransport.

Definition as_str (k : RingUpgradeKind) : string :=
  match k with Sse => "sse" | WebSocket => "websocket" | WebTransport => "webtransport" end.

(** The characters with the Unicode property White_Space, in UTF-8. *)
Definition whitespace : list (list byte) :=
  [[Byte.x09]; [Byte.x0a]; [Byte.x0b]; [Byte.x0c]; [Byte.x0d]; [Byte.x20];
   [Byte.xc2; Byte.x85]; [Byte.xc2; Byte.xa0]; [Byte.xe1; Byte.x9a; Byte.x80];
   [Byte.xe2; Byte.x80; Byte.x80]; [Byte.xe2; Byte.x80; Byte.x81]; [Byte.xe2; Byte.x80; Byte.x82];
   [Byte.xe2; Byte.x80; Byte.x83]; [Byte.xe2; Byte.x80; Byte.x84]; [Byte.xe2; Byte.x80; Byte.x85];
   [Byte.xe2; Byte.x80; Byte.x86]; [Byte.xe2; Byte.x80; Byte.x87]; [Byte.xe2; Byte.x80; Byte.x88];
   [Byte.xe2; Byte.x80; Byte.x89]; [Byte.xe2; Byte.x80; Byte.x8a]; [Byte.xe2; Byte.x80; Byte.xa8];
   [Byte.xe2; Byte.x80; Byte.xa9]; [Byte.xe2; Byte.x80; Byte.xaf]; [Byte.xe2; Byte.x81; Byte.x9f];
   [Byte.xe3; Byte.x80; Byte.x80]].

Fixpoint strip (p s : list byte) : option (list byte) :=
  match p, s with
  | [], _ => Some s
  | a :: p, b :: s => if bool_decide (a = b) then strip p s else None
  | _ :: _, [] => None
  end.

(** The rest after one of the sequences, if the text starts with one. *)
Fixpoint strip_one (ws : list (list byte)) (s : list byte) : option (list byte) :=
  match ws with
  | [] => None
  | p :: ws => match strip p s with Some rest => Some rest | None => strip_one ws s end
  end.

Fixpoint trim_with (ws : list (list byte)) (fuel : nat) (s : list byte) : list byte :=
  match fuel with
  | O => s
  | S fuel => match strip_one ws s with Some rest => trim_with ws fuel rest | None => s end
  end.

(** [str::trim]; every sequence is at least one byte, so the length is enough fuel. *)
Definition trim (s : list byte) : list byte :=
  let s := trim_with whitespace (length s) s in
  reverse (trim_with (reverse <$> whitespace) (length s) (reverse s)).

(** [u8::to_ascii_lowercase] *)
Definition to_lower (b : byte) : byte :=
  let z := byte_to_Z b in
  if (65 <=? z) && (z <=? 90) then byte_of_Z (z + 32) else b.

(** [RingUpgradeKind::parse] on the bytes of a string. *)
Definition parse_kind (s : list byte) : option RingUpgradeKind :=
  let t := to_lower <$> trim s in
  if bool_decide (t = string_bytes "sse") then Some Sse
  else if bool_decide (t = string_bytes "websocket") || bool_decide (t = string_bytes "ws") then Some WebSocket
  else if bool_decide (t = string_bytes "webtransport") || bool_decide (t = string_bytes "wt") then Some WebTransport
  else None.

Definition HEADER_UPGRADE : string := "x-impulse-ring-upgrade".
Definition HEADER_CHAN_DOWN : string := "x-impulse-ring-chan-down".
Definition HEADER_CHAN_UP : string := "x-impulse-ring-chan-up".
Definition HEADER_CHAN_DATAGRAMS : string := "x-impulse-ring-chan-datagrams".
Definition HEADER_SESSION : string := "x-impulse-ring-session".
Definition HEADER_BODY_CHANNEL : string := "x-impulse-ring-body-chan".
Definition HEADER_REPLY_CAP : string := "x-impulse-ring-reply-cap".
Definition HEADER_REQUEST_BODY_CHANNEL : string := "x-impulse-ring-req-body-chan".

(** ** Shares of a ring *)

Definition SHARED_NUM : Z := 3.
Definition SHARED_DEN : Z := 8.
Definition REPLY_NUM : Z := 7.
Definition REPLY_DEN : Z := 8.

Definition max_inline_request_body (arena_cap : Z) : Z := usize (arena_cap * SHARED_NUM) / SHARED_DEN.
Definition max_inline_response_body (reply_cap : Z) : Z := usize (reply_cap * REPLY_NUM) / REPLY_DEN.
Definition body_chunk (arena_cap : Z) : Z := usize (arena_cap * SHARED_NUM) / SHARED_DEN.

Definition DEFAULT_RING_CAP : Z := 512 * 1024.
Definition MIN_RING_CAP : Z := 256 * 1024.
Definition MAX_INLINE_RESPONSE_BODY : Z := max_inline_response_body DEFAULT_RING_CAP.
Definition RESPONSE_BODY_CHUNK : Z := body_chunk DEFAULT_RING_CAP.
Definition MAX_INLINE_REQUEST_BODY : Z := max_inline_request_body DEFAULT_RING_CAP.
Definition REQUEST_BODY_CHUNK : Z := body_chunk DEFAULT_RING_CAP.

(** ** Streams *)

Definition STREAM_CHAN_PREFIX : string := "impulse-ring-http/v1/stream/".

Definition stream_channel_name (app : string) (session_id : Z) (role : string) : string :=
  STREAM_CHAN_PREFIX +:+ app +:+ "/" +:+ hex016 session_id +:+ "/" +:+ role.

Definition OP_DATA : Z := 0.
Definition OP_CLOSE : Z := 1.
Definition OP_DATAGRAM : Z := 2.
Definition OP_STREAM_OPEN : Z := 3.
Definition OP_STREAM_DATA : Z := 4.
Definition OP_STREAM_CLOSE : Z := 5.

Record RingStreamFrame : Type := MkRingStreamFrame {
  stream_opcode : Z;   (** i32 *)
  stream_id : Z;       (** i64 *)
  stream_payload : list byte;
}.

Definition stream_data (payload : list byte) : RingStreamFrame := MkRingStreamFrame OP_DATA 0 payload.
Definition stream_close : RingStreamFrame := MkRingStreamFrame OP_CLOSE 0 [].
Definition stream_datagram (payload : list byte) : RingStreamFrame :=
  MkRingStreamFrame OP_DATAGRAM 0 payload.

Definition STREAM_SCHEMA : string := json_text
"{
  'type': 'record',
  'name': 'RingStreamFrame',
  'fields': [
    {'name': 'opcode', 'type': 'int'},
    {'name': 'stream_id', 'type': 'long'},
    {'name': 'payload', 'type': 'bytes'}
  ]
}".

(** ** Trimming *)

Lemma strip_spec p s rest : strip p s = Some rest <-> s = p ++ rest.
Proof.
  revert s. induction p as [|a p IH]; intros s; simpl.
  - split; [by intros [= ->] | by intros ->].
  - destruct s as [|b s]; [by split|]. case_bool_decide as E.
    + subst. rewrite IH. split; [by intros -> | by intros [= ->]].
    + split; [done|]. intros [= ? _]. congruence.
Qed.

Lemma strip_one_some ws s rest :
  strip_one ws s = Some rest -> exists p, p ∈ ws /\ s = p ++ rest.
Proof.
  induction ws as [|p ws IH]; [done|]. simpl. destruct (strip p s) as [r|] eqn:E.
  - intros [= <-]. exists p. split; [by left | by apply strip_spec].
  - intros H. destruct (IH H) as (p' & ? & ?). exists p'. split; [by right | done].
Qed.

Lemma strip_one_none ws s :
  strip_one ws s = None <-> forall p rest, p ∈ ws -> s <> p ++ rest.
Proof.
  induction ws as [|p ws IH]; simpl.
  - split; [|done]. intros _ p rest H. by apply elem_of_nil in H.
  - destruct (strip p s) as [r|] eqn:E.
    + split; [done|]. intros H. apply strip_spec in E. by destruct (H p r ltac:(by left)).
    + rewrite IH. split.
      * intros H p' rest [->|Hp']%elem_of_cons; [|by apply H].
        intros Es. apply strip_spec in Es. congruence.
      * intros H p' rest Hp'. apply H. by right.
Qed.

(** The bytes a text of token characters is made of: ASCII letters. *)
Definition is_letter (b : byte) : bool :=
  let z := byte_to_Z b in ((65 <=? z) && (z <=? 90)) || ((97 <=? z) && (z <=? 122)).

Lemma whitespace_first p : p ∈ whitespace -> exists a p', p = a :: p' /\ is_letter a = false.
Proof.
  intros H. assert (forallb (fun p => match p with a :: _ => negb (is_letter a) | [] => false end)
    whitespace = true) as Hall by reflexivity.
  rewrite forallb_forall in Hall. specialize (Hall p (proj1 (list_elem_of_In _ _) H)).
  destruct p as [|a p']; [done|]. exists a, p'. split; [done|]. by apply negb_true_iff.
Qed.

Lemma whitespace_last p : p ∈ reverse <$> whitespace -> exists a p', p = a :: p' /\ is_letter a = false.
Proof.
  intros H. assert (forallb (fun p => match p with a :: _ => negb (is_letter a) | [] => false end)
    (reverse <$> whitespace) = true) as Hall by reflexivity.
  rewrite forallb_forall in Hall. specialize (Hall p (proj1 (list_elem_of_In _ _) H)).
  destruct p as [|a p']; [done|]. exists a, p'. split; [done|]. by apply negb_true_iff.
Qed.

Section trim.
Context (ws : list (list byte)).
Hypothesis Hws : forall p, p ∈ ws -> exists a p', p = a :: p' /\ is_letter a = false.

Lemma strip_one_letter b s : is_letter b = true -> strip_one ws (b :: s) = None.
Proof using Hws.
  intros Hb. apply strip_one_none. intros p rest Hp E.
  destruct (Hws p Hp) as (a & p' & -> & Ha). injection E as -> _. congruence.
Qed.

(** Single-byte blanks are stripped. *)
Lemma trim_with_pad pad t fuel :
  (forall b, b ∈ pad -> [b] ∈ ws) ->
  (forall b s, b ∈ pad -> strip_one ws (b :: s) = Some s) ->
  (match t with b :: _ => is_letter b = true | [] => False end) ->
  (length pad < fuel)%nat -> trim_with ws fuel (pad ++ t) = t.
Proof using Hws.
  intros Hin Hs Ht. revert fuel. induction pad as [|b pad IH]; intros fuel Hf; simpl in *.
  - destruct fuel as [|fuel]; [lia|]. destruct t as [|c t]; [done|]. simpl.
    by rewrite strip_one_letter.
  - destruct fuel as [|fuel]; [lia|]. simpl. rewrite Hs by (by left).
    apply IH; [| | lia]; intros; [apply Hin | apply Hs]; by right.
Qed.
End trim.

(** The single-byte blanks. *)
Definition is_blank (b : byte) : bool := bool_decide ([b] ∈ whitespace).

Lemma strip_blank b s : is_blank b = true -> strip_one whitespace (b :: s) = Some s.
Proof.
  intros H. destruct b; first [reflexivity | vm_compute in H; discriminate H].
Qed.

Lemma strip_blank_rev b s : is_blank b = true -> strip_one (reverse <$> whitespace) (b :: s) = Some s.
Proof.
  intros H. destruct b; first [reflexivity | vm_compute in H; discriminate H].
Qed.

Lemma blank_rev b : [b] ∈ whitespace -> [b] ∈ reverse <$> whitespace.
Proof. intros H. apply list_elem_of_fmap. by exists [b]. Qed.

(** Trimming a word of letters surrounded by blanks gives the word. *)
Lemma trim_word l t r :
  forallb is_blank l = true -> forallb is_blank r = true -> forallb is_letter t = true -> t <> [] ->
  trim (l ++ t ++ r) = t.
Proof.
  rewrite !forallb_forall. intros Hl Hr Ht Hne. unfold trim.
  assert (forall b, b ∈ l -> is_blank b = true) as Hl' by (intros b Hb; by apply Hl, list_elem_of_In).
  assert (forall b, b ∈ r -> is_blank b = true) as Hr' by (intros b Hb; by apply Hr, list_elem_of_In).
  assert (trim_with whitespace (length (l ++ t ++ r)) (l ++ t ++ r) = t ++ r) as ->.
  { apply trim_with_pad; [apply whitespace_first | | | |].
    - intros b Hb. by apply (bool_decide_eq_true_1 _), Hl'.
    - intros b s Hb. by apply strip_blank, Hl'.
    - destruct t as [|b t]; [done|]. simpl. apply Ht. by left.
    - destruct t; [done|]. rewrite !length_app. simpl. lia. }
  rewrite reverse_app. rewrite trim_with_pad; [by rewrite reverse_involutive | apply whitespace_last | | | |].
  - intros b Hb. rewrite elem_of_reverse in Hb. apply blank_rev, (bool_decide_eq_true_1 _), Hr', Hb.
  - intros b s Hb. rewrite elem_of_reverse in Hb. by apply strip_blank_rev, Hr'.
  - destruct (reverse t) as [|b t'] eqn:E.
    + apply (f_equal reverse) in E. rewrite reverse_involutive in E. by simpl in E.
    + apply Ht, list_elem_of_In, elem_of_reverse. rewrite E. by left.
  - rewrite !length_app, !length_reverse. destruct t; [done|]. simpl. lia.
Qed.

Lemma to_lower_letter b : is_letter (to_lower b) = true -> is_letter b = true.
Proof. intros H. destruct b; first [reflexivity | vm_compute in H; discriminate H]. Qed.

(** ** Names *)

Definition no_slash (s : string) : bool :=
  forallb (fun b => negb (bool_decide (b = Byte.x2f))) (string_bytes s).

Lemma string_bytes_inj s t : string_bytes s = string_bytes t -> s = t.
Proof.
  intros E. rewrite <- (String.string_of_list_byte_of_string s).
  rewrite <- (String.string_of_list_byte_of_string t). by f_equal.
Qed.

(** The last separator of a text is where it is. *)
Lemma last_sep_inj (c : byte) (l1 l2 r1 r2 : list byte) :
  ~ (c ∈ r1) -> ~ (c ∈ r2) -> l1 ++ c :: r1 = l2 ++ c :: r2 -> l1 = l2 /\ r1 = r2.
Proof.
  intros H1 H2 E. apply app_eq_inv in E as [(k & -> & E)|(k & -> & E)].
  - destruct k as [|a k]; simpl in E; injection E; [intros ->; by rewrite app_nil_r|].
    intros -> _. exfalso. apply H2, elem_of_app. right. by left.
  - destruct k as [|a k]; simpl in E; injection E; [intros ->; by rewrite app_nil_r|].
    intros -> _. exfalso. apply H1, elem_of_app. right. by left.
Qed.

Lemma no_slash_spec s : no_slash s = true -> ~ (Byte.x2f ∈ string_bytes s).
Proof.
  unfold no_slash. rewrite forallb_forall. intros H Hin%list_elem_of_In.
  specialize (H _ Hin). by rewrite bool_decide_eq_true_2 in H.
Qed.

Lemma slash_split (s1 r1 s2 r2 : string) :
  no_slash r1 = true -> no_slash r2 = true ->
  s1 +:+ "/" +:+ r1 = s2 +:+ "/" +:+ r2 -> s1 = s2 /\ r1 = r2.
Proof.
  intros H1%no_slash_spec H2%no_slash_spec E. apply (f_equal string_bytes) in E.
  rewrite !string_bytes_app in E.
  destruct (last_sep_inj Byte.x2f (string_bytes s1) (string_bytes s2) _ _ H1 H2 E) as [E1 E2].
  split; by apply string_bytes_inj.
Qed.

(** ** Properties *)

(** The upgrade token is read the way it is written: every kind's token is parsed back
    to that kind in any mixture of cases and between any blanks, and a text that is
    parsed to a kind is, trimmed and in lower case, one of that kind's tokens. *)
Theorem upgrade_token_spec :
  (forall k l r t, forallb is_blank l = true -> forallb is_blank r = true ->
     to_lower <$> t = string_bytes (as_str k) -> parse_kind (l ++ t ++ r) = Some k) /\
  (forall s k, parse_kind s = Some k ->
     to_lower <$> trim s = string_bytes (as_str k) \/
     (k = WebSocket /\ to_lower <$> trim s = string_bytes "ws") \/
     (k = WebTransport /\ to_lower <$> trim s = string_bytes "wt")).
Proof.
  split.
  - intros k l r t Hl Hr Ht. unfold parse_kind. rewrite trim_word; [| done | done | |].
    + rewrite Ht. by destruct k.
    + apply forallb_forall. intros b Hb. apply to_lower_letter.
      assert (to_lower b ∈ string_bytes (as_str k)) as Hin.
      { rewrite <- Ht. apply list_elem_of_fmap. exists b. split; [done|]. by apply list_elem_of_In. }
      assert (forallb is_letter (string_bytes (as_str k)) = true) as Hk by (by destruct k).
      rewrite forallb_forall in Hk. by apply Hk, list_elem_of_In.
    + intros ->. by destruct k.
  - intros s k. unfold parse_kind. set (t := to_lower <$> trim s).
    destruct (bool_decide (t = string_bytes "sse")) eqn:E1; [apply bool_decide_eq_true_1 in E1; intros [= <-]; by left|].
    destruct (bool_decide (t = string_bytes "websocket")) eqn:E2;
      [apply bool_decide_eq_true_1 in E2; intros [= <-]; by left|].
    destruct (bool_decide (t = string_bytes "ws")) eqn:E3; simpl;
      [apply bool_decide_eq_true_1 in E3; intros [= <-]; right; by left|].
    destruct (bool_decide (t = string_bytes "webtransport")) eqn:E4;
      [apply bool_decide_eq_true_1 in E4; intros [= <-]; by left|].
    destruct (bool_decide (t = string_bytes "wt")) eqn:E5; simpl; [|done].
    apply bool_decide_eq_true_1 in E5; intros [= <-]; right; by right.
Qed.

(** The derived names do not collide: two servers share a function name only if they
    share the application name, and two stream channels share a name only if
    application, session and role all agree, for roles without a slash (the roles the
    convention uses). *)
Theorem http_names_distinct (app1 app2 : string) (s1 s2 : Z) (role1 role2 : string) :
  (http_fn_name app1 = http_fn_name app2 -> app1 = app2) /\
  (in_u 64 s1 -> in_u 64 s2 -> no_slash role1 = true -> no_slash role2 = true ->
   stream_channel_name app1 s1 role1 = stream_channel_name app2 s2 role2 ->
   app1 = app2 /\ s1 = s2 /\ role1 = role2).
Proof.
  split; [apply str_app_inj_l|]. intros Hs1 Hs2 Hr1 Hr2 E.
  unfold stream_channel_name in E. apply str_app_inj_l in E.
  rewrite <- !str_app_assoc in E. rewrite (str_app_assoc _ "/" role1), (str_app_assoc _ "/" role2) in E.
  apply slash_split in E as [E ->]; [|done|done].
  rewrite !str_app_assoc in E.
  assert (String.length app1 = String.length app2) as Hl.
  { apply (f_equal String.length) in E. rewrite !str_length_app in E. unfold hex016 in E.
    rewrite !hex_fixed_length in E. lia. }
  apply str_app_inj_len in E as [-> E]; [|done]. apply str_app_inj_l in E.
  split_and!; try done. by apply (hex_fixed_inj 16).
Qed.

Lemma http_names_distinct_witness :
  stream_channel_name "web" 1 "up" = stream_channel_name "web" 1 "up" /\
  ("web" = "web" /\ 1 = 1 /\ "up" = "up").
Proof.
  split; [reflexivity|].
  refine (proj2 (http_names_distinct "web" "web" 1 1 "up" "up") _ _ eq_refl eq_refl eq_refl);
    vm_compute; split; [discriminate | reflexivity | discriminate | reflexivity].
Defined.

(** The ring capacities the broker gives out. *)
Lemma shares_of_cap k :
  18 <= k <= 27 ->
  body_chunk (2 ^ k) = 3 * 2 ^ (k - 3) /\ max_inline_request_body (2 ^ k) = 3 * 2 ^ (k - 3) /\
  max_inline_response_body (2 ^ k) = 7 * 2 ^ (k - 3) /\ 2 ^ k = 8 * 2 ^ (k - 3) /\ 2 ^ 15 <= 2 ^ (k - 3).
Proof.
  intros Hk. assert (2 ^ k = 8 * 2 ^ (k - 3)) as E.
  { replace k with (3 + (k - 3)) at 1 by lia. rewrite Z.pow_add_r by lia. done. }
  assert (2 ^ 15 <= 2 ^ (k - 3) <= 2 ^ 24) as Hr by (split; apply Z.pow_le_mono_r; lia).
  unfold body_chunk, max_inline_request_body, max_inline_response_body, SHARED_NUM, SHARED_DEN,
    REPLY_NUM, REPLY_DEN.
  rewrite E. rewrite !wrap_u_small by (unfold in_u; lia).
  replace (8 * 2 ^ (k - 3) * 3) with (3 * 2 ^ (k - 3) * 8) by lia.
  replace (8 * 2 ^ (k - 3) * 7) with (7 * 2 ^ (k - 3) * 8) by lia.
  rewrite !Z.div_mul by lia. split_and!; lia.
Qed.

(** The inline limits are limits that fit: on every ring the broker can hand out, a
    request body within its limit goes into an empty request ring and even beside
    another record of that size, and a response body within its limit goes into an
    empty reply ring, each with up to a sixteenth of the ring for the framing. *)
Theorem inline_limits_fit (k : Z) (d1 d2 d3 : list byte) :
  18 <= k <= 27 ->
  blen d1 + 4 <= max_inline_request_body (2 ^ k) + 2 ^ (k - 4) ->
  blen d2 + 4 <= max_inline_request_body (2 ^ k) + 2 ^ (k - 4) ->
  blen d3 + 4 <= max_inline_response_body (2 ^ k) + 2 ^ (k - 4) ->
  fifo_push (2 ^ k) [] d1 = (true, [d1]) /\ fifo_push (2 ^ k) [d1] d2 = (true, [d1; d2]) /\
  fifo_push (2 ^ k) [] d3 = (true, [d3]).
Proof.
  intros Hk. destruct (shares_of_cap k Hk) as (_ & -> & -> & E & Hr).
  assert (2 ^ (k - 3) = 2 * 2 ^ (k - 4)) as E4.
  { replace (k - 3) with (1 + (k - 4)) by lia. rewrite Z.pow_add_r by lia. done. }
  intros H1 H2 H3. unfold fifo_push. rewrite !(proj2 (Z.leb_le _ _)).
  - done.
  - change (blen (q_bytes [])) with 0. lia.
  - unfold q_bytes. cbn [fmap list_fmap concat]. rewrite app_nil_r, blen_record. lia.
  - change (blen (q_bytes [])) with 0. lia.
Qed.

Lemma inline_limits_fit_witness :
  fifo_push (2 ^ 18) [] [Byte.x00] = (true, [[Byte.x00]]) /\
  fifo_push (2 ^ 18) [[Byte.x00]] [Byte.x01] = (true, [[Byte.x00]; [Byte.x01]]) /\
  fifo_push (2 ^ 18) [] [Byte.x02] = (true, [[Byte.x02]]).
Proof. apply (inline_limits_fit 18 [Byte.x00] [Byte.x01] [Byte.x02]); vm_compute; done || (split; discriminate). Defined.

(** Of stream frames of a full chunk, a channel holds two and never three: whatever the
    capacity the broker gave the channel, the third waits for the subscriber. *)
Theorem two_chunks_in_flight (k : Z) (d1 d2 d3 : list byte) :
  18 <= k <= 27 ->
  body_chunk (2 ^ k) <= blen d1 -> body_chunk (2 ^ k) <= blen d2 -> body_chunk (2 ^ k) <= blen d3 ->
  fifo_push (2 ^ k) [d1; d2] d3 = (false, [d1; d2]).
Proof.
  intros Hk. destruct (shares_of_cap k Hk) as (-> & _ & _ & E & Hr). intros H1 H2 H3.
  unfold fifo_push. rewrite (proj2 (Z.leb_gt _ _)); [done|].
  unfold q_bytes. cbn [fmap list_fmap concat]. rewrite app_nil_r, blen_app, !blen_record. lia.
Qed.

Definition full_chunk : list byte := replicate (Z.to_nat (body_chunk (2 ^ 18))) Byte.x00.

Lemma two_chunks_in_flight_witness :
  fifo_push (2 ^ 18) [full_chunk; full_chunk] full_chunk = (false, [full_chunk; full_chunk]).
Proof.
  assert (body_chunk (2 ^ 18) <= blen full_chunk) as H.
  { unfold full_chunk, blen. rewrite length_replicate, Z2Nat.id; [reflexivity | vm_compute; discriminate]. }
  apply (two_chunks_in_flight 18 full_chunk full_chunk full_chunk); [lia | exact H..].
Defined.
