(* ===== verification/Client.v ===== *)
(** * The connector's shared state (crates/connector/src/client.rs)

    The state of a connection ([Inner]), the slot in which a caller awaits its reply,
    the dispatcher and the watcher, the control round-trips, and reconnection.

    An [Arc] of a mutable object (a [Slot], a [RingCell], a waker) is an index into a
    list of such objects, so that all its owners share it. A [conn A] runs in a
    connection: it takes the [Inner] to an [A] and a new [Inner]. What the other
    threads of the connection do while this one sleeps on a condition variable for one
    tick is the parameter [others]; a turn of the dispatcher is the usual case. The
    last owner of a mapping unmaps it: here that is the field or table it is removed
    from. *)

From S2P Require Import Prelude Machine Shm Ring Frame Control Util Avro Proto Registry Broker.

Definition CONTROL_TIMEOUT : Z := 5 * 1000 * MILLIS.
Definition SUBMIT_TIMEOUT : Z := 2 * 1000 * MILLIS.
Definition RELEASE_TIMEOUT : Z := 200 * MILLIS.
Definition DISPATCH_TIMEOUT : Z := 100 * MILLIS.

(** ** Data *)

Record SlotState : Type := MkSlotState {
  s_frame : option Frame;
  s_waker : option nat;
}.

Record Transport : Type := MkTransport {
  t_submission : Ring;
  t_reply_ring : Ring;
  t_reply_segment : string;
  t_nonce : Z;
  t_client_id : Z;
  t_epoch : Z;
  t_control_seg : Segment;
  t_reply_seg : Segment;
}.

Inductive Reg : Type :=
| RegChannel (name schema_json : string) (key : option string) (arena_cap : Z) (ring : nat)
| RegFunction (name req_schema_json resp_schema_json : string) (key : option string)
    (arena_cap : Z) (ring : nat).

Record Callee : Type := MkCallee {
  cal_req_fp : Z;
  cal_resp_fp : Z;
  cal_ring : Ring;
}.

(** [slots], [cells] and [wakers] are the objects behind the [Arc]s; a waker is the
    [notified] flag of one [block_on]. *)
Record Inner : Type := MkInner {
  i_transport : Transport;
  i_pending : gmap Z nat;
  i_slots : list SlotState;
  i_wakers : list bool;
  i_callees : gmap (string * string) Callee;
  i_app_name : string;
  i_reply_cap : Z;
  i_running : bool;
  i_auto_reconnect : bool;
  i_registry : gmap Z Reg;
  i_reg_seq : Z;
  i_cells : list Ring;
}.

Definition set_transport (t : Transport) (i : Inner) : Inner :=
  MkInner t (i_pending i) (i_slots i) (i_wakers i) (i_callees i) (i_app_name i) (i_reply_cap i)
    (i_running i) (i_auto_reconnect i) (i_registry i) (i_reg_seq i) (i_cells i).
Definition set_pending (p : gmap Z nat) (i : Inner) : Inner :=
  MkInner (i_transport i) p (i_slots i) (i_wakers i) (i_callees i) (i_app_name i) (i_reply_cap i)
    (i_running i) (i_auto_reconnect i) (i_registry i) (i_reg_seq i) (i_cells i).
Definition set_slots (s : list SlotState) (i : Inner) : Inner :=
  MkInner (i_transport i) (i_pending i) s (i_wakers i) (i_callees i) (i_app_name i) (i_reply_cap i)
    (i_running i) (i_auto_reconnect i) (i_registry i) (i_reg_seq i) (i_cells i).
Definition set_wakers (ws : list bool) (i : Inner) : Inner :=
  MkInner (i_transport i) (i_pending i) (i_slots i) ws (i_callees i) (i_app_name i) (i_reply_cap i)
    (i_running i) (i_auto_reconnect i) (i_registry i) (i_reg_seq i) (i_cells i).
Definition set_callees (m : gmap (string * string) Callee) (i : Inner) : Inner :=
  MkInner (i_transport i) (i_pending i) (i_slots i) (i_wakers i) m (i_app_name i) (i_reply_cap i)
    (i_running i) (i_auto_reconnect i) (i_registry i) (i_reg_seq i) (i_cells i).
Definition set_running (on : bool) (i : Inner) : Inner :=
  MkInner (i_transport i) (i_pending i) (i_slots i) (i_wakers i) (i_callees i) (i_app_name i)
    (i_reply_cap i) on (i_auto_reconnect i) (i_registry i) (i_reg_seq i) (i_cells i).
Definition set_auto_reconnect (on : bool) (i : Inner) : Inner :=
  MkInner (i_transport i) (i_pending i) (i_slots i) (i_wakers i) (i_callees i) (i_app_name i)
    (i_reply_cap i) (i_running i) on (i_registry i) (i_reg_seq i) (i_cells i).
Definition set_registry (m : gmap Z Reg) (seq : Z) (i : Inner) : Inner :=
  MkInner (i_transport i) (i_pending i) (i_slots i) (i_wakers i) (i_callees i) (i_app_name i)
    (i_reply_cap i) (i_running i) (i_auto_reconnect i) m seq (i_cells i).
Definition set_cells (rs : list Ring) (i : Inner) : Inner :=
  MkInner (i_transport i) (i_pending i) (i_slots i) (i_wakers i) (i_callees i) (i_app_name i)
    (i_reply_cap i) (i_running i) (i_auto_reconnect i) (i_registry i) (i_reg_seq i) rs.

Definition set_client_id (id : Z) (t : Transport) : Transport :=
  MkTransport (t_submission t) (t_reply_ring t) (t_reply_segment t) (t_nonce t) id (t_epoch t)
    (t_control_seg t) (t_reply_seg t).

(** ** The monad of a connection *)

Definition conn (A : Type) : Type := Inner -> prog (A * Inner).

Definition cret {A} (a : A) : conn A := fun i => ret (a, i).
Definition cbind {A B} (p : conn A) (f : A -> conn B) : conn B := fun i =>
  bind (p i) (fun r => f (fst r) (snd r)).
Definition cbind_io {A B} (p : conn (io_result A)) (f : A -> conn (io_result B))
  : conn (io_result B) :=
  cbind p (fun r => match r with Ok a => f a | Err e => cret (Err e) end).
Definition clift {A} (p : prog A) : conn A := fun i => bind p (fun a => ret (a, i)).
Definition get_inner : conn Inner := fun i => ret (i, i).
Definition modify (f : Inner -> Inner) : conn unit := fun i => ret (tt, f i).

(** A critical section: one access to the state that returns something. *)
Definition locked {A} (f : Inner -> A * Inner) : conn A := fun i => ret (f i).

Declare Scope conn_scope.
Delimit Scope conn_scope with conn.
#[global] Open Scope conn_scope.

Notation "'let*' x ':=' p 'in' k" := (cbind p (fun x => k))
  (at level 10, x pattern, p at level 100, k at level 200) : conn_scope.
Notation "'let+' x ':=' p 'in' k" := (cbind_io p (fun x => k))
  (at level 10, x pattern, p at level 100, k at level 200) : conn_scope.
Notation "'do*' p 'in' k" := (cbind p (fun _ => k))
  (at level 10, p at level 100, k at level 200) : conn_scope.

(** ** Slots *)

(** [Slot::new] *)
Definition new_slot (i : Inner) : nat * Inner :=
  (length (i_slots i), set_slots (i_slots i ++ [MkSlotState None None]) i).

(** [Slot::complete]: deliver the frame, wake the async waiter. *)
Definition complete (s : nat) (frame : Frame) (i : Inner) : Inner :=
  match i_slots i !! s with
  | None => i
  | Some g =>
      let i := set_slots (<[s := MkSlotState (Some frame) None]> (i_slots i)) i in
      match s_waker g with
      | Some w => set_wakers (<[w := true]> (i_wakers i)) i
      | None => i
      end
  end.

(** [g.frame.take()] *)
Definition take_frame (s : nat) (i : Inner) : option Frame * Inner :=
  match i_slots i !! s with
  | Some (MkSlotState (Some f) w) =>
      (Some f, set_slots (<[s := MkSlotState None w]> (i_slots i)) i)
  | _ => (None, i)
  end.

(** [Slot::poll] with the waker [w]. *)
Definition poll (s w : nat) (i : Inner) : option Frame * Inner :=
  match i_slots i !! s with
  | Some (MkSlotState (Some f) w') =>
      (Some f, set_slots (<[s := MkSlotState None w']> (i_slots i)) i)
  | Some (MkSlotState None _) =>
      (None, set_slots (<[s := MkSlotState None (Some w)]> (i_slots i)) i)
  | None => (None, i)
  end.

(** [Inner::register] *)
Definition register (corr : Z) (i : Inner) : nat * Inner :=
  let (slot, i) := new_slot i in
  (slot, set_pending (<[corr := slot]> (i_pending i)) i).

(** [Inner::drop_pending] *)
Definition drop_pending (corr : Z) (i : Inner) : Inner :=
  set_pending (delete corr (i_pending i)) i.

(** [inner.pending.lock().unwrap().remove(&corr)] of the dispatcher. *)
Definition take_pending (corr : Z) (i : Inner) : option nat * Inner :=
  (i_pending i !! corr, drop_pending corr i).

(** ** Bootstrap *)

Definition bootstrap (reply_cap : Z) : prog (io_result Transport) :=
  let! r := open CONTROL_SEGMENT in
  match r with
  | Err e => ret (Err (IoError (err_kind e) None
                   ("cannot open control segment (is impulsed running?): " +:+ err_msg e)))
  | Ok control_seg =>
      let! r := attach_control control_seg in
      match r with
      | Err e => do! drop_segment control_seg in ret (Err e)
      | Ok submission =>
          let! epoch := broker_epoch control_seg in
          let! nonce := random_u64 in
          let reply_name := client_segment nonce in
          let reply_cap := clamp_arena_cap (if reply_cap =? 0 then REPLY_CAP else reply_cap) in
          let! r := create reply_name (ring_bytes reply_cap) in
          match r with
          | Err e => do! drop_segment control_seg in ret (Err e)
          | Ok reply_seg =>
              let! r := format reply_seg 0 reply_cap in
              match r with
              | Err e =>
                  do! drop_segment reply_seg in
                  do! drop_segment control_seg in
                  ret (Err e)
              | Ok reply_ring =>
                  ret (Ok (MkTransport submission reply_ring reply_name nonce 0 epoch
                             control_seg reply_seg))
              end
          end
      end
  end.

Definition live_broker_epoch : prog (io_result Z) :=
  let? seg := open CONTROL_SEGMENT in
  let! r := attach_control seg in
  match r with
  | Err e => do! drop_segment seg in ret (Err e)
  | Ok _ =>
      let! epoch := broker_epoch seg in
      do! drop_segment seg in
      ret (Ok epoch)
  end.

Definition broker_unreachable (e : io_error) : bool :=
  bool_decide (err_kind e = TimedOut \/ err_kind e = NotFound)
  || str_contains "submission ring full" (err_msg e).

Definition key_or_empty (key : option string) : string :=
  match key with Some k => k | None => "" end.

(** The state before the background threads start ([Inner::start]). *)
Definition start_inner (app_name : string) (reply_cap : Z) (t : Transport) : Inner :=
  MkInner t ∅ [] [] ∅ app_name reply_cap true true ∅ 1 [].

Definition next_corr : prog Z := let! r := random_u64 in ret (i64 r).

(** [Inner::submit]: push onto the current submission ring. *)
Definition submit (frame : Frame) (timeout : Z) : conn bool :=
  let* i := get_inner in
  clift (push_blocking (t_submission (i_transport i)) (encode frame) (Some timeout)).

(** ** Registrations to replay *)

Definition register_entry (reg : Reg) (i : Inner) : Z * Inner :=
  (i_reg_seq i, set_registry (<[i_reg_seq i := reg]> (i_registry i)) (u64 (i_reg_seq i + 1)) i).

Definition deregister (id : Z) (i : Inner) : Inner :=
  set_registry (delete id (i_registry i)) (i_reg_seq i) i.

(** [Arc::new(RwLock::new(ring))] *)
Definition new_cell (ring : Ring) (i : Inner) : nat * Inner :=
  (length (i_cells i), set_cells (i_cells i ++ [ring]) i).

(** [*cell.write().unwrap() = ring]: the old arena's mapping goes. *)
Definition rebind (cell : nat) (ring : Ring) : conn unit := fun i =>
  match i_cells i !! cell with
  | None => ret (tt, i)
  | Some old =>
      do! drop_segment (r_seg old) in
      ret (tt, set_cells (<[cell := ring]> (i_cells i)) i)
  end.

(** [Inner::forget_callee] *)
Definition forget_callee (fn_name : string) (key : option string) : conn unit := fun i =>
  let id := (fn_name, key_or_empty key) in
  match i_callees i !! id with
  | None => ret (tt, i)
  | Some c =>
      do! drop_segment (r_seg (cal_ring c)) in
      ret (tt, set_callees (delete id (i_callees i)) i)
  end.

Section client.
Context `{ProtoSerde} (others : conn unit).

(** ** Waiting for a reply *)

(** [Slot::wait]. The thread went to sleep at [since]. The sleep ends with a notification,
    which leaves a frame to take, with the timeout, or for no reason, and then it starts
    anew with the whole timeout. *)
Fixpoint wait_loop (fuel : nat) (s : nat) (timeout since : Z) : conn (option Frame) :=
  match fuel with
  | O => fun _ _ => Starved
  | S fuel =>
      let* f := locked (take_frame s) in
      match f with
      | Some f => cret (Some f)
      | None =>
          let* woken := clift doze in
          do* others in
          let* t := clift now in
          if since + timeout <=? t then locked (take_frame s)
          else wait_loop fuel s timeout (if (woken : bool) then t else since)
      end
  end.

Definition wait (s : nat) (timeout : Z) : conn (option Frame) := fun i w =>
  wait_loop (S (length (w_ticks w))) s timeout (w_now w) i w.

(** [Inner::call_control] *)
Definition call_control (corr : Z) (frame : Frame) (timeout : Z) : conn (io_result Frame) :=
  let* slot := locked (register corr) in
  let* ok := submit frame SUBMIT_TIMEOUT in
  if negb ok then
    do* modify (drop_pending corr) in
    cret (Err (io_other "submission ring full (broker stuck?)"))
  else
    let* f := wait slot timeout in
    match f with
    | Some f => cret (Ok f)
    | None =>
        do* modify (drop_pending corr) in
        cret (Err (IoError TimedOut None "timed out waiting for broker reply"))
    end.

(** What every round-trip does: build the request around a new correlation id, send
    it, and decode the reply as the kind expected. *)
Definition round_trip {Q R} `{!Serde Q, !Serde R} (kq : Kind) (q : Z -> Inner -> Q) (kr : Kind)
  : conn (io_result R) :=
  let* corr := clift next_corr in
  let* i := get_inner in
  let+ frame := clift (lift (to_frame kq (q corr i))) in
  let+ reply := call_control corr frame CONTROL_TIMEOUT in
  clift (lift (from_frame kr reply)).

(** [Segment::open] of an arena, and [Ring::attach] at 0. *)
Definition attach_arena (name : string) : prog (io_result Ring) :=
  let? seg := open name in
  let! r := attach seg 0 in
  match r with
  | Err e => do! drop_segment seg in ret (Err e)
  | Ok ring => ret (Ok ring)
  end.

Definition do_register : conn (io_result Z) :=
  let* s := clift get_sys in
  let+ rr := round_trip KRegister (fun corr i =>
    MkRegister corr (i_app_name i) (i64 (t_nonce (i_transport i)))
      (t_reply_segment (i_transport i)) 1000 (u32 (sys_getpid s))) KRegisterReply in
  if negb (register_reply_status rr =? STATUS_OK)
  then cret (Err (io_other ("register rejected: " +:+ register_reply_message rr)))
  else
    do* modify (fun i => set_transport
          (set_client_id (register_reply_client_id rr) (i_transport i)) i) in
    cret (Ok (register_reply_client_id rr)).

Definition do_publish (name schema_json : string) (key : option string) (arena_cap : Z)
  : conn (io_result (Ring * Z)) :=
  let+ pr := round_trip KPublishChannel (fun corr i =>
    MkPublishChannel corr (t_client_id (i_transport i)) name schema_json (key_or_empty key)
      arena_cap) KPublishReply in
  if negb (publish_reply_status pr =? STATUS_OK)
  then cret (Err (io_other ("publish failed: " +:+ publish_reply_message pr)))
  else
    let+ ring := clift (attach_arena (publish_reply_arena pr)) in
    cret (Ok (ring, i64_to_fp (publish_reply_schema_fp pr))).

(** [Inner::list_channels] *)
Definition do_list_channels : conn (io_result (list ChannelInfo)) :=
  let+ l := round_trip KListChannels (fun corr i =>
    MkListChannels corr (t_client_id (i_transport i))) KChannelList in
  cret (Ok (channel_list_channels l)).

Definition do_subscribe (channel_id : Z) (key : option string) (expected_fp : Z)
  : conn (io_result (Ring * Z)) :=
  let+ sr := round_trip KSubscribe (fun corr i =>
    MkSubscribe corr (t_client_id (i_transport i)) channel_id (key_or_empty key)
      (fp_to_i64 expected_fp)) KSubscribeReply in
  if negb (subscribe_reply_status sr =? STATUS_OK)
  then cret (Err (io_other ("subscribe failed: " +:+ subscribe_reply_message sr)))
  else
    let+ ring := clift (attach_arena (subscribe_reply_arena sr)) in
    cret (Ok (ring, i64_to_fp (subscribe_reply_schema_fp sr))).

Definition do_expose (name req_schema_json resp_schema_json : string) (key : option string)
    (arena_cap : Z) : conn (io_result (Ring * Z * Z)) :=
  let+ er := round_trip KExposeFunction (fun corr i =>
    MkExposeFunction corr (t_client_id (i_transport i)) name req_schema_json resp_schema_json
      (key_or_empty key) arena_cap) KExposeReply in
  if negb (expose_reply_status er =? STATUS_OK)
  then cret (Err (io_other ("expose failed: " +:+ expose_reply_message er)))
  else
    let+ ring := clift (attach_arena (expose_reply_req_arena er)) in
    cret (Ok (ring, i64_to_fp (expose_reply_req_fp er), i64_to_fp (expose_reply_resp_fp er))).

Definition do_lookup (fn_name : string) (key : option string) : conn (io_result LookupReply) :=
  let+ lr := round_trip KLookupFunction (fun corr i =>
    MkLookupFunction corr (t_client_id (i_transport i)) fn_name (key_or_empty key)) KLookupReply in
  if negb (lkp_reply_status lr =? STATUS_OK)
  then cret (Err (io_other ("lookup failed: " +:+ lkp_reply_message lr)))
  else cret (Ok lr).

(** ** Callees *)

(** [Inner::callee] *)
Definition callee (fn_name : string) (key : option string) : conn (io_result Callee) :=
  let id := (fn_name, key_or_empty key) in
  let* i := get_inner in
  match i_callees i !! id with
  | Some c => cret (Ok c)
  | None =>
      let+ lr := do_lookup fn_name key in
      let+ ring := clift (attach_arena (lkp_reply_req_arena lr)) in
      let c := MkCallee (i64_to_fp (lkp_reply_req_fp lr)) (i64_to_fp (lkp_reply_resp_fp lr)) ring in
      do* forget_callee fn_name key in
      do* modify (fun i => set_callees (<[id := c]> (i_callees i)) i) in
      cret (Ok c)
  end.

Definition matching_callee (fn_name : string) (key : option string) (req_fp resp_fp : Z)
  : conn (io_result Callee) :=
  let+ c := callee fn_name key in
  if (cal_req_fp c =? req_fp) && (cal_resp_fp c =? resp_fp) then cret (Ok c) else
  do* forget_callee fn_name key in
  let+ c := callee fn_name key in
  if negb (cal_req_fp c =? req_fp)
  then cret (Err (io_other "call rejected: request schema mismatch")) else
  if negb (cal_resp_fp c =? resp_fp)
  then cret (Err (io_other "call rejected: response schema mismatch")) else
  cret (Ok c).

Definition function_arena_capacity (fn_name : string) (key : option string) : conn (io_result Z) :=
  let+ c := callee fn_name key in cret (Ok (capacity (cal_ring c))).

(** ** Reconnection *)

(** The two loops of [Inner::replay]: an entry that fails is skipped. *)
Fixpoint replay_channels (rs : list Reg) : conn unit :=
  match rs with
  | [] => cret tt
  | RegChannel name schema_json key cap cell :: rs =>
      let* r := do_publish name schema_json key cap in
      do* match r with Ok (ring, _) => rebind cell ring | Err _ => cret tt end in
      replay_channels rs
  | _ :: rs => replay_channels rs
  end.

Fixpoint replay_functions (rs : list Reg) : conn unit :=
  match rs with
  | [] => cret tt
  | RegFunction name req resp key cap cell :: rs =>
      let* r := do_expose name req resp key cap in
      do* match r with Ok (ring, _, _) => rebind cell ring | Err _ => cret tt end in
      replay_functions rs
  | _ :: rs => replay_functions rs
  end.

Definition replay : conn (io_result unit) :=
  let* i := get_inner in
  let regs := snd <$> map_to_list (i_registry i) in
  do* replay_channels regs in
  do* replay_functions regs in
  cret (Ok tt).

Definition reconnect (failed_epoch : Z) : conn (io_result unit) :=
  let* i := get_inner in
  if negb (t_epoch (i_transport i) =? failed_epoch) then cret (Ok tt) else
  let+ transport := clift (bootstrap (i_reply_cap i)) in
  do* modify (set_pending ∅) in
  do* clift (drop_segments ((fun c => r_seg (cal_ring (snd c))) <$> map_to_list (i_callees i))) in
  do* modify (set_callees ∅) in
  do* clift (do! drop_segment (t_control_seg (i_transport i)) in
             drop_segment (t_reply_seg (i_transport i))) in
  do* modify (set_transport transport) in
  let+ _ := do_register in
  let+ _ := replay in
  cret (Ok tt).

Definition with_reconnect {T} (op : conn (io_result T)) : conn (io_result T) :=
  let* r := op in
  match r with
  | Ok v => cret (Ok v)
  | Err e =>
      let* i := get_inner in
      if negb (i_auto_reconnect i) || negb (broker_unreachable e) then cret (Err e) else
      let observed := t_epoch (i_transport i) in
      let* live := clift live_broker_epoch in
      match live with
      | Ok live =>
          if live =? observed then cret (Err e) else
          let+ _ := reconnect observed in
          op
      | Err _ => cret (Err e)
      end
  end.

(** ** Messages without an answer *)

Definition send_unpublish (channel : string) : conn unit :=
  let* corr := clift next_corr in
  let* i := get_inner in
  let* r := clift (lift (to_frame KUnpublish
              (MkUnpublish corr (t_client_id (i_transport i)) channel))) in
  match r with
  | Ok frame => do* submit frame RELEASE_TIMEOUT in cret tt
  | Err _ => cret tt
  end.

Definition send_unregister : conn unit :=
  let* corr := clift next_corr in
  let* i := get_inner in
  let* r := clift (lift (to_frame KUnregister
              (MkUnregister corr (t_client_id (i_transport i))))) in
  match r with
  | Ok frame => do* submit frame RELEASE_TIMEOUT in cret tt
  | Err _ => cret tt
  end.

(** ** The background threads *)

(** Routing one frame: the part of the dispatcher after the pop. *)
Definition route (bytes : list byte) : conn unit :=
  match decode bytes with
  | Err _ => cret tt
  | Ok frame =>
      let* r := clift (lift (correlation_id frame)) in
      match r with
      | Err _ => cret tt
      | Ok corr =>
          let* slot := locked (take_pending corr) in
          match slot with
          | Some slot => modify (complete slot frame)
          | None => cret tt
          end
      end
  end.

(** One turn of [run_dispatcher]. *)
Definition dispatch_turn : conn unit :=
  let* i := get_inner in
  let* bytes := clift (pop_blocking (t_reply_ring (i_transport i)) (Some DISPATCH_TIMEOUT)) in
  match bytes with Some bytes => route bytes | None => cret tt end.

(** One turn of [run_watcher]; the sleep is one tick. *)
Definition watch_turn : conn unit :=
  do* clift yield in
  let* i := get_inner in
  if negb (i_running i) || negb (i_auto_reconnect i) then cret tt else
  let observed := t_epoch (i_transport i) in
  let* live := clift live_broker_epoch in
  match live with
  | Ok live =>
      if live =? observed then cret tt else
      do* reconnect observed in cret tt
  | Err _ => cret tt
  end.

(** [while inner.running]: [turns] bounds the number of turns looked at. *)
Fixpoint run_thread (turn : conn unit) (turns : nat) : conn unit :=
  let* i := get_inner in
  if negb (i_running i) then cret tt else
  match turns with
  | O => fun _ _ => Starved
  | S turns => do* turn in run_thread turn turns
  end.

Definition run_dispatcher (turns : nat) : conn unit := run_thread dispatch_turn turns.
Definition run_watcher (turns : nat) : conn unit := run_thread watch_turn turns.

(** [Inner::connect] *)
Definition connect_inner (app_name : string) (reply_cap : Z) : prog (io_result Inner) :=
  let? transport := bootstrap reply_cap in
  let! (r, i) := do_register (start_inner app_name reply_cap transport) in
  match r with
  | Ok _ => ret (Ok i)
  | Err e =>
      do! drop_segment (t_control_seg (i_transport i)) in
      do! drop_segment (t_reply_seg (i_transport i)) in
      ret (Err e)
  end.
End client.
