(* ===== verification/Rpc.v ===== *)
(** * Calls and services (crates/connector/src/rpc.rs)

    The future of a call and the executor that drives it, the function that answers one
    request, the delivery of the answer, and the worker pool behind an exposed function.

    The pool is shared by the reader thread and its workers. It is a transition system:
    each transition is what one thread does under one lock, so any interleaving of the
    threads is a sequence of transitions. *)

From S2P Require Import Prelude Machine Shm Ring Frame Control Util Avro Proto Registry Broker Client.

Definition REPLY_TIMEOUT : Z := 2 * 1000 * MILLIS.
Definition SERVICE_POLL : Z := 100 * MILLIS.
Definition DEFAULT_SERVICE_WORKERS : Z := 64.

(** ** The future of a call *)

Record CallFuture `{Avro} : Type := MkCallFuture {
  cf_slot : nat;
  cf_resp_schema : Schema;
  cf_expected_resp_fp : Z;
  cf_corr : Z;
}.

(** [notified.swap(false)] *)
Definition take_notified (w : nat) (i : Inner) : bool * Inner :=
  (default false (i_wakers i !! w), set_wakers (<[w := false]> (i_wakers i)) i).

(** A new [ThreadWaker]. *)
Definition new_waker (i : Inner) : nat * Inner :=
  (length (i_wakers i), set_wakers (i_wakers i ++ [false]) i).

Section call.
Context `{ProtoSerde} (others : conn unit).

Definition decode_response {Resp} `{!Serde Resp} (fut : CallFuture) (frame : Frame)
  : outcome (io_result Resp) :=
  obind (from_frame KRpcResponse frame) (fun r : io_result RpcResponse => Done
    match r with
    | Err e => Err e
    | Ok resp =>
        if negb (rpc_response_status resp =? STATUS_OK) then
          Err (io_other ("remote function error (" +:+ dec (rpc_response_status resp) +:+ "): "
                 +:+ rpc_response_message resp))
        else
        let got := i64_to_fp (rpc_response_result_fp resp) in
        if negb (got =? cf_expected_resp_fp fut) then
          Err (io_other ("response schema mismatch: expected " +:+ hex_alt (cf_expected_resp_fp fut)
                 +:+ ", got " +:+ hex_alt got))
        else avro_decode (cf_resp_schema fut) (rpc_response_result resp)
    end).

(** [impl Drop for CallFuture] *)
Definition drop_future (fut : CallFuture) : conn unit := modify (drop_pending (cf_corr fut)).

(** [impl Future for CallFuture] *)
Definition poll_future {Resp} `{!Serde Resp} (fut : CallFuture) (w : nat)
  : conn (option (io_result Resp)) :=
  let* f := locked (poll (cf_slot fut) w) in
  match f with
  | Some frame => let* r := clift (lift (decode_response fut frame)) in cret (Some r)
  | None => cret None
  end.

(** The loop of [block_on]; parking is one tick, in which the other threads run. *)
Fixpoint block_loop {Resp} `{!Serde Resp} (fuel : nat) (fut : CallFuture) (w : nat) (deadline : Z)
  : conn (option (io_result Resp)) :=
  match fuel with
  | O => fun _ _ => Starved
  | S fuel =>
      let* v := poll_future fut w in
      match v with
      | Some v => cret (Some v)
      | None =>
          let* t := clift now in
          if deadline <=? t then cret None else
          let* notified := locked (take_notified w) in
          if (notified : bool) then block_loop fuel fut w deadline
          else
            do* clift yield in
            do* others in
            block_loop fuel fut w deadline
      end
  end.

(** [block_on] consumes the future, which is dropped at the end. A round that finds the
    flag set takes no tick, and the next round that does not sleep needs a new
    notification, which takes a tick to come: hence the factor two. *)
Definition block_on {Resp} `{!Serde Resp} (fut : CallFuture) (timeout : Z)
  : conn (option (io_result Resp)) :=
  let* w := locked new_waker in
  let* v := (fun i wd =>
    block_loop (2 * S (length (w_ticks wd))) fut w (w_now wd + timeout) i wd) in
  do* drop_future fut in
  cret v.

(** ** Answering a request *)

Definition err_response (correlation_id code : Z) (msg : string) : RpcResponse :=
  MkRpcResponse correlation_id code msg 0 [].

Definition handle_one {Req Resp} `{!Serde Req, !Serde Resp} (req : RpcRequest)
    (req_schema resp_schema : Schema) (req_fp resp_fp : Z) (handler : Req -> outcome Resp)
  : outcome RpcResponse :=
  if negb (i64_to_fp (rpc_request_arg_fp req) =? req_fp) then
    Done (err_response (rpc_request_correlation_id req) ERR_SCHEMA_MISMATCH
            "request schema mismatch")
  else
  match avro_decode req_schema (rpc_request_args req) with
  | Err e => Done (err_response (rpc_request_correlation_id req) ERR_INTERNAL
                     ("bad args: " +:+ err_msg e))
  | Ok decoded =>
      obind (handler decoded) (fun result => Done
        match avro_encode resp_schema result with
        | Ok body => MkRpcResponse (rpc_request_correlation_id req) STATUS_OK "" (fp_to_i64 resp_fp) body
        | Err e => err_response (rpc_request_correlation_id req) ERR_INTERNAL
                     ("encode failed: " +:+ err_msg e)
        end)
  end.

(** The type-erased [Serve] of a pool. *)
Definition Serve : Type := RpcRequest -> outcome RpcResponse.

(** [catch_unwind] around [serve]: a panic becomes an error response. *)
Definition answer (serve : Serve) (req : RpcRequest) : outcome RpcResponse :=
  match serve req with
  | Panicked _ => Done (err_response (rpc_request_correlation_id req) ERR_INTERNAL "handler panicked")
  | o => o
  end.

(** [send_response]: the worker's cache of reply rings is its state. *)
Definition send_response (cache : gmap string Ring) (reply_segment : string) (response : RpcResponse)
  : prog (gmap string Ring * io_result unit) :=
  let! r :=
    match cache !! reply_segment with
    | Some ring => ret (Ok ring)
    | None => attach_arena reply_segment
    end in
  match r with
  | Err e => ret (cache, Err e)
  | Ok ring =>
      let cache := <[reply_segment := ring]> cache in
      let! r := lift (to_frame KRpcResponse response) in
      match r with
      | Err e => ret (cache, Err e)
      | Ok frame =>
          let! ok := push_blocking ring (encode frame) (Some REPLY_TIMEOUT) in
          if ok then ret (cache, Ok tt)
          else ret (cache, Err (io_other "caller reply ring full"))
      end
  end.

(** A worker's job: answer, and deliver the answer. *)
Definition serve_job (serve : Serve) (cache : gmap string Ring) (req : RpcRequest)
  : prog (gmap string Ring) :=
  let! response := lift (answer serve req) in
  let! (cache, _) := send_response cache (rpc_request_reply_segment req) response in
  ret cache.

(** One turn of the reader thread of [spawn_service]: the request it hands to the pool,
    if it read one. *)
Definition read_request (ring : Ring) : prog (option RpcRequest) :=
  let! bytes := pop_blocking ring (Some SERVICE_POLL) in
  match bytes with
  | None => ret None
  | Some bytes =>
      match decode bytes with
      | Err _ => ret None
      | Ok frame =>
          let! r := lift (from_frame KRpcRequest frame) in
          match r with
          | Ok req => ret (Some req)
          | Err _ => ret None
          end
      end
  end.
End call.

(** ** The worker pool *)

(** Where a worker thread is. [WLocked], [WParking] and [WWaking] hold the queue mutex. *)
Inductive wstate : Type :=
| WStart                    (** about to lock the queue *)
| WLocked                   (** at the top of the inner loop *)
| WParking                  (** about to count itself idle and wait *)
| WIdle                     (** waiting on the condition variable, queue unlocked *)
| WWaking                   (** awake with the queue locked, still counted as idle *)
| WBusy (job : RpcRequest)  (** answering *)
| WLeaving                  (** out of the loop, still counted as a worker *)
| WGone.

(** The reader is between requests, or has queued one and not looked at the counts. *)
Inductive rstate : Type := RReady | RQueued.

Record Pool : Type := MkPool {
  p_queue : list RpcRequest;
  p_workers : Z;
  p_idle_workers : Z;
  p_max_workers : Z;
  p_running : bool;
  p_reader : rstate;
  p_threads : list wstate;
  p_answered : list RpcRequest;
}.

(** [spawn_service] before any request. *)
Definition new_pool (max_workers : Z) : Pool :=
  MkPool [] 0 0 (Z.max max_workers 1) true RReady [] [].

Definition holds_queue (t : wstate) : bool :=
  match t with WLocked | WParking | WWaking => true | _ => false end.

Definition queue_free (p : Pool) : bool := forallb (fun t => negb (holds_queue t)) (p_threads p).

Inductive pool_event : Type :=
| EvArrive (job : RpcRequest)  (** [submit]: the queue's critical section *)
| EvCount                      (** [submit]: the counts' critical section, and the spawn *)
| EvWorker (n : nat)           (** the next move of worker [n] *)
| EvStop.                      (** [running] is cleared *)

Definition set_thread (n : nat) (t : wstate) (p : Pool) : Pool :=
  MkPool (p_queue p) (p_workers p) (p_idle_workers p) (p_max_workers p) (p_running p) (p_reader p)
    (<[n := t]> (p_threads p)) (p_answered p).
Definition set_counts (workers idle : Z) (p : Pool) : Pool :=
  MkPool (p_queue p) workers idle (p_max_workers p) (p_running p) (p_reader p) (p_threads p)
    (p_answered p).

(** [Pool::submit], second part. *)
Definition count_and_spawn (p : Pool) : Pool :=
  let spawn := (p_idle_workers p =? 0) && (p_workers p <? p_max_workers p) in
  if spawn then
    MkPool (p_queue p) (p_workers p + 1) (p_idle_workers p) (p_max_workers p) (p_running p) RReady
      (p_threads p ++ [WStart]) (p_answered p)
  else
    MkPool (p_queue p) (p_workers p) (p_idle_workers p) (p_max_workers p) (p_running p) RReady
      (p_threads p) (p_answered p).

(** [Pool::work], one move of worker [n] in state [t]. *)
Definition work_move (n : nat) (t : wstate) (p : Pool) : option Pool :=
  match t with
  | WStart => if queue_free p then Some (set_thread n WLocked p) else None
  | WLocked =>
      match p_queue p with
      | job :: queue =>
          Some (MkPool queue (p_workers p) (p_idle_workers p) (p_max_workers p) (p_running p)
                  (p_reader p) (<[n := WBusy job]> (p_threads p)) (p_answered p))
      | [] =>
          if negb (p_running p) then Some (set_thread n WLeaving p)
          else Some (set_thread n WParking p)
      end
  | WParking => Some (set_thread n WIdle (set_counts (p_workers p) (p_idle_workers p + 1) p))
  | WIdle => if queue_free p then Some (set_thread n WWaking p) else None
  | WWaking => Some (set_thread n WLocked (set_counts (p_workers p) (p_idle_workers p - 1) p))
  | WBusy job =>
      Some (MkPool (p_queue p) (p_workers p) (p_idle_workers p) (p_max_workers p) (p_running p)
              (p_reader p) (<[n := WStart]> (p_threads p)) (p_answered p ++ [job]))
  | WLeaving => Some (set_thread n WGone (set_counts (p_workers p - 1) (p_idle_workers p) p))
  | WGone => None
  end.

Definition pool_next (e : pool_event) (p : Pool) : option Pool :=
  match e with
  | EvArrive job =>
      match p_reader p with
      | RReady =>
          if queue_free p then
            Some (MkPool (p_queue p ++ [job]) (p_workers p) (p_idle_workers p) (p_max_workers p)
                    (p_running p) RQueued (p_threads p) (p_answered p))
          else None
      | RQueued => None
      end
  | EvCount => match p_reader p with RQueued => Some (count_and_spawn p) | RReady => None end
  | EvWorker n => t ← p_threads p !! n; work_move n t p
  | EvStop =>
      Some (MkPool (p_queue p) (p_workers p) (p_idle_workers p) (p_max_workers p) false (p_reader p)
              (p_threads p) (p_answered p))
  end.

Fixpoint pool_run (es : list pool_event) (p : Pool) : option Pool :=
  match es with
  | [] => Some p
  | e :: es => p ← pool_next e p; pool_run es p
  end.

Inductive pool_step (p : Pool) : Pool -> Prop :=
| pool_step_event e p' : pool_next e p = Some p' -> pool_step p p'.
