(* ===== verification/Connection.v ===== *)
(** * Channels and connections (crates/connector/src/channel.rs, lib.rs)

    The publisher and the subscriber of a channel, and the public operations of a
    connection. *)

From S2P Require Import Prelude Machine Shm Ring Frame Control Util Avro Proto Registry Broker Client Rpc.

Definition PUBLISH_TIMEOUT : Z := 1 * 1000 * MILLIS.
Definition CALL_PUSH_TIMEOUT : Z := 2 * 1000 * MILLIS.

Record Publisher `{Avro} : Type := MkPublisher {
  pub_ring : nat;
  pub_schema : Schema;
  pub_schema_fp : Z;
  pub_channel : string;
  pub_reg_id : Z;
}.

Record Subscriber `{Avro} : Type := MkSubscriber {
  sub_ring : nat;
  sub_schema : Schema;
  sub_schema_fp : Z;
}.

(** A running service: the cell its reader thread reads from, and its pool. *)
Record Service : Type := MkService {
  sv_ring : nat;
  sv_serve : Serve;
  sv_pool : Pool;
}.

(** [cell.read().unwrap().clone()]; every cell in use exists. *)
Definition read_cell (cell : nat) : conn Ring := fun i =>
  match i_cells i !! cell with
  | Some r => ret (r, i)
  | None => undefined "no such cell"
  end.

(** The connection itself: its shared state, and the setting for later services. Its
    threads are the dispatcher, the watcher and the readers of its services. *)
Record Connection : Type := MkConnection {
  c_inner : Inner;
  c_service_workers : Z;
}.

(** [Connection::reply_capacity], [id], [broker_epoch] and [auto_reconnect] *)
Definition reply_capacity (c : Connection) : Z := capacity (t_reply_ring (i_transport (c_inner c))).
Definition connection_id (c : Connection) : Z := u64 (t_client_id (i_transport (c_inner c))).
Definition connection_epoch (c : Connection) : Z := t_epoch (i_transport (c_inner c)).
Definition auto_reconnect (c : Connection) : bool := i_auto_reconnect (c_inner c).

(** [Connection::set_service_workers] *)
Definition set_service_workers (workers : Z) (c : Connection) : Connection :=
  MkConnection (c_inner c) (Z.max workers 1).

(** [spawn_service] up to its threads: the service before its first request. *)
Definition spawn_service (req_ring : nat) (serve : Serve) (max_workers : Z) : Service :=
  MkService req_ring serve (new_pool max_workers).

(** A turn of the service's reader: what it read goes to the pool. *)
Definition reader_turn `{ProtoSerde} (sv : Service) : conn (list pool_event) :=
  let* ring := read_cell (sv_ring sv) in
  let* req := clift (read_request ring) in
  match req with
  | Some req => cret [EvArrive req; EvCount]
  | None => cret []
  end.

Section connection.
Context `{ProtoSerde} (others : conn unit).

Definition connect_with_reply_cap (app_name : string) (reply_cap : Z) : prog (io_result Connection) :=
  let? inner := connect_inner others app_name reply_cap in
  ret (Ok (MkConnection inner DEFAULT_SERVICE_WORKERS)).

Definition connect (app_name : string) : prog (io_result Connection) := connect_with_reply_cap app_name 0.

(** ** Channels *)

(** [Publisher::capacity] and [Subscriber::capacity] *)
Definition pub_capacity (p : Publisher) : conn Z :=
  let* r := read_cell (pub_ring p) in cret (capacity r).
Definition sub_capacity (s : Subscriber) : conn Z :=
  let* r := read_cell (sub_ring s) in cret (capacity r).

Definition publish {T} `{!Serde T} (p : Publisher) (msg : T) : conn (io_result unit) :=
  let+ body := cret (avro_encode (pub_schema p) msg) in
  let frame := new (pub_schema_fp p) body in
  let* ring := read_cell (pub_ring p) in
  let* ok := clift (push_blocking ring (encode frame) (Some PUBLISH_TIMEOUT)) in
  if negb ok then cret (Err (io_other "channel full (slow subscriber)")) else cret (Ok tt).

Definition try_publish {T} `{!Serde T} (p : Publisher) (msg : T) : conn (io_result bool) :=
  let+ body := cret (avro_encode (pub_schema p) msg) in
  let frame := new (pub_schema_fp p) body in
  let* ring := read_cell (pub_ring p) in
  let* ok := clift (try_push ring (encode frame)) in
  cret (Ok ok).

(** [impl Drop for Publisher] *)
Definition drop_publisher (p : Publisher) : conn unit :=
  do* modify (deregister (pub_reg_id p)) in
  send_unpublish (pub_channel p).

Definition recv {T} `{!Serde T} (s : Subscriber) (timeout : Z) : conn (io_result (option T)) :=
  let* ring := read_cell (sub_ring s) in
  let* bytes := clift (pop_blocking ring (Some timeout)) in
  match bytes with
  | None => cret (Ok None)
  | Some bytes =>
      let+ frame := cret (decode bytes) in
      if negb (schema_fp frame =? sub_schema_fp s) then
        cret (Err (io_other ("message schema mismatch: expected " +:+ hex_alt (sub_schema_fp s)
                     +:+ ", got " +:+ hex_alt (schema_fp frame))))
      else
        let+ value := cret (avro_decode (sub_schema s) (body frame)) in
        cret (Ok (Some value))
  end.

(** ** Connections *)

Definition publish_channel_with_arena (name schema_json : string) (key : option string)
    (arena_cap : Z) : conn (io_result Publisher) :=
  let+ (schema, _) := cret (parse schema_json) in
  let arena_cap := i64 arena_cap in
  let+ (ring, fp) := with_reconnect others (do_publish others name schema_json key arena_cap) in
  let* cell := locked (new_cell ring) in
  let* id := locked (register_entry (RegChannel name schema_json key arena_cap cell)) in
  cret (Ok (MkPublisher _ cell schema fp name id)).

Definition publish_channel (name schema_json : string) (key : option string)
  : conn (io_result Publisher) := publish_channel_with_arena name schema_json key 0.

Definition list_channels_of_bus : conn (io_result (list ChannelInfo)) :=
  with_reconnect others (do_list_channels others).

Definition subscribe (channel_id : Z) (key : option string) (expected_schema_json : string)
  : conn (io_result Subscriber) :=
  let+ (schema, expected_fp) := cret (parse expected_schema_json) in
  let+ (ring, fp) := with_reconnect others (do_subscribe others channel_id key expected_fp) in
  let* cell := locked (new_cell ring) in
  cret (Ok (MkSubscriber _ cell schema fp)).

Definition function_capacity (fn_name : string) (key : option string) : conn (io_result Z) :=
  with_reconnect others (function_arena_capacity others fn_name key).

(** [expose_function_with_arena]; [service_workers] is the setting of the connection. *)
Definition expose_function_with_arena {Req Resp} `{!Serde Req, !Serde Resp}
    (name req_schema_json resp_schema_json : string) (key : option string) (req_arena_cap : Z)
    (handler : Req -> outcome Resp) (service_workers : Z) : conn (io_result Service) :=
  let+ (req_schema, _) := cret (parse req_schema_json) in
  let+ (resp_schema, _) := cret (parse resp_schema_json) in
  let arena_cap := i64 req_arena_cap in
  let+ (ring, req_fp, resp_fp) :=
    with_reconnect others (do_expose others name req_schema_json resp_schema_json key arena_cap) in
  let* cell := locked (new_cell ring) in
  do* locked (register_entry
        (RegFunction name req_schema_json resp_schema_json key arena_cap cell)) in
  cret (Ok (spawn_service cell
    (fun req => handle_one req req_schema resp_schema req_fp resp_fp handler) service_workers)).

Definition expose_function {Req Resp} `{!Serde Req, !Serde Resp} (name req_schema_json resp_schema_json : string)
    (key : option string) (handler : Req -> outcome Resp) (service_workers : Z) : conn (io_result Service) :=
  expose_function_with_arena name req_schema_json resp_schema_json key 0 handler service_workers.

(** [Connection::call]. An error of [to_frame] returns with the slot still pending. *)
Definition call {Req} `{!Serde Req} (fn_name : string) (key : option string) (req : Req)
    (req_schema_json resp_schema_json : string) : conn (io_result CallFuture) :=
  let+ (req_schema, arg_fp) := cret (parse req_schema_json) in
  let+ (resp_schema, expected_resp_fp) := cret (parse resp_schema_json) in
  let+ c := matching_callee others fn_name key arg_fp expected_resp_fp in
  let+ args := cret (avro_encode req_schema req) in
  let* rpc_corr := clift next_corr in
  let* slot := locked (register rpc_corr) in
  let* i := get_inner in
  let rpc_req := MkRpcRequest rpc_corr (t_client_id (i_transport i))
                   (t_reply_segment (i_transport i)) (fp_to_i64 arg_fp) args in
  let+ req_frame := clift (lift (to_frame KRpcRequest rpc_req)) in
  let* ok := clift (push_blocking (cal_ring c) (encode req_frame) (Some CALL_PUSH_TIMEOUT)) in
  if negb ok then
    do* modify (drop_pending rpc_corr) in
    do* forget_callee fn_name key in
    cret (Err (io_other "function request ring full"))
  else cret (Ok (MkCallFuture _ slot resp_schema expected_resp_fp rpc_corr)).

(** The closure [attempt] of [call_blocking]. *)
Definition call_attempt {Req Resp} `{!Serde Req, !Serde Resp} (fn_name : string)
    (key : option string) (req : Req) (req_schema_json resp_schema_json : string) (timeout : Z)
  : conn (io_result Resp) :=
  let+ fut := call fn_name key req req_schema_json resp_schema_json in
  let* r := block_on others fut timeout in
  match r with
  | Some res => cret res
  | None => cret (Err (IoError TimedOut None "rpc call timed out"))
  end.

Definition call_blocking {Req Resp} `{!Serde Req, !Serde Resp} (fn_name : string)
    (key : option string) (req : Req) (req_schema_json resp_schema_json : string) (timeout : Z)
  : conn (io_result Resp) :=
  with_reconnect others (
    let* r := call_attempt fn_name key req req_schema_json resp_schema_json timeout in
    match r with
    | Err e =>
        if bool_decide (err_kind e = TimedOut) then
          do* forget_callee fn_name key in
          call_attempt fn_name key req req_schema_json resp_schema_json timeout
        else cret (Err e)
    | Ok v => cret (Ok v)
    end).

(** [impl Drop for Connection]: the threads see the cleared flag and are joined. *)
Definition drop_connection : conn unit :=
  do* send_unregister in
  modify (set_running false).
End connection.
