(* ===== verification/ClientThm.v ===== *)
(** * Reasoning about a connection

    What a [conn] keeps true of the connection's state, the invariant of a caller that
    awaits a reply, and the interleaving of the connection's threads. *)

From S2P Require Import Prelude Machine Shm Circ Ring RingMem RingSpec RingThm Frame Control Util Avro Proto Registry RegistryThm Broker BrokerThm BrokerOps Client.

(** ** The monad *)

Lemma cbind_done {A B} (p : conn A) (f : A -> conn B) i w a i1 w1 :
  p i w = Done ((a, i1), w1) -> cbind p f i w = f a i1 w1.
Proof. intros E. unfold cbind, bind. by rewrite E. Qed.

Lemma cbind_inv {A B} (p : conn A) (f : A -> conn B) i w r :
  cbind p f i w = Done r -> exists a i1 w1, p i w = Done ((a, i1), w1) /\ f a i1 w1 = Done r.
Proof.
  unfold cbind, bind. destruct (p i w) as [[[a i1] w1]| | |]; [|done..]. intros E. by exists a, i1, w1.
Qed.

Lemma clift_done {A} (p : prog A) i w a w1 :
  p w = Done (a, w1) -> clift p i w = Done ((a, i), w1).
Proof. intros E. unfold clift, bind. by rewrite E. Qed.

Lemma clift_inv {A} (p : prog A) i w a i1 w1 :
  clift p i w = Done ((a, i1), w1) -> p w = Done (a, w1) /\ i1 = i.
Proof. unfold clift, bind. destruct (p w) as [[x w2]| | |]; [|done..]. by intros [= -> -> ->]. Qed.

(** [p] keeps [P] true of the connection. *)
Definition keeps {A} (P : Inner -> Prop) (p : conn A) : Prop :=
  forall i w a i' w', P i -> p i w = Done ((a, i'), w') -> P i'.

Create HintDb keeps discriminated.

Section keeps.
Context (P : Inner -> Prop).

Lemma keeps_ret {A} (a : A) : keeps P (cret a).
Proof. intros i w a' i' w' Hi [= <- <- <-]. done. Qed.

Lemma keeps_bind {A B} (p : conn A) (f : A -> conn B) :
  keeps P p -> (forall a, keeps P (f a)) -> keeps P (cbind p f).
Proof.
  intros Hp Hf i w b i' w' Hi (a & i1 & w1 & E1 & E2)%cbind_inv. exact (Hf a _ _ _ _ _ (Hp _ _ _ _ _ Hi E1) E2).
Qed.

Lemma keeps_bind_io {A B} (p : conn (io_result A)) (f : A -> conn (io_result B)) :
  keeps P p -> (forall a, keeps P (f a)) -> keeps P (cbind_io p f).
Proof. intros Hp Hf. apply keeps_bind; [done|]. intros [a|e]; [apply Hf | apply keeps_ret]. Qed.

Lemma keeps_lift {A} (p : prog A) : keeps P (clift p).
Proof. intros i w a i' w' Hi [_ ->]%clift_inv. done. Qed.

Lemma keeps_get : keeps P get_inner.
Proof. intros i w a i' w' Hi [= _ <- _]. done. Qed.

Lemma keeps_modify f : (forall i, P i -> P (f i)) -> keeps P (modify f).
Proof. intros Hf i w a i' w' Hi [= _ <- _]. auto. Qed.

Lemma keeps_locked {A} (f : Inner -> A * Inner) :
  (forall i, P i -> P (snd (f i))) -> keeps P (locked f).
Proof.
  intros Hf i w a i' w' Hi. unfold locked, ret. intros [= E _]. specialize (Hf i Hi). by rewrite E in Hf.
Qed.
End keeps.

#[export] Hint Resolve keeps_ret keeps_bind keeps_bind_io keeps_lift keeps_get : keeps.

(** ** Awaiting a reply *)

(** Slot [s] was registered for the correlation id [c]: it is pending under [c] and no
    other id, and a frame in it carries [c] and arrived after the slot left the table. *)
Record awaiting (s : nat) (c : Z) `{ProtoSerde} (i : Inner) : Prop := {
  aw_slot : (s < length (i_slots i))%nat;
  aw_id : i_pending i !! c = None \/ i_pending i !! c = Some s;
  aw_only : forall c', i_pending i !! c' = Some s -> c' = c;
  aw_frame : forall f w, i_slots i !! s = Some (MkSlotState (Some f) w) ->
    correlation_id f = Done (Ok c) /\ i_pending i !! c = None;
}.

(** Every pending slot exists. *)
Definition pending_wf (i : Inner) : Prop :=
  forall c s, i_pending i !! c = Some s -> (s < length (i_slots i))%nat.

Lemma lookup_insert_list {A} (l : list A) (n m : nat) (x : A) :
  (n < length l)%nat -> <[n := x]> l !! m = if decide (n = m) then Some x else l !! m.
Proof.
  intros Hn. destruct (decide (n = m)) as [<-|Hm].
  - by apply list_lookup_insert_eq.
  - by apply list_lookup_insert_ne.
Qed.

Section awaiting.
Context `{ProtoSerde}.

Lemma register_awaiting c i :
  pending_wf i -> awaiting (fst (register c i)) c (snd (register c i)).
Proof.
  intros Hwf. simpl. split; simpl.
  - rewrite length_app; simpl; lia.
  - right. by rewrite lookup_insert_eq.
  - intros c' E. destruct (decide (c = c')) as [<-|Hc]; [done|].
    rewrite lookup_insert_ne in E by done. apply Hwf in E. lia.
  - intros f w E. rewrite lookup_app_r in E by lia. rewrite Nat.sub_diag in E. done.
Qed.

Lemma register_wf c i : pending_wf i -> pending_wf (snd (register c i)).
Proof.
  intros Hwf c' s. simpl. rewrite length_app. simpl. intros E.
  destruct (decide (c = c')) as [<-|Hc].
  - rewrite lookup_insert_eq in E. injection E as <-. lia.
  - rewrite lookup_insert_ne in E by done. apply Hwf in E. lia.
Qed.

Lemma drop_pending_awaiting s c c' i : awaiting s c i -> awaiting s c (drop_pending c' i).
Proof.
  intros [H1 H2 H3 H4]. split; simpl; [done | | |].
  - destruct (decide (c' = c)) as [->|Hc]; [rewrite lookup_delete_eq; by left|].
    by rewrite lookup_delete_ne.
  - intros c2 [_ E]%lookup_delete_Some. auto.
  - intros f w E. destruct (H4 f w E) as [-> Hn]. split; [done|].
    rewrite lookup_delete_None. auto.
Qed.

Lemma complete_slots s f i :
  i_pending (complete s f i) = i_pending i /\ length (i_slots (complete s f i)) = length (i_slots i) /\
  i_slots (complete s f i) =
    match i_slots i !! s with Some _ => <[s := MkSlotState (Some f) None]> (i_slots i) | None => i_slots i end.
Proof.
  unfold complete. destruct (i_slots i !! s) as [[fr [w|]]|]; simpl; rewrite ?length_insert; done.
Qed.

(** The two critical sections of the dispatcher, in a row. *)
Lemma deliver_awaiting s c c' s' f i :
  awaiting s c i -> correlation_id f = Done (Ok c') -> i_pending i !! c' = Some s' ->
  awaiting s c (complete s' f (drop_pending c' i)).
Proof.
  intros Ha Ef Ep. destruct (complete_slots s' f (drop_pending c' i)) as (E1 & E2 & E3).
  pose proof (drop_pending_awaiting s c c' i Ha) as [H1 H2 H3 H4].
  split; rewrite ?E1, ?E2; [done..|]. intros g w. rewrite E3.
  destruct (i_slots (drop_pending c' i) !! s') eqn:Es'; [|apply H4].
  rewrite lookup_insert_list by (by eapply lookup_lt_Some). case_decide as Hd.
  - subst s'. intros [= -> <-]. assert (c' = c) as -> by (by apply Ha). split; [done|].
    simpl. by rewrite lookup_delete_eq.
  - apply H4.
Qed.

Lemma route_keeps s c bytes : keeps (awaiting s c) (route bytes).
Proof.
  unfold route. destruct (decode bytes) as [f|e]; [|apply keeps_ret].
  intros i w a i' w' Hi E.
  apply cbind_inv in E as (r & i1 & w1 & [E1 ->]%clift_inv & E).
  assert (correlation_id f = Done r) as Ef.
  { unfold lift in E1. destruct (correlation_id f); [|done..]. by injection E1 as -> _. }
  destruct r as [c'|e]; [|by injection E as _ <- _].
  apply cbind_inv in E as (sl & i2 & w2 & [= <- <- <-] & E).
  destruct (i_pending i !! c') as [s'|] eqn:Ep; simpl in E.
  - injection E as _ <- _. by apply deliver_awaiting.
  - injection E as _ <- _. by apply drop_pending_awaiting.
Qed.

Lemma dispatch_keeps s c : keeps (awaiting s c) dispatch_turn.
Proof.
  unfold dispatch_turn. apply keeps_bind; [auto with keeps|]. intros i.
  apply keeps_bind; [auto with keeps|]. intros [bytes|]; [apply route_keeps | apply keeps_ret].
Qed.

Lemma take_frame_awaiting s c s' i : awaiting s c i -> awaiting s c (snd (take_frame s' i)).
Proof.
  intros [H1 H2 H3 H4]. unfold take_frame.
  destruct (i_slots i !! s') as [[[f|] w]|] eqn:E; simpl; [|done..].
  split; simpl; rewrite ?length_insert; [done..|]. intros g v.
  rewrite lookup_insert_list by (by eapply lookup_lt_Some). case_decide; [done | apply H4].
Qed.

(** What a wait returns. *)
Lemma wait_loop_own others s c fuel tmo since i w f i' w' :
  keeps (awaiting s c) others -> awaiting s c i ->
  wait_loop others fuel s tmo since i w = Done ((f, i'), w') ->
  awaiting s c i' /\
  forall g, f = Some g -> correlation_id g = Done (Ok c) /\ i_pending i' !! c = None.
Proof.
  intros Ho. revert since i w. induction fuel as [|fuel IH]; intros since i w Hi E; [done|].
  assert (forall i w f i' w', awaiting s c i -> locked (take_frame s) i w = Done ((f, i'), w') ->
    awaiting s c i' /\ forall g, f = Some g -> correlation_id g = Done (Ok c) /\ i_pending i' !! c = None) as Ht.
  { clear. intros i w f i' w' Hi [= E <-]. pose proof (take_frame_awaiting s c s i Hi) as Ha.
    rewrite E in Ha. split; [done|]. intros g ->. unfold take_frame in E.
    destruct (i_slots i !! s) as [[[h|] v]|] eqn:Es; injection E as E1 E2;
      [|discriminate E1..].
    subst. by apply (aw_frame s c i Hi g v). }
  simpl in E. apply cbind_inv in E as (f0 & i1 & w1 & E1 & E). apply Ht in E1 as [Hi1 Hf]; [|done].
  destruct f0 as [f0|]; [injection E as <- <- <-; auto|].
  apply cbind_inv in E as (u & i2 & w2 & [_ ->]%clift_inv & E).
  apply cbind_inv in E as (u' & i3 & w3 & Eo & E). specialize (Ho _ _ _ _ _ Hi1 Eo).
  apply cbind_inv in E as (t & i4 & w4 & [_ ->]%clift_inv & E).
  destruct (_ <=? t); [by apply (Ht _ _ _ _ _ Ho E) | by apply (IH _ _ _ Ho E)].
Qed.
End awaiting.

(** ** All interleavings of the connection's threads *)

(** The shared state, the dispatcher between its two locks, and for the statements the
    id each slot was made for and the slots that were completed. *)
Record shared : Type := MkShared {
  sh_inner : Inner;
  sh_dispatch : option (Frame * nat);
  sh_owner : list Z;
  sh_delivered : list nat;
}.

(** One critical section of one thread. *)
Inductive shared_step `{ProtoSerde} : shared -> shared -> Prop :=
| st_register c i d o v :
    shared_step (MkShared i d o v) (MkShared (snd (register c i)) d (o ++ [c]) v)
| st_lookup f c s i o v :
    correlation_id f = Done (Ok c) -> fst (take_pending c i) = Some s ->
    shared_step (MkShared i None o v) (MkShared (snd (take_pending c i)) (Some (f, s)) o v)
| st_complete f s i o v :
    shared_step (MkShared i (Some (f, s)) o v) (MkShared (complete s f i) None o (v ++ [s]))
| st_take s i d o v : shared_step (MkShared i d o v) (MkShared (snd (take_frame s i)) d o v)
| st_poll s n i d o v : shared_step (MkShared i d o v) (MkShared (snd (poll s n i)) d o v)
| st_cancel c i d o v : shared_step (MkShared i d o v) (MkShared (drop_pending c i) d o v)
| st_clear i d o v : shared_step (MkShared i d o v) (MkShared (set_pending ∅ i) d o v).

Record shared_inv `{ProtoSerde} (h : shared) : Prop := {
  si_owner : length (sh_owner h) = length (i_slots (sh_inner h));
  si_pending : forall c s, i_pending (sh_inner h) !! c = Some s ->
    sh_owner h !! s = Some c /\ ~ (s ∈ sh_delivered h) /\ forall f, sh_dispatch h <> Some (f, s);
  si_dispatch : forall f s, sh_dispatch h = Some (f, s) ->
    exists c, sh_owner h !! s = Some c /\ correlation_id f = Done (Ok c) /\ ~ (s ∈ sh_delivered h);
  si_frame : forall s f w, i_slots (sh_inner h) !! s = Some (MkSlotState (Some f) w) ->
    exists c, sh_owner h !! s = Some c /\ correlation_id f = Done (Ok c);
  si_once : NoDup (sh_delivered h) /\ forall s, s ∈ sh_delivered h -> (s < length (sh_owner h))%nat;
}.

Section shared.
Context `{ProtoSerde}.

Lemma shared_inv_cells h i' :
  shared_inv h -> length (i_slots i') = length (i_slots (sh_inner h)) ->
  (forall c s, i_pending i' !! c = Some s -> i_pending (sh_inner h) !! c = Some s) ->
  (forall s f w, i_slots i' !! s = Some (MkSlotState (Some f) w) ->
     exists w, i_slots (sh_inner h) !! s = Some (MkSlotState (Some f) w)) ->
  shared_inv (MkShared i' (sh_dispatch h) (sh_owner h) (sh_delivered h)).
Proof.
  intros [H1 H2 H3 H4 H5] El Ep Es. split; simpl; [congruence | eauto | done | | done].
  intros s f w E. apply Es in E as [w' E]. eauto.
Qed.

Lemma shared_step_inv h h' : shared_inv h -> shared_step h h' -> shared_inv h'.
Proof.
  intros Hi Hs. destruct Hs as [c i d o v|f c s i o v Ef Ep|f s i o v|s i d o v|s n i d o v|c i d o v|i d o v].
  - destruct Hi as [H1 H2 H3 H4 [H5 H6]]. simpl in *.
    assert (forall s x, o !! s = Some x -> (o ++ [c]) !! s = Some x) as Ho.
    { intros s x E. rewrite lookup_app_l; [done | by eapply lookup_lt_Some]. }
    split; simpl.
    + rewrite !length_app. simpl. lia.
    + intros c' s. destruct (decide (c = c')) as [<-|Hc].
      * rewrite lookup_insert_eq. intros [= <-]. split_and!.
        -- rewrite lookup_app_r by lia. by rewrite H1, Nat.sub_diag.
        -- intros Hin. apply H6 in Hin. lia.
        -- intros f ->. destruct (H3 _ _ eq_refl) as (c2 & E%lookup_lt_Some & _). lia.
      * rewrite lookup_insert_ne by done. intros E. destruct (H2 _ _ E) as (E1 & E2). auto.
    + intros f s E. destruct (H3 f s E) as (c' & E1 & E2). eauto.
    + intros s f w E. destruct (lt_dec s (length (i_slots i))) as [Hl|Hl].
      * rewrite lookup_app_l in E by done. destruct (H4 s f w E) as (c' & E1 & E2). eauto.
      * rewrite lookup_app_r in E by lia.
        destruct (s - length (i_slots i))%nat as [|n]; [done | by destruct n].
    + split; [done|]. intros s Hin. rewrite length_app. apply H6 in Hin. simpl. lia.
  - destruct Hi as [H1 H2 H3 H4 H5]. simpl in *. destruct (H2 c s Ep) as (E1 & E2 & _).
    split; simpl; [done | | | done | done].
    + intros c' s' [Hc E]%lookup_delete_Some. destruct (H2 _ _ E) as (E3 & E4 & _).
      split_and!; [done | done|]. intros g [= _ <-]. congruence.
    + intros g s' [= <- <-]. eauto.
  - destruct (complete_slots s f i) as (E1 & E2 & E3).
    destruct Hi as [H1 H2 H3 H4 [H5 H6]]. simpl in *.
    destruct (H3 f s eq_refl) as (c & Eo & Ec & Hn).
    split; simpl; rewrite ?E1, ?E2; [done | | done | |].
    + intros c' s' E. destruct (H2 c' s' E) as (A1 & A2 & A3). split_and!; [done| |done].
      rewrite elem_of_app, list_elem_of_singleton. intros [?| ->]; [done|]. by apply (A3 f).
    + intros s' g w. rewrite E3. destruct (i_slots i !! s) eqn:Es; [|apply H4].
      rewrite lookup_insert_list by (by eapply lookup_lt_Some). case_decide as Hd; [|apply H4].
      subst s'. intros [= <- _]. eauto.
    + split.
      * apply list.NoDup_app. split_and!; [done | | apply NoDup_singleton].
        intros x Hx ->%list_elem_of_singleton. done.
      * intros x [Hx| ->%list_elem_of_singleton]%elem_of_app; [auto|]. by eapply lookup_lt_Some.
  - apply (shared_inv_cells _ _ Hi); simpl; unfold take_frame;
      destruct (i_slots i !! s) as [[[g|] w]|] eqn:Es; simpl; rewrite ?length_insert; try done; try eauto.
    intros s' f w'. rewrite lookup_insert_list by (by eapply lookup_lt_Some). case_decide; [done | eauto].
  - apply (shared_inv_cells _ _ Hi); simpl; unfold poll;
      destruct (i_slots i !! s) as [[[g|] w]|] eqn:Es; simpl; rewrite ?length_insert; try done; try eauto;
      intros s' f w'; rewrite lookup_insert_list by (by eapply lookup_lt_Some); case_decide; done || eauto.
  - apply (shared_inv_cells _ _ Hi); simpl; [done | | eauto]. intros c' s [_ E]%lookup_delete_Some. done.
  - apply (shared_inv_cells _ _ Hi); simpl; [done | | eauto]. intros c' s E. by rewrite lookup_empty in E.
Qed.
End shared.

(** ** What a round-trip does to the connection *)

(** [P] does not look at the pending table, the slots and the wakers. *)
Record routing_free (P : Inner -> Prop) : Prop := {
  rf_pending : forall p i, P i -> P (set_pending p i);
  rf_slots : forall s i, P i -> P (set_slots s i);
  rf_wakers : forall ws i, P i -> P (set_wakers ws i);
}.

Lemma wait_loop_keeps `{ProtoSerde} (P : Inner -> Prop) others s :
  keeps P (locked (take_frame s)) -> keeps P others ->
  forall fuel tmo since, keeps P (wait_loop others fuel s tmo since).
Proof.
  intros Ht Ho fuel tmo. induction fuel as [|fuel IH]; intros since0; [intros i w a i' w' _ [=]|]. simpl.
  apply keeps_bind; [done|]. intros [f|]; [auto with keeps|].
  apply keeps_bind; [auto with keeps|]. intros woken. apply keeps_bind; [done|]. intros _.
  apply keeps_bind; [auto with keeps|]. intros t. by destruct (_ <=? t).
Qed.

Section rounds.
Context `{ProtoSerde} (P : Inner -> Prop).
Hypothesis HP : routing_free P.

Lemma take_frame_free s i : P i -> P (snd (take_frame s i)).
Proof using HP.
  intros Hi. unfold take_frame. destruct (i_slots i !! s) as [[[f|] w]|]; simpl; [|done..].
  by apply (rf_slots P HP).
Qed.

Lemma complete_free s f i : P i -> P (complete s f i).
Proof using HP.
  intros Hi. unfold complete. destruct (i_slots i !! s) as [[fr [w|]]|]; [| |done].
  - by apply (rf_wakers P HP), (rf_slots P HP).
  - by apply (rf_slots P HP).
Qed.

Lemma register_free c i : P i -> P (snd (register c i)).
Proof using HP. intros Hi. by apply (rf_pending P HP), (rf_slots P HP). Qed.

Lemma drop_pending_free c i : P i -> P (drop_pending c i).
Proof using HP. intros Hi. by apply (rf_pending P HP). Qed.

Lemma route_free bytes : keeps P (route bytes).
Proof using HP.
  unfold route. destruct (decode bytes); [|auto with keeps].
  apply keeps_bind; [auto with keeps|]. intros [c|e]; [|auto with keeps].
  apply keeps_bind; [apply keeps_locked; apply drop_pending_free|].
  intros [s|]; [|auto with keeps]. apply keeps_modify. intros i. apply complete_free.
Qed.

Lemma dispatch_free : keeps P dispatch_turn.
Proof using HP.
  apply keeps_bind; [auto with keeps|]. intros i. apply keeps_bind; [auto with keeps|].
  intros [bytes|]; [apply route_free | auto with keeps].
Qed.

Section others.
Context (others : conn unit).
Hypothesis Ho : keeps P others.

Lemma wait_loop_free fuel s tmo since : keeps P (wait_loop others fuel s tmo since).
Proof using H H0 HP Ho. apply wait_loop_keeps; [apply keeps_locked, take_frame_free | done]. Qed.

Lemma call_control_free c f tmo : keeps P (call_control others c f tmo).
Proof using H H0 HP Ho.
  apply keeps_bind; [apply keeps_locked, register_free|]. intros s.
  apply keeps_bind; [apply keeps_bind; auto with keeps|]. intros [|]; simpl.
  - apply keeps_bind; [intros i w a i' w' Hi E; by apply (wait_loop_free _ _ _ _ _ _ _ _ _ Hi E)|].
    intros [g|]; [auto with keeps|].
    apply keeps_bind; [apply keeps_modify, drop_pending_free | auto with keeps].
  - apply keeps_bind; [apply keeps_modify, drop_pending_free | auto with keeps].
Qed.

Lemma round_trip_free {Q R} `{!Serde Q, !Serde R} kq (q : Z -> Inner -> Q) kr :
  keeps P (round_trip (R := R) others kq q kr).
Proof using H H0 HP Ho.
  apply keeps_bind; [auto with keeps|]. intros c. apply keeps_bind; [auto with keeps|]. intros i.
  apply keeps_bind_io; [auto with keeps|]. intros f.
  apply keeps_bind_io; [apply call_control_free | auto with keeps].
Qed.

Lemma do_publish_free name json key cap : keeps P (do_publish others name json key cap).
Proof using H H0 HP Ho.
  apply keeps_bind_io; [apply round_trip_free|]. intros r.
  destruct (negb _); auto with keeps.
Qed.

Lemma do_expose_free name q p key cap : keeps P (do_expose others name q p key cap).
Proof using H H0 HP Ho.
  apply keeps_bind_io; [apply round_trip_free|]. intros r.
  destruct (negb _); auto with keeps.
Qed.

Lemma do_lookup_free name key : keeps P (do_lookup others name key).
Proof using H H0 HP Ho.
  apply keeps_bind_io; [apply round_trip_free|]. intros r.
  destruct (negb _); auto with keeps.
Qed.

Lemma do_subscribe_free id key fp : keeps P (do_subscribe others id key fp).
Proof using H H0 HP Ho.
  apply keeps_bind_io; [apply round_trip_free|]. intros r.
  destruct (negb _); auto with keeps.
Qed.

Lemma do_list_free : keeps P (do_list_channels others).
Proof using H H0 HP Ho. apply keeps_bind_io; [apply round_trip_free | auto with keeps]. Qed.

Hypothesis Hcells : forall cs i, P i -> P (set_cells cs i).

Lemma rebind_free cell ring : keeps P (rebind cell ring).
Proof using Hcells.
  intros i w a i' w' Hi. unfold rebind. destruct (i_cells i !! cell); [|intros [= _ <- _]; done].
  unfold bind. destruct (drop_segment _ _) as [[u w1]| | |]; [|done..]. intros [= _ <- _]. auto.
Qed.

Lemma replay_free : keeps P (replay others).
Proof using H H0 HP Ho Hcells.
  apply keeps_bind; [auto with keeps|]. intros i.
  apply keeps_bind; [|intros _; apply keeps_bind; [|auto with keeps]].
  - induction (snd <$> _) as [|[name json key cap cell|name q p key cap cell] rs IH];
      simpl; [auto with keeps | | done].
    apply keeps_bind; [apply do_publish_free|]. intros r. apply keeps_bind; [|done].
    destruct r as [[ring fp]|e]; [apply rebind_free | auto with keeps].
  - induction (snd <$> _) as [|[name json key cap cell|name q p key cap cell] rs IH];
      simpl; [auto with keeps | done |].
    apply keeps_bind; [apply do_expose_free|]. intros r. apply keeps_bind; [|done].
    destruct r as [[[ring a] b]|e]; [apply rebind_free | auto with keeps].
Qed.
End others.
End rounds.

(** ** The interface of the other threads *)

(** What a connection relies on while it sleeps: its other threads only route replies.
    They touch nothing but the pending table, the slots and the wakers, take entries out
    of the table only, and respect whoever awaits a reply. *)
Class Routes `{ProtoSerde} (others : conn unit) : Prop := {
  routes_free : forall P, routing_free P -> keeps P others;
  routes_awaiting : forall s c, keeps (awaiting s c) others;
  routes_shrink : forall p, keeps (fun i => i_pending i ⊆ p) others;
}.

#[export] Instance dispatch_routes `{ProtoSerde} : Routes dispatch_turn.
Proof.
  split; [intros P HP; by apply dispatch_free | intros s c; apply dispatch_keeps|].
  intros p. apply keeps_bind; [auto with keeps|]. intros i0.
  apply keeps_bind; [auto with keeps|]. intros [bytes|]; [|auto with keeps].
  unfold route. destruct (decode bytes) as [f|e]; [|auto with keeps].
  apply keeps_bind; [auto with keeps|]. intros [c|e]; [|auto with keeps].
  apply keeps_bind.
  - apply keeps_locked. intros i Hi. simpl. etrans; [apply delete_subseteq | done].
  - intros [s|]; [|auto with keeps]. apply keeps_modify. intros i Hi.
    by rewrite (proj1 (complete_slots s f i)).
Qed.

#[export] Instance idle_routes `{ProtoSerde} : Routes (cret tt).
Proof. split; intros; apply keeps_ret. Qed.

Section routes.
Context `{ProtoSerde} (others : conn unit) `{!Routes others}.

(** A connection whose other fields are those of [i0]. *)
Definition same_conf (i0 i : Inner) : Prop :=
  i_callees i = i_callees i0 /\ i_app_name i = i_app_name i0 /\ i_reply_cap i = i_reply_cap i0 /\
  i_running i = i_running i0 /\ i_auto_reconnect i = i_auto_reconnect i0 /\
  i_registry i = i_registry i0 /\ i_reg_seq i = i_reg_seq i0.

Lemma same_conf_free i0 : routing_free (same_conf i0).
Proof. by split. Qed.

Lemma transport_free t : routing_free (fun i => i_transport i = t).
Proof. by split. Qed.

Lemma transport_id_free t : routing_free (fun i => set_client_id 0 (i_transport i) = t).
Proof. by split. Qed.

(** [call_control], all outcomes. *)
Lemma call_control_own corr frame tmo i w r i' w' :
  pending_wf i -> call_control others corr frame tmo i w = Done ((r, i'), w') ->
  i_pending i' !! corr = None /\
  (forall c s, i_pending i' !! c = Some s -> i_pending i !! c = Some s) /\
  match r with
  | Ok f => correlation_id f = Done (Ok corr)
  | Err e => e = io_other "submission ring full (broker stuck?)" \/
             e = IoError TimedOut None "timed out waiting for broker reply"
  end.
Proof using Routes0.
  intros Hwf E. unfold call_control in E. apply cbind_inv in E as (s & i1 & w1 & E1 & E).
  pose proof (register_awaiting corr i Hwf) as Ha. injection E1 as <- <- <-.
  set (i1 := snd (register corr i)) in *. set (s := fst (register corr i)) in *.
  assert (i_pending i1 ⊆ <[corr := s]> (i_pending i)) as Hs by done.
  change (length (i_slots i)) with s in E.
  apply cbind_inv in E as (ok & i2 & w2 & E2 & E).
  apply cbind_inv in E2 as (j & i3 & w3 & [= <- <- <-] & [_ ->]%clift_inv).
  assert (forall j, i_pending j ⊆ <[corr := s]> (i_pending i) -> i_pending j !! corr = None ->
            forall c x, i_pending j !! c = Some x -> i_pending i !! c = Some x) as Hsub.
  { clear. intros j Hj Hn c x Hx. assert (c <> corr) by (intros ->; congruence).
    pose proof (lookup_weaken _ _ _ _ Hx Hj) as Hy. by rewrite lookup_insert_ne in Hy. }
  destruct ok; simpl in E.
  - apply cbind_inv in E as (f & i4 & w4 & E4 & E). unfold wait in E4.
    assert (i_pending i4 ⊆ <[corr := s]> (i_pending i)) as Hs4.
    { refine (wait_loop_keeps (fun j => i_pending j ⊆ _) others s _ (routes_shrink _) _ _ _ _ _ _ _ _ Hs E4).
      apply keeps_locked. intros j Hj. unfold take_frame.
      by destruct (i_slots j !! s) as [[[g|] ?]|]. }
    apply (wait_loop_own _ s corr) in E4 as [Ha4 Hf]; [|apply routes_awaiting|done].
    destruct f as [f|].
    + injection E as <- <- <-. destruct (Hf f eq_refl) as [Hc Hn]. split_and!; [done | by apply Hsub | done].
    + injection E as <- <- <-. simpl. rewrite lookup_delete_eq. split_and!; [done | | by right].
      apply (Hsub (drop_pending corr i4)); simpl; [|by rewrite lookup_delete_eq].
      etrans; [apply delete_subseteq | done].
  - injection E as <- <- <-. simpl. rewrite delete_insert_eq, lookup_delete_eq.
    split_and!; [done | | by left]. intros c x [_ Hx]%lookup_delete_Some. done.
Qed.
End routes.

(** ** Registration and reconnection *)

Lemma bootstrap_client_id cap w t w1 : bootstrap cap w = Done (Ok t, w1) -> t_client_id t = 0.
Proof.
  unfold bootstrap, bind. intros E.
  destruct (open _ w) as [[[cs|e] w2]| | |]; try discriminate E.
  destruct (attach_control cs w2) as [[[sr|e] w3]| | |]; try discriminate E.
  - destruct (broker_epoch cs w3) as [[ep w4]| | |]; try discriminate E.
    destruct (random_u64 w4) as [[n w5]| | |]; try discriminate E.
    destruct (create _ _ w5) as [[[rs|e] w6]| | |]; try discriminate E.
    + destruct (format rs 0 _ w6) as [[[rr|e] w7]| | |]; try discriminate E.
      * injection E as <- _. done.
      * destruct (drop_segment rs w7) as [[u w8]| | |]; try discriminate E.
        destruct (drop_segment cs w8) as [[u' w9]| | |]; discriminate E.
    + destruct (drop_segment cs w6) as [[u w7]| | |]; discriminate E.
  - destruct (drop_segment cs w3) as [[u w4]| | |]; discriminate E.
Qed.

Lemma set_client_id_0 t : t_client_id t = 0 -> set_client_id 0 t = t.
Proof. destruct t. unfold set_client_id. simpl. by intros ->. Qed.

Section reconnect.
Context `{ProtoSerde} (others : conn unit) `{!Routes others}.

Lemma do_register_done i w r i' w' :
  do_register others i w = Done ((r, i'), w') ->
  same_conf i i' /\ set_client_id 0 (i_transport i') = set_client_id 0 (i_transport i) /\
  match r with
  | Ok id => t_client_id (i_transport i') = id
  | Err _ => i_transport i' = i_transport i
  end.
Proof using Routes0.
  intros E. unfold do_register in E. apply cbind_inv in E as (s & i1 & w1 & [_ ->]%clift_inv & E).
  apply cbind_inv in E as (rr & i2 & w2 & E1 & E).
  assert (i_transport i2 = i_transport i) as Ht.
  { eapply (round_trip_free (Q := Register) (R := RegisterReply) _ (transport_free (i_transport i)) others
      (routes_free _ (transport_free _))); [reflexivity | exact E1]. }
  assert (same_conf i i2) as Hc.
  { eapply (round_trip_free (Q := Register) (R := RegisterReply) _ (same_conf_free i) others (routes_free _ (same_conf_free _)));
      [done | exact E1]. }
  destruct rr as [rr|e]; [|injection E as <- <- <-; by rewrite Ht].
  destruct (negb _); [injection E as <- <- <-; by rewrite Ht|].
  apply cbind_inv in E as (u & i3 & w3 & [= _ <- <-] & [= <- <- <-]). simpl. rewrite Ht. done.
Qed.

Lemma reconnect_done i w r i' w' failed :
  reconnect others failed i w = Done ((r, i'), w') ->
  (t_epoch (i_transport i) <> failed /\ r = Ok tt /\ i' = i /\ w' = w) \/
  (t_epoch (i_transport i) = failed /\ exists e,
     bootstrap (i_reply_cap i) w = Done (Err e, w') /\ r = Err e /\ i' = i) \/
  (t_epoch (i_transport i) = failed /\ exists t w1,
     bootstrap (i_reply_cap i) w = Done (Ok t, w1) /\
     set_client_id 0 (i_transport i') = t /\
     same_conf (set_callees ∅ i) i' /\
     (is_ok r = false -> i_transport i' = t)).
Proof using Routes0.
  unfold reconnect. intros E. apply cbind_inv in E as (j & i1 & w1 & [= <- <- <-] & E).
  destruct (t_epoch (i_transport i) =? failed) eqn:Ef; simpl in E;
    [apply Z.eqb_eq in Ef; right | apply Z.eqb_neq in Ef; left; by injection E as <- <- <-].
  apply cbind_inv in E as (b & i2 & w2 & [Eb ->]%clift_inv & E).
  destruct b as [t|e]; [right | left; split; [done|]; exists e; by injection E as <- <- <-].
  split; [done|]. exists t, w2. split; [done|].
  apply cbind_inv in E as (u & i3 & w3 & [= _ <- <-] & E).
  apply cbind_inv in E as (u1 & i4 & w4 & [_ ->]%clift_inv & E).
  apply cbind_inv in E as (u2 & i5 & w5 & [= _ <- <-] & E).
  apply cbind_inv in E as (u3 & i6 & w6 & [_ ->]%clift_inv & E).
  apply cbind_inv in E as (u4 & i7 & w7 & [= _ <- <-] & E).
  apply cbind_inv in E as (rg & i8 & w8 & Er & E).
  apply do_register_done in Er as (Hc & Hs & Ht). simpl in Hs, Ht.
  rewrite (set_client_id_0 t) in Hs by (by eapply bootstrap_client_id).
  assert (same_conf (set_callees ∅ i) i8) as Hc8 by exact Hc. clear Hc.
  destruct rg as [id|e]; [|injection E as <- <- <-; split_and!; [done | done | by intros _]].
  apply cbind_inv in E as (rp & i9 & w9 & Er & E).
  assert (set_client_id 0 (i_transport i9) = t /\ same_conf (set_callees ∅ i) i9) as [Ht9 Hc9].
  { split.
    - eapply (replay_free _ (transport_id_free t) others (routes_free _ (transport_id_free _)));
        [done | exact Hs | exact Er].
    - eapply (replay_free _ (same_conf_free _) others (routes_free _ (same_conf_free _)));
        [done | exact Hc8 | exact Er]. }
  assert (rp = Ok tt) as ->.
  { unfold replay in Er. apply cbind_inv in Er as (? & ? & ? & _ & Er).
    apply cbind_inv in Er as (? & ? & ? & _ & Er). apply cbind_inv in Er as (? & ? & ? & _ & Er).
    by injection Er. }
  injection E as <- <- <-. done.
Qed.
End reconnect.

(** ** A round-trip that is answered *)

(** The world after one tick of the schedule. *)
Definition ticked (t : tick) (ts : list tick) (w : world) : world :=
  World (tk_mem t (w_mem w)) (tk_now t) (w_sys w) ts (w_rng w) (w_log w).

Section answered.
Context `{ProtoSerde}.

Lemma decode_encode f : frame_wf f -> decode (encode f) = Ok f.
Proof. intros Hf. pose proof (decode_encode_app f [] Hf) as E. by rewrite app_nil_r in E. Qed.

(** The dispatcher finds a reply to a pending slot. *)
Lemma dispatch_delivers i w f c s q :
  ring_geom (t_reply_ring (i_transport i)) ->
  ring_has (t_reply_ring (i_transport i)) w (encode f :: q) ->
  frame_wf f -> correlation_id f = Done (Ok c) -> i_pending i !! c = Some s ->
  exists w', dispatch_turn i w = Done ((tt, complete s f (drop_pending c i)), w') /\
    ring_has (t_reply_ring (i_transport i)) w' q /\
    exists evs, ring_only (t_reply_ring (i_transport i)) w w' evs.
Proof.
  intros Hg Hq Hf Hc Hs. destruct (pop_blocking_ready _ Hg w (encode f) q (Some DISPATCH_TIMEOUT) Hq)
    as (w1 & E1 & Hq1 & Ho).
  exists w1. split_and!; [|done|by eexists]. unfold dispatch_turn.
  erewrite cbind_done by reflexivity. cbv beta.
  erewrite cbind_done by (apply clift_done; exact E1). cbv beta iota. unfold route.
  rewrite decode_encode by done.
  erewrite cbind_done by (apply clift_done; unfold lift; by rewrite Hc).
  cbv beta iota. erewrite cbind_done by reflexivity. simpl. by rewrite Hs.
Qed.

Lemma call_control_answered (i : Inner) (w : world) (corr : Z) (frame f : Frame)
    (timeout : Z) (t : tick) (ts : list tick) (sq rq : list (list byte)) :
  let sub := t_submission (i_transport i) in
  let rep := t_reply_ring (i_transport i) in
  pending_wf i -> ring_geom sub -> ring_geom rep -> ring_has sub w sq ->
  fst (fifo_push (r_capacity sub) sq (encode frame)) = true -> w_ticks w = t :: ts ->
  (forall w1 evs, ring_has sub w1 (sq ++ [encode frame]) -> ring_only sub w w1 evs ->
    ring_has rep (ticked t ts w1) (encode f :: rq)) ->
  frame_wf f -> correlation_id f = Done (Ok corr) ->
  exists i' w', call_control dispatch_turn corr frame timeout i w = Done ((Ok f, i'), w') /\
    (ring_has rep w' rq /\ i_pending i' = delete corr (i_pending i) /\
     i_transport i' = i_transport i /\ same_conf i i' /\ i_cells i' = i_cells i /\ pending_wf i') /\
    exists w1 evs1 evs2, ring_has sub w1 (sq ++ [encode frame]) /\ ring_only sub w w1 evs1 /\
      ring_only rep (ticked t ts w1) w' evs2.
Proof.
  intros sub rep Hwf Hgs Hgr Hsq Hroom Ht Hbroker Hf Hc.
  destruct (push_blocking_room sub Hgs w sq (encode frame) (Some SUBMIT_TIMEOUT) Hsq Hroom)
    as (w1 & E1 & Hsq1 & Ho1).
  set (i1 := snd (register corr i)). set (s := length (i_slots i)).
  assert (w_ticks w1 = t :: ts) as Ht1 by (by rewrite (ro_ticks _ _ _ _ Ho1)).
  destruct (dispatch_delivers i1 (ticked t ts w1) f corr s rq Hgr (Hbroker w1 _ Hsq1 Ho1) Hf Hc)
    as (w2 & E2 & Hrq & evs & Ho2).
  { apply lookup_insert_eq. }
  assert (i_slots i1 !! s = Some (MkSlotState None None)) as Hs1.
  { unfold i1, s. simpl. by rewrite lookup_app_r, Nat.sub_diag by lia. }
  assert (locked (take_frame s) i1 w1 = Done ((None, i1), w1)) as Et1.
  { unfold locked, take_frame, ret. by rewrite Hs1. }
  set (i2 := complete s f (drop_pending corr i1)).
  assert (i2 = set_slots (<[s := MkSlotState (Some f) None]> (i_slots i1)) (drop_pending corr i1)) as Hi2.
  { unfold i2, complete. change (i_slots (drop_pending corr i1)) with (i_slots i1).
    by rewrite Hs1. }
  assert (locked (take_frame s) i2 w2 =
    Done ((Some f, set_slots (<[s := MkSlotState None None]> (i_slots i2)) i2), w2)) as Et.
  { unfold locked, take_frame, ret. replace (i_slots i2 !! s) with (Some (MkSlotState (Some f) None)); [done|].
    rewrite Hi2. simpl. rewrite list_lookup_insert_eq; [done|]. by eapply lookup_lt_Some. }
  exists (set_slots (<[s := MkSlotState None None]> (i_slots i2)) i2), w2.
  split; [|split; [rewrite Hi2; split_and!; [done | simpl; by rewrite delete_insert_eq | done..|] | by do 3 eexists]].
  2:{ intros c0 s0. simpl. rewrite !length_insert, length_app, delete_insert_eq. intros [_ Hx%Hwf]%lookup_delete_Some. lia. }
  unfold call_control. erewrite cbind_done by reflexivity. cbv beta.
  change (length (i_slots i)) with s. fold i1.
  assert (submit frame SUBMIT_TIMEOUT i1 w = Done ((true, i1), w1)) as Es.
  { unfold submit. erewrite cbind_done by reflexivity. apply clift_done. exact E1. }
  erewrite cbind_done by exact Es. cbn [negb].
  assert (wait dispatch_turn s timeout i1 w1 = Done ((Some f, set_slots
    (<[s := MkSlotState None None]> (i_slots i2)) i2), w2)) as Ew.
  { unfold wait. rewrite Ht1. cbn [length wait_loop].
    erewrite cbind_done by exact Et1. cbv iota.
    erewrite cbind_done; [|apply clift_done; unfold doze, yield, bind, ret; rewrite Ht1; reflexivity].
    erewrite cbind_done by exact E2. erewrite cbind_done by (by apply clift_done). fold i2.
    destruct (_ <=? w_now w2); [exact Et|].
    cbn [wait_loop]. erewrite cbind_done by exact Et. done. }
  erewrite cbind_done by exact Ew. done.
Qed.
End answered.

(** ** Callees *)

Lemma forget_callee_keeps (P : Inner -> Prop) name key :
  (forall m i, P i -> P (set_callees m i)) -> keeps P (forget_callee name key).
Proof.
  intros HP i w a i' w' Hi. unfold forget_callee. destruct (i_callees i !! _); [|by intros [= _ <- _]].
  unfold bind. destruct (drop_segment _ w) as [[v w1]| | |]; [|done..]. intros [= _ <- _]. by apply HP.
Qed.

Lemma callee_keeps `{ProtoSerde} (P : Inner -> Prop) others `{!Routes others} name key :
  routing_free P -> (forall m i, P i -> P (set_callees m i)) -> keeps P (callee others name key).
Proof.
  intros HP Hc. apply keeps_bind; [apply keeps_get|]. intros i.
  destruct (i_callees i !! _); [apply keeps_ret|].
  apply keeps_bind_io; [apply do_lookup_free; [done | by apply routes_free]|]. intros lr.
  apply keeps_bind_io; [apply keeps_lift|]. intros ring.
  apply keeps_bind; [by apply forget_callee_keeps|]. intros _.
  apply keeps_bind; [apply keeps_modify; intros; by apply Hc | intros; apply keeps_ret].
Qed.

Lemma forget_callee_done name key i w u i' w' :
  forget_callee name key i w = Done ((u, i'), w') ->
  i_callees i' = delete (name, key_or_empty key) (i_callees i).
Proof.
  unfold forget_callee. destruct (i_callees i !! _) eqn:E.
  - unfold bind. destruct (drop_segment _ w) as [[v w1]| | |]; [|done..]. by intros [= _ <- _].
  - intros [= _ <- _]. by rewrite delete_id.
Qed.

Lemma callee_done `{ProtoSerde} others `{!Routes others} name key i w r i' w' :
  callee others name key i w = Done ((r, i'), w') ->
  (forall id, id <> (name, key_or_empty key) -> i_callees i' !! id = i_callees i !! id) /\
  forall c, r = Ok c -> i_callees i' !! (name, key_or_empty key) = Some c.
Proof.
  unfold callee. intros E. apply cbind_inv in E as (j & i1 & w1 & [= <- <- <-] & E).
  destruct (i_callees i !! (name, key_or_empty key)) as [c|] eqn:Ec.
  { injection E as <- <- _. split; [done|]. by intros c' [= <-]. }
  apply cbind_inv in E as (lr & i2 & w2 & El & E).
  assert (i_callees i2 = i_callees i) as H2.
  { assert (routing_free (fun j => i_callees j = i_callees i)) as Hf by by split.
    eapply (do_lookup_free _ Hf others (routes_free _ Hf)); [reflexivity | exact El]. }
  destruct lr as [lr|e]; [|injection E as <- <- _; by rewrite H2].
  apply cbind_inv in E as (ring & i3 & w3 & [_ ->]%clift_inv & E).
  destruct ring as [ring|e]; [|injection E as <- <- _; by rewrite H2].
  apply cbind_inv in E as (u & i4 & w4 & Ef & E). apply forget_callee_done in Ef.
  apply cbind_inv in E as (u' & i5 & w5 & [= _ <- <-] & [= <- <- _]). simpl. split.
  - intros id Hid. rewrite lookup_insert_ne by done. rewrite Ef, lookup_delete_ne by done. by rewrite H2.
  - intros c [= <-]. apply lookup_insert_eq.
Qed.
