(* ===== verification/ClientProps.v ===== *)
(** * The properties of a connection *)

From S2P Require Import Prelude Machine Shm Circ Ring RingMem RingSpec RingThm Demo Frame Control Util Avro Proto Toy ProtoProps Registry RegistryThm Broker BrokerThm BrokerOps BrokerProps BrokerFlow BrokerStart Client ClientThm.

(** ** A connection to compute with *)

(** A submission ring of 256 bytes beside the reply ring of [demo_bus], a reply with the
    correlation id 5, and a broker that puts it on the reply ring. *)
Definition demo_sub_seg : Segment := MkSegment CONTROL_SEGMENT 13 512 false.
Definition demo_sub_ring : Ring := MkRing demo_sub_seg 0 256 255.
Definition demo_transport : Transport :=
  MkTransport demo_sub_ring demo_client_ring "/impulse-ring.cli.5.v1" 5 3 1000 demo_sub_seg
    demo_client_seg.
Definition demo_inner : Inner := start_inner "svc" 1 demo_transport.

Definition demo_request : Frame := new 9 [Byte.x01; Byte.x02].
Definition demo_answer : Frame := frame_of (to_frame KRegisterReply (MkRegisterReply 5 3 0 "")).

Definition demo_conn_mem : gmap Z (list byte) :=
  <[13 := formatted demo_sub_ring (replicate 512 Byte.x00)]> (w_mem demo_bus).
Definition demo_answered : list byte :=
  match try_push demo_client_ring (encode demo_answer) demo_bus with
  | Done (_, w) => default [] (w_mem w !! 11)
  | _ => []
  end.
Definition demo_tick : tick := Tick (fun m => <[11 := demo_answered]> m) 10.
Definition demo_conn : world := World demo_conn_mem 0 demo_sys [demo_tick] 0 [].

Lemma demo_sub_geom : ring_geom demo_sub_ring.
Proof. constructor; [exists 8; split; [lia | reflexivity] | reflexivity | vm_compute; discriminate]. Qed.

Lemma demo_conn_sub : ring_has demo_sub_ring demo_conn [].
Proof.
  assert (fits demo_sub_ring (replicate 512 Byte.x00)) as Hf by (vm_compute; discriminate).
  exists (formatted demo_sub_ring (replicate 512 Byte.x00)). split; [apply lookup_insert_eq|].
  split; [apply formatted_holds; [apply demo_sub_geom | exact Hf]|].
  apply (formatted_fields _ demo_sub_geom _ Hf).
Qed.

Lemma demo_answered_has ts w : ring_has demo_client_ring (ticked demo_tick ts w) [encode demo_answer].
Proof.
  destruct (try_push_sim demo_client_ring demo_client_geom demo_bus [] (encode demo_answer) demo_bus_ring)
    as (w' & E & (bs & Hb & Hh) & _).
  assert (fifo_push 256 [] (encode demo_answer) = (true, [encode demo_answer])) as Ep
    by (vm_compute; reflexivity).
  change (r_capacity demo_client_ring) with 256 in Hh. rewrite Ep in Hh.
  exists bs. split; [|exact Hh]. simpl. unfold demo_answered. rewrite E.
  change (w_mem w' !! 11 = Some bs) in Hb. rewrite Hb.
  apply lookup_insert_eq.
Qed.

Lemma demo_answer_wf : frame_wf demo_answer.
Proof. split; vm_compute; (split; [discriminate | reflexivity]). Qed.

Lemma demo_answer_corr : correlation_id demo_answer = Done (Ok 5).
Proof. vm_compute. reflexivity. Qed.

Lemma demo_pending_wf : pending_wf demo_inner.
Proof. intros c s E. unfold demo_inner, start_inner in E. simpl in E. by rewrite lookup_empty in E. Qed.

(** ** Routing *)

(** C10: In every interleaving of a connection's threads (callers registering, waiting,
    polling and giving up, the dispatcher between its two locks, a reconnect clearing
    the table) a frame found in a slot carries the correlation id the slot was made
    for, no slot is ever completed twice, and a pending slot has not been completed. *)
Theorem reply_routing `{ProtoSerde} (app_name : string) (reply_cap : Z) (t : Transport) (h : shared) :
  rtc shared_step (MkShared (start_inner app_name reply_cap t) None [] []) h ->
  (forall s f w, i_slots (sh_inner h) !! s = Some (MkSlotState (Some f) w) ->
     exists c, sh_owner h !! s = Some c /\ correlation_id f = Done (Ok c)) /\
  NoDup (sh_delivered h) /\
  (forall c s, i_pending (sh_inner h) !! c = Some s ->
     sh_owner h !! s = Some c /\ ~ (s ∈ sh_delivered h)).
Proof.
  intros Hr. assert (shared_inv h) as [H1 H2 H3 H4 [H5 _]].
  { remember (MkShared (start_inner app_name reply_cap t) None [] []) as h0 eqn:E0.
    assert (shared_inv h0) as Hi.
    { subst h0. split; simpl; [done | | done | | split; [constructor|]].
      - intros c s E. by rewrite lookup_empty in E.
      - intros s f w E. done.
      - intros s E. by apply elem_of_nil in E. }
    clear E0. induction Hr as [|h0 h1 h2 Hs Hr IH]; [done|]. by apply IH, (shared_step_inv h0). }
  split_and!; [done | done|]. intros c s E. by destruct (H2 c s E) as (? & ? & _).
Qed.

Definition demo_shared (i : Inner) (d : option (Frame * nat)) (v : list nat) : shared :=
  MkShared i d [5] v.

Lemma reply_routing_witness :
  let i1 := snd (register 5 demo_inner) in
  let i2 := complete 0 demo_answer (drop_pending 5 i1) in
  rtc shared_step (MkShared demo_inner None [] []) (demo_shared i2 None [0%nat]) /\
  (exists c, [5] !! 0%nat = Some c /\ correlation_id demo_answer = Done (Ok c)) /\
  NoDup [0%nat].
Proof.
  intros i1 i2.
  assert (rtc shared_step (MkShared demo_inner None [] []) (demo_shared i2 None [0%nat])) as Hr.
  { eapply rtc_l; [exact (st_register 5 demo_inner None [] [])|].
    eapply rtc_l; [exact (st_lookup demo_answer 5 0 i1 [5] [] demo_answer_corr eq_refl)|].
    eapply rtc_l; [exact (st_complete demo_answer 0 (drop_pending 5 i1) [5] [])|]. constructor. }
  destruct (reply_routing "svc" 1 demo_transport _ Hr) as (H1 & H2 & _).
  split; [exact Hr|]. split; [exact (H1 0%nat demo_answer None eq_refl) | exact H2].
Defined.

(** A control call that is answered returns the answer: when the submission ring has
    room, and the broker, on finding the request there, puts a reply with the call's
    correlation id at the front of the reply ring, the dispatcher hands exactly that
    frame to the caller, the request is the record the broker found, and of the
    connection only the bookkeeping of this call has changed. *)
Theorem call_control_completes `{ProtoSerde} (i : Inner) (w : world) (corr : Z) (frame f : Frame)
    (timeout : Z) (t : tick) (ts : list tick) (sq rq : list (list byte)) :
  let sub := t_submission (i_transport i) in
  let rep := t_reply_ring (i_transport i) in
  pending_wf i -> ring_geom sub -> ring_geom rep -> ring_has sub w sq ->
  fst (fifo_push (r_capacity sub) sq (encode frame)) = true -> w_ticks w = t :: ts ->
  (forall w1 evs, ring_has sub w1 (sq ++ [encode frame]) -> ring_only sub w w1 evs ->
    ring_has rep (ticked t ts w1) (encode f :: rq)) ->
  frame_wf f -> correlation_id f = Done (Ok corr) ->
  exists i' w', call_control dispatch_turn corr frame timeout i w = Done ((Ok f, i'), w') /\
    ring_has rep w' rq /\ i_pending i' = delete corr (i_pending i) /\
    i_transport i' = i_transport i /\ same_conf i i'.
Proof.
  intros sub rep Hp Hgs Hgr Hs Hr Ht Hb Hf Hc.
  destruct (call_control_answered i w corr frame f timeout t ts sq rq Hp Hgs Hgr Hs Hr Ht Hb Hf Hc)
    as (i' & w' & E & (? & ? & ? & ? & _) & _). by exists i', w'.
Qed.

Lemma call_control_completes_witness :
  exists i' w', call_control dispatch_turn 5 demo_request CONTROL_TIMEOUT demo_inner demo_conn =
      Done ((Ok demo_answer, i'), w') /\
    ring_has demo_client_ring w' [] /\ i_pending i' = delete 5 ∅ /\
    i_transport i' = demo_transport /\ same_conf demo_inner i'.
Proof.
  exact (call_control_completes demo_inner demo_conn 5 demo_request demo_answer CONTROL_TIMEOUT
    demo_tick [] [] [] demo_pending_wf demo_sub_geom demo_client_geom demo_conn_sub eq_refl eq_refl
    (fun w1 _ _ _ => demo_answered_has [] w1) demo_answer_wf demo_answer_corr).
Defined.

(** ** Callees *)

(** A call is only ever placed on a callee whose interface matches: a success has the
    two fingerprints the caller was compiled against, and the resolution is kept, so
    the next call of the same function with the same key costs no round-trip and gives
    the same ring; resolutions of other functions are left alone. *)
Theorem matching_callee_spec `{ProtoSerde} (others : conn unit) `{!Routes others}
    (fn_name : string) (key : option string) (req_fp resp_fp : Z) (i : Inner) (w : world)
    (c : Callee) (i' : Inner) (w' : world) :
  matching_callee others fn_name key req_fp resp_fp i w = Done ((Ok c, i'), w') ->
  cal_req_fp c = req_fp /\ cal_resp_fp c = resp_fp /\
  i_callees i' !! (fn_name, key_or_empty key) = Some c /\
  (forall id, id <> (fn_name, key_or_empty key) -> i_callees i' !! id = i_callees i !! id) /\
  (forall w2, matching_callee others fn_name key req_fp resp_fp i' w2 = Done ((Ok c, i'), w2)).
Proof.
  intros E. assert (cal_req_fp c = req_fp /\ cal_resp_fp c = resp_fp /\
    i_callees i' !! (fn_name, key_or_empty key) = Some c /\
    (forall id, id <> (fn_name, key_or_empty key) -> i_callees i' !! id = i_callees i !! id))
    as (H1 & H2 & H3 & H4).
  - unfold matching_callee in E. apply cbind_inv in E as (r1 & i1 & w1 & E1 & E).
    destruct (callee_done _ _ _ _ _ _ _ _ E1) as [Hoth Hin].
    destruct r1 as [c1|e]; [|discriminate E].
    destruct ((_ =? _) && (_ =? _)) eqn:Efp.
    + injection E as <- <- _. apply andb_true_iff in Efp as [?%Z.eqb_eq ?%Z.eqb_eq]. auto.
    + apply cbind_inv in E as (u & i2 & w2 & Ef & E). apply forget_callee_done in Ef.
      apply cbind_inv in E as (r3 & i3 & w3 & E3 & E).
      destruct (callee_done _ _ _ _ _ _ _ _ E3) as [Hoth3 Hin3].
      destruct r3 as [c3|e]; [|discriminate E].
      destruct (cal_req_fp c3 =? req_fp) eqn:Eq; [simpl in E | discriminate E].
      destruct (cal_resp_fp c3 =? resp_fp) eqn:Ep; [simpl in E | discriminate E].
      injection E as <- <- _. apply Z.eqb_eq in Eq, Ep. split_and!; [done | done | by apply Hin3|].
      intros id Hid. rewrite Hoth3, Ef, lookup_delete_ne, Hoth by done. done.
  - split_and!; [done..|]. intros w2. unfold matching_callee, callee.
    assert (forall A B (p : conn (io_result A)) (f : A -> conn (io_result B)) j v a j1 v1,
      p j v = Done ((Ok a, j1), v1) -> cbind_io p f j v = f a j1 v1) as Hio.
    { intros A B p f j v a j1 v1 Ep. unfold cbind_io. by erewrite cbind_done by exact Ep. }
    erewrite Hio; [|erewrite cbind_done by reflexivity; rewrite H3; reflexivity].
    rewrite H1, H2, !Z.eqb_refl. done.
Qed.

Definition demo_known : Inner :=
  set_callees {[ ("add", "") := MkCallee 11 12 demo_client_ring ]} demo_inner.

Lemma matching_callee_spec_witness :
  matching_callee (cret tt) "add" None 11 12 demo_known demo_conn =
    Done ((Ok (MkCallee 11 12 demo_client_ring), demo_known), demo_conn) /\
  i_callees demo_known !! ("add", "") = Some (MkCallee 11 12 demo_client_ring) /\
  (forall w2, matching_callee (cret tt) "add" None 11 12 demo_known w2 =
    Done ((Ok (MkCallee 11 12 demo_client_ring), demo_known), w2)).
Proof.
  assert (matching_callee (cret tt) "add" None 11 12 demo_known demo_conn =
    Done ((Ok (MkCallee 11 12 demo_client_ring), demo_known), demo_conn)) as E by reflexivity.
  destruct (matching_callee_spec _ _ _ _ _ _ _ _ _ _ E) as (_ & _ & H3 & _ & H5).
  split; [exact E|]. split; [exact H3 | exact H5].
Defined.

(** ** Reconnection *)

(** A reconnect happens once per restart and leaves nothing of the old broker behind:
    a thread that comes late (the epoch has moved on) changes nothing; when the new
    control segment cannot be attached nothing changes either; otherwise the transport
    is the new one (its epoch, rings and segments), whatever happens afterwards, no
    resolution of a callee survives, and the registrations to replay are all kept. *)
Theorem reconnect_outcomes `{ProtoSerde} (others : conn unit) `{!Routes others} (i : Inner)
    (w : world) (failed : Z) (r : io_result unit) (i' : Inner) (w' : world) :
  reconnect others failed i w = Done ((r, i'), w') ->
  (t_epoch (i_transport i) <> failed /\ r = Ok tt /\ i' = i /\ w' = w) \/
  (t_epoch (i_transport i) = failed /\ exists e,
     bootstrap (i_reply_cap i) w = Done (Err e, w') /\ r = Err e /\ i' = i) \/
  (t_epoch (i_transport i) = failed /\ exists t w1,
     bootstrap (i_reply_cap i) w = Done (Ok t, w1) /\
     set_client_id 0 (i_transport i') = t /\ i_callees i' = ∅ /\
     i_registry i' = i_registry i /\ i_reg_seq i' = i_reg_seq i).
Proof.
  intros E. destruct (reconnect_done _ _ _ _ _ _ _ E) as [?|[?|(He & t & w1 & Hb & Ht & Hc & _)]];
    [by left | by right; left|].
  right; right. split; [done|]. exists t, w1. by destruct Hc as (-> & _ & _ & _ & _ & -> & ->).
Qed.

(** The connection is on the transport [t]; what it does there is not to move to another. *)
Definition on_transport (t : Transport) (i : Inner) : Prop := i_transport i = t.
Definition stays_on {A} (t : Transport) (op : conn A) : Prop := keeps (on_transport t) op.

(** None of the control calls that [with_reconnect] is given moves the connection. *)
Lemma control_calls_stay `{ProtoSerde} (others : conn unit) `{!Routes others} t :
  (forall name json key cap, stays_on t (do_publish others name json key cap)) /\
  (forall name q p key cap, stays_on t (do_expose others name q p key cap)) /\
  stays_on t (do_list_channels others) /\
  (forall id key fp, stays_on t (do_subscribe others id key fp)) /\
  (forall name key, stays_on t (function_arena_capacity others name key)).
Proof.
  pose proof (transport_free t) as Hf.
  assert (keeps (fun i => i_transport i = t) others) as Ho by by apply routes_free.
  split_and!; intros.
  - by apply do_publish_free.
  - by apply do_expose_free.
  - by apply do_list_free.
  - by apply do_subscribe_free.
  - apply keeps_bind_io; [by apply callee_keeps | intros; apply keeps_ret].
Qed.

(** C37: A reconnect whose registration fails is never tried again while that broker lives:
    the connection has already moved to the new epoch, with client id 0 and nothing
    replayed. From then on, as long as the connection is on that transport, a turn of the
    watcher that reads this epoch leaves the connection as it is, and a call that fails,
    because the broker is unreachable or otherwise, is not retried after a reconnect: its
    error goes to the caller and the connection is where the call left it, on the same
    transport. The call is any operation that does not itself replace the transport, as
    publishing, exposing, listing, subscribing and looking up do not. *)
Theorem failed_registration_sticks `{ProtoSerde} (others : conn unit) `{!Routes others}
    (i : Inner) (w : world) (e : io_error) (i' : Inner) (w' : world) (t : Transport) (w1 : world) :
  reconnect others (t_epoch (i_transport i)) i w = Done ((Err e, i'), w') ->
  bootstrap (i_reply_cap i) w = Done (Ok t, w1) ->
  i_transport i' = t /\ t_client_id t = 0 /\
  (forall i2 w2 w3 w4, on_transport t i2 ->
     yield w2 = Done (tt, w3) -> live_broker_epoch w3 = Done (Ok (t_epoch t), w4) ->
     exists w5, watch_turn others i2 w2 = Done ((tt, i2), w5)) /\
  (forall (T : Type) (op : conn (io_result T)) i2 e2 i3 w2 w3 w4, on_transport t i2 -> stays_on t op ->
     op i2 w2 = Done ((Err e2, i3), w3) -> live_broker_epoch w3 = Done (Ok (t_epoch t), w4) ->
     on_transport t i3 /\ exists w5, with_reconnect others op i2 w2 = Done ((Err e2, i3), w5)).
Proof.
  intros Er Hb. destruct (reconnect_done _ _ _ _ _ _ _ Er)
    as [(? & ? & _)|[(_ & e' & E & _)|(_ & t' & w1' & E & _ & _ & Ht)]]; [done | congruence|].
  rewrite Hb in E. injection E as <- _. specialize (Ht eq_refl).
  split; [done|]. split; [by eapply bootstrap_client_id|]. split.
  - intros i2 w2 w3 w4 H2 Ey El. unfold watch_turn. erewrite cbind_done by (apply clift_done; exact Ey).
    erewrite cbind_done by reflexivity. destruct (negb (i_running i2) || _); [by exists w3|].
    erewrite cbind_done by (apply clift_done; exact El). cbv beta iota zeta.
    rewrite H2, Z.eqb_refl. by exists w4.
  - intros T op i2 e2 i3 w2 w3 w4 H2 Hop Eo El. pose proof (Hop _ _ _ _ _ H2 Eo) as H3. split; [done|].
    unfold with_reconnect. erewrite cbind_done by exact Eo. cbv beta iota.
    erewrite cbind_done by reflexivity. destruct (negb (i_auto_reconnect i3) || _); [by exists w3|].
    erewrite cbind_done by (apply clift_done; exact El). cbv beta iota zeta.
    rewrite H3, Z.eqb_refl. by exists w4.
Qed.

(** A control segment of a new broker (epoch 2000) with a 1024-byte submission ring, on a
    system that maps it, at a new address, when a segment of its size is asked for, and
    a schedule in which the broker stays silent for six seconds. *)
Definition new_ctl_seg : Segment := MkSegment CONTROL_SEGMENT 9005 1280 false.
Definition new_ctl_bytes : list byte :=
  superblocked (formatted (MkRing new_ctl_seg 64 1024 1023) (replicate 1280 Byte.x00)) 4242 2000.
Definition new_sys : sys := Sys
  (fun _ _ _ => (3, 0)) (fun _ _ => (0, 0)) (fun _ _ => (0, 0)) (fun _ => (0, 0, 1280))
  (fun size fd m => if size =? 1280 then (next_ptr m, 0, <[next_ptr m := new_ctl_bytes]> m)
                    else demo_mmap size fd m)
  (fun _ => (0, 0)) (fun _ => Ok []) (fun _ _ => (0, 0)) 555 (Some 2000)
  (fun n => Ok (le_bytes 8 (Z.of_nat n))) (fun _ => "error").
Definition silent_world : world :=
  World demo_conn_mem 0 new_sys [Tick (fun m => m) (6 * 1000 * MILLIS)] 0 [].

(** The reconnect of the witnesses ends with an error after its bootstrap. *)
Definition silent_check : bool :=
  match bootstrap 1 silent_world with
  | Done (Ok t, _) => t_epoch t =? 2000
  | _ => false
  end &&
  match reconnect (cret tt) 1000 demo_inner silent_world with
  | Done ((Err e, i'), _) => bool_decide (err_kind e = TimedOut)
  | _ => false
  end.

Lemma silent_run :
  exists t w1 e i' w', bootstrap 1 silent_world = Done (Ok t, w1) /\ t_epoch t = 2000 /\
    reconnect (cret tt) 1000 demo_inner silent_world = Done ((Err e, i'), w').
Proof.
  assert (silent_check = true) as Hc by (vm_compute; reflexivity). unfold silent_check in Hc.
  destruct (bootstrap 1 silent_world) as [[[t|e] w1]| | |]; try discriminate Hc.
  destruct (reconnect _ _ _ _) as [[[[u|e] i'] w']| | |];
    try (rewrite andb_false_r in Hc; discriminate Hc).
  apply andb_true_iff in Hc as [Hc%Z.eqb_eq _]. by exists t, w1, e, i', w'.
Qed.

Lemma reconnect_outcomes_witness :
  exists t w1 r i' w', bootstrap 1 silent_world = Done (Ok t, w1) /\
    reconnect (cret tt) 1000 demo_inner silent_world = Done ((r, i'), w') /\
    ((1000 <> 1000 /\ r = Ok tt /\ i' = demo_inner /\ w' = silent_world) \/
     (1000 = 1000 /\ exists e, bootstrap 1 silent_world = Done (Err e, w') /\ r = Err e /\
        i' = demo_inner) \/
     (1000 = 1000 /\ exists t w1, bootstrap 1 silent_world = Done (Ok t, w1) /\
        set_client_id 0 (i_transport i') = t /\ i_callees i' = ∅ /\
        i_registry i' = i_registry demo_inner /\ i_reg_seq i' = i_reg_seq demo_inner)).
Proof.
  destruct silent_run as (t & w1 & e & i' & w' & Eb & _ & E). exists t, w1, (Err e), i', w'.
  split; [exact Eb|]. split; [exact E|].
  exact (reconnect_outcomes (cret tt) demo_inner silent_world 1000 (Err e) i' w' E).
Defined.

(** After it the watcher looks once more, and then a list of the channels is asked for, with
    the broker as silent as before. *)
Definition later_world (w : world) (ticks : list tick) : world :=
  World (w_mem w) (w_now w) (w_sys w) ticks (w_rng w) (w_log w).
Definition look_tick : tick := Tick (fun m => m) (7 * 1000 * MILLIS).
Definition silent_tick : tick := Tick (fun m => m) (13 * 1000 * MILLIS).
Definition is_epoch (o : outcome (io_result Z * world)) : bool :=
  match o with Done (Ok n, _) => n =? 2000 | _ => false end.
Definition times_out {A} (o : outcome (io_result A * Inner * world)) : bool :=
  match o with Done ((Err e, _), w) => broker_unreachable e && is_epoch (live_broker_epoch w) | _ => false end.
Definition looks (o : outcome (unit * world)) : bool :=
  match o with Done (_, w) => is_epoch (live_broker_epoch w) | _ => false end.
Definition sticks_check : bool :=
  match reconnect (cret tt) 1000 demo_inner silent_world with
  | Done ((Err e, i'), w') =>
      looks (yield (later_world w' [look_tick])) && times_out (do_list_channels (cret tt) i' (later_world w' [silent_tick]))
  | _ => false
  end.

Lemma is_epoch_inv o : is_epoch o = true -> exists w, o = Done (Ok 2000, w).
Proof. destruct o as [[[n|e] w]| | |]; try discriminate. intros ->%Z.eqb_eq. by exists w. Qed.

Lemma looks_inv o : looks o = true ->
  exists w w', o = Done (tt, w) /\ live_broker_epoch w = Done (Ok 2000, w').
Proof. destruct o as [[[] w]| | |]; try discriminate. intros [w' E]%is_epoch_inv. by exists w, w'. Qed.

Lemma times_out_inv {A} (o : outcome (io_result A * Inner * world)) : times_out o = true ->
  exists e i w w', o = Done ((Err e, i), w) /\ broker_unreachable e = true /\
    live_broker_epoch w = Done (Ok 2000, w').
Proof.
  destruct o as [[[[a|e] i] w]| | |]; try discriminate. intros [Hu [w' E]%is_epoch_inv]%andb_true_iff.
  by exists e, i, w, w'.
Qed.

Lemma sticks_run e i' w' :
  reconnect (cret tt) 1000 demo_inner silent_world = Done ((Err e, i'), w') ->
  (exists w3 w4, yield (later_world w' [look_tick]) = Done (tt, w3) /\
     live_broker_epoch w3 = Done (Ok 2000, w4)) /\
  exists e2 i2 w2 w3, do_list_channels (cret tt) i' (later_world w' [silent_tick]) = Done ((Err e2, i2), w2) /\
    broker_unreachable e2 = true /\ live_broker_epoch w2 = Done (Ok 2000, w3).
Proof.
  intros E. assert (sticks_check = true) as Hc by (vm_compute; reflexivity). unfold sticks_check in Hc.
  rewrite E in Hc. apply andb_true_iff in Hc as [Hw Hl]. split; [by apply looks_inv | by apply times_out_inv].
Qed.

Lemma failed_registration_sticks_witness :
  exists t i' w' e2 i2, i_transport i' = t /\ t_epoch t = 2000 /\ t_client_id t = 0 /\
    (exists w5, watch_turn (cret tt) i' (later_world w' [look_tick]) = Done ((tt, i'), w5)) /\
    broker_unreachable e2 = true /\ i_transport i2 = t /\
    exists w5, with_reconnect (cret tt) (do_list_channels (cret tt)) i' (later_world w' [silent_tick]) =
      Done ((Err e2, i2), w5).
Proof.
  destruct silent_run as (t & w1 & e & i' & w' & Eb & Et & E).
  destruct (failed_registration_sticks (cret tt) demo_inner silent_world e i' w' t w1 E Eb)
    as (H1 & H2 & Hw & Hcall). rewrite Et in Hw, Hcall.
  destruct (sticks_run e i' w' E) as ((w3 & w4 & Ey & El) & e2 & i2 & w5 & w6 & Ec & Hu & El2).
  destruct (Hcall _ _ i' e2 i2 _ w5 w6 H1 (proj1 (proj2 (proj2 (control_calls_stay (cret tt) t)))) Ec El2)
    as [H3 Hend].
  exists t, i', w', e2, i2. split_and!; [exact H1 | exact Et | exact H2 | | exact Hu | exact H3 | exact Hend].
  exact (Hw i' _ w3 w4 H1 Ey El).
Defined.
