(* ===== verification/Bus.v ===== *)
(** * A client and the broker on one bus

    The control round-trips of Client.v served by the control loop of Broker.v: while
    the client waits for its reply, the broker takes one turn. The two map the same
    segments; here a mapping's address names the memory, so they have it in common.
    Nothing of the protocol is assumed: the request goes through the submission ring,
    the broker's handler and the client's reply ring to the dispatcher. *)

From S2P Require Import Prelude Machine Shm Circ Ring RingMem RingSpec RingThm Demo Frame Control Util Avro Proto ProtoProps Registry RegistryThm Broker BrokerThm BrokerOps Client ClientThm.

(** Two ends of one ring. *)
Definition shares (r r' : Ring) : Prop :=
  r_ptr r = r_ptr r' /\ r_base r = r_base r' /\ r_capacity r = r_capacity r' /\ r_mask r = r_mask r'.

Lemma shares_sym r r' : shares r r' -> shares r' r.
Proof. unfold shares. intuition congruence. Qed.

Lemma shares_geom r r' : shares r r' -> ring_geom r -> ring_geom r'.
Proof. intros (_ & E1 & E2 & E3) [G1 G2 G3]. constructor; [by rewrite <- E2 | congruence | congruence]. Qed.

Lemma shares_has r r' w q : shares r r' -> ring_has r w q -> ring_has r' w q.
Proof.
  intros (E1 & E2 & E3 & E4) (bs & Hbs & (h & t & [R1 R2 R3 R4 R5 R6 R7]) & Hl).
  exists bs. rewrite <- E1. split; [done|]. unfold fget, fits, dget in *. split; [|by rewrite <- E2].
  exists h, t. constructor; unfold fits, fget, dget; rewrite <- ?E2, <- ?E3; done.
Qed.

(** The block of [r] is as before but for the ring's own queue. *)
Definition reframed (r : Ring) (m m' : gmap Z (list byte)) : Prop :=
  exists bs bs', m !! r_ptr r = Some bs /\ m' !! r_ptr r = Some bs' /\ ring_frame r bs bs'.

Lemma ring_only_reframed r w w' evs : ring_only r w w' evs -> reframed r (w_mem w) (w_mem w').
Proof. by intros [? _ _ _ _ _ _]. Qed.

Lemma reframed_trans r m1 m2 m3 : reframed r m1 m2 -> reframed r m2 m3 -> reframed r m1 m3.
Proof.
  intros (b1 & b2 & E1 & E2 & F1) (b2' & b3 & E2' & E3 & F2). rewrite E2 in E2'. injection E2' as <-.
  exists b1, b3. split_and!; [done..|]. by etransitivity.
Qed.

Lemma reframed_shares r r' m m' : shares r r' -> reframed r m m' -> reframed r' m m'.
Proof.
  intros (E1 & E2 & E3 & E4) (b1 & b2 & H1 & H2 & [F1 F2 F3 F4]). exists b1, b2. rewrite <- E1. split_and!; [done..|].
  unfold fget, outside in *. constructor; unfold fget, outside; rewrite <- ?E2, <- ?E3; done.
Qed.

(** The broker's turn, as what happens while somebody else sleeps: [bw] is the broker's
    process, [now] the clock afterwards. *)
Definition broker_tick `{ProtoSerde} `{!Sha256} (b : Broker) (last_sweep : Z) (bw : world) (now : Z) : tick :=
  Tick (fun m => match turn b last_sweep (set_mem m bw) with Done (_, w') => w_mem w' | _ => m end) now.

(** A client's mapping of the arena. *)
Definition mapped_arena (name : string) (ptr cap : Z) : Ring :=
  arena_ring (MkSegment name ptr (ring_bytes cap) false) cap.

Lemma arena_size n : in_u 64 n -> 0 < ring_bytes (clamp_arena_cap n) < 2 ^ 64.
Proof.
  intros Hn. destruct (clamp_arena_cap_pow n Hn) as (k & Hk & ->). rewrite ring_bytes_small by lia.
  assert (0 < 2 ^ k <= 2 ^ 27) by (split; [apply Z.pow_pos_nonneg; lia | apply Z.pow_le_mono_r; lia]).
  unfold RING_HEADER. lia.
Qed.

(** ** Mapping a segment of another process *)

(** From a memory of [P], opening the segment [name] succeeds: it has [size] bytes, and
    they are the block at [ptr]. *)
Definition opens_at (s : sys) (name : string) (size ptr : Z) (P : gmap Z (list byte) -> Prop) : Prop :=
  let fd := fst (sys_shm_open s name O_RDWR 384) in
  0 <= fd /\ 0 <= fst (fst (sys_fstat s fd)) /\ snd (sys_fstat s fd) = size /\
  forall m, P m -> exists e, sys_mmap s size fd m = (ptr, e, m).

Lemma opens_at_weaken s name size ptr (P Q : gmap Z (list byte) -> Prop) :
  (forall m, Q m -> P m) -> opens_at s name size ptr P -> opens_at s name size ptr Q.
Proof. intros HQ (H1 & H2 & H3 & H4). split_and!; auto. Qed.

Lemma open_shared name size ptr (P : gmap Z (list byte) -> Prop) w :
  has_nul name = false -> 0 < size < 2 ^ 64 -> ptr <> MAP_FAILED ->
  opens_at (w_sys w) name size ptr P -> P (w_mem w) ->
  exists w', open name w = Done (Ok (MkSegment name ptr size false), w') /\ w_mem w' = w_mem w /\
    w_now w' = w_now w /\ w_sys w' = w_sys w /\ w_ticks w' = w_ticks w /\ w_rng w' = w_rng w.
Proof.
  intros Hn Hsz Hptr (Hfd & Hst & Hsize & Hm) HP. destruct (Hm _ HP) as [e Em].
  unfold open. rewrite Hn. erewrite bind_done by reflexivity.
  destruct (sys_shm_open (w_sys w) name O_RDWR 384) as [fd e0]. cbn [fst] in *.
  rewrite (proj2 (Z.ltb_ge _ _) Hfd). unfold open_mapped. rewrite bind_assoc. erewrite bind_done by reflexivity.
  destruct (sys_fstat (w_sys w) fd) as [[r e1] sz]. cbn [fst snd] in *. subst sz.
  rewrite (proj2 (Z.ltb_ge _ _) Hst), (wrap_u_small 64) by (unfold in_u; lia).
  rewrite (proj2 (Z.eqb_neq _ _)) by lia. unfold bind_io. rewrite bind_assoc.
  eexists. split; [|shelve]. erewrite bind_done by (unfold mmap_fd; rewrite Em, bool_decide_eq_false_2 by done; reflexivity).
  cbv beta iota. rewrite bind_ret. erewrite bind_done by reflexivity. rewrite bind_ret. reflexivity.
  Unshelve. by split_and!.
Qed.

(** The opened segment is attached, if a ring has been formatted in it. *)
Lemma opened_ring name size ptr cap P w :
  let seg := MkSegment name ptr size false in
  has_nul name = false -> 0 < size < 2 ^ 64 -> ptr <> MAP_FAILED ->
  opens_at (w_sys w) name size ptr P -> P (w_mem w) ->
  ring_geom (arena_ring seg cap) -> attachable (arena_ring seg cap) (w_mem w) ->
  exists w', open name w = Done (Ok seg, w') /\ attach seg 0 w' = Done (Ok (arena_ring seg cap), w') /\
    w_mem w' = w_mem w /\ w_now w' = w_now w /\ w_sys w' = w_sys w /\ w_ticks w' = w_ticks w /\ w_rng w' = w_rng w.
Proof.
  intros seg Hn Hsz Hptr Hop HP Hg (bs & Hbs & Hf & Hl & Hm & Hc).
  destruct (open_shared name size ptr P w Hn Hsz Hptr Hop HP) as (w' & E & Em & Hw).
  exists w'. split; [exact E|]. split; [|split; [exact Em | exact Hw]].
  apply (attach_eq (arena_ring seg cap) w' bs); [exact Hg | by rewrite Em | done | done | apply Hsz | done | done].
Qed.

Lemma attach_shared name size ptr cap P w :
  let r := arena_ring (MkSegment name ptr size false) cap in
  has_nul name = false -> 0 < size < 2 ^ 64 -> ptr <> MAP_FAILED ->
  opens_at (w_sys w) name size ptr P -> P (w_mem w) -> ring_geom r -> attachable r (w_mem w) ->
  exists w', attach_arena name w = Done (Ok r, w') /\
    w_mem w' = w_mem w /\ w_now w' = w_now w /\ w_sys w' = w_sys w /\ w_ticks w' = w_ticks w /\ w_rng w' = w_rng w.
Proof.
  intros r Hn Hsz Hptr Hop HP Hg Ha.
  destruct (opened_ring name size ptr cap P w Hn Hsz Hptr Hop HP Hg Ha) as (w' & E & Ea & Hw).
  exists w'. split; [|exact Hw]. unfold attach_arena, bind_io. erewrite bind_done by exact E. cbv beta iota.
  by erewrite bind_done by exact Ea.
Qed.

(** ** Random numbers: they depend on the system and on how many were drawn *)

Lemma random_at w x w0 w' : random_u64 w = Done (x, w0) -> w_sys w' = w_sys w -> w_rng w' = w_rng w ->
  exists w1, random_u64 w' = Done (x, w1) /\ w_mem w1 = w_mem w' /\ w_sys w1 = w_sys w' /\
    w_ticks w1 = w_ticks w' /\ w_rng w1 = w_rng w0.
Proof.
  intros E Es Er. unfold random_u64, getrandom, bind, ret in *. rewrite Es, Er.
  destruct (sys_random _ _); [|done]. injection E as <- <-. eexists. split; [reflexivity|].
  done.
Qed.

Lemma random_sys w x w0 : random_u64 w = Done (x, w0) -> w_sys w0 = w_sys w.
Proof. unfold random_u64, getrandom, bind, ret. destruct (sys_random _ _); [|done]. by intros [= _ <-]. Qed.

Lemma corr_at w x w0 w' : next_corr w = Done (x, w0) -> w_sys w' = w_sys w -> w_rng w' = w_rng w ->
  exists w1, next_corr w' = Done (x, w1).
Proof.
  unfold next_corr. intros (y & w1 & E & [= <- <-])%bind_done_inv Es Er.
  destruct (random_at _ _ _ _ E Es Er) as (w2 & E2 & _). exists w2. by erewrite bind_done by exact E2.
Qed.

(** ** A turn that serves a request *)

Section bus.
Context `{ProtoSerde} `{!Sha256} (c : Catalog).
Hypothesis Hc : catalog = Done c.
Hypothesis Hcodecs : reply_codecs c.
Hypothesis Hfps : forall k fp, c_fp c k = Done fp -> kind_of c fp = Some k /\ in_u 64 fp.

(** The connection [i] on the bus of the broker [b], both rings empty. *)
Record wired (i : Inner) (b : Broker) (w : world) : Prop := {
  wi_pending : pending_wf i;
  wi_sub : shares (b_submission b) (t_submission (i_transport i));
  wi_geom : ring_geom (t_submission (i_transport i)) /\ ring_geom (t_reply_ring (i_transport i));
  wi_apart : r_ptr (t_submission (i_transport i)) <> r_ptr (t_reply_ring (i_transport i));
  wi_empty : ring_has (t_submission (i_transport i)) w [] /\ ring_has (t_reply_ring (i_transport i)) w [];
}.

(** The connection [i] of a client that the broker [b] knows, both rings empty. *)
Record connected (i : Inner) (b : Broker) (w : world) : Prop := {
  cn_pending : pending_wf i;
  cn_sub : shares (b_submission b) (t_submission (i_transport i));
  cn_rep : exists ring, b_reply_rings b !! t_client_id (i_transport i) = Some ring /\
    shares ring (t_reply_ring (i_transport i));
  cn_geom : ring_geom (t_submission (i_transport i)) /\ ring_geom (t_reply_ring (i_transport i));
  cn_apart : r_ptr (t_submission (i_transport i)) <> r_ptr (t_reply_ring (i_transport i));
  cn_empty : ring_has (t_submission (i_transport i)) w [] /\ ring_has (t_reply_ring (i_transport i)) w [];
}.

Lemma connected_wired i b w : connected i b w -> wired i b w.
Proof using. by intros [? ? _ ? ? ?]. Qed.

Lemma connected_mem i b w w' : w_mem w' = w_mem w -> connected i b w -> connected i b w'.
Proof using.
  intros E [? ? ? ? ? [Hs Hr]]. constructor; try done.
  split; (eapply ring_has_mem; [eassumption | by rewrite E]).
Qed.

(** The frame is well formed and there is room for it in an empty ring of this capacity. *)
Definition sendable_in (cap : Z) (f : Frame) : Prop :=
  frame_wf f /\ fst (fifo_push cap [] (encode f)) = true.
Definition sendable (r : Ring) (f : Frame) : Prop := sendable_in (r_capacity r) f.

(** What a turn comes to that serves [qf] with [rf] on the ring [rep]: the handler, from a
    world of [Pre], takes no time, leads to one of [Post], and touches of the memory that
    was there the reply ring only. *)
Definition turn_serving (b : Broker) (rep : Ring) (qf rf : Frame) (Pre : world -> Prop)
    (Post : Broker -> world -> world -> Prop) : Prop :=
  forall w, ring_has rep w [] -> Pre w -> exists b' w', handle b (encode qf) w = Done ((b', Ok tt), w') /\
    ring_has rep w' [encode rf] /\ w_now w' = w_now w /\
    (forall p, is_Some (w_mem w !! p) -> p <> r_ptr rep -> w_mem w' !! p = w_mem w !! p) /\ Post b' w w'.

(** A world with the system [s] and the memory [m], but for the contents of a ring's queue. *)
Definition finds (s : sys) (r : Ring) (m : gmap Z (list byte)) (w : world) : Prop :=
  w_sys w = s /\ dom (w_mem w) = dom m /\ (forall p, p <> r_ptr r -> w_mem w !! p = m !! p) /\
  reframed r m (w_mem w).

Lemma turn_serves b ls w rep qf rf Pre Post :
  ring_geom (b_submission b) -> ring_has (b_submission b) w [encode qf] -> ring_has rep w [] ->
  r_ptr (b_submission b) <> r_ptr rep -> turn_serving b rep qf rf Pre Post ->
  (forall w1 evs, ring_only (b_submission b) w w1 evs -> Pre w1) ->
  Z.max 0 (w_now w - ls) < SWEEP_INTERVAL ->
  exists b' v w', turn b ls w = Done ((b', ls), w') /\ ring_has rep w' [encode rf] /\ Pre v /\ Post b' v w' /\
    ring_has (b_submission b) w' [].
Proof using.
  intros Hg Hq Hrep Hne Hans Hpre Hs. unfold turn.
  destruct (pop_blocking_ready _ Hg w (encode qf) [] (Some POP_TIMEOUT) Hq) as (w1 & E1 & Hq1 & Ho).
  rewrite (bind_done _ _ _ _ _ E1). specialize (Hpre w1 _ Ho).
  destruct (Hans w1) as (b' & w2 & E2 & Hrf & Hnow & Hkeep & Hpost); [|done|].
  { eapply ring_has_mem; [exact Hrep|]. apply (ro_others _ _ _ _ Ho). congruence. }
  exists b', w1, w2. split; [|split_and!; try done].
  2:{ eapply ring_has_mem; [exact Hq1|]. apply Hkeep; [|exact Hne]. destruct Hq1 as (bs & Hbs & _). by exists bs. }
  rewrite bind_assoc, (bind_done _ _ _ _ _ E2), bind_ret.
  unfold now. unfold bind at 1. rewrite Hnow, (ro_now _ _ _ _ Ho).
  by rewrite (proj2 (Z.leb_gt _ _) Hs).
Qed.

Lemma next_corr_same w corr w0 :
  next_corr w = Done (corr, w0) -> w_mem w0 = w_mem w /\ w_ticks w0 = w_ticks w /\ w_sys w0 = w_sys w.
Proof using.
  unfold next_corr, random_u64, getrandom, bind, ret. destruct (sys_random _ _); [|done]. by intros [= _ <-].
Qed.

(** A round trip that the broker serves in its turn. The broker finds the world [v]
    and leaves the memory of [v'], of which the client sees everything but the reply,
    which it has taken. *)
Lemma round_trip_turn {Q R} `{!Serde Q, !Serde R} kq (q : Z -> Inner -> Q) kr
    (i : Inner) (b : Broker) (ls t : Z) (w bw : world) (ts : list tick) (corr : Z) (w0 : world)
    (qf rf : Frame) (r : io_result R) Post :
  let sub := t_submission (i_transport i) in
  let rep := t_reply_ring (i_transport i) in
  wired i b w -> next_corr w = Done (corr, w0) ->
  w_ticks w = broker_tick b ls bw t :: ts -> Z.max 0 (w_now bw - ls) < SWEEP_INTERVAL ->
  to_frame kq (q corr i) = Done (Ok qf) -> sendable sub qf ->
  turn_serving b rep qf rf (finds (w_sys bw) sub (w_mem w)) Post ->
  frame_wf rf -> correlation_id rf = Done (Ok corr) -> from_frame kr rf = Done r ->
  exists i' w' b' v v', round_trip dispatch_turn kq q kr i w = Done ((r, i'), w') /\
    (ring_has rep w' [] /\ i_pending i' = delete corr (i_pending i) /\
     i_transport i' = i_transport i /\ same_conf i i' /\ i_cells i' = i_cells i /\ pending_wf i') /\ ring_has sub w' [] /\
    (exists m, turn b ls (set_mem m bw) = Done ((b', ls), v')) /\
    finds (w_sys bw) sub (w_mem w) v /\ Post b' v v' /\ finds (w_sys w) rep (w_mem v') w' /\
    w_ticks w' = ts /\ w_rng w' = w_rng w0.
Proof using.
  intros sub rep [Hp Hsub [Hg1 Hg2] Hne [Hs0 Hr0]] Ecorr Et Hsweep Eq [Hqf Hroom] Hans
    Hrf Hcorr Hdec.
  destruct (next_corr_same _ _ _ Ecorr) as (Em0 & Et0 & Es0).
  assert (forall w1 evs, ring_has sub w1 [encode qf] -> ring_only sub w0 w1 evs ->
    exists b' v v', turn b ls (set_mem (w_mem w1) bw) = Done ((b', ls), v') /\ ring_has rep v' [encode rf] /\
      finds (w_sys bw) sub (w_mem w) v /\ Post b' v v' /\ ring_has sub v' []) as Hturn.
  { intros w1 evs Hs1 Ho. destruct (turn_serves b ls (set_mem (w_mem w1) bw) rep qf rf (finds (w_sys bw) sub (w_mem w)) Post) as
      (b' & v & v' & E & Hrf' & Hv & Hpost & Hsub'); try done;
      [..|exists b', v, v'; split_and!; try done; by eapply shares_has].
    - eapply shares_geom; [by apply shares_sym | done].
    - eapply shares_has; [by apply shares_sym|]. by eapply ring_has_mem.
    - eapply ring_has_mem; [exact Hr0|]. cbn [set_mem w_mem].
      rewrite (ro_others _ _ _ _ Ho) by (apply not_eq_sym, Hne). by rewrite Em0.
    - rewrite (proj1 Hsub). exact Hne.
    - intros w2 evs2 Ho2. split; [by rewrite (ro_sys _ _ _ _ Ho2)|]. split.
      + rewrite (ring_only_dom _ _ _ _ Ho2). cbn [set_mem w_mem]. by rewrite (ring_only_dom _ _ _ _ Ho), Em0.
      + split.
        * intros p Hp1. rewrite (ro_others _ _ _ _ Ho2) by by rewrite (proj1 Hsub). cbn [set_mem w_mem].
          by rewrite (ro_others _ _ _ _ Ho), Em0.
        * apply (reframed_trans _ _ (w_mem w1)).
          -- rewrite <- Em0. exact (ring_only_reframed _ _ _ _ Ho).
          -- exact (reframed_shares _ _ _ _ Hsub (ring_only_reframed _ _ _ _ Ho2)). }
  destruct (call_control_answered i w0 corr qf rf CONTROL_TIMEOUT (broker_tick b ls bw t) ts [] [])
    as (i' & w' & E & Hrest & w1 & evs1 & evs2 & Hs1 & Ho1 & Ho2); try done.
  - eapply ring_has_mem; [exact Hs0 | by rewrite Em0].
  - congruence.
  - intros w1 evs Hs1 Ho. destruct (Hturn w1 evs Hs1 Ho) as (b' & v & v' & E2 & Hrf2 & _).
    eapply ring_has_mem; [exact Hrf2|]. cbn [ticked broker_tick tk_mem w_mem]. by rewrite E2.
  - destruct (Hturn w1 evs1 Hs1 Ho1) as (b' & v & v' & E2 & _ & Hfind & Hpost & Hs2).
    assert (w_mem (ticked (broker_tick b ls bw t) ts w1) = w_mem v') as Em
      by (cbn [ticked broker_tick tk_mem w_mem]; by rewrite E2).
    exists i', w', b', v, v'. split; [|split; [exact Hrest|split; [|split; [by eexists|split; [exact Hfind|split; [exact Hpost|split]]]]]].
    + unfold round_trip. erewrite cbind_done by (apply clift_done; exact Ecorr).
      erewrite cbind_done by reflexivity. unfold cbind_io.
      erewrite cbind_done by (apply clift_done; unfold lift; by rewrite Eq). cbv beta iota.
      erewrite cbind_done by exact E. cbv beta iota. apply clift_done. unfold lift. by rewrite Hdec.
    + eapply ring_has_mem; [exact Hs2|]. by rewrite (ro_others _ _ _ _ Ho2), Em by exact Hne.
    + split; [rewrite (ro_sys _ _ _ _ Ho2); cbn [ticked w_sys]; by rewrite (ro_sys _ _ _ _ Ho1)|]. split.
      * by rewrite (ring_only_dom _ _ _ _ Ho2), Em.
      * split; [intros p Hp1; by rewrite (ro_others _ _ _ _ Ho2), Em|].
        rewrite <- Em. by eapply ring_only_reframed.
    + split; [by rewrite (ro_ticks _ _ _ _ Ho2)|]. rewrite (ro_rng _ _ _ _ Ho2). apply (ro_rng _ _ _ _ Ho1).
Qed.

(** When the handler answers from any world. *)
Lemma round_trip_served {Q R} `{!Serde Q, !Serde R} kq (q : Z -> Inner -> Q) kr
    (i : Inner) (b : Broker) (ls t : Z) (w bw : world) (ts : list tick) (corr : Z) (w0 : world)
    (qf rf : Frame) (r : io_result R) :
  connected i b w -> next_corr w = Done (corr, w0) ->
  w_ticks w = broker_tick b ls bw t :: ts -> Z.max 0 (w_now bw - ls) < SWEEP_INTERVAL ->
  to_frame kq (q corr i) = Done (Ok qf) -> sendable (t_submission (i_transport i)) qf ->
  turn_serving b (t_reply_ring (i_transport i)) qf rf (fun _ => True) (fun _ _ _ => True) ->
  frame_wf rf -> correlation_id rf = Done (Ok corr) -> from_frame kr rf = Done r ->
  exists i' w', round_trip dispatch_turn kq q kr i w = Done ((r, i'), w') /\
    ring_has (t_reply_ring (i_transport i)) w' [] /\ i_pending i' = delete corr (i_pending i) /\
    i_transport i' = i_transport i /\ same_conf i i'.
Proof using.
  intros Hcn%connected_wired Ecorr Et Hsw Eq Hq Hans Hrf Hcorr Hdec.
  destruct (round_trip_turn kq q kr i b ls t w bw ts corr w0 qf rf r (fun _ _ _ => True)) as (i' & w' & _ & _ & _ & E & (? & ? & ? & ? & _) & _);
    try done; [|by exists i', w'].
  intros v Hv _. by apply Hans.
Qed.

(** ** The two read-only requests *)

Lemma handled b k (qf : Frame) fp w :
  c_fp c k = Done fp -> schema_fp qf = fp -> frame_wf qf ->
  handle b (encode qf) w = match k with
    | KListChannels => on_list b qf w
    | KLookupFunction => on_lookup b qf w
    | _ => handle b (encode qf) w
    end.
Proof using Hc Hfps.
  intros Ef Efp Hwf. destruct (Hfps _ _ Ef) as [Hk _].
  destruct k; try done; unfold handle; rewrite (decode_encode _ Hwf);
    (erewrite bind_done by (unfold lift; by rewrite Hc)); by rewrite Efp, Hk.
Qed.

(** A handler that only replies, and changes the broker to [b']: of the memory, nothing but
    the reply ring is touched. *)
Lemma replies_with {T} `{!Serde T} b b' i kr (ans : T) (qf rf : Frame) Pre w :
  connected i b w -> b_reply_rings b' = b_reply_rings b ->
  (forall v, Pre v -> handle b (encode qf) v = return_in b' (reply b' (t_client_id (i_transport i)) kr ans) v) ->
  to_frame kr ans = Done (Ok rf) ->
  sendable (t_reply_ring (i_transport i)) rf ->
  turn_serving b (t_reply_ring (i_transport i)) qf rf Pre (fun b2 v v' =>
    b2 = b' /\ dom (w_mem v') = dom (w_mem v) /\
    forall p, p <> r_ptr (t_reply_ring (i_transport i)) -> w_mem v' !! p = w_mem v !! p).
Proof using.
  intros [_ _ (ring & Hring & Hshare) [_ Hg] _ _] Hb' Hh Hr [_ Hroom] v Hb Hpre.
  destruct (reply_ok b' (t_client_id (i_transport i)) kr ans ring rf [] v) as (w' & E & Hrf & Ho).
  - by rewrite Hb'.
  - eapply shares_geom; [by apply shares_sym | done].
  - eapply shares_has; [by apply shares_sym | done].
  - done.
  - by rewrite (proj1 (proj2 (proj2 Hshare))).
  - exists b', w'. split_and!; [|by eapply shares_has | by apply (ro_now _ _ _ _ Ho) | | done |
      by eapply ring_only_dom |].
    + rewrite Hh by done. unfold return_in. by erewrite bind_done by exact E.
    + intros p _ Hp. apply (ro_others _ _ _ _ Ho). by rewrite (proj1 Hshare).
    + intros p Hp. apply (ro_others _ _ _ _ Ho). by rewrite (proj1 Hshare).
Qed.

Lemma serves_weaken b rep qf rf Pre Post Pre' Post' :
  turn_serving b rep qf rf Pre Post -> (forall w, Pre' w -> Pre w) -> (forall b' v v', Post b' v v' -> Post' b' v v') ->
  turn_serving b rep qf rf Pre' Post'.
Proof using.
  intros Hs Hpre Hpost0 w Hw Hp. destruct (Hs w Hw (Hpre _ Hp)) as (b' & w' & E & Hr & Hn & Hk & Hpost).
  exists b', w'. split_and!; auto.
Qed.
End bus.

(** The client [i] is about to ask, with the correlation id [corr]; the broker has its turn,
    as the process [bw] and without a sweep, while the client waits. *)
Record asks `{ProtoSerde} `{!Sha256} (i : Inner) (b : Broker) (ls : Z) (bw w : world) (corr : Z) : Prop := {
  as_connected : connected i b w;
  as_corr : exists w0, next_corr w = Done (corr, w0);
  as_turn : exists t ts, w_ticks w = broker_tick b ls bw t :: ts;
  as_quiet : Z.max 0 (w_now bw - ls) < SWEEP_INTERVAL;
}.
