(* ===== verification/BusArena.v ===== *)
(** * A new arena, over the bus

    What publishing a channel and exposing a function have in common: the broker makes an
    arena in its turn, and the client that asked maps it. The arena is one block of the
    memory the processes share: mapping its segment gives its address. *)

From S2P Require Import Prelude Machine Shm Circ Ring RingMem RingSpec RingThm Demo Frame Control Util Avro Proto ProtoProps Registry RegistryThm Broker BrokerThm BrokerOps BrokerFlow Client ClientThm Bus.

Lemma from_frame_compat_to_frame `{Avro} {T} `{!Serde T} c k (m : T) f :
  catalog = Done c -> (forall s, c_schema c k = Done s -> codec_ok T s) ->
  (forall fp s, c_fp c k = Done fp -> c_schema c k = Done s -> writer_schema c fp = Some s) ->
  to_frame k m = Done (Ok f) -> from_frame_compat f = Done (Ok m).
Proof.
  intros Ec Hc Hw (s & fp & Es & Ef & Hb & Efp & _)%(to_frame_inv c); [|done].
  unfold from_frame_compat. rewrite Ec. cbn [obind]. rewrite Efp, (Hw _ _ Ef Es). f_equal. by apply Hc.
Qed.

Lemma with_reconnect_ok `{ProtoSerde} {T} others (op : conn (io_result T)) i w v i' w' :
  op i w = Done ((Ok v, i'), w') -> with_reconnect others op i w = Done ((Ok v, i'), w').
Proof. intros E. unfold with_reconnect. by erewrite cbind_done by exact E. Qed.

Lemma with_reconnect_err `{ProtoSerde} {T} others (op : conn (io_result T)) i w e i' w' :
  broker_unreachable e = false ->
  op i w = Done ((Err e, i'), w') -> with_reconnect others op i w = Done ((Err e, i'), w').
Proof.
  intros He E. unfold with_reconnect. erewrite cbind_done by exact E. cbv beta iota.
  erewrite cbind_done by reflexivity. by rewrite He, orb_true_r.
Qed.

(** The system gives the broker the memory for the arena [name], and then the client,
    in whose memory [m] the new block appears, the mapping. *)
Definition arena_to_be_had (bs cs : sys) (m : gmap Z (list byte)) (name : string) (cap : Z) : Prop :=
  shm_creates bs name (ring_bytes cap) /\
  forall m1, dom m1 = dom m -> let ptr := lands bs name (ring_bytes cap) m1 in
    m !! ptr = None -> opens_at cs name (ring_bytes cap) ptr (fun m' => dom m' = {[ptr]} ∪ dom m).

(** What a round-trip leaves as it is, of the connection and of its process. *)
Record carried (i : Inner) (w : world) (i' : Inner) (w' : world) : Prop := {
  cr_transport : i_transport i' = i_transport i;
  cr_pending : pending_wf i';
  cr_conf : same_conf i i';
  cr_cells : i_cells i' = i_cells i;
  cr_sys : w_sys w' = w_sys w;
  cr_ticks : w_ticks w' = tail (w_ticks w);
}.

(** After a publish: the block at [ptr] is new, the client's two rings are empty again, and
    the rest of the memory is as before. *)
Definition at_rest (i : Inner) (w w' : world) (ptr : Z) : Prop :=
  let sub := t_submission (i_transport i) in
  let rep := t_reply_ring (i_transport i) in
  w_mem w !! ptr = None /\ ring_has sub w' [] /\ ring_has rep w' [] /\
  forall p, p <> ptr -> p <> r_ptr sub -> p <> r_ptr rep -> w_mem w' !! p = w_mem w !! p.

(** The turn of the broker in which it makes the arena [name] and becomes [b'] of it: the
    block at [ptr] is new, and of the rest of the memory the reply ring only has changed. *)
Definition makes_arena (name : string) (cap : Z) (b' : Segment -> Broker) (rep : Ring) (b2 : Broker) (v v' : world) : Prop :=
  exists ptr, let seg := MkSegment name ptr (ring_bytes cap) true in
    b2 = b' seg /\ lands (w_sys v) name (ring_bytes cap) (w_mem v) = ptr /\ w_mem v !! ptr = None /\ ptr <> MAP_FAILED /\ ptr <> r_ptr rep /\
    ring_geom (arena_ring seg cap) /\ ring_has (arena_ring seg cap) v' [] /\
    attachable (arena_ring seg cap) (w_mem v') /\ dom (w_mem v') = {[ptr]} ∪ dom (w_mem v) /\
    forall p, p <> r_ptr rep -> p <> ptr -> w_mem v' !! p = w_mem v !! p.

Section arena.
Context `{ProtoSerde} `{!Sha256} (name : string) (cap : Z).

Lemma arena_served (b : Broker) (b' : Segment -> Broker) (i : Inner) (w : world) (Pre : world -> Prop) (qf rf : Frame) :
  let rep := t_reply_ring (i_transport i) in
  connected i b w ->
  (forall ring v, b_reply_rings b !! t_client_id (i_transport i) = Some ring -> shares ring rep ->
     ring_geom ring -> ring_has ring v [] -> Pre v ->
     exists ptr w1 w' evs, let seg := MkSegment name ptr (ring_bytes cap) true in
       handle b (encode qf) v = Done ((b' seg, Ok tt), w') /\ arena_made seg cap v w1 /\
       r_ptr ring <> ptr /\ ring_only ring w1 w' evs /\ ring_has ring w' ([] ++ [encode rf])) ->
  turn_serving b rep qf rf Pre (makes_arena name cap b' rep).
Proof using.
  intros rep [_ _ (ring & Hring & Hshare) [_ Hg] _ _] Hmake v Hv Hpre.
  destruct (Hmake ring v Hring Hshare) as (ptr & w1 & w' & evs & E & Ham & Hne & Ho & Hq'); [| |done|].
  { eapply shares_geom; [by apply shares_sym | done]. }
  { eapply shares_has; [by apply shares_sym | done]. }
  pose proof (ro_others _ _ _ _ Ho) as Hoth.
  exists (b' (MkSegment name ptr (ring_bytes cap) true)), w'.
  split; [exact E|split; [by eapply shares_has|split; [|split]]].
  - rewrite (ro_now _ _ _ _ Ho). apply Ham.
  - intros p [bs Hbs] Hp1. rewrite Hoth by by rewrite (proj1 Hshare).
    apply (am_others _ _ _ _ Ham). intros ->. pose proof (am_new _ _ _ _ Ham). congruence.
  - exists ptr. cbv zeta. split_and!; [done | exact (am_lands _ _ _ _ Ham) | apply Ham | apply Ham | unfold rep; rewrite <- (proj1 Hshare); by apply not_eq_sym | apply Ham | | | |].
    + by eapply arena_after_reply.
    + destruct (am_attach _ _ _ _ Ham) as (bs & Hbs & Hx). exists bs. split; [|exact Hx].
      rewrite Hoth; [exact Hbs | by apply not_eq_sym].
    + by rewrite (ring_only_dom _ _ _ _ Ho), (arena_made_dom _ _ _ _ Ham).
    + intros p Hp1 Hp2. rewrite Hoth by by rewrite (proj1 Hshare). by apply (am_others _ _ _ _ Ham).
Qed.

(** The client's round-trip to such a turn, and its mapping of the arena. *)
Lemma arena_answered {Q R} `{!Serde Q, !Serde R} kq (q : Z -> Inner -> Q) kr (ans : R) (b : Broker) (b' : Segment -> Broker)
    (i : Inner) (ls : Z) (bw w : world) (corr : Z) (qf rf : Frame) :
  let sub := t_submission (i_transport i) in
  let rep := t_reply_ring (i_transport i) in
  asks i b ls bw w corr -> has_nul name = false -> 0 < ring_bytes cap < 2 ^ 64 ->
  arena_to_be_had (w_sys bw) (w_sys w) (w_mem w) name cap ->
  to_frame kq (q corr i) = Done (Ok qf) -> sendable sub qf ->
  turn_serving b rep qf rf (finds (w_sys bw) sub (w_mem w)) (makes_arena name cap b' rep) ->
  frame_wf rf -> correlation_id rf = Done (Ok corr) -> from_frame kr rf = Done (Ok ans) ->
  exists i' w1 w' ptr, let ring := mapped_arena name ptr cap in
    round_trip dispatch_turn kq q kr i w = Done ((Ok ans, i'), w1) /\ attach_arena name w1 = Done (Ok ring, w') /\
    (exists m0 v, turn b ls (set_mem m0 bw) = Done ((b' (MkSegment name ptr (ring_bytes cap) true), ls), v)) /\
    ring_geom ring /\ ring_has ring w' [] /\ attachable ring (w_mem w') /\ ptr <> MAP_FAILED /\
    at_rest i w w' ptr /\ carried i w i' w' /\
    exists m1, dom m1 = dom (w_mem w) /\ lands (w_sys bw) name (ring_bytes cap) m1 = ptr.
Proof using.
  intros sub rep [Hcn (w0 & Ecorr) (t & ts & Et) Hq] Hn Hsz (_ & Hopen) Eq Hqf Hserve Hwf Hcorr Hdec.
  destruct (round_trip_turn kq q kr i b ls t w bw ts corr w0 qf rf (Ok ans) _ (connected_wired _ _ _ Hcn) Ecorr Et Hq Eq Hqf
      Hserve Hwf Hcorr Hdec)
    as (i' & w1 & b2 & v & v' & E & (Hrep & _ & Htr & Hconf & Hcells & Hp) & Hsub & Hturn & (Hsv & Hdv & Hv & _) & (ptr & -> & Hland & Hnew & Hptr & Hpr & Hg & Hhas & Hatt & Hdom & Hv')
      & (Hsys & Hdom' & Hmem & _) & Htk & _).
  set (ring := mapped_arena name ptr cap).
  assert (w_mem w1 !! ptr = w_mem v' !! ptr) as Eptr by by apply Hmem.
  assert (shares (arena_ring (MkSegment name ptr (ring_bytes cap) true) cap) ring) as Hsh by by split_and!.
  assert (attachable ring (w_mem w1)) as Hatt1.
  { destruct Hatt as (bs & Hbs & Hx). exists bs. split; [|exact Hx]. etrans; [exact Eptr | exact Hbs]. }
  pose proof (shares_geom _ _ Hsh Hg) as Hg1.
  assert (w_mem w !! ptr = None) as Hnone by by rewrite <- not_elem_of_dom, <- Hdv, not_elem_of_dom.
  destruct (attach_shared name (ring_bytes cap) ptr cap (fun m' => dom m' = {[ptr]} ∪ dom (w_mem w)) w1 Hn Hsz Hptr)
    as (w' & Ea & Em & _ & Es & Ek & _); [rewrite Hsys, <- Hland, Hsv; apply Hopen; [done | by rewrite <- Hsv, Hland] | | done | done |].
  { by rewrite Hdom', Hdom, Hdv. }
  exists i', w1, w', ptr. split_and!; try done.
  - destruct Hturn as [m0 Hm0]. by exists m0, v'.
  - eapply shares_has; [exact Hsh|]. eapply ring_has_mem; [exact Hhas|]. rewrite Em. exact Eptr.
  - by rewrite Em.
  - split_and!; [done | | |]; [eapply ring_has_mem; [eassumption | by rewrite Em].. |].
    intros p Hp1 Hp2 Hp3. by rewrite Em, Hmem, Hv', Hv.
  - constructor; try done; [by rewrite Es | by rewrite Ek, Htk, Et].
  - exists (w_mem v). by rewrite <- Hsv.
Qed.
End arena.
