(* ===== verification/BusProps.v ===== *)
(** * The properties of a client and the broker together *)

From S2P Require Import Prelude Machine Shm Circ Ring RingMem RingSpec RingThm Demo Frame Control Util Avro Proto Toy ProtoProps Registry RegistryThm Broker BrokerThm BrokerOps BrokerProps BrokerFlow Client ClientThm ClientProps Bus.

(** What the Avro codec does for the messages of the two requests. *)
Record bus_codecs `{ProtoSerde} (c : Catalog) : Prop := {
  bc_catalog : catalog = Done c;
  bc_replies : reply_codecs c;
  bc_fps : forall k fp, c_fp c k = Done fp -> kind_of c fp = Some k /\ in_u 64 fp;
  bc_list s : c_schema c KListChannels = Done s -> codec_ok ListChannels s;
  bc_lookup s : c_schema c KLookupFunction = Done s -> codec_ok LookupFunction s;
}.

(** The client is about to ask, with the correlation id [corr]; the broker has its turn,
    without a sweep, while the client waits. *)
Record about_to_ask `{ProtoSerde} `{!Sha256} (i : Inner) (b : Broker) (w : world) (corr : Z) : Prop := {
  aa_connected : connected i b w;
  aa_corr : exists w0, next_corr w = Done (corr, w0);
  aa_turn : exists ls bw t ts, w_ticks w = broker_tick b ls bw t :: ts /\ Z.max 0 (w_now bw - ls) < SWEEP_INTERVAL;
}.

(** After the call: the reply is consumed and nothing of it is left pending. *)
Definition settled (i i' : Inner) (w' : world) (corr : Z) : Prop :=
  ring_has (t_reply_ring (i_transport i)) w' [] /\ i_pending i' = delete corr (i_pending i) /\
  i_transport i' = i_transport i.

(** Listing the channels over the bus gives the broker's channels: the request goes
    from the client's [list_channels] through the submission ring to the broker's
    handler, the answer through the client's reply ring and the dispatcher to the
    waiting call, which returns exactly the list of the broker's registry; the reply
    ring is empty again and the call's pending entry gone. *)
Theorem list_channels_over_the_bus `{ProtoSerde} `{!Sha256} (c : Catalog) (i : Inner) (b : Broker)
    (w : world) (corr : Z) (qf rf : Frame) :
  bus_codecs c -> about_to_ask i b w corr ->
  to_frame KListChannels (MkListChannels corr (t_client_id (i_transport i))) = Done (Ok qf) ->
  sendable (t_submission (i_transport i)) qf ->
  to_frame KChannelList (MkChannelList corr (list_channels (b_reg b))) = Done (Ok rf) ->
  sendable (t_reply_ring (i_transport i)) rf ->
  exists i' w', do_list_channels dispatch_turn i w = Done ((Ok (list_channels (b_reg b)), i'), w') /\
    settled i i' w' corr.
Proof.
  intros [Hc Hcod Hfp Hlist _] [Hcn (w0 & Ecorr) (ls & bw & t & ts & Et & Hs)] Eq Hq Er Hr.
  destruct (to_frame_inv c _ _ _ Hc Eq) as (s & fp & _ & Efp & _ & Eqf & _).
  destruct (reply_is_routed c (RList (MkChannelList corr (list_channels (b_reg b)))) rf Hc Hcod Hfp Er)
    as [Hwf Hcorr]; [by destruct Hr as [[] _]|].
  destruct (round_trip_served KListChannels (fun corr i => MkListChannels corr (t_client_id (i_transport i)))
    KChannelList i b ls t w bw ts corr w0 qf rf (Ok (MkChannelList corr (list_channels (b_reg b)))))
    as (i' & w' & E & Hring & Hp & Ht & _); try done.
  - eapply serves_weaken; [eapply (replies_with b b i KChannelList (MkChannelList corr (list_channels (b_reg b))) qf rf (fun _ => True));
      [exact Hcn | done | | exact Er | exact Hr] | done | done]. intros wb _.
    rewrite (handled c Hc Hfp b _ qf fp wb Efp Eqf (proj1 Hq)). unfold on_list, try_in.
    erewrite bind_done by (unfold lift; by rewrite (from_frame_to_frame c _ _ _ Hc Hlist Eq)). done.
  - exact (from_frame_to_frame c _ _ _ Hc (rc_list c Hcod) Er).
  - exists i', w'. split; [|done]. unfold do_list_channels, cbind_io. by erewrite cbind_done by exact E.
Qed.

(** The broker's answer to a lookup, and what the client makes of it. *)
Definition found (corr fid req_fp resp_fp : Z) (arena : string) : LookupReply :=
  MkLookupReply corr fid (fp_to_i64 req_fp) (fp_to_i64 resp_fp) arena STATUS_OK "".
Definition lookup_answer `{!Sha256} (b : Broker) (corr : Z) (name key : string) : LookupReply :=
  match resolve_lookup (b_reg b) name key with
  | Ok (fid, req_fp, resp_fp, arena) => found corr fid req_fp resp_fp arena
  | Err (code, msg) => MkLookupReply corr 0 0 0 "" code msg
  end.

Lemma denied_status `{!Sha256} r name key code msg :
  resolve_lookup r name key = Err (code, msg) -> (code =? STATUS_OK) = false.
Proof.
  unfold resolve_lookup, check_key. intros E. repeat case_match; simplify_eq; done.
Qed.

Lemma lookup_replies `{ProtoSerde} `{!Sha256} (c : Catalog) (b : Broker) (i : Inner) (corr : Z) (name : string)
    (key : option string) (qf : Frame) (w : world) :
  catalog = Done c -> (forall s, c_schema c KLookupFunction = Done s -> codec_ok LookupFunction s) ->
  to_frame KLookupFunction (MkLookupFunction corr (t_client_id (i_transport i)) name (key_or_empty key)) = Done (Ok qf) ->
  on_lookup b qf w = return_in b (reply b (t_client_id (i_transport i)) KLookupReply
    (lookup_answer b corr name (key_or_empty key))) w.
Proof.
  intros Hc Hlk Eq. unfold on_lookup, try_in.
  erewrite bind_done by (unfold lift; by rewrite (from_frame_to_frame c _ _ _ Hc Hlk Eq)).
  unfold lookup_answer, found. simpl. by repeat case_match.
Qed.

(** The lookup, and what it leaves of the client's process. *)
Lemma lookup_answered `{ProtoSerde} `{!Sha256} (c : Catalog) (i : Inner) (b : Broker) (ls t : Z) (bw w w0 : world)
    (ts : list tick) (corr : Z) (name : string) (key : option string) (qf rf : Frame) :
  let sub := t_submission (i_transport i) in
  let rep := t_reply_ring (i_transport i) in
  bus_codecs c -> connected i b w -> next_corr w = Done (corr, w0) ->
  w_ticks w = broker_tick b ls bw t :: ts -> Z.max 0 (w_now bw - ls) < SWEEP_INTERVAL ->
  to_frame KLookupFunction (MkLookupFunction corr (t_client_id (i_transport i)) name (key_or_empty key)) =
    Done (Ok qf) -> sendable sub qf ->
  to_frame KLookupReply (lookup_answer b corr name (key_or_empty key)) = Done (Ok rf) -> sendable rep rf ->
  exists i' w', do_lookup dispatch_turn name key i w =
      Done ((match resolve_lookup (b_reg b) name (key_or_empty key) with
             | Ok (fid, req_fp, resp_fp, arena) => Ok (found corr fid req_fp resp_fp arena)
             | Err (_, msg) => Err (io_other ("lookup failed: " +:+ msg))
             end, i'), w') /\
    settled i i' w' corr /\ same_conf i i' /\ pending_wf i' /\
    w_sys w' = w_sys w /\ w_ticks w' = ts /\ w_rng w' = w_rng w0 /\
    forall p, p <> r_ptr sub -> p <> r_ptr rep -> w_mem w' !! p = w_mem w !! p.
Proof.
  intros sub rep [Hc Hcod Hfp _ Hlk] Hcn Ecorr Et Hs Eq Hq Er Hr.
  set (ans := lookup_answer b corr name (key_or_empty key)) in *.
  destruct (to_frame_inv c _ _ _ Hc Eq) as (s & fp & _ & Efp & _ & Eqf & _).
  assert (reply_corr (RLookup ans) = corr) as Eans
    by (unfold ans, lookup_answer, found; simpl; by repeat case_match).
  destruct (reply_is_routed c (RLookup ans) rf Hc Hcod Hfp Er) as [Hwf Hcorr]; [by destruct Hr as [[] _]|].
  rewrite Eans in Hcorr.
  destruct (round_trip_turn KLookupFunction (fun corr i =>
      MkLookupFunction corr (t_client_id (i_transport i)) name (key_or_empty key)) KLookupReply i b ls t w bw ts corr w0 qf rf
      (Ok ans) _ (connected_wired _ _ _ Hcn) Ecorr Et Hs Eq Hq
      (replies_with b b i KLookupReply ans qf rf _ w Hcn eq_refl (fun wb _ => eq_trans (handled c Hc Hfp b _ qf fp wb Efp Eqf (proj1 Hq))
         (lookup_replies c b i corr name key qf wb Hc Hlk Eq)) Er Hr) Hwf Hcorr
      (from_frame_to_frame c _ _ _ Hc (rc_lookup c Hcod) Er))
    as (i' & w' & b2 & v & v' & E & (Hring & Hp & Ht & Hconf & _ & Hpw) & _ & _ & (_ & _ & Hv & _) & (_ & _ & Hv') &
      (Hsys & _ & Hw & _) & Htk & Hrng).
  exists i', w'. split_and!; try done; [|intros p Hp1 Hp2; by rewrite Hw, Hv', Hv].
  unfold do_lookup, cbind_io. erewrite cbind_done by exact E. cbv beta iota. unfold ans, lookup_answer.
  destruct (resolve_lookup (b_reg b) name (key_or_empty key)) as [[[[fid rq] rp] ar]|[code msg]] eqn:El; [done|].
  cbn [lkp_reply_status]. by rewrite (denied_status _ _ _ _ _ El).
Qed.

(** C14: Looking a function up over the bus tells exactly what the broker's registry grants:
    with the key the function asks for (or any, if it asks for none), its id,
    fingerprints and request arena; without it, or for an unknown name, the error of
    that case, and nothing of the function; again through both rings, the broker's
    handler and the dispatcher. *)
Theorem lookup_over_the_bus `{ProtoSerde} `{!Sha256} (c : Catalog) (i : Inner) (b : Broker)
    (w : world) (corr : Z) (name : string) (key : option string) (qf rf : Frame) :
  bus_codecs c -> about_to_ask i b w corr ->
  to_frame KLookupFunction (MkLookupFunction corr (t_client_id (i_transport i)) name (key_or_empty key)) =
    Done (Ok qf) ->
  sendable (t_submission (i_transport i)) qf ->
  to_frame KLookupReply (lookup_answer b corr name (key_or_empty key)) = Done (Ok rf) ->
  sendable (t_reply_ring (i_transport i)) rf ->
  exists i' w', do_lookup dispatch_turn name key i w =
      Done ((match resolve_lookup (b_reg b) name (key_or_empty key) with
             | Ok (fid, req_fp, resp_fp, arena) => Ok (found corr fid req_fp resp_fp arena)
             | Err (_, msg) => Err (io_other ("lookup failed: " +:+ msg))
             end, i'), w') /\
    settled i i' w' corr.
Proof.
  intros Hc [Hcn (w0 & Ecorr) (ls & bw & t & ts & Et & Hs)] Eq Hq Er Hr.
  destruct (lookup_answered c i b ls t bw w w0 ts corr name key qf rf Hc Hcn Ecorr Et Hs Eq Hq Er Hr)
    as (i' & w' & E & Hset & _). by exists i', w'.
Qed.

(** ** A bus to compute with *)

(** Client 1 of [demo_pub], whose broker also has a function with an access key; the broker's
    turn is the first thing that happens while the client waits. *)
Definition bus_inner : Inner := start_inner "svc" 1 (set_client_id 1 demo_transport).
Definition bus_broker : Broker :=
  MkBroker demo_sub_seg demo_sub_ring
    (insert_function (MkFunctionMeta 1 "add" 1 11 12 (Some (key_hash "k")) (function_arena 1)) (b_reg demo_pub))
    (b_reply_rings demo_pub) (b_reply_segs demo_pub) ∅ [].
Definition bus_tick : tick := broker_tick bus_broker 0 (demo_world []) 10.
Definition bus_world : world := World demo_conn_mem 0 demo_sys [bus_tick] 0 [].

Definition list_request : Frame := frame_of (to_frame KListChannels (MkListChannels 77 1)).
Definition list_reply : Frame :=
  frame_of (to_frame KChannelList (MkChannelList 77 (list_channels (b_reg bus_broker)))).
Definition lookup_request : Frame := frame_of (to_frame KLookupFunction (MkLookupFunction 77 1 "add" "k")).
Definition lookup_reply : Frame := frame_of (to_frame KLookupReply (lookup_answer bus_broker 77 "add" "k")).

Lemma bus_codecs_toy : bus_codecs toy_catalog.
Proof.
  constructor; [exact toy_catalog_done | exact toy_reply_codecs | exact toy_fp_kind | |];
    intros s _; apply toy_codec; intros m v; destruct m; simpl; by intros [= <-].
Qed.

Lemma bus_asks : about_to_ask bus_inner bus_broker bus_world 77.
Proof.
  constructor.
  - constructor.
    + intros c s E. unfold bus_inner, start_inner in E. simpl in E. by rewrite lookup_empty in E.
    + by split_and!.
    + exists demo_client_ring. by split; [reflexivity | split_and!].
    + split; [exact demo_sub_geom | exact demo_client_geom].
    + done.
    + split.
      * eapply ring_has_mem; [exact demo_conn_sub | reflexivity].
      * eapply ring_has_mem; [exact demo_bus_ring | reflexivity].
  - eexists. reflexivity.
  - exists 0, (demo_world []), 10, []. split; [reflexivity | vm_compute; reflexivity].
Qed.

Definition sends (r : Ring) (f : Frame) : bool :=
  (0 <=? flags f) && (flags f <? 2 ^ 8) && (0 <=? schema_fp f) && (schema_fp f <? 2 ^ 64) &&
  (blen (body f) <? 2 ^ 32) && fst (fifo_push (r_capacity r) [] (encode f)).

Lemma sends_ok r f : sends r f = true -> sendable r f.
Proof.
  unfold sends. intros Hs. repeat (apply andb_prop in Hs as [Hs ?]). pose proof (blen_nonneg (body f)).
  split; [|done]. constructor; unfold in_u; lia.
Qed.

Lemma list_frames :
  to_frame KListChannels (MkListChannels 77 1) = Done (Ok list_request) /\
  sends demo_sub_ring list_request = true /\
  to_frame KChannelList (MkChannelList 77 (list_channels (b_reg bus_broker))) = Done (Ok list_reply) /\
  sends demo_client_ring list_reply = true.
Proof. split_and!; vm_compute; reflexivity. Qed.

Lemma lookup_frames :
  to_frame KLookupFunction (MkLookupFunction 77 1 "add" "k") = Done (Ok lookup_request) /\
  sends demo_sub_ring lookup_request = true /\
  to_frame KLookupReply (lookup_answer bus_broker 77 "add" "k") = Done (Ok lookup_reply) /\
  sends demo_client_ring lookup_reply = true.
Proof. split_and!; vm_compute; reflexivity. Qed.

Lemma bus_answers :
  list_channels (b_reg bus_broker) = [MkChannelInfo 1 "news" "svc" 9 false] /\
  resolve_lookup (b_reg bus_broker) "add" "k" = Ok (1, 11, 12, function_arena 1).
Proof. split; vm_compute; reflexivity. Qed.

Lemma list_channels_over_the_bus_witness :
  exists i' w', do_list_channels dispatch_turn bus_inner bus_world =
      Done ((Ok [MkChannelInfo 1 "news" "svc" 9 false], i'), w') /\
    settled bus_inner i' w' 77.
Proof.
  destruct list_frames as (F1 & F2 & F3 & F4). rewrite <- (proj1 bus_answers).
  apply (list_channels_over_the_bus toy_catalog bus_inner bus_broker bus_world 77 list_request list_reply
    bus_codecs_toy bus_asks F1 (sends_ok _ _ F2) F3 (sends_ok _ _ F4)).
Defined.

Lemma lookup_over_the_bus_witness :
  exists i' w', do_lookup dispatch_turn "add" (Some "k") bus_inner bus_world =
      Done ((Ok (found 77 1 11 12 (function_arena 1)), i'), w') /\
    settled bus_inner i' w' 77.
Proof.
  destruct lookup_frames as (F1 & F2 & F3 & F4).
  pose proof (lookup_over_the_bus toy_catalog bus_inner bus_broker bus_world 77 "add" (Some "k") lookup_request
    lookup_reply bus_codecs_toy bus_asks F1 (sends_ok _ _ F2) F3 (sends_ok _ _ F4)) as Hl.
  cbn [key_or_empty] in Hl. rewrite (proj2 bus_answers) in Hl. exact Hl.
Defined.
