(* ===== verification/RpcThm.v ===== *)
(** * Reasoning about calls and services

    The data path of a call, from the caller's arguments to the result it decodes, and
    the invariant of the worker pool. *)

From S2P Require Import Prelude Machine Shm Circ Ring RingMem RingSpec RingThm Frame Control Util Avro Proto ProtoProps Registry RegistryThm Broker BrokerThm BrokerOps Client ClientThm Rpc.

(** ** The data path *)

Lemma fp_back fp : in_u 64 fp -> i64_to_fp (fp_to_i64 fp) = fp.
Proof.
  intros Hf. unfold i64_to_fp, fp_to_i64. rewrite wrap_u_wrap_i by lia. by apply wrap_u_small.
Qed.

Lemma framed_wf `{Avro} {T} `{!Serde T} c k (m : T) f :
  catalog = Done c -> (forall k fp, c_fp c k = Done fp -> kind_of c fp = Some k /\ in_u 64 fp) ->
  to_frame k m = Done (Ok f) -> in_u 32 (blen (body f)) ->
  frame_wf f /\ kind_of c (schema_fp f) = Some k.
Proof.
  intros Ec Hfp (s & fp & _ & Ef & _ & Es & El)%(to_frame_inv c) Hb; [|done].
  destruct (Hfp _ _ Ef) as [Hk Hu]. rewrite <- Es in *. split; [|done].
  constructor; [by rewrite El | done | done].
Qed.

(** A request that the handler answers, the answer's frame, and its reading. *)
Lemma handle_one_result `{ProtoSerde} {Req Resp} `{!Serde Req, !Serde Resp} (sq sp : Schema) (x : Req) (y : Resp)
    (args result : list byte) (handler : Req -> outcome Resp) (corr caller : Z) (seg : string) :
  codec_ok Req sq -> avro_encode sq x = Ok args -> handler x = Done y -> avro_encode sp y = Ok result ->
  handle_one (MkRpcRequest corr caller seg (fp_to_i64 (fingerprint sq)) args) sq sp (fingerprint sq)
    (fingerprint sp) handler = Done (MkRpcResponse corr STATUS_OK "" (fp_to_i64 (fingerprint sp)) result).
Proof.
  intros Hcq Ea Eh Er. unfold handle_one. simpl. rewrite fp_back, Z.eqb_refl by apply fingerprint_range. simpl.
  rewrite (Hcq x args Ea), Eh. simpl. by rewrite Er.
Qed.

Lemma result_routed `{ProtoSerde} c resp rf :
  catalog = Done c -> (forall s, c_schema c KRpcResponse = Done s -> codec_ok RpcResponse s) ->
  to_frame KRpcResponse resp = Done (Ok rf) -> kind_of c (schema_fp rf) = Some KRpcResponse ->
  correlation_id rf = Done (Ok (rpc_response_correlation_id resp)).
Proof.
  intros Ec Hp Erf Kr. unfold correlation_id. rewrite Ec. simpl. rewrite Kr. unfold corr_of.
  by rewrite (from_frame_to_frame c KRpcResponse resp rf Ec Hp Erf).
Qed.

Lemma decode_result `{ProtoSerde} {Resp} `{!Serde Resp} c (sp : Schema) (y : Resp) (result : list byte)
    (corr : Z) (slot : nat) (rf : Frame) :
  catalog = Done c -> (forall s, c_schema c KRpcResponse = Done s -> codec_ok RpcResponse s) ->
  codec_ok Resp sp -> avro_encode sp y = Ok result ->
  to_frame KRpcResponse (MkRpcResponse corr STATUS_OK "" (fp_to_i64 (fingerprint sp)) result) = Done (Ok rf) ->
  decode_response (MkCallFuture _ slot sp (fingerprint sp) corr) rf = Done (Ok y).
Proof.
  intros Ec Hp Hcp Er Erf. unfold decode_response. rewrite (from_frame_to_frame c KRpcResponse _ rf Ec Hp Erf).
  simpl. rewrite fp_back, Z.eqb_refl by apply fingerprint_range. simpl. by rewrite (Hcp y result Er).
Qed.

(** A worker with the caller's ring in its cache delivers the answer. *)
Lemma serve_job_ok `{ProtoSerde} serve cache req resp rf ring q w :
  serve req = Done resp -> cache !! rpc_request_reply_segment req = Some ring ->
  to_frame KRpcResponse resp = Done (Ok rf) -> ring_geom ring -> ring_has ring w q ->
  fst (fifo_push (r_capacity ring) q (encode rf)) = true ->
  exists w', serve_job serve cache req w = Done (cache, w') /\ ring_has ring w' (q ++ [encode rf]).
Proof.
  intros Es Ec Ef Hg Hq Hroom.
  destruct (push_blocking_room ring Hg w q (encode rf) (Some REPLY_TIMEOUT) Hq Hroom)
    as (w' & E & Hq' & _).
  exists w'. split; [|exact Hq']. unfold serve_job, answer. rewrite Es.
  erewrite bind_done by reflexivity. unfold send_response. rewrite Ec.
  rewrite bind_assoc. erewrite bind_done by reflexivity. cbv beta iota zeta. rewrite insert_id by done.
  rewrite bind_assoc. erewrite bind_done by (unfold lift; by rewrite Ef). cbv iota.
  rewrite bind_assoc. erewrite bind_done by exact E. done.
Qed.

Lemma read_request_ok `{ProtoSerde} c (m : RpcRequest) f ring q w :
  catalog = Done c -> (forall s, c_schema c KRpcRequest = Done s -> codec_ok RpcRequest s) ->
  to_frame KRpcRequest m = Done (Ok f) -> frame_wf f ->
  ring_geom ring -> ring_has ring w (encode f :: q) ->
  exists w', read_request ring w = Done (Some m, w') /\ ring_has ring w' q /\
    ring_only ring w w' [EvWake (r_ptr ring) (r_base ring + OFF_SPACE_SEQ) I32_MAX].
Proof.
  intros Ec Hc Ef Hf Hg Hq.
  destruct (pop_blocking_ready ring Hg w (encode f) q (Some SERVICE_POLL) Hq) as (w' & E & Hq' & Ho).
  exists w'. split_and!; [|exact Hq'|exact Ho]. unfold read_request. erewrite bind_done by exact E. cbv iota.
  rewrite decode_encode by done.
  erewrite bind_done; [|unfold lift; rewrite (from_frame_to_frame c KRpcRequest m f Ec Hc Ef); reflexivity].
  done.
Qed.

(** ** The worker pool *)

Definition counted (t : wstate) : bool := match t with WGone => false | _ => true end.
Definition counted_idle (t : wstate) : bool := match t with WIdle | WWaking => true | _ => false end.

(** The request a worker is answering. *)
Definition job_of (t : wstate) : list RpcRequest := match t with WBusy job => [job] | _ => [] end.
Definition jobs (ts : list wstate) : list RpcRequest := concat (job_of <$> ts).

Lemma jobs_insert ts n t u :
  ts !! n = Some t -> jobs (<[n := u]> ts) ++ job_of t ≡ₚ jobs ts ++ job_of u.
Proof.
  unfold jobs. revert n. induction ts as [|x ts IH]; intros [|n] E; simplify_eq/=.
  - solve_Permutation.
  - specialize (IH n E). rewrite <- !app_assoc. by rewrite IH.
Qed.

Definition in_service (t : wstate) : bool := match t with WLeaving | WGone => false | _ => true end.

Record pool_inv (arrived : list RpcRequest) (p : Pool) : Prop := {
  pi_jobs : arrived ≡ₚ p_answered p ++ jobs (p_threads p) ++ p_queue p;
  pi_workers : p_workers p = tally counted (p_threads p);
  pi_idle : p_idle_workers p = tally counted_idle (p_threads p);
  pi_max : p_workers p <= p_max_workers p /\ 1 <= p_max_workers p;
  pi_lock : tally holds_queue (p_threads p) <= 1;
  pi_stay : p_running p = true -> forall n t, p_threads p !! n = Some t -> in_service t = true;
  pi_served : p_running p = true -> p_reader p = RReady -> p_queue p <> [] -> 1 <= p_workers p;
}.

Lemma queue_free_tally p : queue_free p = true <-> tally holds_queue (p_threads p) = 0.
Proof.
  unfold queue_free. induction (p_threads p) as [|t ts IH]; [done|]. cbn [forallb]. rewrite tally_cons.
  rewrite andb_true_iff, IH. pose proof (tally_nonneg holds_queue ts).
  destruct (holds_queue t); simpl; split; [intros [? _]; done | lia | lia | intros; split; [done | lia]].
Qed.

Definition arrival (e : pool_event) : list RpcRequest :=
  match e with EvArrive job => [job] | _ => [] end.
Definition arrivals (es : list pool_event) : list RpcRequest := concat (arrival <$> es).

Lemma idle_le_workers ts : tally counted_idle ts <= tally counted ts.
Proof.
  induction ts as [|t ts IH]; [done|]. rewrite !tally_cons. destruct t; simpl; lia.
Qed.

(** A worker's move that leaves queue, answers and the reader alone. *)
Lemma set_thread_inv arrived p n t u workers idle :
  pool_inv arrived p -> p_threads p !! n = Some t -> job_of t = [] -> job_of u = [] ->
  workers = p_workers p - (if counted t then 1 else 0) + (if counted u then 1 else 0) ->
  idle = p_idle_workers p - (if counted_idle t then 1 else 0) + (if counted_idle u then 1 else 0) ->
  (counted u = true -> counted t = true) ->
  (holds_queue u = true -> holds_queue t = false -> tally holds_queue (p_threads p) = 0) ->
  (p_running p = true -> in_service t = true -> in_service u = true) ->
  pool_inv arrived (set_thread n u (set_counts workers idle p)).
Proof.
  intros [H1 H2 H3 H4 H5 H6 H7] Et Jt Ju Hw Hi Hc Hq Hs. split; simpl.
  - pose proof (jobs_insert _ _ _ u Et) as Hj. rewrite Jt, Ju, !app_nil_r in Hj. by rewrite Hj.
  - rewrite (tally_insert _ _ _ _ _ Et). lia.
  - rewrite (tally_insert _ _ _ _ _ Et). lia.
  - destruct (counted u); [rewrite Hc in Hw by done; lia | destruct (counted t); lia].
  - rewrite (tally_insert _ _ _ _ _ Et). destruct (holds_queue u); [|destruct (holds_queue t); lia].
    destruct (holds_queue t); [lia|]. rewrite Hq by done. lia.
  - intros Hr m v Ev. rewrite lookup_insert_list in Ev by (by eapply lookup_lt_Some).
    case_decide; [|by eapply H6]. injection Ev as <-. apply Hs; [done|]. by eapply H6.
  - intros Hr Hd Hne. specialize (H7 Hr Hd Hne).
    assert (in_service t = true) as Ht by by eapply H6. specialize (Hs Hr Ht).
    destruct t, u; simpl in *; done || lia.
Qed.

Lemma pool_next_inv arrived e p p' :
  pool_inv arrived p -> pool_next e p = Some p' -> pool_inv (arrived ++ arrival e) p'.
Proof.
  intros Hi E. destruct e as [job| |n|]; simpl in *; rewrite ?app_nil_r.
  - destruct Hi as [H1 H2 H3 H4 H5 H6 H7]. destruct (p_reader p); [|done].
    destruct (queue_free p); [|done]. injection E as <-. split; simpl; try done.
    rewrite H1. solve_Permutation.
  - destruct (p_reader p); [done|]. injection E as <-. unfold count_and_spawn.
    destruct Hi as [H1 H2 H3 H4 H5 H6 H7].
    destruct ((p_idle_workers p =? 0) && (p_workers p <? p_max_workers p)) eqn:Es.
    + apply andb_true_iff in Es as [_ Es%Z.ltb_lt]. split; simpl.
      * unfold jobs. rewrite fmap_app, concat_app. simpl. by rewrite app_nil_r.
      * rewrite tally_app, tally_cons. simpl. lia.
      * rewrite tally_app, tally_cons. simpl. lia.
      * lia.
      * rewrite tally_app, tally_cons. simpl. lia.
      * intros Hr m t Em. apply lookup_app_Some in Em as [Em|[_ Em]]; [by eapply H6|].
        apply list_elem_of_lookup_2, list_elem_of_singleton in Em. by subst t.
      * intros _ _ _. pose proof (tally_nonneg counted (p_threads p)). lia.
    + split; simpl; try done. intros _ _ _. apply andb_false_iff in Es as [Es%Z.eqb_neq|Es%Z.ltb_ge]; [|lia].
      pose proof (idle_le_workers (p_threads p)). pose proof (tally_nonneg counted_idle (p_threads p)). lia.
  - destruct (p_threads p !! n) as [t|] eqn:Et; [|done]. simpl in E.
    assert (forall u, job_of t = [] -> job_of u = [] -> counted u = counted t ->
      counted_idle u = counted_idle t -> (holds_queue u = true -> holds_queue t = false ->
        tally holds_queue (p_threads p) = 0) ->
      (p_running p = true -> in_service t = true -> in_service u = true) ->
      pool_inv arrived (set_thread n u p)) as Hmove.
    { intros u Jt Ju Hc Hci Hq Hs.
      apply (set_thread_inv arrived p n t u (p_workers p) (p_idle_workers p) Hi Et Jt Ju); try done.
      - rewrite Hc. lia.
      - rewrite Hci. lia.
      - congruence. }
    destruct t as [| | | | |job| |]; simpl in E.
    + destruct (queue_free p) eqn:Eq; [injection E as <-|done]. apply queue_free_tally in Eq. by apply Hmove.
    + destruct (p_queue p) as [|job queue] eqn:Equ.
      * destruct (p_running p) eqn:Er; injection E as <-; by apply Hmove.
      * injection E as <-. destruct Hi as [H1 H2 H3 H4 H5 H6 H7].
        split; simpl; try (rewrite (tally_insert _ _ _ _ _ Et); simpl); try lia.
        -- pose proof (jobs_insert _ _ _ (WBusy job) Et) as Hj. simpl in Hj. rewrite app_nil_r in Hj.
           rewrite H1, Equ, Hj. solve_Permutation.
        -- intros Hr m v Ev. rewrite lookup_insert_list in Ev by (by eapply lookup_lt_Some).
           case_decide; [by injection Ev as <- | by eapply H6].
        -- intros Hr Hd _. apply H7; [done | done | by rewrite Equ].
    + injection E as <-. apply (set_thread_inv arrived p n WParking WIdle); try done; simpl; lia.
    + destruct (queue_free p) eqn:Eq; [injection E as <-|done]. apply queue_free_tally in Eq. by apply Hmove.
    + injection E as <-. apply (set_thread_inv arrived p n WWaking WLocked); try done; simpl; lia.
    + injection E as <-. destruct Hi as [H1 H2 H3 H4 H5 H6 H7].
      split; simpl; try (rewrite (tally_insert _ _ _ _ _ Et); simpl); try lia; try done.
      * pose proof (jobs_insert _ _ _ WStart Et) as Hj. simpl in Hj. rewrite app_nil_r in Hj.
        rewrite H1, <- Hj. solve_Permutation.
      * intros Hr m v Ev. rewrite lookup_insert_list in Ev by (by eapply lookup_lt_Some).
        case_decide; [by injection Ev as <- | by eapply H6].
    + injection E as <-. apply (set_thread_inv arrived p n WLeaving WGone); try done; simpl; lia.
    + done.
  - injection E as <-. destruct Hi as [H1 H2 H3 H4 H5 H6 H7]. by split.
Qed.

Lemma new_pool_inv max_workers : pool_inv [] (new_pool max_workers).
Proof. by split; simpl; try done; try lia. Qed.

Lemma pool_run_inv es arrived p p' :
  pool_inv arrived p -> pool_run es p = Some p' -> pool_inv (arrived ++ arrivals es) p'.
Proof.
  revert arrived p. induction es as [|e es IH]; intros arrived p Hi E; simpl in E.
  - injection E as <-. unfold arrivals. simpl. by rewrite app_nil_r.
  - destruct (pool_next e p) as [p1|] eqn:E1; [|done]. simpl in E.
    pose proof (IH _ _ (pool_next_inv _ _ _ _ Hi E1) E) as Hr. by rewrite <- app_assoc in Hr.
Qed.

Lemma pool_run_app es fs p p1 : pool_run es p = Some p1 -> pool_run (es ++ fs) p = pool_run fs p1.
Proof.
  revert p. induction es as [|e es IH]; intros p E; simpl in *; [by injection E as <-|].
  destruct (pool_next e p); [simpl in *; auto | done].
Qed.

(** *** Progress *)

Lemma worker_moves n t p p1 k :
  p_threads p !! n = Some t -> work_move n t p = Some p1 ->
  pool_run (replicate (S k) (EvWorker n)) p = pool_run (replicate k (EvWorker n)) p1.
Proof. intros Et Em. simpl. rewrite Et. simpl. by rewrite Em. Qed.

(** Worker [n] can get on: it holds the queue, or nobody does. *)
Definition can_move (n : nat) (p : Pool) : Prop :=
  exists t, p_threads p !! n = Some t /\ in_service t = true /\
    (holds_queue t = true \/ tally holds_queue (p_threads p) = 0) /\
    tally holds_queue (p_threads p) <= 1.

(** [k] more moves of worker [n] answer [job]. *)
Definition serves (n k : nat) (p : Pool) (job : RpcRequest) : Prop :=
  exists p', pool_run (replicate k (EvWorker n)) p = Some p' /\ job ∈ p_answered p'.

Lemma serves_step n t k p p1 job :
  p_threads p !! n = Some t -> work_move n t p = Some p1 -> serves n k p1 job -> serves n (S k) p job.
Proof. intros Et Em (p' & E & Hj). exists p'. by rewrite (worker_moves n t p p1). Qed.

Lemma serves_locked n p job rest :
  p_threads p !! n = Some WLocked -> p_queue p = job :: rest -> serves n 2 p job.
Proof.
  intros Et Eq. pose proof (lookup_lt_Some _ _ _ Et) as Hl.
  eapply serves_step; [exact Et | simpl; rewrite Eq; reflexivity|].
  eapply serves_step; [simpl; by apply list_lookup_insert_eq | reflexivity|].
  eexists. split; [reflexivity|]. simpl. apply elem_of_app. right. by left.
Qed.

(** A move that leaves worker [n] in state [u], with the queue free or held by it. *)
Lemma serves_via n t u p p1 job rest k :
  p_threads p !! n = Some t -> work_move n t p = Some p1 ->
  p_threads p1 = <[n := u]> (p_threads p) -> p_queue p1 = job :: rest ->
  (p_threads p1 !! n = Some u -> p_queue p1 = job :: rest ->
     tally holds_queue (p_threads p1) =
       tally holds_queue (p_threads p) - (if holds_queue t then 1 else 0) + (if holds_queue u then 1 else 0) ->
     serves n k p1 job) ->
  serves n (S k) p job.
Proof.
  intros Et Em E1 Eq Hk. eapply serves_step; [exact Et | exact Em|]. apply Hk; [|done|].
  - rewrite E1. apply list_lookup_insert_eq. by eapply lookup_lt_Some.
  - rewrite E1. by apply tally_insert.
Qed.

Lemma serves_start n p job rest :
  p_threads p !! n = Some WStart -> p_queue p = job :: rest ->
  tally holds_queue (p_threads p) = 0 -> serves n 3 p job.
Proof.
  intros Et Eq Hf. apply queue_free_tally in Hf.
  eapply (serves_via n WStart WLocked); [exact Et | simpl; rewrite Hf; reflexivity | done | exact Eq|].
  intros E1 E2 _. by apply (serves_locked n _ job rest).
Qed.

Lemma serves_waking n p job rest :
  p_threads p !! n = Some WWaking -> p_queue p = job :: rest -> serves n 3 p job.
Proof.
  intros Et Eq. eapply (serves_via n WWaking WLocked); [exact Et | reflexivity | done | exact Eq|].
  intros E1 E2 _. by apply (serves_locked n _ job rest).
Qed.

Lemma serves_idle n p job rest :
  p_threads p !! n = Some WIdle -> p_queue p = job :: rest ->
  tally holds_queue (p_threads p) = 0 -> serves n 4 p job.
Proof.
  intros Et Eq Hf. apply queue_free_tally in Hf.
  eapply (serves_via n WIdle WWaking); [exact Et | simpl; rewrite Hf; reflexivity | done | exact Eq|].
  intros E1 E2 _. by apply (serves_waking n _ job rest).
Qed.

Lemma can_move_serves n p job rest :
  can_move n p -> p_queue p = job :: rest -> exists k, serves n k p job.
Proof.
  intros (t & Et & Hs & Hh & Hl) Eq. destruct t as [| | | | |j| |]; simpl in *; try done.
  - exists 3%nat. destruct Hh as [?|Hh]; [done|]. by apply (serves_start n p job rest).
  - exists 2%nat. by apply (serves_locked n p job rest).
  - exists 5%nat. eapply (serves_via n WParking WIdle); [exact Et | reflexivity | done | exact Eq|].
    intros E1 E2 Ht. apply (serves_idle n _ job rest); [done | done|].
    pose proof (tally_in holds_queue _ _ _ Et eq_refl). rewrite Ht. simpl. lia.
  - exists 4%nat. destruct Hh as [?|Hh]; [done|]. by apply (serves_idle n p job rest).
  - exists 3%nat. by apply (serves_waking n p job rest).
  - exists 4%nat. destruct Hh as [?|Hh]; [done|].
    eapply (serves_via n (WBusy j) WStart); [exact Et | reflexivity | done | exact Eq|].
    intros E1 E2 Ht. apply (serves_start n _ job rest); [done | done|]. rewrite Ht. simpl. lia.
Qed.

Lemma someone_can_move arrived p :
  pool_inv arrived p -> p_running p = true -> 1 <= p_workers p -> exists n, can_move n p.
Proof.
  intros [_ H2 _ _ H5 H6 _] Hr Hw. pose proof (tally_nonneg holds_queue (p_threads p)).
  destruct (Z.eq_dec (tally holds_queue (p_threads p)) 0) as [H0|H0].
  - rewrite H2 in Hw. destruct (tally_out _ _ Hw) as (n & t & Et & _). exists n, t.
    split_and!; [done | by eapply H6 | by right | done].
  - destruct (tally_out holds_queue (p_threads p) ltac:(lia)) as (n & t & Et & Ht). exists n, t.
    split_and!; [done | by eapply H6 | by left | done].
Qed.
