(* ===== verification/RpcProps.v ===== *)
(** * The properties of calls and services *)

From S2P Require Import Prelude Machine Shm Circ Ring RingMem RingSpec RingThm Demo Frame Control Util Avro Proto ProtoProps Registry RegistryThm Broker BrokerThm BrokerOps Client ClientThm Rpc RpcThm.

(** ** The data path *)

(** C27: Every request that reaches a worker is answered, under its own correlation id, in
    every case: with a schema mismatch before the handler runs when the caller's
    argument schema is not the function's, with an error when the arguments do not
    decode, when the handler panics or when its result does not encode, and otherwise
    with the encoding of what the handler computed, under the result's fingerprint. *)
Theorem every_request_is_answered `{ProtoSerde} {Req Resp} `{!Serde Req, !Serde Resp}
    (req : RpcRequest) (sq sp : Schema) (req_fp resp_fp : Z) (handler : Req -> outcome Resp) :
  (forall x, (exists y, handler x = Done y) \/ exists msg, handler x = Panicked msg) ->
  exists resp,
    answer (fun r => handle_one r sq sp req_fp resp_fp handler) req = Done resp /\
    rpc_response_correlation_id resp = rpc_request_correlation_id req /\
    (i64_to_fp (rpc_request_arg_fp req) <> req_fp -> rpc_response_status resp = ERR_SCHEMA_MISMATCH) /\
    (i64_to_fp (rpc_request_arg_fp req) = req_fp ->
     (forall e, avro_decode sq (rpc_request_args req) = Err (A := Req) e ->
        rpc_response_status resp = ERR_INTERNAL) /\
     (forall x, avro_decode sq (rpc_request_args req) = Ok x ->
        (forall msg, handler x = Panicked msg -> rpc_response_status resp = ERR_INTERNAL) /\
        (forall y e, handler x = Done y -> avro_encode sp y = Err e ->
           rpc_response_status resp = ERR_INTERNAL) /\
        (forall y body, handler x = Done y -> avro_encode sp y = Ok body ->
           resp = MkRpcResponse (rpc_request_correlation_id req) STATUS_OK "" (fp_to_i64 resp_fp) body))).
Proof.
  intros Hh. unfold answer, handle_one.
  destruct (Z.eqb_spec (i64_to_fp (rpc_request_arg_fp req)) req_fp) as [Ef|Ef]; simpl.
  - destruct (avro_decode sq (rpc_request_args req)) as [x|e] eqn:Ed.
    + destruct (Hh x) as [[y Ey]|[msg Ey]]; rewrite Ey; simpl.
      * eexists. split; [reflexivity|]. split; [by destruct (avro_encode sp y)|]. split; [done|].
        intros _. split; [done|]. intros x' [= <-]. rewrite Ey.
        split_and!; [done | by intros y' e [= <-] -> | by intros y' body [= <-] ->].
      * eexists. split; [reflexivity|]. split_and!; [done | done|]. intros _. split; [done|].
        intros x' [= <-]. rewrite Ey. by split_and!.
    + eexists. split; [reflexivity|]. by split_and!.
  - eexists. split; [reflexivity|]. by split_and!.
Qed.

(** A call returns what the handler computed. The request a caller puts on a function's
    arena is read back by the service's reader as it was sent; the worker answers it with
    the handler's result and puts the answer on the caller's reply ring; there it
    decodes, is routed under the caller's correlation id, and the caller's future decodes
    it to the very value the handler returned. *)
Theorem call_returns_result `{ProtoSerde} {Req Resp} `{!Serde Req, !Serde Resp} (c : Catalog)
    (sq sp : Schema) (x : Req) (y : Resp) (args result : list byte) (handler : Req -> outcome Resp)
    (corr caller : Z) (seg : string) (qf rf : Frame) (arena reply : Ring)
    (w : world) (q rq : list (list byte)) (cache : gmap string Ring) (slot : nat) :
  let req := MkRpcRequest corr caller seg (fp_to_i64 (fingerprint sq)) args in
  let resp := MkRpcResponse corr STATUS_OK "" (fp_to_i64 (fingerprint sp)) result in
  let serve := fun r => handle_one r sq sp (fingerprint sq) (fingerprint sp) handler in
  catalog = Done c ->
  (forall k fp, c_fp c k = Done fp -> kind_of c fp = Some k /\ in_u 64 fp) ->
  (forall s, c_schema c KRpcRequest = Done s -> codec_ok RpcRequest s) ->
  (forall s, c_schema c KRpcResponse = Done s -> codec_ok RpcResponse s) ->
  codec_ok Req sq -> codec_ok Resp sp ->
  avro_encode sq x = Ok args -> handler x = Done y -> avro_encode sp y = Ok result ->
  to_frame KRpcRequest req = Done (Ok qf) -> in_u 32 (blen (body qf)) ->
  to_frame KRpcResponse resp = Done (Ok rf) -> in_u 32 (blen (body rf)) ->
  ring_geom arena -> ring_has arena w (encode qf :: q) ->
  ring_geom reply -> r_ptr reply <> r_ptr arena -> ring_has reply w rq -> cache !! seg = Some reply ->
  fst (fifo_push (r_capacity reply) rq (encode rf)) = true ->
  exists w1 w2,
    read_request arena w = Done (Some req, w1) /\ ring_has arena w1 q /\
    serve_job serve cache req w1 = Done (cache, w2) /\ ring_has reply w2 (rq ++ [encode rf]) /\
    decode (encode rf) = Ok rf /\ correlation_id rf = Done (Ok corr) /\
    decode_response (MkCallFuture _ slot sp (fingerprint sp) corr) rf = Done (Ok y).
Proof.
  intros req resp serve Ec Hfp Hq Hp Hcq Hcp Ea Eh Er Eqf Hqb Erf Hrb Hga Hqa Hgr Hne Hqr Hcache Hroom.
  destruct (framed_wf c _ _ _ Ec Hfp Eqf Hqb) as [Wq _].
  destruct (framed_wf c _ _ _ Ec Hfp Erf Hrb) as [Wr Kr].
  destruct (read_request_ok c req qf arena q w Ec Hq Eqf Wq Hga Hqa) as (w1 & E1 & Hq1 & Ho1).
  assert (ring_has reply w1 rq) as Hqr1.
  { destruct Hqr as (bs & Hb & Hr). exists bs. split; [|exact Hr].
    by rewrite (ro_others _ _ _ _ Ho1). }
  pose proof (handle_one_result sq sp x y args result handler corr caller seg Hcq Ea Eh Er) as Es.
  destruct (serve_job_ok serve cache req resp rf reply rq w1 Es Hcache Erf Hgr Hqr1 Hroom)
    as (w2 & E2 & Hq2).
  exists w1, w2. split_and!; [exact E1 | exact Hq1 | exact E2 | exact Hq2 | by apply decode_encode | |].
  - by apply (result_routed c resp).
  - by eapply decode_result.
Qed.

(** ** The worker pool *)

(** C19: In every interleaving of the reader with its workers, and whatever happens, each
    request handed to the pool is in exactly one place (queued, with one worker, or
    answered), the counts are the numbers of workers and of idle workers, at most
    [max_workers] (and at least one) workers exist, and one thread at most is inside the
    queue's lock. *)
Theorem pool_conserves_requests (max_workers : Z) (es : list pool_event) (p : Pool) :
  pool_run es (new_pool max_workers) = Some p ->
  arrivals es ≡ₚ p_answered p ++ jobs (p_threads p) ++ p_queue p /\
  p_workers p = tally counted (p_threads p) /\
  p_idle_workers p = tally counted_idle (p_threads p) /\
  p_workers p <= p_max_workers p /\ tally holds_queue (p_threads p) <= 1.
Proof.
  intros E. destruct (pool_run_inv _ _ _ _ (new_pool_inv max_workers) E) as [H1 H2 H3 [H4 _] H5 _ _].
  by split_and!.
Qed.

(** The move the reader has left of handing over its last request: it has queued the request
    and not yet counted the workers and, if need be, started one. *)
Definition handing_over (p : Pool) : list pool_event :=
  match p_reader p with RQueued => [EvCount] | RReady => [] end.

(** C28: No request is stranded: in every reachable state of a running pool, if a request is
    queued then, once the reader has finished the submission it is in (if it is in one),
    some worker, on its own moves alone, takes the oldest request and answers it. *)
Theorem pool_makes_progress (max_workers : Z) (es : list pool_event) (p : Pool) (job : RpcRequest)
    (rest : list RpcRequest) :
  pool_run es (new_pool max_workers) = Some p ->
  p_running p = true -> p_queue p = job :: rest ->
  exists n k p', pool_run (handing_over p ++ replicate k (EvWorker n)) p = Some p' /\ job ∈ p_answered p'.
Proof.
  intros E Hr Eq.
  assert (exists p1, pool_run (handing_over p) p = Some p1 /\ p_reader p1 = RReady /\ p_running p1 = true /\
    p_queue p1 = job :: rest) as (p1 & E1 & Hd1 & Hr1 & Eq1).
  { unfold handing_over. destruct (p_reader p) eqn:Hd; [by exists p|]. exists (count_and_spawn p).
    cbn [pool_run pool_next]. rewrite Hd. unfold count_and_spawn. by destruct (_ && _). }
  pose proof (pool_run_inv _ _ _ _ (new_pool_inv max_workers) (eq_trans (pool_run_app _ _ _ _ E) E1)) as Hi.
  assert (1 <= p_workers p1) as Hw by (apply (pi_served _ _ Hi); [done | done | by rewrite Eq1]).
  destruct (someone_can_move _ p1 Hi Hr1 Hw) as (n & Hn).
  destruct (can_move_serves n p1 job rest Hn Eq1) as (k & p' & Ep & Hj). exists n, k, p'.
  by rewrite (pool_run_app _ _ _ _ E1).
Qed.

(** C40: The pool may answer one request at a time although its bound allows more: an idle
    worker is counted as idle until it has woken up, so a second request that arrives
    before that spawns nobody, and it then waits for the first request's handler to end,
    however long that takes; nothing but that worker, a further arrival or the end of
    the service can happen to the pool. *)
Theorem pool_second_request_waits (max_workers : Z) (j0 j1 j2 : RpcRequest) :
  2 <= max_workers ->
  exists es p, pool_run es (new_pool max_workers) = Some p /\ arrivals es = [j0; j1; j2] /\
    p_running p = true /\ p_reader p = RReady /\
    p_queue p = [j2] /\ p_threads p = [WBusy j1] /\
    p_workers p = 1 /\ p_max_workers p = max_workers /\
    (forall e p', pool_next e p = Some p' ->
       e = EvWorker 0 \/ e = EvStop \/ exists j, e = EvArrive j).
Proof.
  intros Hm. set (W := EvWorker 0).
  exists [EvArrive j0; EvCount; W; W; W; W; W; W; EvArrive j1; EvCount; EvArrive j2; EvCount; W; W; W].
  exists (MkPool [j2] 1 0 (Z.max max_workers 1) true RReady [WBusy j1] [j0]).
  split_and!; try done.
  - unfold new_pool. assert ((0 <? Z.max max_workers 1) = true) as Hlt by (apply Z.ltb_lt; lia).
    cbn [pool_run pool_next p_reader queue_free p_threads forallb]. cbn. unfold count_and_spawn. cbn.
    rewrite Hlt. reflexivity.
  - simpl. lia.
  - intros e p' E. destruct e as [j| |n|]; [eauto | done | | auto].
    destruct n as [|n]; [auto | done].
Qed.

(** ** Witnesses *)

From S2P Require Import Toy BrokerProps BrokerFlow ClientProps.

(** A function that adds one, called with 41. *)
Definition demo_handler (x : Z) : outcome Z := if x =? 0 then Panicked "zero" else Done (x + 1).
Definition bytes_of (r : io_result (list byte)) : list byte := match r with Ok bs => bs | Err _ => [] end.
Definition demo_args : list byte := bytes_of (avro_encode (H := toy_avro) toy_long 41).
Definition demo_result : list byte := bytes_of (avro_encode (H := toy_avro) toy_long 42).
Definition demo_call : RpcRequest :=
  MkRpcRequest 5 1 "/cli" (fp_to_i64 (fingerprint (H := toy_avro) toy_long)) demo_args.
Definition demo_response : RpcResponse :=
  MkRpcResponse 5 STATUS_OK "" (fp_to_i64 (fingerprint (H := toy_avro) toy_long)) demo_result.
Definition demo_call_frame : Frame := frame_of (to_frame KRpcRequest demo_call).
Definition demo_response_frame : Frame := frame_of (to_frame KRpcResponse demo_response).

Lemma every_request_is_answered_witness :
  exists resp,
    answer (fun r => handle_one (H := toy_avro) r toy_long toy_long
      (fingerprint (H := toy_avro) toy_long) 7 demo_handler) demo_call = Done resp /\
    rpc_response_correlation_id resp = 5.
Proof.
  destruct (every_request_is_answered demo_call toy_long toy_long (fingerprint (H := toy_avro) toy_long) 7
    demo_handler) as (resp & E & Ec & _).
  - intros x. unfold demo_handler. destruct (x =? 0); [right; eexists; reflexivity | left; eexists; reflexivity].
  - exists resp. split; [exact E | exact Ec].
Defined.

(** The world in which the request is on the arena. *)
Definition demo_called : world :=
  match try_push demo_sub_ring (encode demo_call_frame) demo_conn with
  | Done (_, w) => w | _ => demo_conn
  end.

Lemma demo_called_has :
  ring_has demo_sub_ring demo_called [encode demo_call_frame] /\ ring_has demo_client_ring demo_called [].
Proof.
  destruct (try_push_sim demo_sub_ring demo_sub_geom demo_conn [] (encode demo_call_frame) demo_conn_sub)
    as (w' & E & Hq & Ho).
  assert (fifo_push 256 [] (encode demo_call_frame) = (true, [encode demo_call_frame])) as Ep
    by (vm_compute; reflexivity).
  change (r_capacity demo_sub_ring) with 256 in Hq. rewrite Ep in Hq.
  unfold demo_called. rewrite E. split; [exact Hq|].
  destruct demo_bus_ring as (bs & Hb & Hr). exists bs. split; [|exact Hr].
  rewrite (ro_others _ _ _ _ Ho) by (vm_compute; discriminate). exact Hb.
Qed.

Lemma toy_rpc_codecs :
  (forall s, c_schema toy_catalog KRpcRequest = Done s -> codec_ok RpcRequest s) /\
  (forall s, c_schema toy_catalog KRpcResponse = Done s -> codec_ok RpcResponse s).
Proof. split; intros s _; apply toy_codec; intros m v; destruct m; simpl; by intros [= <-]. Qed.

Lemma call_returns_result_witness :
  exists w1 w2,
    read_request demo_sub_ring demo_called = Done (Some demo_call, w1) /\
    ring_has demo_sub_ring w1 [] /\
    serve_job (fun r => handle_one (H := toy_avro) r toy_long toy_long
        (fingerprint (H := toy_avro) toy_long) (fingerprint (H := toy_avro) toy_long) demo_handler)
      {["/cli" := demo_client_ring]} demo_call w1 = Done ({["/cli" := demo_client_ring]}, w2) /\
    ring_has demo_client_ring w2 ([] ++ [encode demo_response_frame]) /\
    decode (encode demo_response_frame) = Ok demo_response_frame /\
    correlation_id demo_response_frame = Done (Ok 5) /\
    decode_response (H := toy_avro)
      (MkCallFuture toy_avro 0 toy_long (fingerprint (H := toy_avro) toy_long) 5) demo_response_frame =
      Done (Ok 42).
Proof.
  destruct toy_rpc_codecs as [Cq Cp]. destruct demo_called_has as [Ha Hr].
  refine (call_returns_result toy_catalog toy_long toy_long 41 42 demo_args demo_result demo_handler 5 1
    "/cli" demo_call_frame demo_response_frame demo_sub_ring demo_client_ring demo_called [] []
    {["/cli" := demo_client_ring]} 0 toy_catalog_done toy_fp_kind Cq Cp (toy_Z_codec _) (toy_Z_codec _)
    _ _ _ _ _ _ _ demo_sub_geom Ha demo_client_geom _ Hr _ _).
  - vm_compute. reflexivity.
  - reflexivity.
  - vm_compute. reflexivity.
  - vm_compute. reflexivity.
  - vm_compute. split; [discriminate | reflexivity].
  - vm_compute. reflexivity.
  - vm_compute. split; [discriminate | reflexivity].
  - vm_compute. discriminate.
  - apply lookup_singleton_eq.
  - vm_compute. reflexivity.
Defined.

(** A run that queues one request, and the worker spawned for it. *)
Definition demo_pool_run : list pool_event := [EvArrive demo_call; EvCount].
Definition demo_pool : Pool := MkPool [demo_call] 1 0 4 true RReady [WStart] [].

Lemma pool_conserves_requests_witness :
  pool_run demo_pool_run (new_pool 4) = Some demo_pool /\
  [demo_call] ≡ₚ p_answered demo_pool ++ jobs (p_threads demo_pool) ++ p_queue demo_pool /\
  p_workers demo_pool = tally counted (p_threads demo_pool) /\
  p_workers demo_pool <= 4.
Proof.
  assert (pool_run demo_pool_run (new_pool 4) = Some demo_pool) as E by reflexivity.
  destruct (pool_conserves_requests 4 demo_pool_run demo_pool E) as (H1 & H2 & _ & H4 & _).
  split; [exact E|]. split; [exact H1|]. split; [exact H2 | exact H4].
Defined.

(** The first request is queued, and there is no worker yet. *)
Lemma pool_makes_progress_witness :
  let p := MkPool [demo_call] 0 0 4 true RQueued [] [] in
  exists n k p', pool_run ([EvCount] ++ replicate k (EvWorker n)) p = Some p' /\ demo_call ∈ p_answered p'.
Proof.
  exact (pool_makes_progress 4 [EvArrive demo_call] (MkPool [demo_call] 0 0 4 true RQueued [] []) demo_call [] eq_refl eq_refl eq_refl).
Defined.

Lemma pool_second_request_waits_witness :
  2 <= DEFAULT_SERVICE_WORKERS /\
  exists es p, pool_run es (new_pool DEFAULT_SERVICE_WORKERS) = Some p /\
    arrivals es = [demo_call; demo_call; demo_call] /\
    p_running p = true /\ p_reader p = RReady /\
    p_queue p = [demo_call] /\ p_threads p = [WBusy demo_call] /\
    p_workers p = 1 /\ p_max_workers p = DEFAULT_SERVICE_WORKERS /\
    (forall e p', pool_next e p = Some p' ->
       e = EvWorker 0 \/ e = EvStop \/ exists j, e = EvArrive j).
Proof.
  split; [discriminate|].
  exact (pool_second_request_waits DEFAULT_SERVICE_WORKERS demo_call demo_call demo_call ltac:(discriminate)).
Defined.
