(* ===== verification/ConnectionProps.v ===== *)
(** * The properties of channels and of placing a call *)

From S2P Require Import Prelude Machine Shm Circ Ring RingMem RingSpec RingThm Demo Frame Control Util Avro Proto ProtoProps Registry RegistryThm Broker BrokerThm BrokerOps Client ClientThm Rpc Connection.

(** ** Channels *)

Section channel.
Context `{ProtoSerde} {T : Type} `{!Serde T}.

(** Publishing one message after the other, up to the first error. *)
Fixpoint publish_all (p : Publisher) (ms : list T) : conn (io_result unit) :=
  match ms with
  | [] => cret (Ok tt)
  | m :: ms => let+ _ := publish p m in publish_all p ms
  end.

(** Receiving up to [n] messages, up to the first error or timeout. *)
Fixpoint recv_all (s : Subscriber) (timeout : Z) (n : nat) : conn (io_result (list T)) :=
  match n with
  | O => cret (Ok [])
  | S n =>
      let+ v := recv s timeout in
      match v with
      | None => cret (Ok [])
      | Some v => let+ vs := recv_all s timeout n in cret (Ok (v :: vs))
      end
  end.

Lemma cbind_io_ok {A B} (p : conn (io_result A)) (f : A -> conn (io_result B)) i w a i1 w1 :
  p i w = Done ((Ok a, i1), w1) -> cbind_io p f i w = f a i1 w1.
Proof. intros E. unfold cbind_io. by erewrite cbind_done by exact E. Qed.

Lemma cbind_io_err {A B} (p : conn (io_result A)) (f : A -> conn (io_result B)) i w e i1 w1 :
  p i w = Done ((Err e, i1), w1) -> cbind_io p f i w = Done ((Err e, i1), w1).
Proof. intros E. unfold cbind_io. by erewrite cbind_done by exact E. Qed.

Lemma read_cell_ok cell i w ring : i_cells i !! cell = Some ring -> read_cell cell i w = Done ((ring, i), w).
Proof. intros E. unfold read_cell. by rewrite E. Qed.

(** The record that carries the datum [b] on the channel of [p]. *)
Definition channel_record (p : Publisher) (b : list byte) : list byte := encode (new (pub_schema_fp p) b).

Lemma publish_ok (p : Publisher) (m : T) b ring i w q :
  i_cells i !! pub_ring p = Some ring -> avro_encode (pub_schema p) m = Ok b ->
  ring_geom ring -> ring_has ring w q ->
  blen (q_bytes (q ++ [channel_record p b])) <= r_capacity ring ->
  exists w', publish p m i w = Done ((Ok tt, i), w') /\ ring_has ring w' (q ++ [channel_record p b]).
Proof.
  intros Hc Eb Hg Hq Hroom.
  assert (fst (fifo_push (r_capacity ring) q (channel_record p b)) = true) as Hp.
  { unfold fifo_push. rewrite q_bytes_app, blen_app, blen_record in Hroom.
    destruct (Z.leb_spec (blen (q_bytes q) + (4 + blen (channel_record p b))) (r_capacity ring)); [done | lia]. }
  destruct (push_blocking_room ring Hg w q _ (Some PUBLISH_TIMEOUT) Hq Hp) as (w' & E & Hq' & _).
  exists w'. split; [|exact Hq']. unfold publish. erewrite cbind_io_ok by (unfold cret; by rewrite Eb).
  erewrite cbind_done by (by apply read_cell_ok).
  by erewrite cbind_done by (apply clift_done; exact E).
Qed.

(** What a subscriber makes of one record. *)
Definition received (s : Subscriber) (bytes : list byte) (v : T) : Prop :=
  exists f, decode bytes = Ok f /\ schema_fp f = sub_schema_fp s /\
    avro_decode (sub_schema s) (body f) = Ok v.

Lemma recv_front (s : Subscriber) timeout bytes q ring i w :
  i_cells i !! sub_ring s = Some ring -> ring_geom ring -> ring_has ring w (bytes :: q) ->
  exists r w', recv s timeout i w = Done ((r, i), w') /\ ring_has ring w' q /\ r <> Ok None /\
    (forall v, r = Ok (Some v) <-> received s bytes v).
Proof.
  intros Hc Hg Hq. destruct (pop_blocking_ready ring Hg w bytes q (Some timeout) Hq) as (w' & E & Hq' & _).
  unfold recv. erewrite cbind_done by (by apply read_cell_ok).
  erewrite cbind_done by (apply clift_done; exact E). cbv iota. unfold received.
  destruct (decode bytes) as [f|e] eqn:Ed.
  2:{ exists (Err e), w'. split_and!; [done..|]. intros v. split; [done|]. by intros (f & ? & _). }
  erewrite cbind_io_ok by reflexivity. destruct (Z.eqb_spec (schema_fp f) (sub_schema_fp s)) as [Ef|Ef]; simpl.
  2:{ eexists _, w'. split_and!; [done..|]. intros v. split; [done|]. by intros (f' & [= <-] & ? & _). }
  destruct (avro_decode (sub_schema s) (body f)) as [v|e] eqn:Ev.
  - exists (Ok (Some v)), w'. split_and!; [by erewrite cbind_io_ok by reflexivity | done | done|].
    intros v'. split; [intros [= <-]; by exists f | by intros (f' & [= <-] & _ & [= <-]%(eq_trans (eq_sym Ev)))].
  - exists (Err e), w'. split_and!; [by erewrite cbind_io_err by reflexivity | done | done|].
    intros v'. split; [done|]. intros (f' & [= <-] & _ & Ev'). by rewrite Ev in Ev'.
Qed.

Lemma publish_all_ok (p : Publisher) (ms : list T) (bodies : list (list byte)) ring i w q :
  i_cells i !! pub_ring p = Some ring -> ring_geom ring -> ring_has ring w q ->
  Forall2 (fun m b => avro_encode (pub_schema p) m = Ok b) ms bodies ->
  blen (q_bytes (q ++ (channel_record p <$> bodies))) <= r_capacity ring ->
  exists w', publish_all p ms i w = Done ((Ok tt, i), w') /\
    ring_has ring w' (q ++ (channel_record p <$> bodies)).
Proof.
  intros Hc Hg Hq Hms. revert w q Hq. induction Hms as [|m b ms bodies Eb Hms IH]; intros w q Hq Hroom.
  - exists w. simpl. by rewrite app_nil_r.
  - cbn [fmap list_fmap] in *. rewrite cons_middle, app_assoc in Hroom.
    assert (blen (q_bytes (q ++ [channel_record p b])) <= r_capacity ring) as Hr1.
    { unfold q_bytes in *. rewrite fmap_app, concat_app, blen_app in Hroom.
      pose proof (blen_nonneg (concat (record <$> (channel_record p <$> bodies)))). lia. }
    destruct (publish_ok p m b ring i w q Hc Eb Hg Hq Hr1) as (w1 & E1 & Hq1).
    destruct (IH w1 _ Hq1 Hroom) as (w2 & E2 & Hq2). exists w2. split.
    + cbn [publish_all]. by erewrite cbind_io_ok by exact E1.
    + by rewrite cons_middle, app_assoc.
Qed.

Lemma recv_all_ok (s : Subscriber) timeout (vs : list T) (records q : list (list byte)) ring i w :
  i_cells i !! sub_ring s = Some ring -> ring_geom ring -> ring_has ring w (records ++ q) ->
  Forall2 (fun v r => received s r v) vs records ->
  exists w', recv_all s timeout (length vs) i w = Done ((Ok vs, i), w') /\ ring_has ring w' q.
Proof.
  intros Hc Hg Hq Hvs. revert w Hq. induction Hvs as [|v r vs records Hv Hvs IH]; intros w Hq; [by exists w|].
  destruct (recv_front s timeout r (records ++ q) ring i w Hc Hg Hq) as (x & w1 & E1 & Hq1 & _ & Hx).
  apply Hx in Hv as ->. destruct (IH w1 Hq1) as (w2 & E2 & Hq2). exists w2. split; [|done].
  cbn [length recv_all]. erewrite cbind_io_ok by exact E1. cbv iota.
  by erewrite cbind_io_ok by exact E2.
Qed.

Lemma published_received (p : Publisher) (s : Subscriber) (ms : list T) (bodies : list (list byte)) :
  sub_schema s = pub_schema p -> sub_schema_fp s = pub_schema_fp p -> in_u 64 (pub_schema_fp p) ->
  codec_ok T (pub_schema p) ->
  Forall2 (fun m b => avro_encode (pub_schema p) m = Ok b) ms bodies ->
  Forall (fun b => in_u 32 (blen b)) bodies ->
  Forall2 (fun v r => received s r v) ms (channel_record p <$> bodies).
Proof.
  intros Es Ef Hu Hc Hms. induction Hms as [|m b ms bodies Eb Hms IH]; [by constructor|].
  intros [Hb Hbs]%Forall_cons_1. constructor; [|by apply IH].
  exists (new (pub_schema_fp p) b). split_and!; [|done|rewrite Es; by apply Hc].
  apply decode_encode. by constructor.
Qed.
End channel.

(** A channel delivers what was published, in order and unchanged: the messages a
    publisher writes onto an empty arena that has room for their records are accepted
    one by one, a subscriber with the same schema then receives exactly these messages
    in this order, and the arena is empty again. *)
Theorem channel_delivers_in_order `{ProtoSerde} {T} `{!Serde T} (p : Publisher) (s : Subscriber)
    (ring : Ring) (ms : list T) (bodies : list (list byte)) (timeout : Z) (i j : Inner) (w : world) :
  i_cells i !! pub_ring p = Some ring -> i_cells j !! sub_ring s = Some ring ->
  sub_schema s = pub_schema p -> sub_schema_fp s = pub_schema_fp p -> in_u 64 (pub_schema_fp p) ->
  codec_ok T (pub_schema p) -> ring_geom ring -> ring_has ring w [] ->
  Forall2 (fun m b => avro_encode (pub_schema p) m = Ok b) ms bodies ->
  Forall (fun b => in_u 32 (blen b)) bodies ->
  blen (q_bytes (channel_record p <$> bodies)) <= r_capacity ring ->
  exists w1 w2, publish_all p ms i w = Done ((Ok tt, i), w1) /\
    recv_all s timeout (length ms) j w1 = Done ((Ok ms, j), w2) /\ ring_has ring w2 [].
Proof.
  intros Hi Hj Es Ef Hu Hc Hg Hq Hms Hb Hroom.
  destruct (publish_all_ok p ms bodies ring i w [] Hi Hg Hq Hms Hroom) as (w1 & E1 & Hq1).
  simpl in Hq1. rewrite <- (app_nil_r (_ <$> _)) in Hq1.
  destruct (recv_all_ok s timeout ms (channel_record p <$> bodies) [] ring j w1 Hj Hg Hq1) as (w2 & E2 & Hq2).
  - by apply published_received.
  - by exists w1, w2.
Qed.

(** A subscriber never hands out a foreign message, and a bad one does not block the
    channel: whatever record is at the front of the arena, one [recv] consumes it and no
    other, it returns a value exactly if the record is a frame under the subscriber's
    fingerprint whose body decodes to that value, and it reports an error (never a
    timeout) otherwise. *)
Theorem recv_accepts_own_schema `{ProtoSerde} {T} `{!Serde T} (s : Subscriber) (timeout : Z)
    (bytes : list byte) (q : list (list byte)) (ring : Ring) (i : Inner) (w : world) :
  i_cells i !! sub_ring s = Some ring -> ring_geom ring -> ring_has ring w (bytes :: q) ->
  exists r w', recv (T := T) s timeout i w = Done ((r, i), w') /\ ring_has ring w' q /\ r <> Ok None /\
    (forall v, r = Ok (Some v) <-> exists f, decode bytes = Ok f /\ schema_fp f = sub_schema_fp s /\
       avro_decode (sub_schema s) (body f) = Ok v).
Proof. apply recv_front. Qed.

(** ** Placing a call *)

Lemma next_corr_mem w corr w1 : next_corr w = Done (corr, w1) -> w_mem w1 = w_mem w.
Proof.
  unfold next_corr, random_u64, getrandom, bind, ret.
  destruct (sys_random (w_sys w) (w_rng w)); [|done]. by intros [= _ <-].
Qed.

(** A callee that is known and has the interface the caller expects is used as it is. *)
Lemma matching_callee_known `{ProtoSerde} others fn_name key c i w :
  i_callees i !! (fn_name, key_or_empty key) = Some c ->
  matching_callee others fn_name key (cal_req_fp c) (cal_resp_fp c) i w = Done ((Ok c, i), w).
Proof.
  intros Hc. unfold matching_callee, callee. erewrite cbind_io_ok.
  2:{ erewrite cbind_done by reflexivity. by rewrite Hc. }
  by rewrite !Z.eqb_refl.
Qed.

(** The dispatcher hands an answer to the slot of its call, where the future finds it. *)
Lemma route_then_poll `{ProtoSerde} {Resp} `{!Serde Resp} fut f i w waker r :
  i_pending i !! cf_corr fut = Some (cf_slot fut) -> i_slots i !! cf_slot fut = Some (MkSlotState None None) ->
  frame_wf f -> correlation_id f = Done (Ok (cf_corr fut)) -> decode_response fut f = Done r ->
  exists i', (do* route (encode f) in poll_future (Resp := Resp) fut waker) i w = Done ((Some r, i'), w) /\
    i_pending i' = delete (cf_corr fut) (i_pending i).
Proof.
  intros Hp Hs Hf Hc Hr.
  eexists. split.
  - erewrite cbind_done.
    2:{ unfold route. rewrite decode_encode by done.
        erewrite cbind_done by (apply clift_done; unfold lift; by rewrite Hc). cbv iota.
        erewrite cbind_done by reflexivity. cbn [take_pending fst snd]. rewrite Hp. reflexivity. }
    unfold poll_future. erewrite cbind_done.
    2:{ unfold locked, ret, complete, poll. cbn [drop_pending set_pending i_slots]. rewrite Hs.
        cbn [s_waker set_slots i_slots]. rewrite list_lookup_insert_eq by (by eapply lookup_lt_Some).
        reflexivity. }
    cbv iota. erewrite cbind_done by (apply clift_done; unfold lift; by rewrite Hr). reflexivity.
  - reflexivity.
Qed.

(** The steps of [call] around its push. *)
Lemma call_pushed `{ProtoSerde} (others : conn unit) {Req Resp} `{!Serde Req, !Serde Resp}
    (fn_name : string) (key : option string) (x : Req) (req_json resp_json : string) (sq sp : Schema)
    (c : Callee) (args : list byte) (corr : Z) (qf : Frame) (i : Inner) (w w1 : world) (b : bool) (w2 : world) :
  let tr := i_transport i in
  let req := MkRpcRequest corr (t_client_id tr) (t_reply_segment tr) (fp_to_i64 (cal_req_fp c)) args in
  parse req_json = Ok (sq, cal_req_fp c) -> parse resp_json = Ok (sp, cal_resp_fp c) ->
  i_callees i !! (fn_name, key_or_empty key) = Some c ->
  avro_encode sq x = Ok args -> next_corr w = Done (corr, w1) ->
  to_frame KRpcRequest req = Done (Ok qf) ->
  push_blocking (cal_ring c) (encode qf) (Some CALL_PUSH_TIMEOUT) w1 = Done (b, w2) ->
  call others fn_name key x req_json resp_json i w =
    (if negb b then
       do* modify (drop_pending corr) in
       do* forget_callee fn_name key in
       cret (Err (io_other "function request ring full"))
     else cret (Ok (MkCallFuture _ (length (i_slots i)) sp (cal_resp_fp c) corr))) (snd (register corr i)) w2.
Proof.
  intros tr req Pq Pp Hc Ea Ec Ef Ep.
  unfold call. erewrite cbind_io_ok by (unfold cret; by rewrite Pq). cbv beta iota.
  erewrite cbind_io_ok by (unfold cret; by rewrite Pp). cbv beta iota.
  erewrite cbind_io_ok by (by apply matching_callee_known).
  erewrite cbind_io_ok by (unfold cret; by rewrite Ea).
  erewrite cbind_done by (apply clift_done; exact Ec).
  erewrite cbind_done by reflexivity. erewrite cbind_done by reflexivity.
  erewrite cbind_io_ok by (apply clift_done; unfold lift; simpl; fold tr; fold req; by rewrite Ef).
  by erewrite cbind_done by (apply clift_done; exact Ep).
Qed.

(** C39: Placing a call: with a callee at hand whose interface matches and room in its arena, the request
    (its correlation id, who the caller is, where it wants the answer, the fingerprint of the
    arguments and their encoding) is put on the function's arena, and the future returned
    waits in a slot registered under exactly that correlation id. An answer with this id
    reaches it: once the dispatcher has routed the frame, the next poll resolves the call
    to what the frame decodes to and the slot is no longer pending. If the push
    gives up on a full arena, the call fails, nothing stays pending, and the resolution is dropped. *)
Theorem call_places_request `{ProtoSerde} (others : conn unit) {Req Resp} `{!Serde Req, !Serde Resp}
    (fn_name : string) (key : option string) (x : Req) (req_json resp_json : string) (sq sp : Schema)
    (c : Callee) (args : list byte) (corr : Z) (qf : Frame) (i : Inner) (w w1 : world) :
  let tr := i_transport i in
  let req := MkRpcRequest corr (t_client_id tr) (t_reply_segment tr) (fp_to_i64 (cal_req_fp c)) args in
  let fut := MkCallFuture _ (length (i_slots i)) sp (cal_resp_fp c) corr in
  parse req_json = Ok (sq, cal_req_fp c) -> parse resp_json = Ok (sp, cal_resp_fp c) ->
  i_callees i !! (fn_name, key_or_empty key) = Some c ->
  avro_encode sq x = Ok args -> next_corr w = Done (corr, w1) ->
  to_frame KRpcRequest req = Done (Ok qf) ->
  (forall q, ring_geom (cal_ring c) -> ring_has (cal_ring c) w q ->
     fst (fifo_push (r_capacity (cal_ring c)) q (encode qf)) = true ->
     exists i' w', call others fn_name key x req_json resp_json i w = Done ((Ok fut, i'), w') /\
       ring_has (cal_ring c) w' (q ++ [encode qf]) /\
       i_pending i' = <[corr := length (i_slots i)]> (i_pending i) /\
       (forall f r w2 waker, frame_wf f -> correlation_id f = Done (Ok corr) ->
          decode_response fut f = Done r ->
          exists i2, (do* route (encode f) in poll_future (Resp := Resp) fut waker) i' w2 =
              Done ((Some r, i2), w2) /\ i_pending i2 = delete corr (i_pending i))) /\
  (forall w2, push_blocking (cal_ring c) (encode qf) (Some CALL_PUSH_TIMEOUT) w1 = Done (false, w2) ->
     exists i' w', call others fn_name key x req_json resp_json i w =
         Done ((Err (io_other "function request ring full"), i'), w') /\
       i_pending i' = delete corr (i_pending i) /\
       i_callees i' = delete (fn_name, key_or_empty key) (i_callees i)).
Proof.
  intros tr req fut Pq Pp Hc Ea Ec Ef. set (i1 := snd (register corr i)).
  pose proof (fun b w2 => call_pushed others fn_name key x req_json resp_json sq sp c args corr qf i w w1 b w2
    Pq Pp Hc Ea Ec Ef) as Ecall.
  split.
  - intros q Hg Hq Hroom.
    assert (ring_has (cal_ring c) w1 q) as Hq1.
    { apply (ring_has_mem _ w); [done|]. by rewrite (next_corr_mem _ _ _ Ec). }
    destruct (push_blocking_room _ Hg w1 q _ (Some CALL_PUSH_TIMEOUT) Hq1 Hroom) as (w2 & Ep & Hq2 & _).
    exists i1, w2. rewrite (Ecall _ _ Ep). split_and!; [done | done | done|].
    intros f r w3 waker Hf Hcf Hr.
    destruct (route_then_poll fut f i1 w3 waker r) as (i2 & E2 & Hp2); try done.
    + apply lookup_insert_eq.
    + simpl. by rewrite lookup_app_r, Nat.sub_diag by lia.
    + exists i2. split; [exact E2|]. rewrite Hp2. apply delete_insert_eq.
  - intros w2 Ep. rewrite (Ecall _ _ Ep). cbn [negb].
    erewrite cbind_done by reflexivity.
    destruct (drop_segment_done (r_seg (cal_ring c)) w2) as (w3 & E3 & _).
    eexists _, w3. split; [|split].
    + erewrite cbind_done by (unfold forget_callee; simpl; rewrite Hc; unfold bind; rewrite E3; reflexivity).
      reflexivity.
    + simpl. apply delete_insert_eq.
    + done.
Qed.

(** ** Witnesses *)

From S2P Require Import Toy BrokerProps BrokerFlow ClientProps RpcProps.

Definition toy_fp : Z := fingerprint (H := toy_avro) toy_long.
Definition demo_publisher : Publisher := MkPublisher toy_avro 0 toy_long toy_fp "news" 1.
Definition demo_subscriber : Subscriber := MkSubscriber toy_avro 0 toy_long toy_fp.
Definition demo_cells : Inner := set_cells [demo_sub_ring] demo_inner.
Definition demo_body (z : Z) : list byte := bytes_of (avro_encode (H := toy_avro) toy_long z).

Lemma channel_delivers_in_order_witness :
  exists w1 w2, publish_all demo_publisher [41; 42] demo_cells demo_conn = Done ((Ok tt, demo_cells), w1) /\
    recv_all demo_subscriber 5 2 demo_cells w1 = Done ((Ok [41; 42], demo_cells), w2) /\
    ring_has demo_sub_ring w2 [].
Proof.
  refine (channel_delivers_in_order demo_publisher demo_subscriber demo_sub_ring [41; 42]
    [demo_body 41; demo_body 42] 5 demo_cells demo_cells demo_conn eq_refl eq_refl eq_refl eq_refl _
    (toy_Z_codec _) demo_sub_geom demo_conn_sub _ _ _).
  - vm_compute. split; [discriminate | reflexivity].
  - repeat constructor; vm_compute; reflexivity.
  - repeat constructor; vm_compute; discriminate || reflexivity.
  - vm_compute. discriminate.
Defined.

(** A world in which a foreign record waits on the channel. *)
Definition demo_foreign : list byte := encode (new 1 [Byte.x01]).
Definition demo_polluted : world :=
  match try_push demo_sub_ring demo_foreign demo_conn with Done (_, w) => w | _ => demo_conn end.

Lemma demo_polluted_has : ring_has demo_sub_ring demo_polluted [demo_foreign].
Proof.
  destruct (try_push_sim demo_sub_ring demo_sub_geom demo_conn [] demo_foreign demo_conn_sub)
    as (w' & E & Hq & _).
  assert (fifo_push 256 [] demo_foreign = (true, [demo_foreign])) as Ep by (vm_compute; reflexivity).
  change (r_capacity demo_sub_ring) with 256 in Hq. rewrite Ep in Hq.
  unfold demo_polluted. rewrite E. exact Hq.
Qed.

Lemma recv_accepts_own_schema_witness :
  exists e w', recv (T := Z) demo_subscriber 5 demo_cells demo_polluted = Done ((Err e, demo_cells), w') /\
    ring_has demo_sub_ring w' [].
Proof.
  destruct (recv_accepts_own_schema (T := Z) demo_subscriber 5 demo_foreign [] demo_sub_ring demo_cells
    demo_polluted eq_refl demo_sub_geom demo_polluted_has) as (r & w' & E & Hq & Hn & Hv).
  destruct r as [[v|]|e].
  - exfalso. destruct (proj1 (Hv v) eq_refl) as (f & Ed & Ef & _).
    vm_compute in Ed. injection Ed as <-. vm_compute in Ef. discriminate Ef.
  - exfalso. exact (Hn eq_refl).
  - exists e, w'. split; [exact E | exact Hq].
Defined.

Definition demo_callee : Callee := MkCallee toy_fp toy_fp demo_sub_ring.
Definition demo_caller : Inner := set_callees {[ ("add", "") := demo_callee ]} demo_inner.
Definition demo_placed : RpcRequest :=
  MkRpcRequest 77 3 "/impulse-ring.cli.5.v1" (fp_to_i64 toy_fp) demo_args.
Definition demo_placed_frame : Frame := frame_of (to_frame KRpcRequest demo_placed).
Definition demo_drawn : world :=
  match next_corr demo_conn with Done (_, w) => w | _ => demo_conn end.

Lemma call_places_request_witness :
  exists i' w', call (cret tt) "add" None 41 toy_long toy_long demo_caller demo_conn =
      Done ((Ok (MkCallFuture toy_avro 0 toy_long toy_fp 77), i'), w') /\
    ring_has demo_sub_ring w' ([] ++ [encode demo_placed_frame]) /\ i_pending i' = {[77 := 0%nat]}.
Proof.
  refine (let '(conj H _) := call_places_request (Resp := Z) (cret tt) "add" None 41 toy_long toy_long
    toy_long toy_long demo_callee demo_args 77 demo_placed_frame demo_caller demo_conn demo_drawn
    _ _ _ _ _ _ in _).
  1,2,4,6: vm_compute; reflexivity.
  1,2: reflexivity.
  destruct (H [] demo_sub_geom demo_conn_sub) as (i' & w' & E & Hq & Hp & _).
  { vm_compute. reflexivity. }
  exists i', w'. split; [exact E|]. split; [exact Hq | exact Hp].
Defined.
