(* ===== verification/RpcBus.v ===== *)
(** * A remote call, from end to end

    [call_blocking] of a client, served by the reader and a worker of the function's
    service while the client waits, and delivered by the client's dispatcher. *)

From S2P Require Import Prelude Machine Shm Circ Ring RingMem RingSpec RingThm Demo Frame Control Util Avro Proto ProtoProps Registry RegistryThm Broker BrokerThm BrokerOps Client ClientThm Rpc Connection RpcThm ConnectionProps Bus.

(** The service, as what happens while somebody else sleeps: its reader takes a request
    off the arena, and a worker answers it. [sw] is the service's process. *)
Definition service_turn `{ProtoSerde} (arena : Ring) (serve : Serve) (cache : gmap string Ring)
  : prog (gmap string Ring) :=
  let! req := read_request arena in
  match req with
  | Some req => serve_job serve cache req
  | None => ret cache
  end.

Definition service_tick `{ProtoSerde} (arena : Ring) (serve : Serve) (cache : gmap string Ring)
    (sw : world) (now : Z) : tick :=
  Tick (fun m => match service_turn arena serve cache (set_mem m sw) with
                 | Done (_, w') => w_mem w' | _ => m end) now.

(** What the Avro codec does for requests and responses. *)
Record rpc_codecs `{ProtoSerde} (c : Catalog) : Prop := {
  rpc_catalog : catalog = Done c;
  rpc_fps : forall k fp, c_fp c k = Done fp -> kind_of c fp = Some k /\ in_u 64 fp;
  rpc_request_codec s : c_schema c KRpcRequest = Done s -> codec_ok RpcRequest s;
  rpc_response_codec s : c_schema c KRpcResponse = Done s -> codec_ok RpcResponse s;
}.

(** The client [i] knows the function as [callee]; the service reads the same arena and
    writes to the client's reply ring; both rings are empty. *)
Record bound (i : Inner) (id : string * string) (callee : Callee) (arena : Ring)
    (cache : gmap string Ring) (w : world) : Prop := {
  bd_callee : i_callees i !! id = Some callee;
  bd_arena : shares (cal_ring callee) arena;
  bd_reply : exists ring, cache !! t_reply_segment (i_transport i) = Some ring /\
    shares (t_reply_ring (i_transport i)) ring;
  bd_geom : ring_geom (cal_ring callee) /\ ring_geom (t_reply_ring (i_transport i));
  bd_apart : r_ptr (cal_ring callee) <> r_ptr (t_reply_ring (i_transport i));
  bd_empty : ring_has (cal_ring callee) w [] /\ ring_has (t_reply_ring (i_transport i)) w [];
}.

Lemma service_turn_answers `{ProtoSerde} c arena serve cache req resp qf rf ring w :
  rpc_codecs c -> to_frame KRpcRequest req = Done (Ok qf) -> frame_wf qf ->
  ring_geom arena -> ring_has arena w [encode qf] ->
  serve req = Done resp -> cache !! rpc_request_reply_segment req = Some ring ->
  to_frame KRpcResponse resp = Done (Ok rf) -> ring_geom ring -> ring_has ring w [] ->
  r_ptr ring <> r_ptr arena -> fst (fifo_push (r_capacity ring) [] (encode rf)) = true ->
  exists w', service_turn arena serve cache w = Done (cache, w') /\ ring_has ring w' [encode rf].
Proof.
  intros [Ec Hfp Hq Hp] Eqf Wq Hga Hqa Es Hcache Erf Hgr Hqr Hne Hroom.
  destruct (read_request_ok c req qf arena [] w Ec Hq Eqf Wq Hga Hqa) as (w1 & E1 & _ & Ho1).
  assert (ring_has ring w1 []) as Hqr1.
  { eapply ring_has_mem; [exact Hqr|]. by apply (ro_others _ _ _ _ Ho1). }
  destruct (serve_job_ok serve cache req resp rf ring [] w1 Es Hcache Erf Hgr Hqr1 Hroom) as (w2 & E2 & Hq2).
  exists w2. split; [|done]. unfold service_turn. by rewrite (bind_done _ _ _ _ _ E1).
Qed.

Section waiting.
Context `{ProtoSerde} {Resp : Type} `{!Serde Resp}.

(** [block_on] sleeps once; the answer arrives in that tick. *)
Lemma block_on_answered (fut : CallFuture) (timeout : Z) (i : Inner) (w : world) (t : tick)
    (ts : list tick) (f : Frame) (r : io_result Resp) (q : list (list byte)) :
  i_pending i !! cf_corr fut = Some (cf_slot fut) -> i_slots i !! cf_slot fut = Some (MkSlotState None None) ->
  w_ticks w = t :: ts -> 0 < timeout ->
  ring_geom (t_reply_ring (i_transport i)) ->
  ring_has (t_reply_ring (i_transport i)) (ticked t ts w) (encode f :: q) ->
  frame_wf f -> correlation_id f = Done (Ok (cf_corr fut)) -> decode_response fut f = Done r ->
  exists i' w', block_on dispatch_turn fut timeout i w = Done ((Some r, i'), w') /\
    ring_has (t_reply_ring (i_transport i)) w' q /\
    i_pending i' = delete (cf_corr fut) (i_pending i).
Proof.
  intros Hp Hs Et Hto Hg Hq Hf Hc Hd. set (wk := length (i_wakers i)). set (s := cf_slot fut).
  set (i1 := snd (new_waker i)).
  set (i2 := set_slots (<[s := MkSlotState None (Some wk)]> (i_slots i1)) i1).
  assert (poll_future (Resp := Resp) fut wk i1 w = Done ((None, i2), w)) as E1.
  { unfold poll_future. erewrite cbind_done.
    2:{ unfold locked, poll, ret. change (i_slots i1) with (i_slots i). rewrite Hs. reflexivity. }
    reflexivity. }
  assert (i_wakers i2 !! wk = Some false) as Hwk.
  { simpl. unfold wk. by rewrite lookup_app_r, Nat.sub_diag by lia. }
  set (i3 := set_wakers (<[wk := false]> (i_wakers i2)) i2).
  assert (locked (take_notified wk) i2 w = Done ((false, i3), w)) as E2
    by (unfold locked, take_notified, ret; by rewrite Hwk).
  assert (s < length (i_slots i))%nat as Hls by (by eapply lookup_lt_Some).
  destruct (dispatch_delivers i3 (ticked t ts w) f (cf_corr fut) s q Hg Hq Hf Hc Hp) as (w3 & E3 & Hq3 & evs & Ho3).
  set (i4 := complete s f (drop_pending (cf_corr fut) i3)) in *.
  assert (i_slots i4 !! s = Some (MkSlotState (Some f) None) /\
    i_pending i4 = delete (cf_corr fut) (i_pending i)) as [Hs4 Hp4].
  { subst i4. unfold complete. cbn [drop_pending set_pending i_slots i3 set_wakers i2 set_slots].
    rewrite list_lookup_insert_eq by done. cbn [s_waker]. split; [|reflexivity].
    cbn [set_wakers set_slots i_slots]. apply list_lookup_insert_eq. by rewrite length_insert. }
  set (i5 := set_slots (<[s := MkSlotState None None]> (i_slots i4)) i4).
  assert (poll_future (Resp := Resp) fut wk i4 w3 = Done ((Some r, i5), w3)) as E4.
  { unfold poll_future. erewrite cbind_done.
    2:{ unfold locked, poll, ret. fold s. rewrite Hs4. reflexivity. }
    cbv beta iota. erewrite cbind_done by (apply clift_done; unfold lift; by rewrite Hd). done. }
  exists (drop_pending (cf_corr fut) i5), w3. split_and!; [|done|].
  - unfold block_on. erewrite cbind_done by reflexivity. cbv beta.
    change (fst (new_waker i)) with wk. fold i1.
    erewrite cbind_done; [erewrite cbind_done by reflexivity; reflexivity|]. cbv beta. rewrite Et.
    cbn [length Nat.mul Nat.add block_loop].
    erewrite cbind_done by exact E1. cbv beta iota.
    erewrite cbind_done by (by apply clift_done). rewrite (proj2 (Z.leb_gt _ _)) by lia.
    erewrite cbind_done by exact E2. cbv beta iota.
    erewrite cbind_done by (apply clift_done; unfold yield; rewrite Et; reflexivity). fold (ticked t ts w).
    erewrite cbind_done by exact E3. rewrite Nat.add_0_r, Nat.add_succ_r. cbn [block_loop].
    erewrite cbind_done by exact E4. done.
  - simpl. rewrite Hp4. apply delete_id, lookup_delete_eq.
Qed.
End waiting.

Lemma call_attempt_served `{ProtoSerde} {Req Resp} `{!Serde Req, !Serde Resp} (c : Catalog)
    (fn_name : string) (key : option string) (x : Req) (y : Resp) (req_json resp_json : string)
    (sq sp : Schema) (args result : list byte) (handler : Req -> outcome Resp) (timeout : Z)
    (callee_ring arena : Ring) (cache : gmap string Ring) (corr : Z) (qf rf : Frame)
    (i : Inner) (w w0 sw : world) (t : Z) (ts : list tick) :
  let tr := i_transport i in
  let serve := fun r => handle_one r sq sp (fingerprint sq) (fingerprint sp) handler in
  rpc_codecs c -> codec_ok Req sq -> codec_ok Resp sp ->
  parse req_json = Ok (sq, fingerprint sq) -> parse resp_json = Ok (sp, fingerprint sp) ->
  avro_encode sq x = Ok args -> handler x = Done y -> avro_encode sp y = Ok result ->
  bound i (fn_name, key_or_empty key) (MkCallee (fingerprint sq) (fingerprint sp) callee_ring) arena cache w ->
  next_corr w = Done (corr, w0) -> w_ticks w = service_tick arena serve cache sw t :: ts -> 0 < timeout ->
  to_frame KRpcRequest (MkRpcRequest corr (t_client_id tr) (t_reply_segment tr) (fp_to_i64 (fingerprint sq)) args) =
    Done (Ok qf) -> sendable callee_ring qf ->
  to_frame KRpcResponse (MkRpcResponse corr STATUS_OK "" (fp_to_i64 (fingerprint sp)) result) = Done (Ok rf) ->
  sendable (t_reply_ring tr) rf ->
  exists i' w', call_attempt dispatch_turn fn_name key x req_json resp_json timeout i w =
      Done ((Ok y, i'), w') /\
    ring_has (t_reply_ring tr) w' [] /\ i_pending i' = delete corr (i_pending i).
Proof.
  intros tr serve Hcod Hcq Hcp Pq Pp Ea Eh Er [Hcal Har (ring & Hcache & Hsh) [Hga Hgr] Hne [Ha0 Hr0]]
    Ecorr Et Hto Eqf [Wq Qroom] Erf [Wr Rroom]. cbn [cal_ring] in *.
  pose proof Hcod as [Ec Hfp Hq Hp].
  destruct (next_corr_same _ _ _ Ecorr) as (Em0 & Et0 & _).
  destruct (push_blocking_room callee_ring Hga w0 [] (encode qf) (Some CALL_PUSH_TIMEOUT)) as (w1 & Ep & Hq1 & Ho1);
    [eapply ring_has_mem; [exact Ha0 | by rewrite Em0] | done|].
  set (i1 := snd (register corr i)). set (slot := length (i_slots i)).
  set (fut := MkCallFuture _ slot sp (fingerprint sp) corr).
  assert (call dispatch_turn fn_name key x req_json resp_json i w = Done ((Ok fut, i1), w1)) as Ecall.
  { by rewrite (call_pushed _ _ _ _ _ _ sq sp (MkCallee (fingerprint sq) (fingerprint sp) callee_ring) args corr qf
      i w w0 true w1 Pq Pp Hcal Ea Ecorr Eqf Ep). }
  assert (ring_has (t_reply_ring tr) w1 []) as Hr1.
  { eapply ring_has_mem; [exact Hr0|]. rewrite (ro_others _ _ _ _ Ho1) by (apply not_eq_sym; exact Hne). by rewrite Em0. }
  destruct (service_turn_answers c arena serve cache
    (MkRpcRequest corr (t_client_id tr) (t_reply_segment tr) (fp_to_i64 (fingerprint sq)) args)
    (MkRpcResponse corr STATUS_OK "" (fp_to_i64 (fingerprint sp)) result) qf rf ring (set_mem (w_mem w1) sw))
    as (w2 & E2 & Hq2); try done.
  { by eapply shares_geom. }
  { eapply shares_has; [exact Har|]. by eapply ring_has_mem. }
  { by eapply handle_one_result. }
  { by eapply shares_geom. }
  { eapply shares_has; [exact Hsh|]. by eapply ring_has_mem. }
  { rewrite <- (proj1 Hsh), <- (proj1 Har). apply not_eq_sym. exact Hne. }
  { by rewrite <- (proj1 (proj2 (proj2 Hsh))). }
  destruct (framed_wf c _ _ _ Ec Hfp Erf) as [_ Kr]; [by destruct Wr|].
  destruct (block_on_answered (Resp := Resp) fut timeout i1 w1 (service_tick arena serve cache sw t) ts rf (Ok y) [])
    as (i2 & w3 & E3 & Hq3 & Hp3); try done.
  - apply lookup_insert_eq.
  - simpl. unfold slot. by rewrite lookup_app_r, Nat.sub_diag by lia.
  - rewrite (ro_ticks _ _ _ _ Ho1). congruence.
  - eapply shares_has; [by apply shares_sym|]. eapply ring_has_mem; [exact Hq2|].
    cbn [ticked service_tick tk_mem w_mem]. by rewrite E2.
  - by apply (result_routed c (MkRpcResponse corr STATUS_OK "" (fp_to_i64 (fingerprint sp)) result)).
  - by eapply decode_result.
  - exists i2, w3. split_and!; [|done|].
    + unfold call_attempt. erewrite cbind_io_ok by exact Ecall. by erewrite cbind_done by exact E3.
    + rewrite Hp3. simpl. apply delete_insert_eq.
Qed.

(** An attempt that succeeds is all of a blocking call. *)
Lemma attempt_blocking `{ProtoSerde} {Req Resp} `{!Serde Req, !Serde Resp} others fn_name key (x : Req) (y : Resp)
    req_json resp_json timeout i w i' w' :
  call_attempt others fn_name key x req_json resp_json timeout i w = Done ((Ok y, i'), w') ->
  call_blocking others fn_name key x req_json resp_json timeout i w = Done ((Ok y, i'), w').
Proof.
  intros E. unfold call_blocking, with_reconnect. by erewrite cbind_done by (erewrite cbind_done by exact E; reflexivity).
Qed.

(** C3: A remote call from end to end: a caller that knows the function gets from
    [call_blocking] the very value the function's handler computes from the argument.
    The request travels through the function's arena to the service's reader and a
    worker, the answer through the caller's reply ring and its dispatcher to the
    future; the reply ring is empty again and nothing of the call stays pending. *)
Theorem call_over_the_bus `{ProtoSerde} {Req Resp} `{!Serde Req, !Serde Resp} (c : Catalog)
    (fn_name : string) (key : option string) (x : Req) (y : Resp) (req_json resp_json : string)
    (sq sp : Schema) (args result : list byte) (handler : Req -> outcome Resp) (timeout : Z)
    (callee_ring arena : Ring) (cache : gmap string Ring) (corr : Z) (qf rf : Frame)
    (i : Inner) (w w0 sw : world) (t : Z) (ts : list tick) :
  let tr := i_transport i in
  let serve := fun r => handle_one r sq sp (fingerprint sq) (fingerprint sp) handler in
  rpc_codecs c -> codec_ok Req sq -> codec_ok Resp sp ->
  parse req_json = Ok (sq, fingerprint sq) -> parse resp_json = Ok (sp, fingerprint sp) ->
  avro_encode sq x = Ok args -> handler x = Done y -> avro_encode sp y = Ok result ->
  bound i (fn_name, key_or_empty key) (MkCallee (fingerprint sq) (fingerprint sp) callee_ring) arena cache w ->
  next_corr w = Done (corr, w0) -> w_ticks w = service_tick arena serve cache sw t :: ts -> 0 < timeout ->
  to_frame KRpcRequest (MkRpcRequest corr (t_client_id tr) (t_reply_segment tr) (fp_to_i64 (fingerprint sq)) args) =
    Done (Ok qf) -> sendable callee_ring qf ->
  to_frame KRpcResponse (MkRpcResponse corr STATUS_OK "" (fp_to_i64 (fingerprint sp)) result) = Done (Ok rf) ->
  sendable (t_reply_ring tr) rf ->
  exists i' w', call_blocking dispatch_turn fn_name key x req_json resp_json timeout i w =
      Done ((Ok y, i'), w') /\
    ring_has (t_reply_ring tr) w' [] /\ i_pending i' = delete corr (i_pending i).
Proof.
  intros tr serve. intros.
  destruct (call_attempt_served c fn_name key x y req_json resp_json sq sp args result handler timeout callee_ring arena
    cache corr qf rf i w w0 sw t ts) as (i2 & w2 & E & Hrest); try done.
  exists i2, w2. split; [by apply attempt_blocking | exact Hrest].
Qed.

(** ** A call to compute with *)

From S2P Require Import Toy BrokerProps BrokerFlow ClientProps RpcProps BusProps.

(** The caller of [demo_caller], on whose bus the service has its turn first. *)
Definition bus_serve : Serve := fun r => handle_one (H := toy_avro) r toy_long toy_long toy_fp toy_fp demo_handler.
Definition bus_cache : gmap string Ring := {["/impulse-ring.cli.5.v1" := demo_client_ring]}.
Definition call_world : world :=
  World demo_conn_mem 0 demo_sys [service_tick demo_sub_ring bus_serve bus_cache (demo_world []) 10] 0 [].
Definition bus_response : Frame :=
  frame_of (to_frame KRpcResponse (MkRpcResponse 77 STATUS_OK "" (fp_to_i64 toy_fp) demo_result)).

Lemma toy_rpc : rpc_codecs toy_catalog.
Proof.
  destruct toy_rpc_codecs as [Cq Cp]. constructor; [exact toy_catalog_done | exact toy_fp_kind | exact Cq | exact Cp].
Qed.

Lemma call_bound : bound demo_caller ("add", "") demo_callee demo_sub_ring bus_cache call_world.
Proof.
  constructor.
  - reflexivity.
  - by split_and!.
  - exists demo_client_ring. split; [apply lookup_singleton_eq | by split_and!].
  - split; [exact demo_sub_geom | exact demo_client_geom].
  - done.
  - split.
    + eapply ring_has_mem; [exact demo_conn_sub | reflexivity].
    + eapply ring_has_mem; [exact demo_bus_ring | reflexivity].
Qed.

Lemma call_frames :
  to_frame KRpcRequest demo_placed = Done (Ok demo_placed_frame) /\ sends demo_sub_ring demo_placed_frame = true /\
  to_frame KRpcResponse (MkRpcResponse 77 STATUS_OK "" (fp_to_i64 toy_fp) demo_result) = Done (Ok bus_response) /\
  sends demo_client_ring bus_response = true.
Proof. split_and!; vm_compute; reflexivity. Qed.

Lemma call_values :
  parse toy_long = Ok (toy_long, toy_fp) /\ avro_encode (H := toy_avro) toy_long 41 = Ok demo_args /\
  avro_encode (H := toy_avro) toy_long 42 = Ok demo_result.
Proof. split_and!; vm_compute; reflexivity. Qed.

Lemma call_over_the_bus_witness :
  exists i' w', call_blocking dispatch_turn "add" None 41 toy_long toy_long 5 demo_caller call_world =
      Done ((Ok 42, i'), w') /\
    ring_has demo_client_ring w' [] /\ i_pending i' = delete 77 (i_pending demo_caller).
Proof.
  destruct call_frames as (F1 & F2 & F3 & F4). destruct call_values as (V1 & V2 & V3).
  exact (call_over_the_bus toy_catalog "add" None 41 42 toy_long toy_long toy_long toy_long demo_args demo_result
    demo_handler 5 demo_sub_ring demo_sub_ring bus_cache 77 demo_placed_frame bus_response demo_caller call_world
    _ (demo_world []) 10 [] toy_rpc (toy_Z_codec _) (toy_Z_codec _) V1 V1 V2 eq_refl V3 call_bound eq_refl eq_refl
    eq_refl F1 (sends_ok _ _ F2) F3 (sends_ok _ _ F4)).
Defined.
