(* ===== verification/BusChannel.v ===== *)
(** * A channel from its publisher to a subscriber, over the bus

    [publish_channel] and [subscribe] of the connector, with the broker's turns while they
    wait, and then the messages. The arena that the broker makes is one block of the
    memory the three processes share: mapping the segment gives its address. *)

From S2P Require Import Prelude Machine Shm Circ Ring RingMem RingSpec RingThm Demo Frame Control Util Avro Proto Toy ProtoProps Registry RegistryThm RegistryProps Broker BrokerThm BrokerOps BrokerProps BrokerFlow Client ClientThm ClientProps Bus BusArena BusProps RpcThm Rpc Connection ConnectionProps RpcBus.

(** ** The two requests *)

Record channel_codecs `{ProtoSerde} (c : Catalog) : Prop := {
  cc_bus : bus_codecs c;
  cc_writer : forall k fp s, c_fp c k = Done fp -> c_schema c k = Done s -> writer_schema c fp = Some s;
  cc_publish s : c_schema c KPublishChannel = Done s -> codec_ok PublishChannel s;
  cc_subscribe s : c_schema c KSubscribe = Done s -> codec_ok Subscribe s;
}.

Section channel.
Context `{ProtoSerde} `{!Sha256} (c : Catalog).
Hypothesis Hc : channel_codecs c.

Lemma publish_answered (b : Broker) (i : Inner) (ls : Z) (bw w : world) (corr : Z) (name json : string)
    (key : option string) (acap : Z) (s : Schema) (fp : Z) (qf rf : Frame) :
  let id := next_channel (b_reg b) in
  let cap := clamp_arena_cap (Z.max acap 0) in
  let sub := t_submission (i_transport i) in
  let rep := t_reply_ring (i_transport i) in
  let m := MkPublishChannel corr (t_client_id (i_transport i)) name json (key_or_empty key) acap in
  asks i b ls bw w corr -> broker_inv b -> ids_left (b_reg b) -> in_i 64 acap ->
  chan_by_name (b_reg b) !! name = None -> parse json = Ok (s, fp) ->
  arena_to_be_had (w_sys bw) (w_sys w) (w_mem w) (channel_arena id) cap ->
  to_frame KPublishChannel m = Done (Ok qf) -> sendable sub qf ->
  to_frame KPublishReply (MkPublishReply corr id (fp_to_i64 fp) (channel_arena id) STATUS_OK "") = Done (Ok rf) ->
  sendable rep rf ->
  exists i' w' ptr, let ring := mapped_arena (channel_arena id) ptr cap in
    let b' := published m fp (MkSegment (channel_arena id) ptr (ring_bytes cap) true) b in
    do_publish dispatch_turn name json key acap i w = Done ((Ok (ring, fp), i'), w') /\
    (exists m0 v, turn b ls (set_mem m0 bw) = Done ((b', ls), v)) /\
    ring_geom ring /\ ring_has ring w' [] /\ attachable ring (w_mem w') /\ ptr <> MAP_FAILED /\
    at_rest i w w' ptr /\ carried i w i' w' /\
    exists m1, dom m1 = dom (w_mem w) /\ lands (w_sys bw) (channel_arena id) (ring_bytes cap) m1 = ptr.
Proof using Hc.
  intros id cap sub rep m Ha Hb Hids Hcap Hfree Hp Harena Eq Hqf Er Hrf.
  pose proof Hc as [[Hcat Hcod Hfp _ _] Hw Hpub _]. set (ans := MkPublishReply _ _ _ _ _ _) in Er.
  destruct (reply_is_routed c (RPublish ans) rf Hcat Hcod Hfp Er) as [Hwf Hcorr]; [by destruct Hrf as [[] _]|].
  destruct (to_frame_inv c _ _ _ Hcat Eq) as (s0 & fp0 & _ & Efp & _ & Eqf & _).
  destruct (arena_answered (channel_arena id) cap KPublishChannel (fun corr i => MkPublishChannel corr
      (t_client_id (i_transport i)) name json (key_or_empty key) acap) KPublishReply ans b
      (fun seg => published m fp seg b) i ls bw w corr qf rf Ha (has_nul_seg_id (SegChannel id))
      (arena_size _ (proj2 (requested_cap _ Hcap))) Harena Eq Hqf) as (i' & w1 & w' & ptr & E & Ea & Hrest);
    [|exact Hwf | exact Hcorr | exact (from_frame_to_frame c _ _ _ Hcat (rc_publish c Hcod) Er)|].
  - apply (arena_served _ _ _ _ _ w); [apply Ha|]. intros ring v Hring Hsh Hg Hhas [Hsys _].
    destruct Harena as (Hgr & _).
    destruct (on_publish_done b v qf m s fp ring [] rf) as (ptr & w1 & w' & evs & E & Hrest); try done;
      rewrite ?Hsys; try done.
    + exact (from_frame_compat_to_frame c KPublishChannel m qf Hcat Hpub (Hw _) Eq).
    + rewrite (proj1 (proj2 (proj2 Hsh))). apply Hrf.
    + exists ptr, w1, w', evs. split; [|exact Hrest].
      unfold handle. rewrite (decode_encode _ (proj1 Hqf)). erewrite bind_done by (unfold lift; by rewrite Hcat).
      by rewrite Eqf, (proj1 (Hfp _ _ Efp)).
  - exists i', w', ptr. split; [|exact Hrest].
    unfold do_publish. erewrite cbind_io_ok by exact E. cbn [ans publish_reply_status publish_reply_arena publish_reply_schema_fp].
    cbn [negb Z.eqb STATUS_OK]. erewrite cbind_io_ok by (apply clift_done; exact Ea).
    rewrite fp_back; [done|]. apply parse_ok_inv in Hp as [_ ->]. apply fingerprint_range.
Qed.

(** The broker's answer to a subscription. *)
Definition subscribe_answer (b : Broker) (corr id : Z) (key : string) (fp : Z) : SubscribeReply :=
  match resolve_subscribe (b_reg b) id key fp with
  | Ok (arena, sfp) => MkSubscribeReply corr arena (fp_to_i64 sfp) STATUS_OK ""
  | Err (code, msg) => MkSubscribeReply corr "" 0 code msg
  end.

Lemma subscribe_answered (b : Broker) (j : Inner) (ls : Z) (bw w : world) (corr id : Z) (key : option string)
    (fp : Z) (qf rf : Frame) :
  let sub := t_submission (i_transport j) in
  let rep := t_reply_ring (i_transport j) in
  let answer := subscribe_answer b corr id (key_or_empty key) fp in
  asks j b ls bw w corr -> in_u 64 fp ->
  to_frame KSubscribe (MkSubscribe corr (t_client_id (i_transport j)) id (key_or_empty key) (fp_to_i64 fp)) =
    Done (Ok qf) -> sendable sub qf ->
  to_frame KSubscribeReply answer = Done (Ok rf) -> sendable rep rf ->
  exists j' w', round_trip dispatch_turn KSubscribe (fun corr i =>
      MkSubscribe corr (t_client_id (i_transport i)) id (key_or_empty key) (fp_to_i64 fp)) KSubscribeReply j w =
      Done ((Ok answer, j'), w') /\ w_sys w' = w_sys w /\
    forall p, p <> r_ptr sub -> p <> r_ptr rep -> w_mem w' !! p = w_mem w !! p.
Proof using Hc.
  intros sub rep answer [Hcn (w0 & Ecorr) (t & ts & Et) Hq] Hfp Eq Hqf Er Hrf.
  pose proof Hc as [[Hcat Hcod Hfps _ _] _ _ Hcs].
  destruct (to_frame_inv c _ _ _ Hcat Eq) as (s0 & fp0 & _ & Efp & _ & Eqf & _).
  destruct (reply_is_routed c (RSubscribe answer) rf Hcat Hcod Hfps Er) as [Hwf Hcorr]; [by destruct Hrf as [[] _]|].
  assert (reply_corr (RSubscribe answer) = corr) as Eans
    by (unfold answer, subscribe_answer; simpl; by repeat case_match).
  rewrite Eans in Hcorr.
  set (b' := match resolve_subscribe (b_reg b) id (key_or_empty key) fp with
             | Ok _ => set_reg (mark_subscribed id (b_reg b)) b | Err _ => b end).
  destruct (round_trip_turn KSubscribe (fun corr i =>
      MkSubscribe corr (t_client_id (i_transport i)) id (key_or_empty key) (fp_to_i64 fp)) KSubscribeReply
      j b ls t w bw ts corr w0 qf rf (Ok answer) (fun b2 v v' => b2 = b' /\ dom (w_mem v') = dom (w_mem v) /\
    forall p, p <> r_ptr rep -> w_mem v' !! p = w_mem v !! p) (connected_wired _ _ _ Hcn) Ecorr Et Hq Eq Hqf)
    as (j' & w' & b2 & v & v' & E & _ & _ & _ & (_ & Hd & Hv & _) & (-> & Hd' & Hv') & (Hsys & Hd2 & Hv2 & _) & _).
  - eapply (replies_with b b' j KSubscribeReply answer); [exact Hcn | by unfold b'; repeat case_match | | exact Er | exact Hrf].
    intros v _. unfold handle. rewrite (decode_encode _ (proj1 Hqf)).
    erewrite bind_done by (unfold lift; by rewrite Hcat). rewrite Eqf, (proj1 (Hfps _ _ Efp)).
    unfold on_subscribe, try_in. erewrite bind_done by (unfold lift; by rewrite (from_frame_to_frame c _ _ _ Hcat Hcs Eq)).
    cbn [subscribe_channel_id subscribe_access_key subscribe_expected_fp subscribe_correlation_id subscribe_client_id].
    rewrite (fp_back _ Hfp). unfold b', answer, subscribe_answer. by repeat case_match.
  - exact Hwf.
  - exact Hcorr.
  - exact (from_frame_to_frame c _ _ _ Hcat (rc_subscribe c Hcod) Er).
  - exists j', w'. split; [exact E|]. split; [exact Hsys|].
    intros p Hp1 Hp2. by rewrite Hv2, Hv', Hv.
Qed.
End channel.

(** ** The public operations *)

Lemma subscribe_returns `{ProtoSerde} others id key json j w s fp v j1 w1 :
  parse json = Ok (s, fp) -> do_subscribe others id key fp j w = Done ((v, j1), w1) ->
  match v with Err e => broker_unreachable e = false | _ => True end ->
  subscribe others id key json j w = Done (match v with
    | Ok (ring, f) => (Ok (MkSubscriber _ (length (i_cells j1)) s f), set_cells (i_cells j1 ++ [ring]) j1)
    | Err e => (Err e, j1) end, w1).
Proof.
  intros Hp E Hv. unfold subscribe. erewrite cbind_io_ok by (unfold cret; by rewrite Hp). cbv beta iota.
  destruct v as [[ring f]|e].
  - by erewrite cbind_io_ok by (apply with_reconnect_ok; exact E).
  - by erewrite cbind_io_err by (apply with_reconnect_err; [exact Hv | exact E]).
Qed.

Lemma own_schema_resolves `{!Sha256} (r : Registry) id ch k :
  channels r !! id = Some ch -> key_wf (ch_key ch) ->
  (key_admits (ch_key ch) k /\ resolve_subscribe r id k (ch_schema_fp ch) = Ok (ch_arena ch, ch_schema_fp ch)) \/
  (~ key_admits (ch_key ch) k /\
   resolve_subscribe r id k (ch_schema_fp ch) = Err (ERR_DENIED, "invalid access key")).
Proof.
  intros Hch Hk. unfold resolve_subscribe. rewrite Hch.
  destruct (check_key_spec (ch_key ch) k Hk) as [[-> ?]|[-> ?]]; [left | by right].
  unfold check_fp. by rewrite Z.eqb_refl, orb_true_r || by rewrite Z.eqb_refl, andb_false_r.
Qed.

Lemma subscribe_over_the_bus `{ProtoSerde} `{!Sha256} (c : Catalog) (b : Broker) (j : Inner) (ls : Z) (bw w : world)
    (corr id : Z) (json : string) (key : option string) (s : Schema) (ch : ChannelMeta) (ptr cap : Z) (qf rf : Frame) :
  let ring := mapped_arena (ch_arena ch) ptr cap in
  channel_codecs c -> channels (b_reg b) !! id = Some ch -> key_wf (ch_key ch) -> has_nul (ch_arena ch) = false ->
  parse json = Ok (s, ch_schema_fp ch) -> asks j b ls bw w corr ->
  0 < ring_bytes cap < 2 ^ 64 -> ptr <> MAP_FAILED -> ring_geom ring -> attachable ring (w_mem w) ->
  ptr <> r_ptr (t_submission (i_transport j)) -> ptr <> r_ptr (t_reply_ring (i_transport j)) ->
  opens_at (w_sys w) (ch_arena ch) (ring_bytes cap) ptr (fun m => is_Some (m !! ptr)) ->
  to_frame KSubscribe (MkSubscribe corr (t_client_id (i_transport j)) id (key_or_empty key)
    (fp_to_i64 (ch_schema_fp ch))) = Done (Ok qf) -> sendable (t_submission (i_transport j)) qf ->
  to_frame KSubscribeReply (subscribe_answer b corr id (key_or_empty key) (ch_schema_fp ch)) = Done (Ok rf) ->
  sendable (t_reply_ring (i_transport j)) rf ->
  exists answer j' w', subscribe dispatch_turn id key json j w = Done ((answer, j'), w') /\
    w_mem w' !! ptr = w_mem w !! ptr /\
    (~ key_admits (ch_key ch) (key_or_empty key) -> answer = Err (io_other "subscribe failed: invalid access key")) /\
    (key_admits (ch_key ch) (key_or_empty key) -> exists cell,
       answer = Ok (MkSubscriber _ cell s (ch_schema_fp ch)) /\ i_cells j' !! cell = Some ring).
Proof.
  intros ring Hc Hch Hwf Hnul Hp Ha Hsz Hptr Hg Hatt Hp1 Hp2 Hopen Eq Hqf Er Hrf.
  assert (in_u 64 (ch_schema_fp ch)) as Hfp by (apply parse_ok_inv in Hp as [_ ->]; apply fingerprint_range).
  destruct (subscribe_answered c Hc b j ls bw w corr id key (ch_schema_fp ch) qf rf Ha Hfp Eq Hqf Er Hrf)
    as (j' & w1 & E & Hsys & Hm). specialize (Hm ptr Hp1 Hp2). unfold subscribe_answer in E.
  destruct (own_schema_resolves (b_reg b) id ch (key_or_empty key) Hch Hwf) as [[Hk E2]|[Hk E2]]; rewrite E2 in E.
  - destruct (attach_shared (ch_arena ch) (ring_bytes cap) ptr cap (fun m => is_Some (m !! ptr)) w1 Hnul Hsz Hptr)
      as (w2 & E3 & Em & _); [by rewrite Hsys | | exact Hg | |].
    + destruct Hatt as (bs & Hbs & _). exists bs. by rewrite Hm.
    + destruct Hatt as (bs & Hbs & Hx). exists bs. split; [|exact Hx]. etrans; [exact Hm | exact Hbs].
    + eexists _, _, w2. split; [eapply (subscribe_returns _ _ _ _ _ _ s _ (Ok (ring, ch_schema_fp ch))); [exact Hp | | done]|].
      * unfold do_subscribe. erewrite cbind_io_ok by exact E.
        cbn [subscribe_reply_status subscribe_reply_arena subscribe_reply_schema_fp negb Z.eqb STATUS_OK].
        erewrite cbind_io_ok by (apply clift_done; exact E3). by rewrite fp_back.
      * split; [by rewrite Em|]. split; [done|]. intros _. eexists. split; [done|].
        simpl. by rewrite lookup_app_r, Nat.sub_diag by lia.
  - eexists (Err _), _, w1. split; [eapply (subscribe_returns _ _ _ _ _ _ s _ (Err _)); [exact Hp | | ]|done].
    + unfold do_subscribe. by erewrite cbind_io_ok by exact E.
    + reflexivity.
Qed.

(** Messages that the codec can carry under [s], and for which an arena of [cap] bytes has
    room, travel through [p] to [su] unchanged and in order. *)
Definition delivers `{ProtoSerde} (s : Schema) (fp cap : Z) (p : Publisher) (i : Inner) (su : Subscriber)
    (j : Inner) (w : world) : Prop :=
  forall T (Serde0 : Serde T) (ms : list T) (bodies : list (list byte)) (timeout : Z),
    codec_ok T s -> Forall2 (fun m b => avro_encode s m = Ok b) ms bodies ->
    Forall (fun b => in_u 32 (blen b)) bodies ->
    blen (q_bytes ((fun b => encode (new fp b)) <$> bodies)) <= cap ->
    exists w1 w2, publish_all p ms i w = Done ((Ok tt, i), w1) /\
      recv_all su timeout (length ms) j w1 = Done ((Ok ms, j), w2).

Lemma shared_delivers `{ProtoSerde} s fp i j w ring n1 n2 name id :
  i_cells i !! n1 = Some ring -> i_cells j !! n2 = Some ring -> in_u 64 fp ->
  ring_geom ring -> ring_has ring w [] ->
  delivers s fp (r_capacity ring) (MkPublisher _ n1 s fp name id) i (MkSubscriber _ n2 s fp) j w.
Proof.
  intros Hi Hj Hu Hg Hq T S ms bodies timeout Hc Hms Hb Hroom. set (p := MkPublisher _ n1 s fp name id).
  destruct (publish_all_ok p ms bodies ring i w [] Hi Hg Hq Hms Hroom) as (w1 & E1 & Hq1).
  rewrite app_nil_l, <- (app_nil_r (_ <$> _)) in Hq1.
  destruct (recv_all_ok (MkSubscriber _ n2 s fp) timeout ms (channel_record p <$> bodies) [] ring j w1 Hj Hg Hq1)
    as (w2 & E2 & _); [by apply published_received|].
  by exists w1, w2.
Qed.

(** C4: Publish and subscribe from end to end. A client publishes a free name through the
    broker and gets a publisher on the new arena; the broker has entered the channel
    under the next id. From then on any client that asks the broker, with whatever
    key, for the channel with the publisher's schema is refused if the key is not the
    channel's, and otherwise gets a subscriber to which the publisher's messages come
    through, unchanged and in order. Requests and answers go through the submission
    ring, the broker's handlers, the reply rings and the dispatchers. *)
Theorem channel_over_the_bus `{ProtoSerde} `{!Sha256} (c : Catalog) (b : Broker) (i : Inner) (ls : Z)
    (bw w : world) (corr : Z) (name json : string) (key : option string) (cap0 : Z) (s : Schema) (fp : Z) (qf rf : Frame) :
  let id := next_channel (b_reg b) in
  let cap := clamp_arena_cap (Z.max (i64 cap0) 0) in
  let arena := channel_arena id in
  channel_codecs c -> broker_inv b -> ids_left (b_reg b) ->
  chan_by_name (b_reg b) !! name = None -> parse json = Ok (s, fp) ->
  asks i b ls bw w corr -> arena_to_be_had (w_sys bw) (w_sys w) (w_mem w) arena cap ->
  to_frame KPublishChannel
    (MkPublishChannel corr (t_client_id (i_transport i)) name json (key_or_empty key) (i64 cap0)) = Done (Ok qf) ->
  sendable (t_submission (i_transport i)) qf ->
  to_frame KPublishReply (MkPublishReply corr id (fp_to_i64 fp) arena STATUS_OK "") = Done (Ok rf) ->
  sendable (t_reply_ring (i_transport i)) rf ->
  exists p i1 w1 b' ptr,
    publish_channel_with_arena dispatch_turn name json key cap0 i w = Done ((Ok p, i1), w1) /\ at_rest i w w1 ptr /\
    (exists m v, turn b ls (set_mem m bw) = Done ((b', ls), v)) /\
    channels (b_reg b') = <[id := MkChannelMeta id name (t_client_id (i_transport i)) fp
      (access_key_hash (key_or_empty key)) arena]> (channels (b_reg b)) /\
    b_submission b' = b_submission b /\ b_reply_rings b' = b_reply_rings b /\
    forall j ls2 bw2 w2 corr2 key2 qf2 rf2,
      asks j b' ls2 bw2 w2 corr2 -> w_mem w2 !! ptr = w_mem w1 !! ptr ->
      ptr <> r_ptr (t_submission (i_transport j)) -> ptr <> r_ptr (t_reply_ring (i_transport j)) ->
      opens_at (w_sys w2) arena (ring_bytes cap) ptr (fun m => is_Some (m !! ptr)) ->
      to_frame KSubscribe
        (MkSubscribe corr2 (t_client_id (i_transport j)) id (key_or_empty key2) (fp_to_i64 fp)) = Done (Ok qf2) ->
      sendable (t_submission (i_transport j)) qf2 ->
      to_frame KSubscribeReply (subscribe_answer b' corr2 id (key_or_empty key2) fp) = Done (Ok rf2) ->
      sendable (t_reply_ring (i_transport j)) rf2 ->
      exists answer j1 w3, subscribe dispatch_turn id key2 json j w2 = Done ((answer, j1), w3) /\
        (~ key_admits (access_key_hash (key_or_empty key)) (key_or_empty key2) ->
         answer = Err (io_other "subscribe failed: invalid access key")) /\
        (key_admits (access_key_hash (key_or_empty key)) (key_or_empty key2) ->
         exists su, answer = Ok su /\ delivers s fp cap p i1 su j1 w3).
Proof.
  intros id cap arena Hc Hb Hids Hfree Hp Ha Harena Eq Hqf Er Hrf.
  pose proof (wrap_i_range 64 cap0 ltac:(lia)) as Hcap.
  assert (in_u 64 fp) as Hfp by (apply parse_ok_inv in Hp as [_ ->]; apply fingerprint_range).
  destruct (publish_answered c Hc b i ls bw w corr name json key (i64 cap0) s fp qf rf Ha Hb Hids Hcap Hfree Hp Harena
    Eq Hqf Er Hrf) as (i' & w1 & ptr & E & Hturn & Hg & Hhas & Hatt & Hptr & Hrest & _).
  fold id cap arena in E, Hturn, Hg, Hhas, Hatt. set (ring := mapped_arena arena ptr cap) in *.
  set (b' := published _ _ _ _) in Hturn.
  do 3 eexists. exists b', ptr. split; [|split_and!; [exact Hrest | exact Hturn | reflexivity..|]].
  { unfold publish_channel_with_arena. erewrite cbind_io_ok by (unfold cret; by rewrite Hp). cbv beta iota zeta.
    erewrite cbind_io_ok by (apply with_reconnect_ok; exact E). cbv beta iota.
    do 2 (erewrite cbind_done by reflexivity). reflexivity. }
  intros j ls2 bw2 w2 corr2 key2 qf2 rf2 Ha2 Em Hp1 Hp2 Hopen Eq2 Hqf2 Er2 Hrf2.
  destruct (subscribe_over_the_bus c b' j ls2 bw2 w2 corr2 id json key2 s (MkChannelMeta id name (t_client_id (i_transport i)) fp
      (access_key_hash (key_or_empty key)) arena) ptr cap qf2 rf2) as (answer & j1 & w3 & E3 & Em3 & Hno & Hyes); try done.
  - by apply lookup_insert_eq.
  - apply access_key_hash_wf.
  - apply (has_nul_seg_id (SegChannel id)).
  - by apply arena_size, requested_cap.
  - destruct Hatt as (bs & Hbs & Hx). exists bs. split; [|exact Hx]. etrans; [exact Em | exact Hbs].
  - exists answer, j1, w3. split_and!; [exact E3 | exact Hno |]. intros Hk. destruct (Hyes Hk) as (cell & -> & Hcell).
    eexists. split; [reflexivity|]. apply (shared_delivers s fp _ j1 w3 ring); try done.
    + simpl. by rewrite lookup_app_r, Nat.sub_diag by lia.
    + eapply ring_has_mem; [exact Hhas|]. etrans; [exact Em3 | exact Em].
Qed.

(** ** Two clients on a bus *)

(** Client 1 publishes, client 2 reads; block 14 is the reply ring of client 2. *)
Definition reader_seg : Segment := MkSegment "/impulse-ring.cli.6.v1" 14 512 false.
Definition reader_ring : Ring := MkRing reader_seg 0 256 255.
Definition two_clients : Broker :=
  let b := set_replies (<[2 := reader_ring]> (b_reply_rings demo_client)) (<[2 := reader_seg]> (b_reply_segs demo_client))
             (b_reply_names demo_client ++ ["/impulse-ring.cli.6.v1"])
             (set_reg (fst (add_client "reader" 78 (b_reg demo_client))) demo_client) in
  MkBroker demo_sub_seg demo_sub_ring (b_reg b) (b_reply_rings b) (b_reply_segs b) (b_arenas b) (b_reply_names b).
Definition reader_inner : Inner :=
  start_inner "reader" 1 (MkTransport demo_sub_ring reader_ring "/impulse-ring.cli.6.v1" 6 2 1000 demo_sub_seg reader_seg).

Definition two_mem : gmap Z (list byte) := <[14 := formatted reader_ring (replicate 512 Byte.x00)]> demo_conn_mem.
Definition news_cap : Z := clamp_arena_cap 0.

(** A client's system: it maps what is new in its memory; or the block it is told. *)
Definition client_sys (mmap : Z -> Z -> gmap Z (list byte) -> Z * Z * gmap Z (list byte)) : sys :=
  Sys (fun _ _ _ => (4, 0)) (fun _ _ => (0, 0)) (fun _ _ => (0, 0)) (fun _ => (0, 0, ring_bytes news_cap))
    mmap (fun _ => (0, 0)) (fun _ => Ok []) (fun _ _ => (0, 0)) 4243 (Some 1000)
    (fun n => Ok (le_bytes 8 (77 + Z.of_nat n))) (fun _ => "error").
Definition map_new (size fd : Z) (m : gmap Z (list byte)) : Z * Z * gmap Z (list byte) :=
  match elements (dom m ∖ dom two_mem) with [p] => (p, 0, m) | _ => (-1, 12, m) end.

Definition two_tick (b : Broker) : tick := broker_tick b 0 (demo_world []) 10.
Definition publish_world : world := World two_mem 0 (client_sys map_new) [two_tick two_clients] 0 [].
Definition subscribe_world (b : Broker) (m : gmap Z (list byte)) (ptr : Z) : world :=
  World m 0 (client_sys (fun _ _ m => (ptr, 0, m))) [two_tick b] 0 [].

Definition news_request : Frame :=
  frame_of (to_frame KPublishChannel (MkPublishChannel 77 1 "news" toy_long "k" 0)).
Definition news_reply : Frame :=
  frame_of (to_frame KPublishReply (MkPublishReply 77 1 (fp_to_i64 toy_fp) (channel_arena 1) STATUS_OK "")).
Definition reader_request : Frame := frame_of (to_frame KSubscribe (MkSubscribe 77 2 1 "k" (fp_to_i64 toy_fp))).
Definition reader_reply : Frame :=
  frame_of (to_frame KSubscribeReply (MkSubscribeReply 77 (channel_arena 1) (fp_to_i64 toy_fp) STATUS_OK "")).

Lemma news_frames :
  to_frame KPublishChannel (MkPublishChannel 77 1 "news" toy_long "k" 0) = Done (Ok news_request) /\
  sends demo_sub_ring news_request = true /\
  to_frame KPublishReply (MkPublishReply 77 1 (fp_to_i64 toy_fp) (channel_arena 1) STATUS_OK "") = Done (Ok news_reply) /\
  sends demo_client_ring news_reply = true.
Proof. split_and!; vm_compute; reflexivity. Qed.

Lemma reader_frames :
  to_frame KSubscribe (MkSubscribe 77 2 1 "k" (fp_to_i64 toy_fp)) = Done (Ok reader_request) /\
  sends demo_sub_ring reader_request = true /\
  to_frame KSubscribeReply (MkSubscribeReply 77 (channel_arena 1) (fp_to_i64 toy_fp) STATUS_OK "") = Done (Ok reader_reply) /\
  sends reader_ring reader_reply = true.
Proof. split_and!; vm_compute; reflexivity. Qed.

Lemma toy_channel_codecs : channel_codecs toy_catalog.
Proof.
  constructor; [exact bus_codecs_toy | | |].
  - intros k fp s Ef Es.
    assert (forallb (fun k => match c_fp toy_catalog k, c_schema toy_catalog k with
        | Done fp, Done s => bool_decide (writer_schema toy_catalog fp = Some s)
        | _, _ => false end) ALL_KINDS = true) as Hall by (vm_compute; reflexivity).
    rewrite forallb_forall in Hall. specialize (Hall k (proj1 (list_elem_of_In _ _) (ALL_KINDS_complete k))).
    rewrite Ef, Es in Hall. by apply bool_decide_eq_true_1 in Hall.
  - intros s _. apply toy_codec. intros m v. destruct m; simpl. by intros [= <-].
  - intros s _. apply toy_codec. intros m v. destruct m; simpl. by intros [= <-].
Qed.

Lemma two_clients_inv : broker_inv two_clients.
Proof.
  destruct (register_inv demo_client demo_client_inv ltac:(by split_and!) reader_ring reader_seg "reader" 78
    "/impulse-ring.cli.6.v1" eq_refl eq_refl). by constructor.
Qed.

Lemma reader_geom : ring_geom reader_ring.
Proof. constructor; [exists 8; split; [lia | reflexivity] | reflexivity | vm_compute; discriminate]. Qed.

Lemma two_sub : ring_has demo_sub_ring publish_world [].
Proof. eapply ring_has_mem; [exact demo_conn_sub | reflexivity]. Qed.

Lemma two_client : ring_has demo_client_ring publish_world [].
Proof. eapply ring_has_mem; [exact demo_bus_ring | reflexivity]. Qed.

Lemma two_reader : ring_has reader_ring publish_world [].
Proof.
  assert (fits reader_ring (replicate 512 Byte.x00)) as Hf by (vm_compute; discriminate).
  exists (formatted reader_ring (replicate 512 Byte.x00)). split; [apply lookup_insert_eq|].
  split; [apply formatted_holds; [apply reader_geom | exact Hf]|].
  apply (formatted_fields _ reader_geom _ Hf).
Qed.

Lemma publisher_asks : asks bus_inner two_clients 0 (demo_world []) publish_world 77.
Proof.
  constructor; [|by eexists | by do 2 eexists | vm_compute; reflexivity].
  constructor; [exact demo_pending_wf | by split_and! | | | done | split; [exact two_sub | exact two_client]].
  - exists demo_client_ring. by split; [reflexivity | split_and!].
  - split; [exact demo_sub_geom | exact demo_client_geom].
Qed.

Lemma reader_asks b m ptr :
  b_submission b = demo_sub_ring -> b_reply_rings b !! 2 = Some reader_ring ->
  ring_has demo_sub_ring (set_mem m publish_world) [] -> ring_has reader_ring (set_mem m publish_world) [] ->
  asks reader_inner b 0 (demo_world []) (subscribe_world b m ptr) 77.
Proof.
  intros Es Er Hs Hr. constructor; [|by eexists | by do 2 eexists | vm_compute; reflexivity].
  constructor; [exact demo_pending_wf | by rewrite Es | | | done | split; [exact Hs | exact Hr]].
  - exists reader_ring. by split; [|split_and!].
  - split; [exact demo_sub_geom | exact reader_geom].
Qed.

Lemma news_arena name : arena_to_be_had demo_sys (client_sys map_new) two_mem name news_cap.
Proof.
  split; [by apply demo_creates|]. intros m1 _. generalize (lands demo_sys name (ring_bytes news_cap) m1).
  intros ptr p Hptr. unfold p in *. clear p.
  split_and!; [done | done | reflexivity |]. intros m Hm. exists 0. unfold client_sys, map_new, sys_mmap.
  replace (dom m ∖ dom two_mem) with ({[ptr]} : gset Z); [by rewrite elements_singleton|].
  apply not_elem_of_dom in Hptr. rewrite Hm. set_solver.
Qed.

Lemma news_answer b :
  channels (b_reg b) = <[1 := MkChannelMeta 1 "news" 1 toy_fp (access_key_hash "k") (channel_arena 1)]> ∅ ->
  subscribe_answer b 77 1 "k" toy_fp = MkSubscribeReply 77 (channel_arena 1) (fp_to_i64 toy_fp) STATUS_OK "".
Proof. intros E. unfold subscribe_answer, resolve_subscribe. rewrite E. vm_compute. reflexivity. Qed.

Lemma channel_over_the_bus_witness :
  exists p i1 w1 su j1 w2 w3 w4 w5,
    publish_channel_with_arena dispatch_turn "news" toy_long (Some "k") 0 bus_inner publish_world = Done ((Ok p, i1), w1) /\
    w_mem w2 = w_mem w1 /\
    subscribe dispatch_turn 1 (Some "k") toy_long reader_inner w2 = Done ((Ok su, j1), w3) /\
    publish_all p [41; 42] i1 w3 = Done ((Ok tt, i1), w4) /\
    recv_all su 5 2 j1 w4 = Done ((Ok [41; 42], j1), w5).
Proof.
  destruct news_frames as (F1 & F2 & F3 & F4). destruct reader_frames as (G1 & G2 & G3 & G4).
  destruct (channel_over_the_bus toy_catalog two_clients bus_inner 0 (demo_world []) publish_world 77 "news" toy_long
    (Some "k") 0 toy_long toy_fp news_request news_reply toy_channel_codecs two_clients_inv ltac:(by split_and!)
    eq_refl (proj1 call_values) publisher_asks (news_arena _) F1 (sends_ok _ _ F2) F3 (sends_ok _ _ F4))
    as (p & i1 & w1 & b' & ptr & E1 & (Hnew & Hsub & _ & Hrest) & _ & Hch & Es & Er & Hsubscribe).
  assert (w_mem w1 !! 14 = two_mem !! 14) as E14 by (apply Hrest; [intros <-; discriminate Hnew | done..]).
  set (w2 := subscribe_world b' (w_mem w1) ptr).
  destruct (Hsubscribe reader_inner 0 (demo_world []) w2 77 (Some "k") reader_request reader_reply)
    as (answer & j1 & w3 & E3 & _ & Hyes).
  - apply reader_asks; [done | by rewrite Er | exact Hsub |]. eapply ring_has_mem; [exact two_reader | exact E14].
  - reflexivity.
  - intros ->. discriminate Hnew.
  - intros ->. discriminate Hnew.
  - split_and!; [done | done | reflexivity |]. intros m _. by exists 0.
  - exact G1.
  - exact (sends_ok _ _ G2).
  - exact (eq_trans (f_equal (to_frame KSubscribeReply) (news_answer b' Hch)) G3).
  - exact (sends_ok _ _ G4).
  - destruct Hyes as (su & -> & Hd); [vm_compute; reflexivity|].
    destruct (Hd Z _ [41; 42] [demo_body 41; demo_body 42] 5 (toy_Z_codec _)) as (w4 & w5 & E4 & E5).
    + repeat constructor; vm_compute; reflexivity.
    + repeat constructor; vm_compute; discriminate || reflexivity.
    + vm_compute. discriminate.
    + exists p, i1, w1, su, j1, w2, w3, w4, w5. by split_and!.
Defined.
