(* ===== verification/BusFunction.v ===== *)
(** * A function from its service to a caller, over the bus

    [expose_function] of the connector, with the broker's turn while it waits, and then a
    [call_blocking] by a client that has never heard of the function: the broker's turn
    answers its lookup, and the service's turn its request. *)

From S2P Require Import Prelude Machine Shm Circ Ring RingMem RingSpec RingThm Demo Frame Control Util Avro Proto Toy ProtoProps Registry RegistryThm RegistryProps Broker BrokerThm BrokerOps BrokerProps BrokerFlow Client ClientThm ClientProps Bus BusArena BusProps RpcThm Rpc Connection ConnectionProps RpcProps RpcBus BusChannel.

Record function_codecs `{ProtoSerde} (c : Catalog) : Prop := {
  fc_bus : bus_codecs c;
  fc_writer : forall k fp s, c_fp c k = Done fp -> c_schema c k = Done s -> writer_schema c fp = Some s;
  fc_expose s : c_schema c KExposeFunction = Done s -> codec_ok ExposeFunction s;
  fc_request s : c_schema c KRpcRequest = Done s -> codec_ok RpcRequest s;
}.

Lemma function_rpc_codecs `{ProtoSerde} c : function_codecs c -> rpc_codecs c.
Proof. intros [[Hc Hr Hfp _ _] _ _ Hq]. constructor; [done | done | done | apply (rc_rpc c Hr)]. Qed.

(** ** Exposing *)

Section function.
Context `{ProtoSerde} `{!Sha256} (c : Catalog).
Hypothesis Hc : function_codecs c.

Lemma expose_answered (b : Broker) (i : Inner) (ls : Z) (bw w : world) (corr : Z) (name qj pj : string)
    (key : option string) (acap : Z) (sq sp : Schema) (qfp pfp : Z) (qf rf : Frame) :
  let id := next_fn (b_reg b) in
  let cap := clamp_arena_cap (Z.max acap 0) in
  let sub := t_submission (i_transport i) in
  let rep := t_reply_ring (i_transport i) in
  let m := MkExposeFunction corr (t_client_id (i_transport i)) name qj pj (key_or_empty key) acap in
  asks i b ls bw w corr -> broker_inv b -> ids_left (b_reg b) -> in_i 64 acap ->
  fn_by_name (b_reg b) !! name = None -> parse qj = Ok (sq, qfp) -> parse pj = Ok (sp, pfp) ->
  arena_to_be_had (w_sys bw) (w_sys w) (w_mem w) (function_arena id) cap ->
  to_frame KExposeFunction m = Done (Ok qf) -> sendable sub qf ->
  to_frame KExposeReply (MkExposeReply corr id (fp_to_i64 qfp) (fp_to_i64 pfp) (function_arena id) STATUS_OK "") =
    Done (Ok rf) -> sendable rep rf ->
  exists i' w' ptr, let ring := mapped_arena (function_arena id) ptr cap in
    let b' := exposed m qfp pfp (MkSegment (function_arena id) ptr (ring_bytes cap) true) b in
    do_expose dispatch_turn name qj pj key acap i w = Done ((Ok (ring, qfp, pfp), i'), w') /\
    (exists m0 v, turn b ls (set_mem m0 bw) = Done ((b', ls), v)) /\
    ring_geom ring /\ ring_has ring w' [] /\ attachable ring (w_mem w') /\ ptr <> MAP_FAILED /\
    at_rest i w w' ptr /\ carried i w i' w' /\
    exists m1, dom m1 = dom (w_mem w) /\ lands (w_sys bw) (function_arena id) (ring_bytes cap) m1 = ptr.
Proof using Hc.
  intros id cap sub rep m Ha Hb Hids Hcap Hfree Pq Pp Harena Eq Hqf Er Hrf.
  pose proof Hc as [[Hcat Hcod Hfp _ _] Hw Hexp _]. set (ans := MkExposeReply _ _ _ _ _ _ _) in Er.
  destruct (reply_is_routed c (RExpose ans) rf Hcat Hcod Hfp Er) as [Hwf Hcorr]; [by destruct Hrf as [[] _]|].
  destruct (to_frame_inv c _ _ _ Hcat Eq) as (s0 & fp0 & _ & Efp & _ & Eqf & _).
  destruct (arena_answered (function_arena id) cap KExposeFunction (fun corr i => MkExposeFunction corr
      (t_client_id (i_transport i)) name qj pj (key_or_empty key) acap) KExposeReply ans b
      (fun seg => exposed m qfp pfp seg b) i ls bw w corr qf rf Ha (has_nul_seg_id (SegFunction id))
      (arena_size _ (proj2 (requested_cap _ Hcap))) Harena Eq Hqf) as (i' & w1 & w' & ptr & E & Ea & Hrest);
    [|exact Hwf | exact Hcorr | exact (from_frame_to_frame c _ _ _ Hcat (rc_expose c Hcod) Er)|].
  - apply (arena_served _ _ _ _ _ w); [apply Ha|]. intros ring v Hring Hsh Hg Hhas [Hsys _].
    destruct Harena as (Hgr & _).
    destruct (on_expose_done b v qf m sq sp qfp pfp ring [] rf) as (ptr & w1 & w' & evs & E & Hrest); try done;
      rewrite ?Hsys; try done.
    + exact (from_frame_compat_to_frame c KExposeFunction m qf Hcat Hexp (Hw _) Eq).
    + rewrite (proj1 (proj2 (proj2 Hsh))). apply Hrf.
    + exists ptr, w1, w', evs. split; [|exact Hrest].
      unfold handle. rewrite (decode_encode _ (proj1 Hqf)). erewrite bind_done by (unfold lift; by rewrite Hcat).
      by rewrite Eqf, (proj1 (Hfp _ _ Efp)).
  - exists i', w', ptr. split; [|exact Hrest]. unfold do_expose. erewrite cbind_io_ok by exact E.
    cbn [ans expose_reply_status expose_reply_req_arena expose_reply_req_fp expose_reply_resp_fp negb Z.eqb STATUS_OK].
    erewrite cbind_io_ok by (apply clift_done; exact Ea).
    rewrite !fp_back; [done | apply parse_ok_inv in Pp as [_ ->] | apply parse_ok_inv in Pq as [_ ->]]; apply fingerprint_range.
Qed.

(** ** Looking it up *)

(** The client [j] is about to call a function it does not know: while it waits, the broker
    has its turn and then [service] happens. *)
Record calls (j : Inner) (b : Broker) (ls : Z) (bw w : world) (corr corr' : Z) (service : tick) : Prop := {
  cl_connected : connected j b w;
  cl_corr : exists w0 w1, next_corr w = Done (corr, w0) /\ next_corr w0 = Done (corr', w1);
  cl_turns : exists t ts, w_ticks w = broker_tick b ls bw t :: service :: ts;
  cl_quiet : Z.max 0 (w_now bw - ls) < SWEEP_INTERVAL;
}.

Lemma callee_resolved (b : Broker) (j : Inner) (ls : Z) (bw w : world) (corr corr' : Z) (service : tick) (name : string)
    (key : option string) (fid qfp pfp : Z) (arena : string) (ptr cap : Z) (qf rf : Frame) :
  let sub := t_submission (i_transport j) in
  let rep := t_reply_ring (i_transport j) in
  let ring := mapped_arena arena ptr cap in
  calls j b ls bw w corr corr' service -> i_callees j !! (name, key_or_empty key) = None ->
  resolve_lookup (b_reg b) name (key_or_empty key) = Ok (fid, qfp, pfp, arena) -> in_u 64 qfp -> in_u 64 pfp ->
  has_nul arena = false -> 0 < ring_bytes cap < 2 ^ 64 -> ptr <> MAP_FAILED -> ring_geom ring -> attachable ring (w_mem w) ->
  ptr <> r_ptr sub -> ptr <> r_ptr rep ->
  opens_at (w_sys w) arena (ring_bytes cap) ptr (fun m => is_Some (m !! ptr)) ->
  to_frame KLookupFunction (MkLookupFunction corr (t_client_id (i_transport j)) name (key_or_empty key)) =
    Done (Ok qf) -> sendable sub qf ->
  to_frame KLookupReply (lookup_answer b corr name (key_or_empty key)) = Done (Ok rf) -> sendable rep rf ->
  exists j' w', callee dispatch_turn name key j w = Done ((Ok (MkCallee qfp pfp ring), j'), w') /\
    i_callees j' !! (name, key_or_empty key) = Some (MkCallee qfp pfp ring) /\ i_transport j' = i_transport j /\
    ring_has rep w' [] /\ w_mem w' !! ptr = w_mem w !! ptr /\
    (exists w1, next_corr w' = Done (corr', w1)) /\ exists ts, w_ticks w' = service :: ts.
Proof using Hc.
  intros sub rep ring [Hcn (w0 & w1 & E0 & E1) (t & ts & Et) Hq] Hnone Hres Hq64 Hp64 Hnul Hsz Hptr Hg Hatt Hp1 Hp2 Hopen
    Eq Hqf Er Hrf.
  destruct (lookup_answered c j b ls t bw w w0 (service :: ts) corr name key qf rf (fc_bus c Hc) Hcn E0 Et Hq Eq Hqf Er Hrf)
    as (j1 & w2 & E & (Hrep & _ & Htr) & Hconf & _ & Hsys & Htk & Hrng & Hm).
  rewrite Hres in E. specialize (Hm ptr Hp1 Hp2).
  destruct (attach_shared arena (ring_bytes cap) ptr cap (fun m => is_Some (m !! ptr)) w2 Hnul Hsz Hptr)
    as (w3 & Ea & Em & En & Es & Ek & Eg); [by rewrite Hsys | | exact Hg | |].
  { destruct Hatt as (bs & Hbs & _). exists bs. by rewrite Hm. }
  { destruct Hatt as (bs & Hbs & Hx). exists bs. split; [|exact Hx]. etrans; [exact Hm | exact Hbs]. }
  set (cal := MkCallee qfp pfp ring).
  exists (set_callees (<[(name, key_or_empty key) := cal]> (i_callees j1)) j1), w3. split; [|split_and!].
  - unfold callee. erewrite cbind_done by reflexivity. rewrite Hnone. erewrite cbind_io_ok by exact E.
    cbn [found lkp_reply_req_arena lkp_reply_req_fp lkp_reply_resp_fp]. erewrite cbind_io_ok by (apply clift_done; exact Ea).
    rewrite !fp_back by done. fold cal.
    assert (forget_callee name key j1 w3 = Done ((tt, j1), w3)) as Ef.
    { unfold forget_callee. destruct Hconf as (Hcal & _). by rewrite Hcal, Hnone. }
    erewrite cbind_done by exact Ef. reflexivity.
  - apply lookup_insert_eq.
  - exact Htr.
  - eapply ring_has_mem; [exact Hrep | by rewrite Em].
  - rewrite Em. exact Hm.
  - apply (corr_at w0 _ w1 w3 E1); [|congruence].
    destruct (next_corr_same _ _ _ E0) as (_ & _ & Hs0). congruence.
  - exists ts. congruence.
Qed.
End function.

(** Once the function is resolved, the call goes on as one of a known function. *)
Lemma call_resolved `{ProtoSerde} {Req Resp} `{!Serde Req, !Serde Resp} others name key (x : Req) qj pj (sq sp : Schema)
    f timeout i w i1 w1 :
  parse qj = Ok (sq, cal_req_fp f) -> parse pj = Ok (sp, cal_resp_fp f) ->
  callee others name key i w = Done ((Ok f, i1), w1) -> i_callees i1 !! (name, key_or_empty key) = Some f ->
  call_attempt (Resp := Resp) others name key x qj pj timeout i w =
    call_attempt (Resp := Resp) others name key x qj pj timeout i1 w1.
Proof.
  intros Pq Pp E Hf.
  assert (call others name key x qj pj i w = call others name key x qj pj i1 w1) as Ecall.
  { assert (matching_callee others name key (cal_req_fp f) (cal_resp_fp f) i w = Done ((Ok f, i1), w1)) as Em.
    { unfold matching_callee. erewrite cbind_io_ok by exact E. by rewrite !Z.eqb_refl. }
    unfold call. do 2 (erewrite cbind_io_ok by (unfold cret; by rewrite Pq)).
    do 2 (erewrite cbind_io_ok by (unfold cret; by rewrite Pp)). cbv beta iota.
    erewrite cbind_io_ok by exact Em. symmetry.
    by erewrite cbind_io_ok by exact (matching_callee_known others name key f i1 w1 Hf). }
  unfold call_attempt, cbind_io, cbind, bind. by rewrite Ecall.
Qed.

Lemma call_refused `{ProtoSerde} {Req Resp} `{!Serde Req, !Serde Resp} others name key (x : Req) qj pj (sq sp : Schema)
    qfp pfp timeout i w e i1 w1 :
  parse qj = Ok (sq, qfp) -> parse pj = Ok (sp, pfp) -> err_kind e <> TimedOut -> broker_unreachable e = false ->
  callee others name key i w = Done ((Err e, i1), w1) ->
  call_blocking (Resp := Resp) others name key x qj pj timeout i w = Done ((Err e, i1), w1).
Proof.
  intros Pq Pp Hk Hu E.
  assert (matching_callee others name key qfp pfp i w = Done ((Err e, i1), w1)) as Em
    by (unfold matching_callee; by erewrite cbind_io_err by exact E).
  assert (call others name key x qj pj i w = Done ((Err e, i1), w1)) as Ec.
  { unfold call. erewrite cbind_io_ok by (unfold cret; by rewrite Pq). cbv beta iota.
    erewrite cbind_io_ok by (unfold cret; by rewrite Pp).
    cbv beta iota. by erewrite cbind_io_err by exact Em. }
  assert (call_attempt (Resp := Resp) others name key x qj pj timeout i w = Done ((Err e, i1), w1)) as Ea
    by (unfold call_attempt; by erewrite cbind_io_err by exact Ec).
  unfold call_blocking. apply with_reconnect_err; [done|]. erewrite cbind_done by exact Ea. cbv beta iota.
  by rewrite bool_decide_eq_false_2.
Qed.

Lemma own_function_resolves `{!Sha256} (r : Registry) id name f k :
  functions r !! id = Some f -> fn_by_name r !! name = Some id -> key_wf (fn_key f) ->
  (key_admits (fn_key f) k /\ resolve_lookup r name k = Ok (fn_id f, fn_req_fp f, fn_resp_fp f, fn_req_arena f)) \/
  (~ key_admits (fn_key f) k /\ resolve_lookup r name k = Err (ERR_DENIED, "invalid access key")).
Proof.
  intros Hf Hn Hk. unfold resolve_lookup, find_function_by_name. rewrite Hn. cbn. rewrite Hf.
  destruct (check_key_spec (fn_key f) k Hk) as [[-> ?]|[-> ?]]; [by left | by right].
Qed.

(** The call of a client that has never heard of the function [f] of the broker [b]; the
    service reads [ring] and answers as [serve] does. *)
Lemma call_by_name `{ProtoSerde} `{!Sha256} {Req Resp} `{!Serde Req, !Serde Resp} (c : Catalog) (b : Broker) (j : Inner)
    (ls : Z) (bw w sw : world) (corr corr' id t ptr cap : Z) (f : FunctionMeta) (cache : gmap string Ring) (name qj pj : string)
    (key : option string) (qf rf : Frame) (sq sp : Schema) (handler : Req -> outcome Resp) (x : Req) (timeout : Z) :
  let sub := t_submission (i_transport j) in
  let rep := t_reply_ring (i_transport j) in
  let ring := mapped_arena (fn_req_arena f) ptr cap in
  let serve := fun r => handle_one r sq sp (fingerprint sq) (fingerprint sp) handler in
  function_codecs c -> codec_ok Req sq -> codec_ok Resp sp ->
  parse qj = Ok (sq, fingerprint sq) -> parse pj = Ok (sp, fingerprint sp) ->
  calls j b ls bw w corr corr' (service_tick ring serve cache sw t) -> i_callees j !! (name, key_or_empty key) = None ->
  functions (b_reg b) !! id = Some f -> fn_by_name (b_reg b) !! name = Some id -> key_wf (fn_key f) ->
  fn_req_fp f = fingerprint sq -> fn_resp_fp f = fingerprint sp ->
  has_nul (fn_req_arena f) = false -> 0 < ring_bytes cap < 2 ^ 64 -> ptr <> MAP_FAILED ->
  ring_geom ring -> ring_has ring w [] -> attachable ring (w_mem w) -> ptr <> r_ptr sub -> ptr <> r_ptr rep ->
  opens_at (w_sys w) (fn_req_arena f) (ring_bytes cap) ptr (fun m => is_Some (m !! ptr)) ->
  to_frame KLookupFunction (MkLookupFunction corr (t_client_id (i_transport j)) name (key_or_empty key)) =
    Done (Ok qf) -> sendable sub qf ->
  to_frame KLookupReply (lookup_answer b corr name (key_or_empty key)) = Done (Ok rf) -> sendable rep rf ->
  (~ key_admits (fn_key f) (key_or_empty key) -> exists j' w',
     call_blocking (Resp := Resp) dispatch_turn name key x qj pj timeout j w =
       Done ((Err (io_other "lookup failed: invalid access key"), j'), w')) /\
  (key_admits (fn_key f) (key_or_empty key) ->
   forall y args result qf3 rf3,
     avro_encode sq x = Ok args -> handler x = Done y -> avro_encode sp y = Ok result -> 0 < timeout ->
     (exists r, cache !! t_reply_segment (i_transport j) = Some r /\ shares rep r) ->
     to_frame KRpcRequest (MkRpcRequest corr' (t_client_id (i_transport j)) (t_reply_segment (i_transport j))
       (fp_to_i64 (fingerprint sq)) args) = Done (Ok qf3) -> sendable_in cap qf3 ->
     to_frame KRpcResponse (MkRpcResponse corr' STATUS_OK "" (fp_to_i64 (fingerprint sp)) result) = Done (Ok rf3) ->
     sendable rep rf3 ->
     exists j' w', call_blocking dispatch_turn name key x qj pj timeout j w = Done ((Ok y, j'), w')).
Proof.
  intros sub rep ring serve Hc Hcq Hcp Pq Pp Hcl Hnone Hf Hn Hk Eqf Epf Hnul Hsz Hptr Hg Hhas Hatt Hp1 Hp2 Hopen Eq Hqf Er Hrf.
  pose proof (fingerprint_range sq) as Hqr. pose proof (fingerprint_range sp) as Hpr.
  destruct (own_function_resolves (b_reg b) id name f (key_or_empty key) Hf Hn Hk) as [[Had Hres]|[Had Hres]]; (split; [|]; intros Hk2; [|]); try done.
  - rewrite Eqf, Epf in Hres.
    destruct (callee_resolved c Hc b j ls bw w corr corr' _ name key (fn_id f) (fingerprint sq) (fingerprint sp)
      (fn_req_arena f) ptr cap qf rf Hcl Hnone Hres Hqr Hpr Hnul Hsz Hptr Hg Hatt Hp1 Hp2 Hopen Eq Hqf Er Hrf)
      as (j1 & w1 & E & Hcal & Htr & Hrep & Hm & (w2 & Ecorr) & (ts & Et)).
    intros y args result qf3 rf3 Ea Eh Ey Hto (r & Hr & Hsh) Eq3 Hqf3 Er3 Hrf3.
    destruct (call_attempt_served c name key x y qj pj sq sp args result handler timeout ring ring cache corr' qf3 rf3
      j1 w1 w2 sw t ts) as (j2 & w3 & E2 & _); rewrite ?Htr; try done.
    + by apply function_rpc_codecs.
    + constructor; rewrite ?Htr; try done.
      * by exists r.
      * split; [exact Hg | apply (cn_geom _ _ _ (cl_connected _ _ _ _ _ _ _ _ Hcl))].
      * split; [|exact Hrep]. by eapply ring_has_mem.
    + exists j2, w3. apply attempt_blocking. rewrite <- E2. by eapply (call_resolved _ _ _ _ _ _ sq sp (MkCallee _ _ ring)).
  - destruct Hcl as [Hcn (w0 & w1 & E0 & E1) (t1 & ts & Et) Hq].
    destruct (lookup_answered c j b ls t1 bw w w0 _ corr name key qf rf (fc_bus c Hc) Hcn E0 Et Hq Eq Hqf Er Hrf)
      as (j1 & w2 & E & _). rewrite Hres in E. exists j1, w2.
    apply (call_refused _ _ _ _ _ _ sq sp (fingerprint sq) (fingerprint sp)); try done.
    unfold callee. erewrite cbind_done by reflexivity. rewrite Hnone. by erewrite cbind_io_err by exact E.
Qed.

(** C5: A function from its service to a caller, from end to end. A client exposes a free
    function name through the broker and gets a service that reads the new request arena;
    the broker has entered the function under the next id, with both fingerprints and the
    key's hash. From then on a client that has never heard of the function and calls it
    by name is refused if its key is not the function's. With the right key the broker's
    turn resolves the name, the service's turn takes the request off the arena, and
    [call_blocking] returns the very value that the handler computes from the argument. *)
Theorem function_over_the_bus `{ProtoSerde} `{!Sha256} {Req Resp} `{!Serde Req, !Serde Resp} (c : Catalog) (b : Broker)
    (i : Inner) (ls : Z) (bw w : world) (corr : Z) (name qj pj : string) (key : option string) (cap0 : Z)
    (sq sp : Schema) (handler : Req -> outcome Resp) (workers : Z) (qf rf : Frame) :
  let id := next_fn (b_reg b) in
  let cap := clamp_arena_cap (Z.max (i64 cap0) 0) in
  let arena := function_arena id in
  let policy := access_key_hash (key_or_empty key) in
  function_codecs c -> codec_ok Req sq -> codec_ok Resp sp ->
  parse qj = Ok (sq, fingerprint sq) -> parse pj = Ok (sp, fingerprint sp) ->
  broker_inv b -> ids_left (b_reg b) -> fn_by_name (b_reg b) !! name = None ->
  asks i b ls bw w corr -> arena_to_be_had (w_sys bw) (w_sys w) (w_mem w) arena cap ->
  to_frame KExposeFunction
    (MkExposeFunction corr (t_client_id (i_transport i)) name qj pj (key_or_empty key) (i64 cap0)) = Done (Ok qf) ->
  sendable (t_submission (i_transport i)) qf ->
  to_frame KExposeReply (MkExposeReply corr id (fp_to_i64 (fingerprint sq)) (fp_to_i64 (fingerprint sp)) arena STATUS_OK "") =
    Done (Ok rf) -> sendable (t_reply_ring (i_transport i)) rf ->
  exists sv i1 w1 b' ptr, let ring := mapped_arena arena ptr cap in
    expose_function_with_arena dispatch_turn name qj pj key cap0 handler workers i w = Done ((Ok sv, i1), w1) /\
    i_cells i1 !! sv_ring sv = Some ring /\ at_rest i w w1 ptr /\
    (exists m v, turn b ls (set_mem m bw) = Done ((b', ls), v)) /\
    functions (b_reg b') = <[id := MkFunctionMeta id name (t_client_id (i_transport i)) (fingerprint sq) (fingerprint sp)
      policy arena]> (functions (b_reg b)) /\
    fn_by_name (b_reg b') = <[name := id]> (fn_by_name (b_reg b)) /\
    b_submission b' = b_submission b /\ b_reply_rings b' = b_reply_rings b /\
    forall j ls2 bw2 w2 corr2 corr3 cache sw t2 key2 qf2 rf2 timeout (x : Req),
      calls j b' ls2 bw2 w2 corr2 corr3 (service_tick ring (sv_serve sv) cache sw t2) ->
      i_callees j !! (name, key_or_empty key2) = None -> w_mem w2 !! ptr = w_mem w1 !! ptr ->
      ptr <> r_ptr (t_submission (i_transport j)) -> ptr <> r_ptr (t_reply_ring (i_transport j)) ->
      opens_at (w_sys w2) arena (ring_bytes cap) ptr (fun m => is_Some (m !! ptr)) ->
      to_frame KLookupFunction (MkLookupFunction corr2 (t_client_id (i_transport j)) name (key_or_empty key2)) =
        Done (Ok qf2) -> sendable (t_submission (i_transport j)) qf2 ->
      to_frame KLookupReply (lookup_answer b' corr2 name (key_or_empty key2)) = Done (Ok rf2) ->
      sendable (t_reply_ring (i_transport j)) rf2 ->
      (~ key_admits policy (key_or_empty key2) -> exists j' w',
         call_blocking (Resp := Resp) dispatch_turn name key2 x qj pj timeout j w2 =
           Done ((Err (io_other "lookup failed: invalid access key"), j'), w')) /\
      (key_admits policy (key_or_empty key2) ->
       forall y args result qf3 rf3,
         avro_encode sq x = Ok args -> handler x = Done y -> avro_encode sp y = Ok result -> 0 < timeout ->
         (exists r, cache !! t_reply_segment (i_transport j) = Some r /\ shares (t_reply_ring (i_transport j)) r) ->
         to_frame KRpcRequest (MkRpcRequest corr3 (t_client_id (i_transport j)) (t_reply_segment (i_transport j))
           (fp_to_i64 (fingerprint sq)) args) = Done (Ok qf3) -> sendable_in cap qf3 ->
         to_frame KRpcResponse (MkRpcResponse corr3 STATUS_OK "" (fp_to_i64 (fingerprint sp)) result) = Done (Ok rf3) ->
         sendable (t_reply_ring (i_transport j)) rf3 ->
         exists j' w', call_blocking dispatch_turn name key2 x qj pj timeout j w2 = Done ((Ok y, j'), w')).
Proof.
  intros id cap arena policy Hc Hcq Hcp Pq Pp Hb Hids Hfree Ha Harena Eq Hqf Er Hrf.
  pose proof (wrap_i_range 64 cap0 ltac:(lia)) as Hcap.
  destruct (expose_answered c Hc b i ls bw w corr name qj pj key (i64 cap0) sq sp _ _ qf rf Ha Hb Hids Hcap Hfree Pq Pp Harena
    Eq Hqf Er Hrf) as (i' & w1 & ptr & E & Hturn & Hg & Hhas & Hatt & Hptr & Hrest & _).
  fold id cap arena in E, Hturn, Hg, Hhas, Hatt. set (ring := mapped_arena arena ptr cap) in *.
  set (b' := exposed _ _ _ _ _) in Hturn.
  do 3 eexists. exists b', ptr. split; [|split; [|split_and!; [exact Hrest | exact Hturn | reflexivity..|]]].
  { unfold expose_function_with_arena. erewrite cbind_io_ok by (unfold cret; by rewrite Pq). cbv beta iota.
    erewrite cbind_io_ok by (unfold cret; by rewrite Pp). cbv beta iota zeta.
    erewrite cbind_io_ok by (apply with_reconnect_ok; exact E). cbv beta iota.
    do 2 (erewrite cbind_done by reflexivity). reflexivity. }
  { simpl. by rewrite lookup_app_r, Nat.sub_diag by lia. }
  intros j ls2 bw2 w2 corr2 corr3 cache sw t2 key2 qf2 rf2 timeout x Hcl Hnone Em Hp1 Hp2 Hopen Eq2 Hqf2 Er2 Hrf2.
  apply (call_by_name c b' j ls2 bw2 w2 sw corr2 corr3 id t2 ptr cap (MkFunctionMeta id name (t_client_id (i_transport i))
    (fingerprint sq) (fingerprint sp) policy arena) cache name qj pj key2 qf2 rf2 sq sp handler x timeout Hc Hcq Hcp Pq Pp
    Hcl Hnone); try done.
  - apply lookup_insert_eq.
  - apply lookup_insert_eq.
  - apply access_key_hash_wf.
  - apply (has_nul_seg_id (SegFunction id)).
  - by apply arena_size, requested_cap.
  - eapply ring_has_mem; [exact Hhas | exact Em].
  - destruct Hatt as (bs & Hbs & Hx). exists bs. split; [|exact Hx]. etrans; [exact Em | exact Hbs].
Qed.

(** ** A service and a caller on a bus *)

(** Client 1 of [two_clients] exposes "add", and client 2 calls it. *)
Definition add_request : Frame :=
  frame_of (to_frame KExposeFunction (MkExposeFunction 77 1 "add" toy_long toy_long "k" 0)).
Definition add_reply : Frame :=
  frame_of (to_frame KExposeReply (MkExposeReply 77 1 (fp_to_i64 toy_fp) (fp_to_i64 toy_fp) (function_arena 1) STATUS_OK "")).
Definition add_lookup : Frame := frame_of (to_frame KLookupFunction (MkLookupFunction 77 2 "add" "k")).
Definition add_found : Frame := frame_of (to_frame KLookupReply (found 77 1 toy_fp toy_fp (function_arena 1))).
Definition add_call : Frame :=
  frame_of (to_frame KRpcRequest (MkRpcRequest 78 2 "/impulse-ring.cli.6.v1" (fp_to_i64 toy_fp) demo_args)).
Definition add_result : Frame :=
  frame_of (to_frame KRpcResponse (MkRpcResponse 78 STATUS_OK "" (fp_to_i64 toy_fp) demo_result)).

Definition add_cache : gmap string Ring := {["/impulse-ring.cli.6.v1" := reader_ring]}.
Definition add_world (b : Broker) (m : gmap Z (list byte)) (ptr : Z) (serve : Serve) : world :=
  World m 0 (client_sys (fun _ _ m => (ptr, 0, m)))
    [two_tick b; service_tick (mapped_arena (function_arena 1) ptr news_cap) serve add_cache (demo_world []) 20] 0 [].

Lemma add_exposed :
  to_frame KExposeFunction (MkExposeFunction 77 1 "add" toy_long toy_long "k" 0) = Done (Ok add_request) /\
  sends demo_sub_ring add_request = true /\
  to_frame KExposeReply (MkExposeReply 77 1 (fp_to_i64 toy_fp) (fp_to_i64 toy_fp) (function_arena 1) STATUS_OK "") =
    Done (Ok add_reply) /\
  sends demo_client_ring add_reply = true.
Proof. split_and!; vm_compute; reflexivity. Qed.

Lemma add_looked_up :
  to_frame KLookupFunction (MkLookupFunction 77 2 "add" "k") = Done (Ok add_lookup) /\
  sends demo_sub_ring add_lookup = true /\
  to_frame KLookupReply (found 77 1 toy_fp toy_fp (function_arena 1)) = Done (Ok add_found) /\
  sends reader_ring add_found = true.
Proof. split_and!; vm_compute; reflexivity. Qed.

Lemma add_called :
  to_frame KRpcRequest (MkRpcRequest 78 2 "/impulse-ring.cli.6.v1" (fp_to_i64 toy_fp) demo_args) = Done (Ok add_call) /\
  sends (mapped_arena "" 0 news_cap) add_call = true /\
  to_frame KRpcResponse (MkRpcResponse 78 STATUS_OK "" (fp_to_i64 toy_fp) demo_result) = Done (Ok add_result) /\
  sends reader_ring add_result = true.
Proof. split_and!; vm_compute; reflexivity. Qed.

Lemma toy_function_codecs : function_codecs toy_catalog.
Proof.
  constructor; [exact bus_codecs_toy | exact (cc_writer _ toy_channel_codecs) | | exact (proj1 toy_rpc_codecs)].
  intros s _. apply toy_codec. intros m v. destruct m; simpl. by intros [= <-].
Qed.

Lemma add_answer b :
  functions (b_reg b) = <[1 := MkFunctionMeta 1 "add" 1 toy_fp toy_fp (access_key_hash "k") (function_arena 1)]> ∅ ->
  fn_by_name (b_reg b) = <["add" := 1]> ∅ ->
  lookup_answer b 77 "add" "k" = found 77 1 toy_fp toy_fp (function_arena 1).
Proof.
  intros E1 E2. unfold lookup_answer, resolve_lookup, find_function_by_name. rewrite E1, E2. vm_compute. reflexivity.
Qed.

Lemma add_ticks b m ptr serve :
  w_ticks (add_world b m ptr serve) = two_tick b ::
    service_tick (mapped_arena (function_arena (next_fn (b_reg two_clients))) ptr (clamp_arena_cap (Z.max (i64 0) 0)))
      serve add_cache (demo_world []) 20 :: [].
Proof. reflexivity. Qed.

Lemma function_over_the_bus_witness :
  exists sv i1 w1 w2 j1 w3,
    expose_function_with_arena dispatch_turn "add" toy_long toy_long (Some "k") 0 demo_handler 4 bus_inner publish_world =
      Done ((Ok sv, i1), w1) /\
    w_mem w2 = w_mem w1 /\
    call_blocking dispatch_turn "add" (Some "k") 41 toy_long toy_long 5 reader_inner w2 = Done ((Ok 42, j1), w3).
Proof.
  destruct add_exposed as (F1 & F2 & F3 & F4). destruct add_looked_up as (G1 & G2 & G3 & G4).
  destruct add_called as (C1 & C2 & C3 & C4). destruct call_values as (V1 & V2 & V3).
  destruct (function_over_the_bus toy_catalog two_clients bus_inner 0 (demo_world []) publish_world 77 "add" toy_long toy_long
    (Some "k") 0 toy_long toy_long demo_handler 4 add_request add_reply toy_function_codecs (toy_Z_codec _) (toy_Z_codec _)
    V1 V1 two_clients_inv ltac:(by split_and!) eq_refl publisher_asks (news_arena _) F1 (sends_ok _ _ F2) F3 (sends_ok _ _ F4))
    as (sv & i1 & w1 & b' & ptr & E1 & _ & (Hnew & Hsub & _ & Hrest) & _ & Hfn & Hname & Es & Er & Hcall).
  assert (w_mem w1 !! 14 = two_mem !! 14) as E14 by (apply Hrest; [intros <-; discriminate Hnew | done..]).
  set (w2 := add_world b' (w_mem w1) ptr (sv_serve sv)).
  destruct (Hcall reader_inner 0 (demo_world []) w2 77 78 add_cache (demo_world []) 20 (Some "k") add_lookup add_found 5 41)
    as [_ Hyes].
  - constructor; [|do 2 eexists; split; reflexivity | do 2 eexists; apply add_ticks | vm_compute; reflexivity].
    apply (connected_mem _ _ (subscribe_world b' (w_mem w1) ptr)); [reflexivity|].
    refine (as_connected _ _ 0 (demo_world []) _ 77 _). apply reader_asks; [done | by rewrite Er | exact Hsub |]. eapply ring_has_mem; [exact two_reader | exact E14].
  - reflexivity.
  - reflexivity.
  - intros ->. discriminate Hnew.
  - intros ->. discriminate Hnew.
  - split_and!; [done | done | reflexivity |]. intros m _. by exists 0.
  - exact G1.
  - exact (sends_ok _ _ G2).
  - exact (eq_trans (f_equal (to_frame KLookupReply) (add_answer b' Hfn Hname)) G3).
  - exact (sends_ok _ _ G4).
  - destruct (Hyes ltac:(vm_compute; reflexivity) 42 demo_args demo_result add_call add_result V2 eq_refl V3 eq_refl)
      as (j1 & w3 & E); [|exact C1 | exact (sends_ok _ _ C2) | exact C3 | exact (sends_ok _ _ C4) |].
    + exists reader_ring. split; [apply lookup_singleton_eq | by split_and!].
    + exists sv, i1, w1, w2, j1, w3. split; [exact E1|]. split; [reflexivity | exact E].
Defined.
