(* ===== verification/BusConnect.v ===== *)
(** * Joining the bus, and coming back to it

    [bootstrap] and registration of the connector against the broker: the client opens
    the control segment that the broker formatted, makes its reply ring, and registers;
    the broker opens that ring and answers on it. What comes out is the premise of the
    theorems about a connected client. *)

From S2P Require Import Prelude Machine Shm Circ Ring RingMem RingSpec RingThm Demo Frame Control Util Avro Proto Toy ProtoProps Registry RegistryThm Broker BrokerThm BrokerOps BrokerFlow BrokerStart Client ClientThm Rpc Connection Bus BusArena BusProps ConnectionProps BusChannel.

(** ** Bootstrap *)

(** The broker [b] in the memory of [w], as [start] and any number of turns leave it. *)
Record serving (b : Broker) (w : world) (pid epoch : Z) : Prop := {
  sv_inv : broker_inv b;
  sv_sub : b_submission b = submission_ring (b_control_seg b);
  sv_pid : in_i 32 pid;
  sv_ready : ctl_ready (b_control_seg b) w pid epoch;
  sv_len : 0 < seg_len (b_control_seg b) < 2 ^ 64;
  sv_ptr : seg_ptr (b_control_seg b) <> MAP_FAILED;
  sv_empty : ring_has (b_submission b) w [];
}.

Lemma ctl_ready_reframed seg w w' pid epoch :
  reframed (submission_ring seg) (w_mem w) (w_mem w') -> ctl_ready seg w pid epoch -> ctl_ready seg w' pid epoch.
Proof.
  intros (bs & bs' & Hbs & Hbs' & [Lf Of Mf Cf]) (b0 & Hb0 & Hl & [S1 S2 S3 S4] & Hf & Hm & Hc).
  assert (b0 = bs) as -> by (rewrite (Hbs : w_mem w !! seg_ptr seg = _) in Hb0; by injection Hb0).
  assert (forall o n, 0 <= o -> o + n <= 64 -> sub bs' o n = sub bs o n) as Hsub.
  { intros o n Ho Hn. apply Of. split; [done | left; done]. }
  exists bs'. split_and!; [done | congruence | | unfold fits in *; congruence | congruence..].
  constructor; rewrite Hsub by (vm_compute; discriminate); done.
Qed.

Lemma serving_kept b b' w w' pid epoch :
  serving b w pid epoch -> broker_inv b' -> b_control_seg b' = b_control_seg b -> b_submission b' = b_submission b ->
  reframed (b_submission b) (w_mem w) (w_mem w') -> ring_has (b_submission b) w' [] -> serving b' w' pid epoch.
Proof.
  intros [_ Es Hp Hr Hl Hptr _] Hb Ec Esub Hf Hq. constructor; rewrite ?Ec, ?Esub; try done.
  rewrite Es in Hf. by eapply ctl_ready_reframed.
Qed.

Lemma serving_mem b w w' pid epoch :
  w_mem w' !! seg_ptr (b_control_seg b) = w_mem w !! seg_ptr (b_control_seg b) -> serving b w pid epoch -> serving b w' pid epoch.
Proof.
  intros E [S1 S2 S3 (bs & Hbs & Hx) S5 S6 S7]. constructor; try done.
  - exists bs. split; [|exact Hx]. etrans; [exact E | exact Hbs].
  - eapply ring_has_mem; [exact S7|]. rewrite S2. exact E.
Qed.

(** The capacity of the reply ring for the one requested. *)
Definition reply_cap_of (requested : Z) : Z :=
  clamp_arena_cap (if requested =? 0 then REPLY_CAP else requested).

Definition control_mapping (b : Broker) : Segment :=
  MkSegment CONTROL_SEGMENT (seg_ptr (b_control_seg b)) (seg_len (b_control_seg b)) false.

(** The transport of a client that has not registered yet; its reply ring is at [ptr]. *)
Definition fresh_transport (b : Broker) (epoch nonce cap ptr : Z) : Transport :=
  let seg := MkSegment (client_segment nonce) ptr (ring_bytes cap) true in
  MkTransport (submission_ring (control_mapping b)) (arena_ring seg cap) (client_segment nonce) nonce 0 epoch
    (control_mapping b) seg.

(** The broker after the registration of [m]: it writes its replies to [ring]. *)
Definition registered (m : Register) (ring : Ring) (b : Broker) : Broker :=
  let (reg, id) := add_client (register_app_name m) (i32 (register_pid m)) (b_reg b) in
  set_replies (<[id := ring]> (b_reply_rings b)) (<[id := r_seg ring]> (b_reply_segs b))
    (b_reply_names b ++ [register_reply_segment m]) (set_reg reg b).

Lemma registered_inv m ring b :
  broker_inv b -> ids_left (b_reg b) -> owns_unlink (r_seg ring) = false -> broker_inv (registered m ring b).
Proof. intros Hb Hids Ho. by apply (register_inv b Hb Hids ring (r_seg ring)). Qed.

(** Where the client's system puts its reply segment. *)
Definition reply_block (w : world) (nonce cap0 : Z) : Z :=
  lands (w_sys w) (client_segment nonce) (ring_bytes (reply_cap_of cap0)) (w_mem w).

(** A client is about to join the bus of the broker [b] with the requested reply capacity
    [cap0]: it draws [nonce] and then [corr], its system opens the control segment and
    makes the reply segment, and the broker's can open it. The broker has its turn, as the
    process [bw] and without a sweep, while the client waits. *)
Record joins `{ProtoSerde} `{!Sha256} (b : Broker) (ls : Z) (bw w : world) (nonce corr cap0 : Z) (ts : list tick)
    : Prop := {
  jn_cap : in_u 64 cap0;
  jn_control : opens_at (w_sys w) CONTROL_SEGMENT (seg_len (b_control_seg b)) (seg_ptr (b_control_seg b))
    (fun m => m = w_mem w);
  jn_random : exists w0 w1, random_u64 w = Done (nonce, w0) /\ next_corr w0 = Done (corr, w1);
  jn_creates : shm_creates (w_sys w) (client_segment nonce) (ring_bytes (reply_cap_of cap0));
  jn_opens : let ptr := reply_block w nonce cap0 in w_mem w !! ptr = None ->
    opens_at (w_sys bw) (client_segment nonce) (ring_bytes (reply_cap_of cap0)) ptr (fun m => is_Some (m !! ptr));
  jn_turn : exists t, w_ticks w = broker_tick b ls bw t :: ts;
  jn_quiet : Z.max 0 (w_now bw - ls) < SWEEP_INTERVAL;
}.

Record register_codecs `{ProtoSerde} (c : Catalog) : Prop := {
  rg_bus : bus_codecs c;
  rg_writer : forall k fp s, c_fp c k = Done fp -> c_schema c k = Done s -> writer_schema c fp = Some s;
  rg_register s : c_schema c KRegister = Done s -> codec_ok Register s;
}.

Section connect.
Context `{ProtoSerde} `{!Sha256} (c : Catalog).
Hypothesis Hc : register_codecs c.

Lemma bootstrap_done (b : Broker) (w w0 : world) (pid epoch nonce cap0 : Z) :
  let cap := reply_cap_of cap0 in
  serving b w pid epoch -> in_u 64 cap0 ->
  opens_at (w_sys w) CONTROL_SEGMENT (seg_len (b_control_seg b)) (seg_ptr (b_control_seg b)) (fun m => m = w_mem w) ->
  random_u64 w = Done (nonce, w0) -> shm_creates (w_sys w) (client_segment nonce) (ring_bytes cap) ->
  exists w1 w', let t := fresh_transport b epoch nonce cap (reply_block w nonce cap0) in
    bootstrap cap0 w = Done (Ok t, w') /\ arena_made (t_reply_seg t) cap w1 w' /\
    w_mem w1 = w_mem w /\ w_sys w1 = w_sys w /\ w_ticks w1 = w_ticks w /\ w_rng w1 = w_rng w0.
Proof using.
  intros cap [_ _ Hpid Hready Hlen Hptr _] Hcap Hopen Er Hgr.
  destruct (open_shared CONTROL_SEGMENT _ _ _ w eq_refl Hlen Hptr Hopen eq_refl) as (w1 & E1 & M1 & N1 & S1 & T1 & R1).
  fold (control_mapping b) in E1.
  assert (ctl_ready (control_mapping b) w1 pid epoch) as Hready1.
  { destruct Hready as (bs & Hbs & Hx). exists bs. rewrite M1. by split. }
  destruct (ctl_ready_reads _ _ _ _ Hready1 Hpid (proj2 Hlen)) as (E2 & _ & E3).
  destruct (random_at _ _ _ _ Er S1 R1) as (w2 & E4 & M2 & S2 & T2 & R2).
  assert (in_u 64 (if cap0 =? 0 then REPLY_CAP else cap0)) as Hcap' by (by case_match).
  destruct (clamp_arena_cap_pow _ Hcap') as (k & Hk & Ek). fold (reply_cap_of cap0) cap in Ek.
  rewrite Ek, <- S1, <- S2 in Hgr.
  destruct (segment_made (client_segment nonce) k w2 (has_nul_seg_id (SegClient nonce)) ltac:(lia) Hgr)
    as (ptr & w3 & w4 & E5 & E6 & Ham).
  rewrite <- Ek in *.
  assert (reply_block w nonce cap0 = ptr) as ->.
  { etrans; [|exact (am_lands _ _ _ _ Ham)]. unfold reply_block. rewrite M2, S2, M1, S1. reflexivity. }
  exists w2, w4. split_and!; [|exact Ham|congruence..].
  unfold bootstrap. erewrite bind_done by exact E1. cbv beta iota.
  erewrite bind_done by exact E2. cbv beta iota. erewrite bind_done by exact E3.
  erewrite bind_done by exact E4. cbv zeta. fold (reply_cap_of cap0) cap.
  erewrite bind_done by exact E5. cbv beta iota. by erewrite bind_done by exact E6.
Qed.

(** The broker's turn on a registration: it maps the reply ring [rep] of the client. *)
Lemma register_served (b : Broker) (m : Register) (rep sub : Ring) (s : sys) (mem : gmap Z (list byte))
    (name : string) (ptr cap : Z) (P : gmap Z (list byte) -> Prop) (qf rf : Frame) :
  let id := next_client (b_reg b) in
  let ring := mapped_arena name ptr cap in
  shares ring rep -> ring_geom rep -> r_ptr sub <> ptr ->
  register_reply_segment m = name -> has_nul name = false -> 0 < ring_bytes cap < 2 ^ 64 -> ptr <> MAP_FAILED ->
  opens_at s name (ring_bytes cap) ptr P -> (forall m', dom m' = dom mem -> P m') ->
  attachable ring mem ->
  to_frame KRegister m = Done (Ok qf) -> frame_wf qf ->
  to_frame KRegisterReply (MkRegisterReply (register_correlation_id m) id STATUS_OK "") = Done (Ok rf) ->
  sendable rep rf ->
  turn_serving b rep qf rf (finds s sub mem) (fun b' v v' =>
    b' = registered m ring b /\ dom (w_mem v') = dom (w_mem v) /\
    forall p, p <> r_ptr rep -> w_mem v' !! p = w_mem v !! p).
Proof using Hc.
  intros id ring Hsh Hg Hne <- Hn Hsz Hptr Hop HP Hatt Eq Hqf Er [_ Hroom] v Hv (Hsys & Hdom & Hmem & _).
  destruct Hc as [[Hcat _ Hfp _ _] Hw Hreg].
  destruct (to_frame_inv c _ _ _ Hcat Eq) as (s0 & fp0 & _ & Efp & _ & Eqf & _).
  pose proof (shares_geom _ _ (shares_sym _ _ Hsh) Hg) as Hg1.
  destruct (opened_ring (register_reply_segment m) (ring_bytes cap) ptr cap P v Hn Hsz Hptr) as (v1 & Eo & Ea & Em & En & _);
    [by rewrite Hsys | by apply HP | exact Hg1 | |].
  { destruct Hatt as (bs & Hbs & Hx). exists bs. split; [|exact Hx]. etrans; [apply Hmem; exact (not_eq_sym Hne) | exact Hbs]. }
  fold (mapped_arena (register_reply_segment m) ptr cap) ring in Ea.
  set (b' := registered m ring b).
  destruct (reply_ok b' id KRegisterReply (MkRegisterReply (register_correlation_id m) id STATUS_OK "") ring rf [] v1)
    as (v' & E & Hrf & Ho).
  - apply lookup_insert_eq.
  - exact Hg1.
  - eapply shares_has; [by apply shares_sym|]. eapply ring_has_mem; [exact Hv | by rewrite Em].
  - exact Er.
  - by rewrite (proj1 (proj2 (proj2 Hsh))).
  - pose proof (ro_others _ _ _ _ Ho) as Hoth. rewrite Em, (proj1 Hsh) in Hoth.
    exists b', v'. split; [|split_and!].
    + unfold handle. rewrite (decode_encode _ Hqf). erewrite bind_done by (unfold lift; by rewrite Hcat).
      rewrite Eqf, (proj1 (Hfp _ _ Efp)). unfold on_register, try_in.
      erewrite bind_done by (unfold lift; by rewrite (from_frame_compat_to_frame c KRegister m qf Hcat Hreg (Hw _) Eq)).
      cbv beta iota. erewrite bind_done by exact Eo. cbv beta iota.
      erewrite bind_done by exact Ea. cbv beta iota zeta. unfold return_in.
      unfold add_client. by erewrite bind_done by exact E.
    + by eapply shares_has.
    + by rewrite (ro_now _ _ _ _ Ho).
    + intros p _ Hp. by apply Hoth.
    + done.
    + by rewrite (ring_only_dom _ _ _ _ Ho), Em.
    + exact Hoth.
Qed.

(** Registration by a client [i] whose reply ring is the block [ptr]. *)
Lemma register_over_the_bus (b : Broker) (i : Inner) (ls t : Z) (bw w : world) (ts : list tick) (corr : Z) (w0 : world)
    (ptr cap : Z) (qf rf : Frame) :
  let id := next_client (b_reg b) in
  let tr := i_transport i in
  let name := t_reply_segment tr in
  let m := MkRegister corr (i_app_name i) (i64 (t_nonce tr)) name 1000 (u32 (sys_getpid (w_sys w))) in
  let ring := mapped_arena name ptr cap in
  let b' := registered m ring b in
  wired i b w -> broker_inv b -> ids_left (b_reg b) ->
  next_corr w = Done (corr, w0) -> w_ticks w = broker_tick b ls bw t :: ts ->
  Z.max 0 (w_now bw - ls) < SWEEP_INTERVAL ->
  shares ring (t_reply_ring tr) -> attachable ring (w_mem w) ->
  has_nul name = false -> 0 < ring_bytes cap < 2 ^ 64 -> ptr <> MAP_FAILED ->
  opens_at (w_sys bw) name (ring_bytes cap) ptr (fun m' => dom m' = dom (w_mem w)) ->
  to_frame KRegister m = Done (Ok qf) -> sendable (t_submission tr) qf ->
  to_frame KRegisterReply (MkRegisterReply corr id STATUS_OK "") = Done (Ok rf) -> sendable (t_reply_ring tr) rf ->
  exists i' w', do_register dispatch_turn i w = Done ((Ok id, i'), w') /\
    (exists m0 v, turn b ls (set_mem m0 bw) = Done ((b', ls), v)) /\
    connected i' b' w' /\ broker_inv b' /\
    i_transport i' = set_client_id id tr /\ same_conf i i' /\ i_cells i' = i_cells i /\
    w_sys w' = w_sys w /\ w_ticks w' = ts /\ w_rng w' = w_rng w0 /\
    dom (w_mem w') = dom (w_mem w) /\ reframed (t_submission tr) (w_mem w) (w_mem w') /\
    forall p, p <> r_ptr (t_submission tr) -> p <> ptr -> w_mem w' !! p = w_mem w !! p.
Proof using Hc.
  intros id tr name m ring b' Hwd Hb Hids Ecorr Et Hq Hsh Hatt Hn Hsz Hptr Hop Eq Hqf Er Hrf.
  pose proof Hc as [[Hcat Hcod Hfp _ _] _ _].
  destruct (reply_is_routed c (RRegister (MkRegisterReply corr id STATUS_OK "")) rf Hcat Hcod Hfp Er) as [Hwf Hcorr];
    [by destruct Hrf as [[] _]|].
  pose proof Hwd as [Hp Hsub [Hg1 Hg2] Hne Hemp]. fold tr in Hsub, Hg1, Hg2, Hne, Hemp.
  destruct (round_trip_turn KRegister (fun corr i =>
      MkRegister corr (i_app_name i) (i64 (t_nonce (i_transport i))) (t_reply_segment (i_transport i)) 1000
        (u32 (sys_getpid (w_sys w)))) KRegisterReply i b ls t w bw ts corr w0 qf rf
      (Ok (MkRegisterReply corr id STATUS_OK "")) _ Hwd Ecorr Et Hq Eq Hqf
      (register_served b m (t_reply_ring tr) (t_submission tr) (w_sys bw) (w_mem w) name ptr cap _ qf rf Hsh Hg2
        (fun e => Hne (eq_trans e (proj1 Hsh))) eq_refl Hn Hsz Hptr Hop (fun _ E => E) Hatt Eq (proj1 Hqf) Er Hrf) Hwf Hcorr
      (from_frame_to_frame c _ _ _ Hcat (rc_register c Hcod) Er))
    as (i' & w' & b2 & v & v' & E & (Hrep & _ & Htr & Hconf & Hcells & Hwf2) & Hsubq & Hturn & (_ & Hdv & Hv & Hframe) & (-> & Hdv' & Hv') &
      (Hsys & Hdw & Hw & _) & Hticks & Hrng).
  fold tr in Hrep, Htr, Hconf, Hsubq, Hw, Hdw.
  set (i2 := set_transport (set_client_id id tr) i').
  exists i2, w'. split; [|split_and!; try done].
  - unfold do_register. erewrite cbind_done by reflexivity. erewrite cbind_io_ok by exact E.
    cbn [register_reply_status negb Z.eqb STATUS_OK]. erewrite cbind_done by reflexivity.
    cbn [fst snd]. rewrite Htr. reflexivity.
  - destruct Hturn as [m0 Hm0]. by exists m0, v'.
  - constructor; simpl.
    + exact Hwf2.
    + exact Hsub.
    + exists ring. split; [apply lookup_insert_eq | exact Hsh].
    + by split.
    + exact Hne.
    + by split.
  - by apply registered_inv.
  - by rewrite Hdw, Hdv', Hdv.
  - destruct Hframe as (b1 & b2 & F1 & F2 & F3). exists b1, b2. split_and!; [done| |done].
    by rewrite Hw, Hv' by exact Hne.
  - intros p Hp1 Hp2. assert (p <> r_ptr (t_reply_ring tr)) as Hp3 by by rewrite <- (proj1 Hsh).
    by rewrite Hw, Hv', Hv.
Qed.

(** After the bootstrap the client is on the broker's bus. *)
Lemma fresh_wired (b : Broker) (i : Inner) (w w1 w2 : world) (pid epoch nonce cap ptr : Z) :
  let tr := fresh_transport b epoch nonce cap ptr in
  serving b w pid epoch -> arena_made (t_reply_seg tr) cap w1 w2 -> w_mem w1 = w_mem w ->
  i_transport i = tr -> pending_wf i ->
  wired i b w2 /\ shares (b_submission b) (t_submission tr) /\
  w_mem w2 !! seg_ptr (b_control_seg b) = w_mem w !! seg_ptr (b_control_seg b).
Proof using.
  intros tr [_ Hsub _ _ _ _ Hempty] [_ A1 _ A3 A4 _ A6 _ _ _ _] M1 Htr Hwf. rewrite M1 in A1.
  assert (seg_ptr (b_control_seg b) <> ptr) as Hne.
  { destruct Hempty as (bs & Hbs & _). rewrite Hsub in Hbs. intros E0.
    discriminate (eq_trans (eq_sym A1) (eq_trans (f_equal (fun p => w_mem w !! p) (eq_sym E0)) Hbs)). }
  assert (w_mem w2 !! seg_ptr (b_control_seg b) = w_mem w !! seg_ptr (b_control_seg b)) as Ectl
    by (rewrite <- M1; by apply A6).
  assert (shares (b_submission b) (t_submission tr)) as Hshs by (rewrite Hsub; by split_and!).
  split; [|done]. constructor; rewrite ?Htr; try done.
  - split; [apply submission_geom | exact A3].
  - split; [|exact A4]. eapply shares_has; [exact Hshs|]. eapply ring_has_mem; [exact Hempty|]. by rewrite Hsub.
Qed.

(** From [w] to [w'] nothing happens to the blocks [ps], nor to the system. *)
Record undisturbed (ps : list Z) (w w' : world) : Prop := {
  ud_mem : forall p, p ∈ ps -> w_mem w' !! p = w_mem w !! p;
  ud_sys : w_sys w' = w_sys w;
  ud_ticks : w_ticks w' = w_ticks w;
  ud_rng : w_rng w' = w_rng w;
}.

Lemma wired_undisturbed (b : Broker) (i : Inner) (w w' : world) ps :
  wired i b w -> r_ptr (t_submission (i_transport i)) ∈ ps -> r_ptr (t_reply_ring (i_transport i)) ∈ ps ->
  undisturbed ps w w' -> wired i b w'.
Proof using.
  intros [W1 W2 W3 W4 [W5 W6]] I1 I2 [Hm _ _ _]. constructor; try done.
  split; (eapply ring_has_mem; [eassumption | by apply Hm]).
Qed.

(** Bootstrap, then registration, of a client that is not connected; in between it may do
    something else. *)
Lemma joined (b : Broker) (ls : Z) (bw w : world) (pid epoch nonce corr cap0 : Z) (ts : list tick) (app : string)
    (qf rf : Frame) :
  let id := next_client (b_reg b) in
  let cap := reply_cap_of cap0 in
  let ptr := reply_block w nonce cap0 in
  let m := MkRegister corr app (i64 nonce) (client_segment nonce) 1000 (u32 (sys_getpid (w_sys w))) in
  serving b w pid epoch -> ids_left (b_reg b) -> joins b ls bw w nonce corr cap0 ts ->
  to_frame KRegister m = Done (Ok qf) -> sendable (b_submission b) qf ->
  to_frame KRegisterReply (MkRegisterReply corr id STATUS_OK "") = Done (Ok rf) -> sendable_in cap rf ->
  exists w1, let tr := fresh_transport b epoch nonce cap ptr in
    let b' := registered m (mapped_arena (client_segment nonce) ptr cap) b in
    bootstrap cap0 w = Done (Ok tr, w1) /\ w_mem w !! ptr = None /\
    (forall p, p <> ptr -> w_mem w1 !! p = w_mem w !! p) /\
    forall i wd, undisturbed [seg_ptr (b_control_seg b); ptr] w1 wd ->
      i_transport i = tr -> i_app_name i = app -> pending_wf i ->
      exists i' w', do_register dispatch_turn i wd = Done ((Ok id, i'), w') /\
        (exists m0 v, turn b ls (set_mem m0 bw) = Done ((b', ls), v)) /\
        connected i' b' w' /\ serving b' w' pid epoch /\
        i_transport i' = set_client_id id tr /\ same_conf i i' /\ i_cells i' = i_cells i /\
        w_sys w' = w_sys w /\ w_ticks w' = ts /\
        forall p, p <> ptr -> p <> r_ptr (b_submission b) -> w_mem w' !! p = w_mem wd !! p.
Proof using Hc.
  intros id cap ptr m Hsv Hids [Hcap Hctl (w0 & wc & Er & Ecorr) Hcr Hopen (t & Et) Hq] Eq Hqf Erf Hrf.
  destruct (bootstrap_done b w w0 pid epoch nonce cap0 Hsv Hcap Hctl Er Hcr)
    as (w1 & w2 & E & Ham & M1 & S1 & T1 & R1).
  fold cap ptr in E, Ham. exists w2.
  pose proof Ham as [_ A1 A2 A3 A4 A5 A6 A7 A8 A9 A10]. cbn [fresh_transport t_reply_seg seg_ptr] in *.
  split; [exact E|]. split; [by rewrite <- M1|]. split; [intros p Hp; by rewrite <- M1, A6|]. intros i wd Hd Htr Happ Hwf. pose proof Hd as [Dm Ds Dt Dr].
  pose proof Hsv as [Hb Hsub _ _ _ _ Hempty].
  destruct (corr_at _ _ _ wd Ecorr) as (w3 & Ecorr2).
  { by rewrite Ds, A8, S1, (random_sys _ _ _ Er). }
  { congruence. }
  set (ring := mapped_arena (client_segment nonce) ptr cap).
  assert (t_submission (i_transport i) = submission_ring (control_mapping b) /\
    t_reply_segment (i_transport i) = client_segment nonce /\ t_nonce (i_transport i) = nonce) as (T2 & T4 & T5)
    by (rewrite Htr; by split_and!).
  destruct (fresh_wired b i w w1 w2 pid epoch nonce cap ptr Hsv Ham M1 Htr Hwf) as (Hwired & Hshs & Ectl).
  assert (wired i b wd) as Hwired2.
  { eapply wired_undisturbed; [exact Hwired | | | exact Hd]; rewrite Htr; [left | right; left]. }
  destruct (register_over_the_bus b i ls t bw wd ts corr w3 ptr cap qf rf) as
    (i' & w' & E2 & Hturn & Hcn & Hb' & Htr' & Hconf & Hcells & Hsys & Hticks & _ & _ & Hframe & Hkeep);
    rewrite ?T2, ?T4, ?T5, ?Happ, ?Ds, ?A8, ?S1, ?Htr; try done.
  - by rewrite Dt, A9, T1.
  - destruct A5 as (bs & Hbs & Hx). exists bs. split; [|exact Hx]. etrans; [apply Dm; right; left | exact Hbs].
  - apply (has_nul_seg_id (SegClient nonce)).
  - apply arena_size. by case_match.
  - apply (opens_at_weaken _ _ _ _ (fun m => is_Some (m !! ptr))); [|apply Hopen; fold ptr; by rewrite <- M1].
    intros m' Hm'. apply elem_of_dom. rewrite Hm'. apply elem_of_dom. destruct A5 as (bs & Hbs & _). exists bs.
    etrans; [apply Dm; right; left | exact Hbs].
  - by rewrite Hsub in Hqf.
  - assert (MkRegister corr (i_app_name i) (i64 (t_nonce (i_transport i))) (t_reply_segment (i_transport i)) 1000
        (u32 (sys_getpid (w_sys wd))) = m) as Em by (unfold m; by rewrite T4, T5, Happ, Ds, A8, S1).
    rewrite Em, T4 in Hturn, Hcn, Hb'. rewrite T2 in Hframe, Hkeep. fold id in Htr'. rewrite Htr in Htr'.
    fold ring in Hturn, Hcn, Hb'.
    exists i', w'. split; [exact E2|]. split; [exact Hturn|]. split; [exact Hcn|]. split; [|split_and!; try done].
    + apply (serving_kept b _ w); try done.
      * apply (reframed_shares _ _ _ _ (shares_sym _ _ Hshs)).
        destruct Hframe as (b1 & b2 & F1 & F2 & F3). exists b1, b2. split_and!; [|exact F2 | exact F3].
        exact (eq_trans (eq_sym (eq_trans (Dm _ (list_elem_of_here _ _)) Ectl)) F1).
      * apply (shares_has _ _ _ _ (shares_sym _ _ Hshs)). pose proof (cn_empty _ _ _ Hcn) as [Hx _].
        by rewrite Htr' in Hx.
    + congruence.
    + intros p Hp1 Hp2. apply Hkeep; [by rewrite Hsub in Hp2 | exact Hp1].
Qed.
End connect.

(** C6: A client joins the bus. The bootstrap opens the control segment that the broker
    formatted, makes the reply ring and registers; the broker, in its turn, maps that ring,
    enters the client under the next id and answers on it; and the client ends up with a
    connection to that broker: its id, the broker's epoch and a reply ring of the capacity
    asked for. This is the state in which the requests of the other theorems succeed, and
    the broker is again one that a client can join. *)
Theorem connect_over_the_bus `{ProtoSerde} `{!Sha256} (c : Catalog) (b : Broker) (ls : Z) (bw w : world)
    (pid epoch nonce corr cap0 : Z) (ts : list tick) (app : string) (qf rf : Frame) :
  let id := next_client (b_reg b) in
  let cap := reply_cap_of cap0 in
  let m := MkRegister corr app (i64 nonce) (client_segment nonce) 1000 (u32 (sys_getpid (w_sys w))) in
  register_codecs c -> serving b w pid epoch -> ids_left (b_reg b) -> joins b ls bw w nonce corr cap0 ts ->
  to_frame KRegister m = Done (Ok qf) -> sendable (b_submission b) qf ->
  to_frame KRegisterReply (MkRegisterReply corr id STATUS_OK "") = Done (Ok rf) -> sendable_in cap rf ->
  exists conn w' b', connect_with_reply_cap dispatch_turn app cap0 w = Done (Ok conn, w') /\
    (exists m0 v, turn b ls (set_mem m0 bw) = Done ((b', ls), v)) /\
    connected (c_inner conn) b' w' /\ serving b' w' pid epoch /\
    connection_id conn = id /\ connection_epoch conn = epoch /\ reply_capacity conn = cap /\
    auto_reconnect conn = true /\
    clients (b_reg b') = <[id := MkClientMeta app (i32 (u32 (sys_getpid (w_sys w))))]> (clients (b_reg b)) /\
    channels (b_reg b') = channels (b_reg b) /\ functions (b_reg b') = functions (b_reg b).
Proof.
  intros id cap m Hc Hsv Hids Hj Eq Hqf Erf Hrf.
  destruct (joined c Hc b ls bw w pid epoch nonce corr cap0 ts app qf rf Hsv Hids Hj Eq Hqf Erf Hrf)
    as (w1 & E & _ & _ & Hreg).
  set (ptr := reply_block w nonce cap0) in *.
  destruct (Hreg (start_inner app cap0 (fresh_transport b epoch nonce cap ptr)) w1 ltac:(by constructor) eq_refl eq_refl) as
    (i' & w' & E2 & Hturn & Hcn & Hsv' & Htr & Hconf & _ & _ & _ & _); [by intros ? ?|].
  exists (MkConnection i' DEFAULT_SERVICE_WORKERS), w'. eexists.
  split; [|split; [exact Hturn|split; [exact Hcn|split; [exact Hsv'|]]]].
  - unfold connect_with_reply_cap, connect_inner, bind_io. rewrite bind_assoc. erewrite bind_done by exact E.
    cbv beta iota. rewrite bind_assoc. erewrite bind_done by exact E2. cbv beta iota. by rewrite bind_ret.
  - unfold connection_id, connection_epoch, reply_capacity, auto_reconnect, capacity. cbn [c_inner]. rewrite Htr.
    destruct Hconf as (_ & _ & _ & _ & -> & _). split_and!; try done.
    apply wrap_u_small. unfold in_u. pose proof (ri_next _ (bi_reg _ (sv_inv _ _ _ _ Hsv))). destruct Hids as [? _].
    simpl. fold id. unfold id. lia.
Qed.

(** ** A client that joins *)

(** The broker of [live_seg], just started, and a machine on which a client may join it. *)
Definition join_broker : Broker :=
  MkBroker (MkSegment CONTROL_SEGMENT 9001 262400 true) (submission_ring (MkSegment CONTROL_SEGMENT 9001 262400 true))
    new_registry ∅ ∅ ∅ [].
Definition join_mem : gmap Z (list byte) := {[9001 := live_bytes]}.
Definition join_sys : sys := Sys
  (fun _ flags _ => (if flags =? O_RDWR then 3 else 4, 0)) (fun _ _ => (0, 0)) (fun _ _ => (0, 0))
  (fun _ => (0, 0, 262400)) (fun size fd m => if fd =? 3 then (9001, 0, m) else demo_mmap size fd m)
  (fun _ => (0, 0)) (fun _ => Ok []) (fun _ _ => (0, 0)) 555 (Some 2000)
  (fun n => Ok (le_bytes 8 (77 + Z.of_nat n))) (fun _ => "error").
Definition join_cap : Z := reply_cap_of 1.

(** The broker's process: it maps the client's block. *)
Definition host_sys : sys := Sys
  (fun _ _ _ => (4, 0)) (fun _ _ => (0, 0)) (fun _ _ => (0, 0)) (fun _ => (0, 0, ring_bytes join_cap))
  (fun _ _ m => (next_ptr join_mem, 0, m))
  (fun _ => (0, 0)) (fun _ => Ok []) (fun _ _ => (0, 0)) 4242 (Some 1000)
  (fun n => Ok (le_bytes 8 0)) (fun _ => "error").
Definition host_world : world := World ∅ 0 host_sys [] 0 [].
Definition join_world : world := World join_mem 0 join_sys [broker_tick join_broker 0 host_world 10] 0 [].

Definition join_request : Frame :=
  frame_of (to_frame KRegister (MkRegister 78 "svc" 77 (client_segment 77) 1000 555)).
Definition join_reply : Frame := frame_of (to_frame KRegisterReply (MkRegisterReply 78 1 STATUS_OK "")).

Lemma join_frames :
  to_frame KRegister (MkRegister 78 "svc" 77 (client_segment 77) 1000 555) = Done (Ok join_request) /\
  sends (b_submission join_broker) join_request = true /\
  to_frame KRegisterReply (MkRegisterReply 78 1 STATUS_OK "") = Done (Ok join_reply) /\
  sends (mapped_arena "" 0 join_cap) join_reply = true.
Proof. split_and!; vm_compute; reflexivity. Qed.

Lemma toy_register_codecs : register_codecs toy_catalog.
Proof.
  constructor; [exact bus_codecs_toy | exact (cc_writer _ toy_channel_codecs) |].
  intros s _. apply toy_codec. intros m v. destruct m; simpl. by intros [= <-].
Qed.

Lemma join_empty : ring_has (b_submission join_broker) join_world [].
Proof.
  set (z := replicate (Z.to_nat 262400) Byte.x00).
  assert (blen z = 262400) as Hz by (unfold blen, z; rewrite length_replicate; exact (Z2Nat.id 262400 ltac:(lia))).
  assert (live_bytes = superblocked (formatted (submission_ring live_seg) z) 4242 1000) as El by exact eq_refl.
  clearbody z.
  assert (fits (submission_ring live_seg) z) as Hf by (change (64 + 192 + 262144 <= blen z); lia).
  pose proof (superblocked_has live_seg (World {[9001 := z]} 0 join_sys [] 0 []) z 4242 1000
    (lookup_singleton_eq _ _) Hf) as Hs. rewrite <- El in Hs.
  apply (shares_has (submission_ring live_seg)); [by split_and!|].
  apply (ring_has_mem _ _ _ _ Hs). etrans; [apply lookup_singleton_eq | symmetry; apply lookup_insert_eq].
Qed.

Lemma join_serving : serving join_broker join_world 4242 1000.
Proof.
  constructor; try done.
  - constructor; simpl; try done.
    + apply new_registry_inv.
    + intros n. split; [by intros [? ?]|]. by intros [(? & ? & ? & _)|(? & ? & ? & _)].
    + intros id. split; by intros [? ?].
  - destruct live_ready as (bs & Hbs & Hx). exists bs. split; [exact Hbs | exact Hx].
  - exact join_empty.
Qed.

Lemma join_joins : joins join_broker 0 host_world join_world 77 78 1 [].
Proof.
  constructor.
  - done.
  - split_and!; [done | done | reflexivity |]. intros m ->. by exists 0.
  - by do 2 eexists.
  - assert (0 <= ring_bytes join_cap) as H0 by (vm_compute; discriminate).
    assert (ring_bytes (reply_cap_of 1) = ring_bytes join_cap) as -> by reflexivity.
    revert H0. generalize (ring_bytes join_cap) as size. intros size H0.
    split_and!; [done | done | done |]. intros m ptr errno m' E.
    destruct (demo_mmap_ok size H0 4 m ptr errno m' E) as (Hn & Hbs & Ho).
    split_and!; [|done..]. injection E as <- _ _. pose proof (next_ptr_bounds m) as [Hb _]. unfold MAP_FAILED. lia.
  - intros ptr _. change ptr with (next_ptr join_mem). split_and!; [done | done | reflexivity |]. intros m _. by exists 0.
  - by eexists.
  - done.
Qed.

Lemma connect_over_the_bus_witness :
  exists conn w' b', connect_with_reply_cap dispatch_turn "svc" 1 join_world = Done (Ok conn, w') /\
    (exists m0 v, turn join_broker 0 (set_mem m0 host_world) = Done ((b', 0), v)) /\
    connected (c_inner conn) b' w' /\ serving b' w' 4242 1000 /\
    connection_id conn = 1 /\ connection_epoch conn = 1000 /\ reply_capacity conn = 2 ^ 18 /\
    auto_reconnect conn = true /\
    clients (b_reg b') = <[1 := MkClientMeta "svc" 555]> ∅ /\
    channels (b_reg b') = ∅ /\ functions (b_reg b') = ∅.
Proof.
  destruct join_frames as (F1 & F2 & F3 & F4).
  exact (connect_over_the_bus toy_catalog join_broker 0 host_world join_world 4242 1000 77 78 1 [] "svc"
    join_request join_reply toy_register_codecs join_serving ltac:(by split_and!) join_joins
    F1 (sends_ok _ _ F2) F3 (sends_ok _ _ F4)).
Defined.
