(* ===== verification/BusReplay.v ===== *)
(** * Coming back after a restart of the broker

    [reconnect] of the connector against a new broker: bootstrap and registration
    (BusConnect), and then the replay, which publishes every channel and exposes every
    function of the connection again, each with a turn of the broker, and binds the
    publishers and services to the new arenas. *)

From S2P Require Import Prelude Machine Shm Circ Ring RingMem RingSpec RingThm Demo Frame Control Util Avro Proto Toy ProtoProps Registry RegistryThm RegistryProps Broker BrokerThm BrokerOps BrokerProps BrokerFlow BrokerStart Client ClientThm ClientProps Bus BusArena BusProps RpcThm Rpc Connection ConnectionProps RpcProps RpcBus BusChannel BusFunction BusConnect.

Record replay_codecs `{ProtoSerde} (c : Catalog) : Prop := {
  rp_channel : channel_codecs c;
  rp_function : function_codecs c;
  rp_register : register_codecs c;
}.

(** ** One registration *)

Definition fp_of `{Avro} (json : string) : Z := match parse json with Ok (_, fp) => fp | Err _ => 0 end.

Definition is_channel (reg : Reg) : bool := match reg with RegChannel _ _ _ _ _ => true | _ => false end.
Definition cell_of (reg : Reg) : nat :=
  match reg with RegChannel _ _ _ _ cell | RegFunction _ _ _ _ _ cell => cell end.
Definition cap_of (reg : Reg) : Z :=
  match reg with RegChannel _ _ _ cap _ | RegFunction _ _ _ _ cap _ => clamp_arena_cap (Z.max cap 0) end.

(** The arena that the broker makes for it. *)
Definition arena_for (reg : Reg) (b : Broker) : string :=
  if is_channel reg then channel_arena (next_channel (b_reg b)) else function_arena (next_fn (b_reg b)).

(** What [Inner::replay] does with it. *)
Definition restore `{ProtoSerde} (reg : Reg) : conn unit :=
  match reg with
  | RegChannel name json key cap cell =>
      let* r := do_publish dispatch_turn name json key cap in
      match r with Ok (ring, _) => rebind cell ring | Err _ => cret tt end
  | RegFunction name qj pj key cap cell =>
      let* r := do_expose dispatch_turn name qj pj key cap in
      match r with Ok (ring, _, _) => rebind cell ring | Err _ => cret tt end
  end.

Fixpoint restore_all `{ProtoSerde} (rs : list Reg) : conn unit :=
  match rs with [] => cret tt | reg :: rs => do* restore reg in restore_all rs end.

(** [Inner::replay] goes through the channels first. *)
Definition replay_order (i : Inner) : list Reg :=
  let regs := snd <$> map_to_list (i_registry i) in
  filter (fun reg => is_channel reg = true) regs ++ filter (fun reg => is_channel reg = false) regs.

Lemma cbind_assoc {A B C} (p : conn A) (f : A -> conn B) (g : B -> conn C) i w :
  cbind (cbind p f) g i w = cbind p (fun a => cbind (f a) g) i w.
Proof. unfold cbind. by rewrite bind_assoc. Qed.

Lemma cbind_ext {A B} (p : conn A) (f g : A -> conn B) i w :
  (forall a i w, f a i w = g a i w) -> cbind p f i w = cbind p g i w.
Proof. intros E. unfold cbind, bind. by destruct (p i w) as [[[a i1] w1]| | |]; simpl. Qed.

Lemma restore_all_app `{ProtoSerde} rs1 rs2 i w :
  restore_all (rs1 ++ rs2) i w = (do* restore_all rs1 in restore_all rs2) i w.
Proof.
  revert i w. induction rs1 as [|reg rs1 IH]; intros i w; [done|]. cbn [restore_all app].
  rewrite cbind_assoc. apply cbind_ext. intros [] i1 w1. apply IH.
Qed.

Lemma replay_channels_eq `{ProtoSerde} rs i w :
  replay_channels dispatch_turn rs i w = restore_all (filter (fun reg => is_channel reg = true) rs) i w.
Proof.
  revert i w. induction rs as [|[name json key cap cell|name qj pj key cap cell] rs IH]; intros i w; [done| |].
  - rewrite filter_cons_True by done. cbn [replay_channels restore_all restore]. rewrite cbind_assoc.
    apply cbind_ext. intros [[ring fp]|e] i1 w1; (apply cbind_ext; intros [] i2 w2; apply IH).
  - rewrite filter_cons_False by done. apply IH.
Qed.

Lemma replay_functions_eq `{ProtoSerde} rs i w :
  replay_functions dispatch_turn rs i w = restore_all (filter (fun reg => is_channel reg = false) rs) i w.
Proof.
  revert i w. induction rs as [|[name json key cap cell|name qj pj key cap cell] rs IH]; intros i w; [done| |].
  - rewrite filter_cons_False by done. apply IH.
  - rewrite filter_cons_True by done. cbn [replay_functions restore_all restore]. rewrite cbind_assoc.
    apply cbind_ext. intros [[[ring q] p]|e] i1 w1; (apply cbind_ext; intros [] i2 w2; apply IH).
Qed.

Lemma replay_eq `{ProtoSerde} i w i' w' :
  restore_all (replay_order i) i w = Done ((tt, i'), w') -> replay dispatch_turn i w = Done ((Ok tt, i'), w').
Proof.
  unfold replay_order. rewrite restore_all_app. intros ([] & i1 & w1 & E1 & E2)%cbind_inv.
  unfold replay. erewrite cbind_done by reflexivity. cbv zeta.
  erewrite cbind_done by (rewrite replay_channels_eq; exact E1).
  by erewrite cbind_done by (rewrite replay_functions_eq; exact E2).
Qed.

(** [rebind] unmaps the old arena. *)
Lemma rebind_done cell ring old i w :
  i_cells i !! cell = Some old ->
  exists w', rebind cell ring i w = Done ((tt, set_cells (<[cell := ring]> (i_cells i)) i), w') /\
    w_mem w' = delete (r_ptr old) (w_mem w) /\ w_sys w' = w_sys w /\ w_ticks w' = w_ticks w.
Proof.
  intros Hc. destruct (drop_segment_done (r_seg old) w) as (w' & E & [Hm _ Hs Ht _ _]).
  exists w'. split_and!; [|exact Hm | done | done]. unfold rebind. rewrite Hc. by erewrite bind_done by exact E.
Qed.

(** ** What the broker makes of it *)

Section replay.
Context `{ProtoSerde} `{!Sha256} (c : Catalog).
Hypothesis Hc : replay_codecs c.

(** The client's id at the new broker, its two rings, the systems of the broker and of the
    client, and where they put each new arena. *)
Context (cid : Z) (sub rep : Ring) (bs cs : sys) (place : string -> Z).

Definition new_arena (reg : Reg) (b : Broker) : Segment :=
  MkSegment (arena_for reg b) (place (arena_for reg b)) (ring_bytes (cap_of reg)) true.
Definition new_ring (reg : Reg) (b : Broker) : Ring :=
  mapped_arena (arena_for reg b) (place (arena_for reg b)) (cap_of reg).

(** The broker after it has served the registration. *)
Definition brought_back (reg : Reg) (b : Broker) : Broker :=
  match reg with
  | RegChannel name json key cap _ =>
      published (MkPublishChannel 0 cid name json (key_or_empty key) cap) (fp_of json) (new_arena reg b) b
  | RegFunction name qj pj key cap _ =>
      exposed (MkExposeFunction 0 cid name qj pj (key_or_empty key) cap) (fp_of qj) (fp_of pj) (new_arena reg b) b
  end.

(** A correlation id that the client's system can draw. *)
Definition drawn (corr : Z) : Prop := exists w w0, w_sys w = cs /\ next_corr w = Done (corr, w0).

(** Request and reply can be encoded, whatever the correlation id, and fit the rings. *)
Definition exchanges {Q R} `{!Serde Q, !Serde R} (kq : Kind) (q : Z -> Q) (kr : Kind) (r : Z -> R) : Prop :=
  forall corr, drawn corr -> exists qf rf,
    to_frame kq (q corr) = Done (Ok qf) /\ sendable sub qf /\ to_frame kr (r corr) = Done (Ok rf) /\ sendable rep rf.

(** The registration can be entered at the broker [b]: its name is free there, its schemas
    parse, its messages fit, and there is memory for its arena. *)
Definition acceptable (reg : Reg) (b : Broker) : Prop :=
  match reg with
  | RegChannel name json key cap _ =>
      let id := next_channel (b_reg b) in
      in_i 64 cap /\ chan_by_name (b_reg b) !! name = None /\ (exists s fp, parse json = Ok (s, fp)) /\
      exchanges KPublishChannel (fun corr => MkPublishChannel corr cid name json (key_or_empty key) cap)
        KPublishReply (fun corr => MkPublishReply corr id (fp_to_i64 (fp_of json)) (channel_arena id) STATUS_OK "")
  | RegFunction name qj pj key cap _ =>
      let id := next_fn (b_reg b) in
      in_i 64 cap /\ fn_by_name (b_reg b) !! name = None /\
      (exists s fp, parse qj = Ok (s, fp)) /\ (exists s fp, parse pj = Ok (s, fp)) /\
      exchanges KExposeFunction (fun corr => MkExposeFunction corr cid name qj pj (key_or_empty key) cap)
        KExposeReply (fun corr => MkExposeReply corr id (fp_to_i64 (fp_of qj)) (fp_to_i64 (fp_of pj))
          (function_arena id) STATUS_OK "")
  end.

Definition memory_for (reg : Reg) (b : Broker) : Prop :=
  let name := arena_for reg b in
  let size := ring_bytes (cap_of reg) in
  shm_creates bs name size /\ (forall m, m !! place name = None -> lands bs name size m = place name) /\
  opens_at cs name size (place name) (fun m => is_Some (m !! place name)).

Lemma memory_to_be_had reg b m :
  memory_for reg b -> m !! place (arena_for reg b) = None ->
  arena_to_be_had bs cs m (arena_for reg b) (cap_of reg).
Proof using.
  intros (Hcr & Hl & Hop) Hm. split; [exact Hcr|]. intros m1 Hd ptr _.
  assert (ptr = place (arena_for reg b)) as ->.
  { apply Hl, not_elem_of_dom. rewrite Hd. by apply not_elem_of_dom. }
  eapply opens_at_weaken; [|exact Hop]. intros m' Hm'. apply elem_of_dom. rewrite Hm'.
  by apply elem_of_union_l, elem_of_singleton.
Qed.

(** From [i] and [w] to [i'] and [w'] one registration was brought back: its cell is bound to
    [ring], the old mapping at [old] is gone, and the client is connected to [b']. *)
Record resumed (b' : Broker) (cell : nat) (ring : Ring) (old : Z) (i : Inner) (w : world) (i' : Inner) (w' : world)
    : Prop := {
  rs_connected : connected i' b' w';
  rs_transport : i_transport i' = i_transport i;
  rs_conf : same_conf i i';
  rs_cells : i_cells i' = <[cell := ring]> (i_cells i);
  rs_sys : w_sys w' = w_sys w;
  rs_ticks : w_ticks w' = tail (w_ticks w);
  rs_geom : ring_geom ring;
  rs_ring : ring_has ring w' [];
  rs_others : forall p, p <> r_ptr sub -> p <> r_ptr rep -> p <> r_ptr ring -> p <> old -> w_mem w' !! p = w_mem w !! p;
}.

(** The client binds the cell to the arena it was given. *)
Lemma bound_again (b b' : Broker) (i i1 : Inner) (w w1 : world) (ring old : Ring) (cell : nat) :
  connected i b w -> t_submission (i_transport i) = sub -> t_reply_ring (i_transport i) = rep ->
  b_submission b' = b_submission b -> b_reply_rings b' = b_reply_rings b ->
  ring_geom ring -> ring_has ring w1 [] -> at_rest i w w1 (r_ptr ring) -> carried i w i1 w1 ->
  i_cells i !! cell = Some old ->
  r_ptr old <> r_ptr sub -> r_ptr old <> r_ptr rep -> r_ptr old <> r_ptr ring ->
  exists i2 w2, rebind cell ring i1 w1 = Done ((tt, i2), w2) /\ resumed b' cell ring (r_ptr old) i w i2 w2.
Proof using.
  intros [_ Hsub Hrep Hg Hne _] Es Er Eb1 Eb2 Hgr Hr (Hnew & Hs1 & Hr1 & Hm1) [Ct Cp Cc Ccell Cs Ck] Hcell N1 N2 N3.
  rewrite Es, Er in *.
  destruct (rebind_done cell ring old i1 w1) as (w2 & E & Hm & Hs & Hk); [by rewrite Ccell|].
  assert (forall r q, r_ptr r <> r_ptr old -> ring_has r w1 q -> ring_has r w2 q) as Hkeep.
  { intros r q Hr0 Hq. eapply ring_has_mem; [exact Hq|]. by rewrite Hm, lookup_delete_ne. }
  eexists _, w2. split; [exact E|]. constructor; cbn [set_cells i_transport i_cells]; try done.
  - constructor; cbn [set_cells i_transport i_pending]; rewrite ?Ct, ?Es, ?Er, ?Eb1, ?Eb2; try done.
    split; apply Hkeep; auto.
  - by rewrite Ccell.
  - by rewrite Hs.
  - by rewrite Hk.
  - apply Hkeep; auto.
  - intros p P1 P2 P3 P4. rewrite Hm, lookup_delete_ne by done. by apply Hm1.
Qed.

Lemma next_corr_works w : (forall n, is_ok (sys_random (w_sys w) n) = true) ->
  exists corr w0, next_corr w = Done (corr, w0).
Proof using.
  intros Hr. unfold next_corr, random_u64, getrandom, bind, ret. specialize (Hr (w_rng w)).
  destruct (sys_random _ _) as [bytes|e]; [|done]. by eexists _, _.
Qed.

Lemma fp_of_parse json s fp : parse json = Ok (s, fp) -> fp_of json = fp.
Proof using. unfold fp_of. by intros ->. Qed.

(** The broker [b] takes one turn, as the process [bw], and becomes [b']. *)
Definition turned (b : Broker) (ls : Z) (bw : world) (b' : Broker) : Prop :=
  exists m v, turn b ls (set_mem m bw) = Done ((b', ls), v).

Fixpoint turned_all (b : Broker) (ls : Z) (bws : list world) (b' : Broker) : Prop :=
  match bws with [] => b' = b | bw :: bws => exists b1, turned b ls bw b1 /\ turned_all b1 ls bws b' end.

(** What it takes to bring a registration back: the broker has its turn as [bw], and the old
    arena [old] is not where a live one is. *)
Record resumable (b : Broker) (ls : Z) (bw : world) (i : Inner) (w : world) (reg : Reg) (old : Ring) : Prop := {
  rb_connected : connected i b w;
  rb_sub : t_submission (i_transport i) = sub;
  rb_rep : t_reply_ring (i_transport i) = rep;
  rb_id : t_client_id (i_transport i) = cid;
  rb_inv : broker_inv b;
  rb_ids : ids_left (b_reg b);
  rb_acceptable : acceptable reg b;
  rb_memory : memory_for reg b;
  rb_sys : w_sys w = cs;
  rb_bsys : w_sys bw = bs;
  rb_random : forall n, is_ok (sys_random cs n) = true;
  rb_turn : exists t ts, w_ticks w = broker_tick b ls bw t :: ts;
  rb_quiet : Z.max 0 (w_now bw - ls) < SWEEP_INTERVAL;
  rb_free : w_mem w !! place (arena_for reg b) = None;
  rb_cell : i_cells i !! cell_of reg = Some old;
  rb_old : r_ptr old <> r_ptr sub /\ r_ptr old <> r_ptr rep /\ r_ptr old <> place (arena_for reg b);
}.

Lemma restore_one (b : Broker) (ls : Z) (bw : world) (i : Inner) (w : world) (reg : Reg) (old : Ring) :
  resumable b ls bw i w reg old ->
  exists i' w', restore reg i w = Done ((tt, i'), w') /\ turned b ls bw (brought_back reg b) /\
    resumed (brought_back reg b) (cell_of reg) (new_ring reg b) (r_ptr old) i w i' w'.
Proof using Hc.
  intros [Hcn Es Er Ei Hb Hids Hacc Hmem Hcs Hbs Hrnd Ht Hq Hfree Hcell (N1 & N2 & N3)].
  destruct (next_corr_works w) as (corr & w0 & Ecorr); [by rewrite Hcs|].
  assert (drawn corr) as Hcorr by (by exists w, w0).
  assert (asks i b ls bw w corr) as Ha by (constructor; eauto).
  pose proof (memory_to_be_had reg b _ Hmem Hfree) as Hto. rewrite <- Hbs, <- Hcs in Hto.
  assert (forall m1, dom m1 = dom (w_mem w) -> lands (w_sys bw) (arena_for reg b) (ring_bytes (cap_of reg)) m1 =
    place (arena_for reg b)) as Hland.
  { intros m1 Hd. rewrite Hbs. apply (proj1 (proj2 Hmem)), not_elem_of_dom. rewrite Hd. by apply not_elem_of_dom. }
  destruct reg as [name json key cap cell|name qj pj key cap cell]; cbn [acceptable] in Hacc.
  - destruct Hacc as (Hcap & Hname & (s & fp & Hp) & Hx). destruct (Hx corr Hcorr) as (qf & rf & Eq & Hqf & Erf & Hrf).
    rewrite (fp_of_parse _ _ _ Hp) in Erf. rewrite <- Ei in Eq. rewrite <- Es in Hqf. rewrite <- Er in Hrf.
    destruct (publish_answered c (rp_channel c Hc) b i ls bw w corr name json key cap s fp qf rf Ha Hb Hids Hcap Hname Hp Hto
      Eq Hqf Erf Hrf) as (i1 & w1 & ptr & E & Hturn & Hg & Hhas & _ & _ & Hrest & Hcar & m1 & Hd & Hl).
    assert (ptr = place (arena_for (RegChannel name json key cap cell) b)) as -> by (rewrite <- Hl; by apply Hland).
    destruct (bound_again b (brought_back (RegChannel name json key cap cell) b) i i1 w w1 _ old cell Hcn Es Er
      eq_refl eq_refl Hg Hhas Hrest Hcar Hcell N1 N2 N3) as (i2 & w2 & E2 & Hres).
    exists i2, w2. split; [|split; [|exact Hres]].
    + cbn [restore]. erewrite cbind_done by exact E. exact E2.
    + unfold brought_back. rewrite (fp_of_parse _ _ _ Hp). rewrite Ei in Hturn. exact Hturn.
  - destruct Hacc as (Hcap & Hname & (sq & qfp & Pq) & (sp & pfp & Pp) & Hx).
    destruct (Hx corr Hcorr) as (qf & rf & Eq & Hqf & Erf & Hrf).
    rewrite (fp_of_parse _ _ _ Pq), (fp_of_parse _ _ _ Pp) in Erf. rewrite <- Ei in Eq. rewrite <- Es in Hqf. rewrite <- Er in Hrf.
    destruct (expose_answered c (rp_function c Hc) b i ls bw w corr name qj pj key cap sq sp qfp pfp qf rf Ha Hb Hids Hcap
      Hname Pq Pp Hto Eq Hqf Erf Hrf) as (i1 & w1 & ptr & E & Hturn & Hg & Hhas & _ & _ & Hrest & Hcar & m1 & Hd & Hl).
    assert (ptr = place (arena_for (RegFunction name qj pj key cap cell) b)) as -> by (rewrite <- Hl; by apply Hland).
    destruct (bound_again b (brought_back (RegFunction name qj pj key cap cell) b) i i1 w w1 _ old cell Hcn Es Er
      eq_refl eq_refl Hg Hhas Hrest Hcar Hcell N1 N2 N3) as (i2 & w2 & E2 & Hres).
    exists i2, w2. split; [|split; [|exact Hres]].
    + cbn [restore]. erewrite cbind_done by exact E. exact E2.
    + unfold brought_back. rewrite (fp_of_parse _ _ _ Pq), (fp_of_parse _ _ _ Pp). rewrite Ei in Hturn. exact Hturn.
Qed.

(** ** All of them *)

(** The name stands for the registration at [b], with the schemas, the key and the owner of
    the registration. *)
Definition listed (reg : Reg) (arena : string) (b : Broker) : Prop :=
  match reg with
  | RegChannel name json key _ _ => exists id, chan_by_name (b_reg b) !! name = Some id /\
      channels (b_reg b) !! id =
        Some (MkChannelMeta id name cid (fp_of json) (access_key_hash (key_or_empty key)) arena)
  | RegFunction name qj pj key _ _ => exists id, fn_by_name (b_reg b) !! name = Some id /\
      functions (b_reg b) !! id =
        Some (MkFunctionMeta id name cid (fp_of qj) (fp_of pj) (access_key_hash (key_or_empty key)) arena)
  end.

(** The registration is back: its publisher or service is bound to the arena that the
    broker lists, and the ring there is empty. *)
Definition back (reg : Reg) (i : Inner) (b : Broker) (w : world) : Prop :=
  exists arena ptr, let ring := mapped_arena arena ptr (cap_of reg) in
    listed reg arena b /\ i_cells i !! cell_of reg = Some ring /\ ring_geom ring /\ ring_has ring w [].

(** The broker [b'] knows all that [b] knows, and the same clients. *)
Record grows (b b' : Broker) : Prop := {
  gr_channels : channels (b_reg b) ⊆ channels (b_reg b');
  gr_chan_names : chan_by_name (b_reg b) ⊆ chan_by_name (b_reg b');
  gr_functions : functions (b_reg b) ⊆ functions (b_reg b');
  gr_fn_names : fn_by_name (b_reg b) ⊆ fn_by_name (b_reg b');
  gr_clients : clients (b_reg b') = clients (b_reg b);
}.

Lemma grows_refl b : grows b b.
Proof using. by constructor. Qed.

Lemma grows_trans b1 b2 b3 : grows b1 b2 -> grows b2 b3 -> grows b1 b3.
Proof using. intros [A1 A2 A3 A4 A5] [B1 B2 B3 B4 B5]. constructor; by etrans. Qed.

Lemma listed_grows reg arena b b' : grows b b' -> listed reg arena b -> listed reg arena b'.
Proof using.
  intros [G1 G2 G3 G4 _]. destruct reg; intros (id & Hn & Ho); exists id; split; by eapply lookup_weaken.
Qed.

Lemma brought_back_grows reg b : broker_inv b -> acceptable reg b -> grows b (brought_back reg b).
Proof using.
  intros Hb Ha. pose proof (bi_reg _ Hb) as Hr.
  destruct reg; destruct Ha as (_ & Hn & _); constructor; try done; apply insert_subseteq;
    first [exact Hn | exact (next_channel_fresh _ Hr) | exact (next_fn_fresh _ Hr)].
Qed.

Lemma listed_brought_back reg b : listed reg (arena_for reg b) (brought_back reg b).
Proof using. destruct reg; eexists; split; apply lookup_insert_eq. Qed.

(** There are ids for [n] more channels and functions. *)
Definition ids_for (n : nat) (r : Registry) : Prop :=
  next_client r < 2 ^ 63 - 1 /\ next_channel r + Z.of_nat n < 2 ^ 63 - 1 /\ next_fn r + Z.of_nat n < 2 ^ 63 - 1.

Lemma ids_for_left n r : ids_for n r -> ids_left r.
Proof using. unfold ids_for, ids_left. lia. Qed.

Lemma ids_for_next n reg b : broker_inv b -> ids_for (S n) (b_reg b) -> ids_for n (b_reg (brought_back reg b)).
Proof using.
  intros Hb (I1 & I2 & I3). pose proof (ri_next _ (bi_reg _ Hb)) as (N1 & N2 & N3).
  destruct reg; unfold ids_for; simpl; rewrite wrap_i_small by (unfold in_i; lia); lia.
Qed.

Fixpoint arenas_for (rs : list Reg) (b : Broker) : list string :=
  match rs with [] => [] | reg :: rs => arena_for reg b :: arenas_for rs (brought_back reg b) end.

Fixpoint acceptable_all (rs : list Reg) (b : Broker) : Prop :=
  match rs with
  | [] => True
  | reg :: rs => acceptable reg b /\ memory_for reg b /\ acceptable_all rs (brought_back reg b)
  end.

(** The broker has a turn for each registration, as the given process, at the given time. *)
Fixpoint replay_ticks (rs : list Reg) (b : Broker) (ls : Z) (bws : list (world * Z)) : list tick :=
  match rs, bws with
  | reg :: rs, (bw, t) :: bws => broker_tick b ls bw t :: replay_ticks rs (brought_back reg b) ls bws
  | _, _ => []
  end.

(** The connection is about to bring [rs] back, while the broker has its turns: the arenas
    come to where nothing is mapped, and the old ones are elsewhere. *)
Record replays (b : Broker) (ls : Z) (bws : list (world * Z)) (i : Inner) (w : world) (rs : list Reg) (ts : list tick)
    : Prop := {
  re_connected : connected i b w;
  re_sub : t_submission (i_transport i) = sub;
  re_rep : t_reply_ring (i_transport i) = rep;
  re_id : t_client_id (i_transport i) = cid;
  re_inv : broker_inv b;
  re_ids : ids_for (length rs) (b_reg b);
  re_acceptable : acceptable_all rs b;
  re_sys : w_sys w = cs;
  re_random : forall n, is_ok (sys_random cs n) = true;
  re_bsys : Forall (fun bwt => w_sys (fst bwt) = bs /\ Z.max 0 (w_now (fst bwt) - ls) < SWEEP_INTERVAL) bws;
  re_turns : length bws = length rs;
  re_ticks : w_ticks w = replay_ticks rs b ls bws ++ ts;
  re_free : forall a, a ∈ arenas_for rs b -> w_mem w !! place a = None;
  re_places : NoDup (place <$> arenas_for rs b);
  re_cells : NoDup (cell_of <$> rs);
  re_old : forall reg, reg ∈ rs -> exists old, i_cells i !! cell_of reg = Some old /\
    r_ptr old <> r_ptr sub /\ r_ptr old <> r_ptr rep /\ r_ptr old ∉ place <$> arenas_for rs b;
}.

Lemma replays_head b ls bw t bws i w reg rs ts : replays b ls ((bw, t) :: bws) i w (reg :: rs) ts ->
  exists old, resumable b ls bw i w reg old.
Proof using.
  intros [R1 R2 R3 R4 R5 R6 (A1 & A2 & _) R8 R9 [[B1 B2] _]%Forall_cons_1 _ R12 R13 _ _ R16].
  destruct (R16 reg (list_elem_of_here _ _)) as (old & E & N1 & N2 & N3). exists old. constructor; try done.
  - by eapply ids_for_left.
  - do 2 eexists. exact R12.
  - apply R13, list_elem_of_here.
  - split_and!; [done..|]. intros E2. apply N3. rewrite E2. apply list_elem_of_here.
Qed.

Lemma mapped_apart r q w a : ring_has r w q -> w_mem w !! a = None -> a <> r_ptr r.
Proof using. intros (bs0 & Hbs & _) Hn ->. congruence. Qed.

Lemma replays_tail b ls bw t bws i w i' w' reg rs ts old : replays b ls ((bw, t) :: bws) i w (reg :: rs) ts ->
  resumable b ls bw i w reg old -> broker_inv (brought_back reg b) ->
  resumed (brought_back reg b) (cell_of reg) (new_ring reg b) (r_ptr old) i w i' w' ->
  replays (brought_back reg b) ls bws i' w' rs ts.
Proof using.
  intros [R1 R2 R3 R4 R5 R6 (_ & _ & R7) R8 R9 [_ R10]%Forall_cons_1 R11 R12 R13 [R14 R15]%list.NoDup_cons [R16 R17]%list.NoDup_cons R18]
    Hres Hb [S1 S2 S3 S4 S5 S6 _ _ S9].
  pose proof (rb_cell _ _ _ _ _ _ _ Hres) as Hold. destruct (cn_empty _ _ _ R1) as [Hq1 Hq2]. rewrite R2 in Hq1. rewrite R3 in Hq2.
  destruct (R18 reg (list_elem_of_here _ _)) as (old' & E & _ & _ & N). rewrite Hold in E. injection E as <-.
  constructor; rewrite ?S2, ?S5; try done.
  - by apply ids_for_next.
  - by injection R11.
  - by rewrite S6, R12.
  - intros a Ha. assert (w_mem w !! place a = None) as Hn by (apply R13; by right).
    rewrite S9; [done | by apply (mapped_apart _ _ _ _ Hq1) | by apply (mapped_apart _ _ _ _ Hq2) | |].
    + intros E. apply R14. change (place (arena_for reg b)) with (r_ptr (new_ring reg b)). rewrite <- E.
      by apply list_elem_of_fmap_2.
    + intros E. apply N. right. rewrite <- E. by apply list_elem_of_fmap_2.
  - intros reg' Hin. destruct (R18 reg') as (old' & E & N1 & N2 & N3); [by right|].
    exists old'. split_and!; [|done|done|].
    + rewrite S4, list_lookup_insert_ne; [done|]. intros E2. apply R16. rewrite E2. by apply list_elem_of_fmap_2.
    + intros Hin2. apply N3. by right.
Qed.

(** What is there after the replay, and what is as before. *)
Record replayed (b : Broker) (ls : Z) (bws : list world) (i : Inner) (w : world) (rs : list Reg) (ts : list tick)
    (b' : Broker) (i' : Inner) (w' : world) : Prop := {
  rd_turns : turned_all b ls bws b';
  rd_connected : connected i' b' w';
  rd_inv : broker_inv b';
  rd_grows : grows b b';
  rd_back : forall reg, reg ∈ rs -> back reg i' b' w';
  rd_transport : i_transport i' = i_transport i;
  rd_conf : same_conf i i';
  rd_ticks : w_ticks w' = ts;
  rd_cells : forall cell, cell ∉ cell_of <$> rs -> i_cells i' !! cell = i_cells i !! cell;
  rd_others : forall p, p <> r_ptr sub -> p <> r_ptr rep -> p ∉ place <$> arenas_for rs b ->
    (forall reg old, reg ∈ rs -> i_cells i !! cell_of reg = Some old -> p <> r_ptr old) -> w_mem w' !! p = w_mem w !! p;
}.

(** One registration and then the others. *)
Lemma replayed_cons b ls bw bws i w reg rs ts old bws1 i1 w1 ts1 b' i' w' :
  let b1 := brought_back reg b in
  replays b ls bws i w (reg :: rs) ts -> resumable b ls bw i w reg old -> acceptable reg b ->
  resumed b1 (cell_of reg) (new_ring reg b) (r_ptr old) i w i1 w1 ->
  turned b ls bw b1 -> replayed b1 ls bws1 i1 w1 rs ts1 b' i' w' ->
  replayed b ls (bw :: bws1) i w (reg :: rs) ts1 b' i' w'.
Proof using.
  intros b1 [R1 R2 R3 _ Hb _ _ _ _ _ _ _ R13 [R14 R15]%list.NoDup_cons [R16 R17]%list.NoDup_cons R18] Hres Hacc
    [S1 S2 S3 S4 S5 S6 S7 S8 S9] Hturn [D0 D1 D2 D3 D4 D5 D6 D7 D8 D9].
  pose proof (rb_cell _ _ _ _ _ _ _ Hres) as Hold. destruct (cn_empty _ _ _ R1) as [Hq1 Hq2]. rewrite R2 in Hq1. rewrite R3 in Hq2.
  assert (w_mem w !! place (arena_for reg b) = None) as Hnew by (apply R13, list_elem_of_here).
  assert (forall cell, cell <> cell_of reg -> i_cells i1 !! cell = i_cells i !! cell) as Hcells
    by (intros cell Hne; rewrite S4; by apply list_lookup_insert_ne).
  assert (forall reg', reg' ∈ rs -> cell_of reg' <> cell_of reg) as Hapart.
  { intros reg' Hin E. apply R16. rewrite <- E. by apply list_elem_of_fmap_2. }
  constructor; try done.
  - by exists b1.
  - eapply grows_trans; [|exact D3]. by apply brought_back_grows.
  - intros reg' [->|Hin]%elem_of_cons; [|by apply D4]. exists (arena_for reg b), (place (arena_for reg b)).
    split_and!; [by eapply listed_grows, listed_brought_back | | exact S7 |].
    + rewrite D8, S4 by done. apply list_lookup_insert_eq. by eapply lookup_lt_Some.
    + eapply ring_has_mem; [exact S8|]. apply D9; [by apply (mapped_apart _ _ _ _ Hq1) | by apply (mapped_apart _ _ _ _ Hq2) | done |].
      intros reg' old' Hin E. rewrite Hcells in E by by apply Hapart.
      destruct (R18 reg') as (old2 & E2 & _ & _ & N); [by right|]. rewrite E in E2. injection E2 as <-.
      intros E3. apply N. rewrite <- E3. apply list_elem_of_here.
  - by rewrite D5.
  - destruct D6 as (? & ? & ? & ? & ? & ? & ?), S3 as (? & ? & ? & ? & ? & ? & ?). split_and!; congruence.
  - intros cell Hin. apply list.not_elem_of_cons in Hin as [Hne Hin]. by rewrite D8, Hcells.
  - intros p P1 P2 [P3 P4]%list.not_elem_of_cons P5. rewrite D9; try done.
    + apply S9; try done. eapply P5; [apply list_elem_of_here | exact Hold].
    + intros reg' old' Hin E. rewrite Hcells in E by by apply Hapart. eapply P5; [by right | exact E].
Qed.

Lemma replay_done rs ls : forall b bws i w ts, replays b ls bws i w rs ts ->
  exists b' i' w', restore_all rs i w = Done ((tt, i'), w') /\ replayed b ls (fst <$> bws) i w rs ts b' i' w'.
Proof using Hc.
  induction rs as [|reg rs IH]; intros b bws i w ts Hr.
  - exists b, i, w. split; [done|]. destruct Hr as [R1 _ _ _ R5 _ _ _ _ _ R11 R12 _ _ _ _].
    apply nil_length_inv in R11 as ->. constructor; try done.
    intros reg Hin. by apply elem_of_nil in Hin.
  - destruct bws as [|[bw t] bws]; [by pose proof (re_turns _ _ _ _ _ _ _ Hr)|].
    destruct (replays_head _ _ _ _ _ _ _ _ _ _ Hr) as (old & Hres).
    destruct (restore_one _ _ _ _ _ _ _ Hres) as (i1 & w1 & E1 & Hturn & Hdone).
    assert (broker_inv (brought_back reg b)) as Hb.
    { destruct Hturn as (m & v & E). exact (proj1 (turn_inv _ _ _ _ _ _ (rb_inv _ _ _ _ _ _ _ Hres) (rb_ids _ _ _ _ _ _ _ Hres) E)). }
    destruct (IH _ _ _ _ _ (replays_tail _ _ _ _ _ _ _ _ _ _ _ _ _ Hr Hres Hb Hdone)) as (b' & i' & w' & E2 & Hrest).
    exists b', i', w'. split; [cbn [restore_all]; by erewrite cbind_done by exact E1|].
    eapply replayed_cons; [exact Hr | exact Hres | apply Hres | exact Hdone | exact Hturn | exact Hrest].
Qed.
End replay.

(** ** The old bus *)

(** The mappings that a reconnect gives up: of the resolved functions, the control segment
    and the reply ring. *)
Definition old_mappings (i : Inner) : list Segment :=
  ((fun c => r_seg (cal_ring (snd c))) <$> map_to_list (i_callees i)) ++
  [t_control_seg (i_transport i); t_reply_seg (i_transport i)].

(** What is left of the old bus is mapped, apart from the control segment of the new broker,
    and each registration has a cell of its own. *)
Record leftovers (i : Inner) (b : Broker) (w : world) : Prop := {
  lo_segs : forall s, s ∈ old_mappings i -> is_Some (w_mem w !! seg_ptr s) /\ seg_ptr s <> seg_ptr (b_control_seg b);
  lo_arenas : forall reg, reg ∈ replay_order i -> exists old, i_cells i !! cell_of reg = Some old /\
    is_Some (w_mem w !! r_ptr old) /\ r_ptr old <> seg_ptr (b_control_seg b);
  lo_cells : NoDup (cell_of <$> replay_order i);
}.

Lemma replay_order_all i k reg : i_registry i !! k = Some reg -> reg ∈ replay_order i.
Proof.
  intros Hk. assert (reg ∈ snd <$> map_to_list (i_registry i)) as Hin.
  { apply list_elem_of_fmap. exists (k, reg). split; [done|]. by apply elem_of_map_to_list. }
  unfold replay_order. apply elem_of_app. destruct (is_channel reg) eqn:E; [left | right]; by apply list_elem_of_filter.
Qed.

Lemma drops_undisturbed segs w w' ps :
  drops_of segs w w' -> (forall s, s ∈ segs -> seg_ptr s ∉ ps) -> undisturbed ps w w'.
Proof.
  intros [Hm _ Hs Ht Hr _] Hd. constructor; try done. intros p Hp. rewrite Hm.
  apply lookup_foldr_delete_not_elem_of. rewrite list_elem_of_In, <- in_rev, <- list_elem_of_In.
  intros (s & -> & Hin)%list_elem_of_fmap. by apply (Hd s).
Qed.

(** [reconnect] up to the registration. *)
Lemma reconnect_moved `{ProtoSerde} i w tr w1 :
  bootstrap (i_reply_cap i) w = Done (Ok tr, w1) ->
  let i0 := set_transport tr (set_callees ∅ (set_pending ∅ i)) in
  exists w2, (forall ps, (forall s, s ∈ old_mappings i -> seg_ptr s ∉ ps) -> undisturbed ps w1 w2) /\
    forall id i1 w3 i2 w4, do_register dispatch_turn i0 w2 = Done ((Ok id, i1), w3) ->
      replay dispatch_turn i1 w3 = Done ((Ok tt, i2), w4) ->
      reconnect dispatch_turn (t_epoch (i_transport i)) i w = Done ((Ok tt, i2), w4).
Proof.
  intros Eb i0. set (callees := (fun c => r_seg (cal_ring (snd c))) <$> map_to_list (i_callees i)).
  destruct (drop_segments_done callees w1) as (wa & Ea & Ha).
  destruct (drop_segment_done (t_control_seg (i_transport i)) wa) as (wb & Eb2 & Hb%drops_of_one).
  destruct (drop_segment_done (t_reply_seg (i_transport i)) wb) as (w2 & Ec & Hd%drops_of_one).
  exists w2. split.
  - intros ps Hps. eapply drops_undisturbed; [|exact Hps].
    exact (drops_of_app _ _ _ _ _ Ha (drops_of_app _ _ _ _ _ Hb Hd)).
  - intros id i1 w3 i2 w4 Er Ep. unfold reconnect. erewrite cbind_done by reflexivity. rewrite Z.eqb_refl. cbn [negb].
    erewrite cbind_io_ok by (apply clift_done; exact Eb). erewrite cbind_done by reflexivity.
    erewrite cbind_done by (apply clift_done; exact Ea). erewrite cbind_done by reflexivity.
    erewrite cbind_done by (apply clift_done; erewrite bind_done by exact Eb2; exact Ec).
    erewrite cbind_done by reflexivity. erewrite cbind_io_ok by exact Er. by erewrite cbind_io_ok by exact Ep.
Qed.

(** ** A client that comes back *)

(** A new broker [b] serves on the bus of [w], and the client [i] will register there as [id]
    and find the state [b1]; what it takes to bring its registrations back: room, turns of
    the broker, and places for the new arenas. *)
Record returns `{ProtoSerde} `{!Sha256} (i : Inner) (b b1 : Broker) (tr : Transport) (ls : Z) (bw w : world)
    (bws : list (world * Z)) (place : string -> Z) : Prop := {
  rt_left : leftovers i b w;
  rt_ids : ids_for (length (replay_order i)) (b_reg b1);
  rt_acceptable : acceptable_all (t_client_id tr) (t_submission tr) (t_reply_ring tr) (w_sys bw) (w_sys w) place
    (replay_order i) b1;
  rt_random : forall n, is_ok (sys_random (w_sys w) n) = true;
  rt_turns : length bws = length (replay_order i) /\
    Forall (fun bwt => w_sys (fst bwt) = w_sys bw /\ Z.max 0 (w_now (fst bwt) - ls) < SWEEP_INTERVAL) bws;
  rt_places : NoDup (r_ptr (t_reply_ring tr) :: (place <$> arenas_for (t_client_id tr) place (replay_order i) b1));
  rt_free : forall a, a ∈ arenas_for (t_client_id tr) place (replay_order i) b1 -> w_mem w !! place a = None;
}.

Lemma replay_ready `{ProtoSerde} `{!Sha256} (i i1 : Inner) (b b1 : Broker) (tr : Transport) (ls : Z) (bw w w3 : world)
    (bws : list (world * Z)) (place : string -> Z) (pid epoch : Z) (ts : list tick) :
  returns i b b1 tr ls bw w bws place -> serving b w pid epoch -> r_ptr (t_submission tr) = seg_ptr (b_control_seg b) ->
  w_mem w !! r_ptr (t_reply_ring tr) = None ->
  connected i1 b1 w3 -> broker_inv b1 -> i_transport i1 = tr -> i_cells i1 = i_cells i -> w_sys w3 = w_sys w ->
  w_ticks w3 = replay_ticks (t_client_id tr) place (replay_order i) b1 ls bws ++ ts ->
  (forall p, p <> r_ptr (t_submission tr) -> p <> r_ptr (t_reply_ring tr) -> p ∉ seg_ptr <$> old_mappings i ->
     w_mem w3 !! p = w_mem w !! p) ->
  replays (t_client_id tr) (t_submission tr) (t_reply_ring tr) (w_sys bw) (w_sys w) place b1 ls bws i1 w3 (replay_order i) ts.
Proof.
  intros [[L1 L2 L3] R2 R3 R4 [R5 R6] [R7 R8]%list.NoDup_cons R9] Hsv Esub Hnew Hcn Hb Etr Ecells Es Et Hm.
  assert (forall s, is_Some (w_mem w !! s) -> forall a, w_mem w !! a = None -> a <> s) as Hapart
    by (intros s [x Hx] a Ha ->; congruence).
  assert (is_Some (w_mem w !! r_ptr (t_submission tr))) as Hctl.
  { rewrite Esub. destruct (sv_empty _ _ _ _ Hsv) as (x & Hx & _). rewrite (sv_sub _ _ _ _ Hsv) in Hx. by exists x. }
  constructor; try done; try by rewrite Etr.
  - intros a Ha. rewrite Hm; [by apply R9 | by apply Hapart, R9 | |].
    + intros E. apply R7. rewrite <- E. by apply list_elem_of_fmap_2.
    + intros (s & E & Hin)%list_elem_of_fmap. apply (Hapart _ (proj1 (L1 s Hin)) _ (R9 a Ha)). done.
  - intros reg Hin. destruct (L2 reg Hin) as (old & E & Ho & Hne). exists old. rewrite Ecells. split_and!; [done | by rewrite Esub | |].
    + apply not_eq_sym. by apply Hapart.
    + intros (a & E2 & Ha)%list_elem_of_fmap. apply (Hapart _ Ho _ (R9 a Ha)). done.
Qed.

(** C7: A client comes back. The broker was restarted: a new one serves on the bus. The
    client's [reconnect] gives up what it had mapped of the old bus, registers at the new
    broker, which enters it under the next id, and then goes through its registrations, the
    broker having a turn for each. At the end the client is connected to the new broker;
    the broker lists each of its channels and functions under its old name, with the same
    schemas and access key and the client as owner; and each publisher and service is bound
    to the new arena that the broker lists, whose ring is empty. *)
Theorem reconnect_over_the_bus `{ProtoSerde} `{!Sha256} (c : Catalog) (b : Broker) (i : Inner) (ls : Z) (bw w : world)
    (bws : list (world * Z)) (place : string -> Z) (pid epoch nonce corr : Z) (ts : list tick) (qf rf : Frame) :
  let id := next_client (b_reg b) in
  let cap := reply_cap_of (i_reply_cap i) in
  let ptr := reply_block w nonce (i_reply_cap i) in
  let m := MkRegister corr (i_app_name i) (i64 nonce) (client_segment nonce) 1000 (u32 (sys_getpid (w_sys w))) in
  let b1 := registered m (mapped_arena (client_segment nonce) ptr cap) b in
  let tr := set_client_id id (fresh_transport b epoch nonce cap ptr) in
  replay_codecs c -> serving b w pid epoch -> ids_left (b_reg b) ->
  joins b ls bw w nonce corr (i_reply_cap i) (replay_ticks id place (replay_order i) b1 ls bws ++ ts) ->
  returns i b b1 tr ls bw w bws place ->
  to_frame KRegister m = Done (Ok qf) -> sendable (b_submission b) qf ->
  to_frame KRegisterReply (MkRegisterReply corr id STATUS_OK "") = Done (Ok rf) -> sendable_in cap rf ->
  exists i' w' b', reconnect dispatch_turn (t_epoch (i_transport i)) i w = Done ((Ok tt, i'), w') /\
    turned_all b ls (bw :: (fst <$> bws)) b' /\ connected i' b' w' /\ broker_inv b' /\ w_ticks w' = ts /\
    t_client_id (i_transport i') = id /\ t_epoch (i_transport i') = epoch /\
    clients (b_reg b') = <[id := MkClientMeta (i_app_name i) (i32 (u32 (sys_getpid (w_sys w))))]> (clients (b_reg b)) /\
    i_registry i' = i_registry i /\ i_callees i' = ∅ /\
    forall k reg, i_registry i !! k = Some reg -> back id reg i' b' w'.
Proof.
  intros id cap ptr m b1 tr Hc Hsv Hids Hj Hrt Eq Hqf Er Hrf.
  destruct (joined c (rp_register c Hc) b ls bw w pid epoch nonce corr (i_reply_cap i) _ (i_app_name i) qf rf Hsv Hids Hj
    Eq Hqf Er Hrf) as (w1 & Eb & Hnew & Hm1 & Hjoin). fold id cap ptr m b1 in Eb, Hnew, Hm1, Hjoin.
  destruct (reconnect_moved i w _ w1 Eb) as (w2 & Hud & Hrec).
  pose proof Hrt as [[L1 _ _] _ _ _ _ _ _].
  assert (forall s, s ∈ old_mappings i -> seg_ptr s <> ptr) as Hold.
  { intros s Hs E. destruct (proj1 (L1 s Hs)) as [x Hx]. rewrite E in Hx. congruence. }
  destruct (Hjoin (set_transport (fresh_transport b epoch nonce cap ptr) (set_callees ∅ (set_pending ∅ i))) w2)
    as (i1 & w3 & E1 & Hturn & Hcn & Hsv1 & Htr & Hconf & Hcells & Hsys & Hticks & Hm3);
    [| reflexivity | reflexivity | by intros ? ? | ].
  { apply Hud. intros s Hs [E|[E|[]%elem_of_nil]%elem_of_cons]%elem_of_cons; [by apply (L1 s Hs) | by apply (Hold s Hs)]. }
  assert (forall p, p <> r_ptr (t_submission tr) -> p <> r_ptr (t_reply_ring tr) -> p ∉ seg_ptr <$> old_mappings i ->
    w_mem w3 !! p = w_mem w !! p) as Hm.
  { intros p P1 P2 P3. rewrite Hm3; [|exact P2 | by rewrite (sv_sub _ _ _ _ Hsv)].
    rewrite (ud_mem [p] w1 w2); [by apply Hm1 | | left]. apply Hud. intros s Hs [E|[]%elem_of_nil]%elem_of_cons.
    apply P3. rewrite <- E. by apply list_elem_of_fmap_2. }
  destruct (replay_done c Hc _ _ _ _ _ _ (replay_order i) ls b1 bws i1 w3 ts
    (replay_ready i i1 b b1 tr ls bw w w3 bws place pid epoch ts Hrt Hsv eq_refl Hnew Hcn (sv_inv _ _ _ _ Hsv1) Htr Hcells Hsys
       Hticks Hm)) as (b' & i' & w' & E2 & [D0 D1 D2 D3 D4 D5 D6 D7 _ _]).
  exists i', w', b'. destruct Hconf as (Ccal & _ & _ & _ & _ & Creg & _), D6 as (Dcal & _ & _ & _ & _ & Dreg & _).
  split; [|split_and!; try done].
  - eapply Hrec; [exact E1|]. apply replay_eq. unfold replay_order. rewrite Creg. exact E2.
  - exists b1. split; [exact Hturn | exact D0].
  - by rewrite D5, Htr.
  - by rewrite D5, Htr.
  - by rewrite (gr_clients _ _ D3).
  - by rewrite Dreg, Creg.
  - by rewrite Dcal, Ccal.
  - intros k reg Hk. by eapply D4, replay_order_all.
Qed.

(** ** A client with a channel and a function, and the broker that was restarted *)

Definition home_fd (name : string) (flags : Z) : Z :=
  if bool_decide (name = CONTROL_SEGMENT) then 3 else if bool_decide (name = channel_arena 1) then 5
  else if bool_decide (name = function_arena 1) then 6 else if flags =? O_RDWR then 7 else 4.
Definition home_place (name : string) : Z := if bool_decide (name = channel_arena 1) then 50001 else 50002.

(** Blocks 22 to 26 are left from the old bus: control segment, reply ring, two arenas of the
    client's own and one of a function it has called. *)
Definition old_ring (ptr : Z) : Ring := MkRing (MkSegment "/impulse-ring.old" ptr 64 false) 0 64 63.
Definition home_mem : gmap Z (list byte) :=
  <[22 := []]> (<[23 := []]> (<[24 := []]> (<[25 := []]> (<[26 := []]> join_mem)))).
Definition home_client : Inner :=
  MkInner (MkTransport (old_ring 22) (old_ring 23) "/impulse-ring.cli.5.v1" 5 3 900 (r_seg (old_ring 22)) (r_seg (old_ring 23)))
    ∅ [] [] {[("div", "") := MkCallee 1 2 (old_ring 26)]} "svc" 1 true true
    (<[0 := RegChannel "news" toy_long (Some "k") 0 0]> {[1 := RegFunction "add" toy_long toy_long None 0 1]}) 2
    [old_ring 24; old_ring 25].
Definition home_reply : Z := next_ptr home_mem.

(** The client maps what the broker has made, and its reply segment at a new address. *)
Definition home_sys : sys := Sys
  (fun name flags _ => (home_fd name flags, 0)) (fun _ _ => (0, 0)) (fun _ _ => (0, 0))
  (fun fd => (0, 0, if fd =? 3 then 262400 else ring_bytes news_cap))
  (fun size fd m => if fd =? 3 then (9001, 0, m) else if fd =? 5 then (50001, 0, m)
    else if fd =? 6 then (50002, 0, m) else demo_mmap size fd m)
  (fun _ => (0, 0)) (fun _ => Ok []) (fun _ _ => (0, 0)) 555 (Some 2000) (fun _ => Ok (le_bytes 8 77)) (fun _ => "error").

(** The broker makes each arena at its place. *)
Definition map_at (p size fd : Z) (m : gmap Z (list byte)) : Z * Z * gmap Z (list byte) :=
  match m !! p with None => (p, 0, <[p := replicate (Z.to_nat size) Byte.x00]> m) | Some _ => demo_mmap size fd m end.
Definition restart_sys : sys := Sys
  (fun name flags _ => (home_fd name flags, 0)) (fun _ _ => (0, 0)) (fun _ _ => (0, 0))
  (fun _ => (0, 0, ring_bytes join_cap))
  (fun size fd m => if fd =? 5 then map_at 50001 size fd m else if fd =? 6 then map_at 50002 size fd m else (home_reply, 0, m))
  (fun _ => (0, 0)) (fun _ => Ok []) (fun _ _ => (0, 0)) 4242 (Some 1000) (fun _ => Ok (le_bytes 8 0)) (fun _ => "error").
Definition restart_world : world := World ∅ 0 restart_sys [] 0 [].

Definition home_broker : Broker :=
  registered (MkRegister 77 "svc" 77 (client_segment 77) 1000 555) (mapped_arena (client_segment 77) home_reply join_cap) join_broker.
Definition home_turns : list (world * Z) := [(restart_world, 20); (restart_world, 30)].
Definition home_world : world := World home_mem 0 home_sys
  (broker_tick join_broker 0 restart_world 10 :: replay_ticks 1 home_place (replay_order home_client) home_broker 0 home_turns ++ [])
  0 [].

Lemma home_order : replay_order home_client = [RegChannel "news" toy_long (Some "k") 0 0; RegFunction "add" toy_long toy_long None 0 1].
Proof. vm_compute. reflexivity. Qed.

Lemma map_at_ok p size fd m ptr errno m' : 0 <= size -> 0 < p -> map_at p size fd m = (ptr, errno, m') ->
  ptr <> MAP_FAILED /\ m !! ptr = None /\ (exists bs, m' !! ptr = Some bs /\ blen bs = size) /\
  forall q, q <> ptr -> m' !! q = m !! q.
Proof.
  intros Hs Hp. unfold map_at. destruct (m !! p) eqn:E.
  - intros Hd. destruct (demo_mmap_ok size Hs fd m ptr errno m' Hd) as (Hn & Hb & Ho). split_and!; try done.
    injection Hd as <- _ _. pose proof (next_ptr_bounds m) as [? _]. unfold MAP_FAILED. lia.
  - intros [= <- _ <-]. split_and!; [unfold MAP_FAILED; lia | done | | intros q Hq; by apply lookup_insert_ne].
    eexists. split; [apply lookup_insert_eq|]. unfold blen. rewrite length_replicate. lia.
Qed.

Lemma home_memory reg b :
  arena_for reg b = channel_arena 1 \/ arena_for reg b = function_arena 1 -> cap_of reg = news_cap ->
  memory_for restart_sys home_sys home_place reg b.
Proof.
  intros Ha Ec. unfold memory_for. rewrite Ec.
  assert (0 <= ring_bytes news_cap) as H0 by (vm_compute; discriminate). revert H0.
  assert (forall fd, fd = 5 \/ fd = 6 -> snd (sys_fstat home_sys fd) = ring_bytes news_cap) as Hst
    by (intros fd [-> | ->]; reflexivity).
  revert Hst. generalize (ring_bytes news_cap) as size. intros size Hst H0.
  assert (exists fd p, 0 < p /\ (fd = 5 \/ fd = 6) /\ (forall flags, home_fd (arena_for reg b) flags = fd) /\
    home_place (arena_for reg b) = p /\ (forall m, sys_mmap restart_sys size fd m = map_at p size fd m) /\
    forall m, sys_mmap home_sys size fd m = (p, 0, m)) as (fd & p & Hp & Hfd & Efd & -> & Er & Eh).
  { destruct Ha as [-> | ->]; [exists 5, 50001 | exists 6, 50002]; split_and!; try done; lia. }
  unfold shm_creates, opens_at, lands. cbn [restart_sys home_sys sys_shm_open sys_fchmod sys_ftruncate fst]. rewrite !Efd.
  split_and!; try (simpl; lia).
  - intros m ptr errno m' E. rewrite Er in E. by eapply map_at_ok.
  - intros m Hm. rewrite Er. unfold map_at. by rewrite Hm.
  - by apply Hst.
  - intros m _. rewrite Eh. by exists 0.
Qed.

Lemma home_drawn corr : drawn home_sys corr -> corr = 77.
Proof. intros (w & w0 & Es & E). unfold next_corr, random_u64, getrandom, bind, ret in E. rewrite Es in E. by injection E. Qed.

Definition home_sub : Ring := submission_ring (control_mapping join_broker).
Definition home_rep : Ring := mapped_arena (client_segment 77) home_reply join_cap.

(** The messages of the replay, as the toy codec writes them. *)
Definition carries (oq or : outcome (io_result Frame)) : bool :=
  match oq, or with Done (Ok qf), Done (Ok rf) => sends home_sub qf && sends (mapped_arena "" 0 join_cap) rf | _, _ => false end.

Lemma home_frames :
  carries (to_frame KPublishChannel (MkPublishChannel 77 1 "news" toy_long "k" 0))
    (to_frame KPublishReply (MkPublishReply 77 1 (fp_to_i64 (fp_of toy_long)) (channel_arena 1) STATUS_OK "")) = true /\
  carries (to_frame KExposeFunction (MkExposeFunction 77 1 "add" toy_long toy_long "" 0))
    (to_frame KExposeReply (MkExposeReply 77 1 (fp_to_i64 (fp_of toy_long)) (fp_to_i64 (fp_of toy_long))
      (function_arena 1) STATUS_OK "")) = true.
Proof. split; vm_compute; reflexivity. Qed.

Lemma carries_ok sub rep oq or : carries oq or = true ->
  r_capacity sub = r_capacity home_sub -> r_capacity rep = join_cap ->
  exists qf rf, oq = Done (Ok qf) /\ sendable sub qf /\ or = Done (Ok rf) /\ sendable rep rf.
Proof.
  unfold carries. destruct oq as [[qf|]| | |]; try discriminate. destruct or as [[rf|]| | |]; try discriminate.
  intros [Hs1%sends_ok Hs2%sends_ok]%andb_true_iff Es Er. unfold sendable in *. rewrite <- Es in Hs1.
  change (r_capacity (mapped_arena "" 0 join_cap)) with join_cap in Hs2. rewrite <- Er in Hs2.
  exists qf, rf. split; [reflexivity|]. split; [exact Hs1|]. split; [reflexivity | exact Hs2].
Qed.

Lemma carries_exchanges {Q R} `{!Serde Q, !Serde R} sub rep kq (q : Z -> Q) kr (r : Z -> R) :
  r_capacity sub = r_capacity home_sub -> r_capacity rep = join_cap ->
  carries (to_frame kq (q 77)) (to_frame kr (r 77)) = true -> exchanges sub rep home_sys kq q kr r.
Proof. intros Es Er Hx corr Hd. apply home_drawn in Hd as ->. exact (carries_ok sub rep _ _ Hx Es Er). Qed.

Lemma home_acceptable : acceptable_all 1 home_sub home_rep restart_sys home_sys home_place (replay_order home_client) home_broker.
Proof.
  rewrite home_order. destruct home_frames as [F1 F2].
  assert (exists s fp, parse toy_long = Ok (s, fp)) as Hp by (do 2 eexists; exact (proj1 call_values)).
  assert (in_i 64 0) as H0 by (unfold in_i; lia).
  split; [|split; [|split; [|split; [|exact I]]]].
  - split; [exact H0|]. split; [reflexivity|]. split; [exact Hp|].
    exact (carries_exchanges home_sub home_rep KPublishChannel (fun corr => MkPublishChannel corr 1 "news" toy_long "k" 0)
      KPublishReply (fun corr => MkPublishReply corr 1 (fp_to_i64 (fp_of toy_long)) (channel_arena 1) STATUS_OK "")
      eq_refl eq_refl F1).
  - apply home_memory; [left; reflexivity | reflexivity].
  - split; [exact H0|]. split; [reflexivity|]. split; [exact Hp|]. split; [exact Hp|].
    exact (carries_exchanges home_sub home_rep KExposeFunction (fun corr => MkExposeFunction corr 1 "add" toy_long toy_long "" 0)
      KExposeReply (fun corr => MkExposeReply corr 1 (fp_to_i64 (fp_of toy_long)) (fp_to_i64 (fp_of toy_long)) (function_arena 1)
        STATUS_OK "") eq_refl eq_refl F2).
  - apply home_memory; [right; reflexivity | reflexivity].
Qed.

Lemma home_mem_other p : (p < 22 \/ 26 < p) -> home_mem !! p = join_mem !! p.
Proof. intros Hp. unfold home_mem. rewrite !lookup_insert_ne by lia. reflexivity. Qed.

Lemma home_serving : serving join_broker home_world 4242 1000.
Proof. apply (serving_mem join_broker join_world); [apply home_mem_other; simpl; lia | exact join_serving]. Qed.

Lemma home_reply_at : home_reply = 9002.
Proof. reflexivity. Qed.

Lemma home_arenas : arenas_for 1 home_place (replay_order home_client) home_broker = [channel_arena 1; function_arena 1].
Proof. rewrite home_order. reflexivity. Qed.

Lemma home_joins : joins join_broker 0 restart_world home_world 77 77 1
  (replay_ticks 1 home_place (replay_order home_client) home_broker 0 home_turns ++ []).
Proof.
  constructor.
  - unfold in_u. lia.
  - split_and!; [done | done | reflexivity |]. intros m _. by exists 0.
  - by do 2 eexists.
  - assert (0 <= ring_bytes join_cap) as H0 by (vm_compute; discriminate).
    assert (ring_bytes (reply_cap_of 1) = ring_bytes join_cap) as -> by reflexivity.
    revert H0. generalize (ring_bytes join_cap) as size. intros size H0.
    split_and!; [done | done | done |]. intros m ptr errno m' E.
    destruct (demo_mmap_ok size H0 4 m ptr errno m' E) as (Hn & Hbs & Ho).
    split_and!; [|done..]. injection E as <- _ _. pose proof (next_ptr_bounds m) as [Hb _]. unfold MAP_FAILED. lia.
  - intros ptr _. change ptr with home_reply. split_and!; [done | done | reflexivity |]. intros m _. by exists 0.
  - by eexists.
  - unfold SWEEP_INTERVAL, MILLIS. simpl. lia.
Qed.

Definition home_transport : Transport := set_client_id 1 (fresh_transport join_broker 1000 77 join_cap home_reply).

Lemma home_leftovers : leftovers home_client join_broker home_world.
Proof.
  constructor.
  - assert (old_mappings home_client = r_seg <$> [old_ring 26; old_ring 22; old_ring 23]) as -> by (vm_compute; reflexivity).
    intros s (r & -> & Hin)%list_elem_of_fmap. simpl in Hin. rewrite !elem_of_cons, elem_of_nil in Hin.
    destruct Hin as [-> | [-> | [-> | []]]]; (split; [by exists [] | done]).
  - rewrite home_order. intros reg [-> | [-> | []%elem_of_nil]%elem_of_cons]%elem_of_cons;
      eexists; (split; [reflexivity|]); (split; [by exists [] | done]).
  - rewrite home_order. simpl. apply list.NoDup_cons. split; [|apply NoDup_singleton].
    by intros [E | []%elem_of_nil]%elem_of_cons.
Qed.

Lemma home_returns : returns home_client join_broker home_broker home_transport 0 restart_world home_world home_turns home_place.
Proof.
  constructor.
  - exact home_leftovers.
  - rewrite home_order. vm_compute. split_and!; reflexivity.
  - exact home_acceptable.
  - done.
  - rewrite home_order. split; [reflexivity|]. repeat constructor; unfold SWEEP_INTERVAL, MILLIS; simpl; lia.
  - change (t_client_id home_transport) with 1. rewrite home_arenas.
    change (NoDup [home_reply; 50001; 50002]). rewrite home_reply_at. apply (bool_decide_eq_true_1 (NoDup _)). reflexivity.
  - change (t_client_id home_transport) with 1. rewrite home_arenas.
    intros a [-> | [-> | []%elem_of_nil]%elem_of_cons]%elem_of_cons;
      (etrans; [apply home_mem_other; right; reflexivity | apply lookup_singleton_ne; discriminate]).
Qed.

Definition home_request : Frame := frame_of (to_frame KRegister (MkRegister 77 "svc" 77 (client_segment 77) 1000 555)).
Definition home_answer : Frame := frame_of (to_frame KRegisterReply (MkRegisterReply 77 1 STATUS_OK "")).

Lemma home_register :
  to_frame KRegister (MkRegister 77 "svc" 77 (client_segment 77) 1000 555) = Done (Ok home_request) /\
  sends (b_submission join_broker) home_request = true /\
  to_frame KRegisterReply (MkRegisterReply 77 1 STATUS_OK "") = Done (Ok home_answer) /\
  sends (mapped_arena "" 0 join_cap) home_answer = true.
Proof. split_and!; vm_compute; reflexivity. Qed.

Lemma reconnect_over_the_bus_witness :
  exists i' w' b', reconnect dispatch_turn 900 home_client home_world = Done ((Ok tt, i'), w') /\
    turned_all join_broker 0 [restart_world; restart_world; restart_world] b' /\ connected i' b' w' /\ broker_inv b' /\
    w_ticks w' = [] /\ t_client_id (i_transport i') = 1 /\ t_epoch (i_transport i') = 1000 /\
    clients (b_reg b') = <[1 := MkClientMeta "svc" 555]> ∅ /\
    i_registry i' = i_registry home_client /\ i_callees i' = ∅ /\
    forall k reg, i_registry home_client !! k = Some reg -> back 1 reg i' b' w'.
Proof.
  destruct home_register as (F1 & F2 & F3 & F4).
  exact (reconnect_over_the_bus toy_catalog join_broker home_client 0 restart_world home_world home_turns home_place
    4242 1000 77 77 [] home_request home_answer
    ltac:(constructor; [exact toy_channel_codecs | exact toy_function_codecs | exact toy_register_codecs])
    home_serving ltac:(by split_and!) home_joins home_returns F1 (sends_ok _ _ F2) F3 (sends_ok _ _ F4)).
Defined.
