(* ===== verification/BusGoodbye.v ===== *)
(** * Taking leave, over the bus

    The two messages that nobody answers. A publisher that is dropped sends an unpublish,
    a connection that is dropped an unregister; the broker finds the message in its next
    turn. A released channel that was never subscribed to is left to the sweep, in the
    turns in which nobody asks the broker for anything. *)

From S2P Require Import Prelude Machine Shm Circ Ring RingMem RingSpec RingThm RingPop Demo Frame Control Util Avro Proto Toy ProtoProps Registry RegistryThm RegistryProps Broker BrokerThm BrokerOps BrokerProps BrokerFlow Client ClientThm ClientProps Bus BusArena BusProps RpcThm Rpc Connection ConnectionProps RpcBus BusChannel BusConnect.

Record goodbye_codecs `{ProtoSerde} (c : Catalog) : Prop := {
  gb_bus : bus_codecs c;
  gb_unpublish s : c_schema c KUnpublish = Done s -> codec_ok Unpublish s;
  gb_unregister s : c_schema c KUnregister = Done s -> codec_ok Unregister s;
}.

(** The segments of the broker's arenas lie apart from the two rings of the client. *)
Definition arenas_apart (b : Broker) (tr : Transport) : Prop := forall n s, b_arenas b !! n = Some s ->
  seg_ptr s <> r_ptr (t_submission tr) /\ seg_ptr s <> r_ptr (t_reply_ring tr).

(** ** Sending and being heard *)

Lemma sent_off i b w qf timeout :
  wired i b w -> sendable (t_submission (i_transport i)) qf ->
  exists w1 evs, submit qf timeout i w = Done ((true, i), w1) /\
    ring_has (t_submission (i_transport i)) w1 [encode qf] /\ ring_only (t_submission (i_transport i)) w w1 evs.
Proof.
  intros [_ _ [Hg _] _ [Hs _]] [_ Hroom].
  destruct (push_blocking_room _ Hg w [] (encode qf) (Some timeout) Hs Hroom) as (w1 & E & Hq & Ho).
  exists w1. eexists. split_and!; [|exact Hq | exact Ho]. unfold submit. erewrite cbind_done by reflexivity.
  by apply clift_done.
Qed.

Lemma turn_hears `{ProtoSerde} `{!Sha256} (b : Broker) (ls : Z) (w : world) (bytes : list byte) :
  ring_geom (b_submission b) -> ring_has (b_submission b) w [bytes] -> Z.max 0 (w_now w - ls) < SWEEP_INTERVAL ->
  exists w1 evs, ring_has (b_submission b) w1 [] /\ ring_only (b_submission b) w w1 evs /\
    forall b' r w', handle b bytes w1 = Done ((b', r), w') -> w_now w' = w_now w1 ->
      turn b ls w = Done ((b', ls), w').
Proof.
  intros Hg Hq Hs. destruct (pop_blocking_ready _ Hg w bytes [] (Some POP_TIMEOUT) Hq) as (w1 & E1 & Hq1 & Ho).
  exists w1. eexists. split_and!; [exact Hq1 | exact Ho|]. intros b' r w' E2 En. unfold turn.
  rewrite (bind_done _ _ _ _ _ E1), bind_assoc, (bind_done _ _ _ _ _ E2), bind_ret.
  unfold now. unfold bind at 1. rewrite En, (ro_now _ _ _ _ Ho). by rewrite (proj2 (Z.leb_gt _ _) Hs).
Qed.

(** ** What becomes of a channel *)

Record present (id : Z) (ch : ChannelMeta) (b : Broker) : Prop := {
  pr_chan : channels (b_reg b) !! id = Some ch;
  pr_name : chan_by_name (b_reg b) !! ch_name ch = Some id;
  pr_arena : is_Some (b_arenas b !! ch_arena ch);
}.

Record gone (id : Z) (ch : ChannelMeta) (b : Broker) : Prop := {
  go_chan : channels (b_reg b) !! id = None;
  go_name : chan_by_name (b_reg b) !! ch_name ch = None;
  go_arena : b_arenas b !! ch_arena ch = None;
}.

(** From [b] to [b'] channels went away, and nothing else changed. *)
Record shrinks (b b' : Broker) : Prop := {
  sh_inv : broker_inv b';
  sh_sub : b_submission b' = b_submission b;
  sh_ctl : b_control_seg b' = b_control_seg b;
  sh_channels : channels (b_reg b') ⊆ channels (b_reg b);
  sh_functions : functions (b_reg b') = functions (b_reg b);
  sh_clients : clients (b_reg b') = clients (b_reg b);
  sh_rings : b_reply_rings b' = b_reply_rings b;
  sh_arenas : b_arenas b' ⊆ b_arenas b;
}.

Lemma present_inv id ch b : broker_inv b -> channels (b_reg b) !! id = Some ch -> present id ch b.
Proof.
  intros Hb Hc. constructor; [done | |].
  - by apply (ri_chan _ (bi_reg _ Hb)) in Hc as [_ ?].
  - apply (bi_arenas _ Hb). left. by exists id, ch.
Qed.

(** Names and ids are unique, so a channel leaves neither its name nor its arena behind. *)
Lemma gone_after id ch b b' :
  broker_inv b -> channels (b_reg b) !! id = Some ch -> shrinks b b' -> channels (b_reg b') !! id = None -> gone id ch b'.
Proof.
  intros Hb Hc [Hb' _ _ Hsub _ _ _ _] Hn. constructor; [done | |].
  - apply (chan_name_free _ _ (bi_reg _ Hb')). intros id' c' Hc' E.
    pose proof (lookup_weaken _ _ _ _ Hc' Hsub) as Hc2.
    rewrite (chan_name_inj (b_reg b) (bi_reg _ Hb) id' id c' ch Hc2 Hc E) in Hc'. congruence.
  - destruct (b_arenas b' !! ch_arena ch) as [s|] eqn:Ea; [|done]. exfalso.
    assert (is_Some (b_arenas b' !! ch_arena ch)) as Hs by by exists s.
    rewrite (proj1 (bi_chan _ Hb _ _ Hc)) in Hs. apply (bi_arenas _ Hb') in Hs as [(id' & c' & Hc' & E)|(id' & f & Hf & E)].
    + rewrite (proj1 (bi_chan _ Hb' _ _ Hc')) in E. apply channel_arena_inj in E as <-. congruence.
    + rewrite (proj1 (bi_fn _ Hb' _ _ Hf)) in E. by apply channel_function_arena in E.
Qed.

Lemma gone_shrinks id ch b b' : gone id ch b -> broker_inv b -> shrinks b b' -> gone id ch b'.
Proof.
  intros [G1 G2 G3] Hb [Hb' _ _ Hc _ _ _ Ha]. constructor.
  - by apply (lookup_weaken_None _ _ _ G1).
  - apply (chan_name_free _ _ (bi_reg _ Hb')). intros id' c' Hc'.
    exact (proj1 (chan_name_free _ _ (bi_reg _ Hb)) G2 id' c' (lookup_weaken _ _ _ _ Hc' Hc)).
  - by apply (lookup_weaken_None _ _ _ G3).
Qed.

Lemma shrinks_refl b : broker_inv b -> shrinks b b.
Proof. by constructor. Qed.

(** ** A turn in which nobody asks *)

(** The world in which the broker finds itself: its ring is empty and stays so for longer
    than the broker waits. *)
Record nobody_asks (b : Broker) (v : world) : Prop := {
  na_empty : ring_has (b_submission b) v [];
  na_quiet : Forall (tick_quiet (b_submission b)) (w_ticks v);
  na_passes : passes (w_now v + POP_TIMEOUT) (w_ticks v);
}.

(** The broker after a sweep at [t]. *)
Definition swept (t : Z) (b : Broker) : Broker :=
  let (reg, arenas) := reap_released RELEASE_GRACE t (b_reg b) in
  set_arenas (without arenas (b_arenas b)) (set_reg reg b).

Lemma swept_spec t b : broker_inv b ->
  shrinks b (swept t b) /\
  (forall id, is_due_at (b_reg b) t RELEASE_GRACE id -> channels (b_reg (swept t b)) !! id = None) /\
  (forall id, ~ is_due_at (b_reg b) t RELEASE_GRACE id ->
     channels (b_reg (swept t b)) !! id = channels (b_reg b) !! id /\
     released (b_reg (swept t b)) !! id = released (b_reg b) !! id).
Proof.
  intros Hb. destruct (reclaim_arenas_done (snd (reap_released RELEASE_GRACE t (b_reg b)))
    (set_reg (fst (reap_released RELEASE_GRACE t (b_reg b))) b) (World ∅ 0 demo_sys [] 0 [])) as (w' & E & _).
  destruct (reap_inv t b (World ∅ 0 demo_sys [] 0 []) (swept t b) w' Hb) as [Hinv _].
  { unfold swept. by destruct (reap_released RELEASE_GRACE t (b_reg b)). }
  destruct (reap_released_spec RELEASE_GRACE t (b_reg b) (bi_reg _ Hb)) as (_ & (S1 & S2 & _) & Hgone & Hkeep & _).
  unfold swept in *. destruct (reap_released RELEASE_GRACE t (b_reg b)) as [reg arenas]. cbn [fst snd] in *.
  split; [|split; [intros id Hd; by apply Hgone | exact Hkeep]].
  constructor; try done.
  - apply map_subseteq_spec. intros id c. cbn [set_arenas set_reg b_reg].
    destruct (decide (is_due_at (b_reg b) t RELEASE_GRACE id)) as [Hd|Hd];
      [by rewrite (proj1 (Hgone id Hd)) | by rewrite (proj1 (Hkeep id Hd))].
  - apply map_subseteq_spec. intros n s. cbn [set_arenas b_arenas]. rewrite lookup_without. by case_decide.
Qed.

(** Arenas that a step of the broker gave up, and what the system heard of it. *)
Definition unlinked (b b' : Broker) (w' : world) : Prop :=
  forall n, is_Some (b_arenas b !! n) -> b_arenas b' !! n = None -> EvUnlink n ∈ w_log w'.

Lemma arena_has_no_nul b n s : broker_inv b -> b_arenas b !! n = Some s -> has_nul n = false.
Proof.
  intros Hb Hn. assert (is_Some (b_arenas b !! n)) as Hs by by exists s.
  apply (bi_arenas _ Hb) in Hs as [(id & c & Hc & ->)|(id & f & Hf & ->)].
  - rewrite (proj1 (bi_chan _ Hb _ _ Hc)). apply (has_nul_seg_id (SegChannel id)).
  - rewrite (proj1 (bi_fn _ Hb _ _ Hf)). apply (has_nul_seg_id (SegFunction id)).
Qed.

(** Segments that are dropped, an arena of the broker among them, are unlinked. *)
Lemma drops_unlink b segs n s w w' :
  broker_inv b -> drops_of segs w w' -> b_arenas b !! n = Some s -> s ∈ segs -> EvUnlink n ∈ w_log w'.
Proof.
  intros Hb [_ _ _ _ _ Hlog] Hn Hs. rewrite Hlog. apply elem_of_app. right. apply unlink_in_drops.
  destruct (bi_segs _ Hb _ _ Hn) as [E1 E2]. exists s. split_and!; [done | done | by eapply arena_has_no_nul | done].
Qed.

Lemma turn_idle `{ProtoSerde} `{!Sha256} (b : Broker) (ls : Z) (v : world) :
  broker_inv b -> ring_geom (b_submission b) -> nobody_asks b v ->
  exists b' ls' v', turn b ls v = Done ((b', ls'), v') /\ w_now v + POP_TIMEOUT <= w_now v' /\ unlinked b b' v' /\
    if SWEEP_INTERVAL <=? Z.max 0 (w_now v' - ls) then b' = swept (w_now v') b /\ ls' = w_now v'
    else b' = b /\ ls' = ls.
Proof.
  intros Hb Hg [Hq Ht Hp]. destruct (pop_blocking_quiet _ Hg v POP_TIMEOUT Hq Ht Hp) as (v1 & k & E1 & Hid & Hnow).
  unfold turn. rewrite (bind_done _ _ _ _ _ E1), bind_ret. unfold now. unfold bind at 1.
  destruct (SWEEP_INTERVAL <=? Z.max 0 (w_now v1 - ls)) eqn:Es.
  - unfold swept. destruct (reap_released RELEASE_GRACE (w_now v1) (b_reg b)) as [reg arenas] eqn:Er.
    destruct (reclaim_arenas_done arenas (set_reg reg b) v1) as (v2 & E2 & Hdr).
    rewrite (bind_done _ _ _ _ _ E2). do 3 eexists. rewrite (wd_now _ _ _ _ Hdr), Es, Er. split_and!; try done.
    intros n [s Hn] Hn'. cbn [set_arenas b_arenas set_reg] in Hn'. rewrite lookup_without in Hn'.
    case_decide as Hin; [|congruence]. eapply (drops_unlink b _ n s); [done | exact Hdr | done|].
    apply elem_of_taken. by exists n.
  - do 3 eexists. rewrite Es. split_and!; try done. intros n [s Hn] Hn'. congruence.
Qed.

(** The broker's turns in the worlds [vs], one after the other: each returns, after its
    timeout at least, and unlinks what it gives up; [P] holds of the broker and of the
    clock after the last. *)
Fixpoint left_alone `{ProtoSerde} `{!Sha256} (b : Broker) (ls t : Z) (vs : list world) (P : Broker -> Z -> Prop) : Prop :=
  match vs with
  | [] => P b t
  | v :: vs => nobody_asks b v -> t <= w_now v -> exists b' ls' v', turn b ls v = Done ((b', ls'), v') /\
      w_now v + POP_TIMEOUT <= w_now v' /\ unlinked b b' v' /\ left_alone b' ls' (w_now v') vs P
  end.

(** The channel [id] was released at [t0]: the sweeps leave it alone until its grace is over. *)
Record awaits_sweep (t0 id : Z) (ch : ChannelMeta) (b : Broker) (ls t : Z) : Prop := {
  aw_inv : broker_inv b;
  aw_time : ls <= t;
  aw_present : ls < t0 + RELEASE_GRACE -> present id ch b /\ released (b_reg b) !! id = Some t0;
  aw_gone : t0 + RELEASE_GRACE <= ls -> gone id ch b;
}.

Lemma turn_awaits t0 id ch b ls t t' (b' : Broker) (ls' : Z) :
  awaits_sweep t0 id ch b ls t -> t <= t' ->
  (if SWEEP_INTERVAL <=? Z.max 0 (t' - ls) then b' = swept t' b /\ ls' = t' else b' = b /\ ls' = ls) ->
  awaits_sweep t0 id ch b' ls' t' /\ t' < ls' + SWEEP_INTERVAL /\ shrinks b b'.
Proof.
  intros [Hb Hls Hp Hg] Ht. destruct (Z.leb_spec SWEEP_INTERVAL (Z.max 0 (t' - ls))) as [Hs|Hs].
  2:{ intros [-> ->]. split; [constructor; (done || lia)|]. split; [lia | by apply shrinks_refl]. }
  intros [-> ->]. destruct (swept_spec t' b Hb) as (Hsh & Hgone & Hkeep).
  split; [|split; [unfold SWEEP_INTERVAL, MILLIS; lia | done]]. constructor; [apply Hsh | lia | |].
  - intros Hlt. destruct Hp as [[P1 _ _] Hrel]; [lia|]. destruct (Hkeep id) as [Kc Kr].
    { intros (t2 & Et2 & Hd%Z.leb_le). rewrite Hrel in Et2. injection Et2 as <-. unfold RELEASE_GRACE, MILLIS in *. lia. }
    split; [|by rewrite Kr]. apply present_inv; [apply Hsh | by rewrite Kc].
  - intros Hge. destruct (Z.le_gt_cases (t0 + RELEASE_GRACE) ls) as [Hle|Hgt]; [by eapply gone_shrinks; [apply Hg| |]|].
    destruct Hp as [[P1 _ _] Hrel]; [lia|]. apply (gone_after id ch b); try done.
    apply Hgone. exists t0. split; [done|]. apply Z.leb_le. lia.
Qed.

(** The sweep takes the channel once it is due, and not before. *)
Lemma left_alone_sweeps `{ProtoSerde} `{!Sha256} t0 id ch (vs : list world) : forall (b : Broker) (ls t : Z),
  ring_geom (b_submission b) -> awaits_sweep t0 id ch b ls t -> t < ls + SWEEP_INTERVAL ->
  left_alone b ls t vs (fun b' t' => broker_inv b' /\ t + Z.of_nat (length vs) * POP_TIMEOUT <= t' /\
    (t' < t0 + RELEASE_GRACE -> present id ch b') /\ (t0 + RELEASE_GRACE + SWEEP_INTERVAL <= t' -> gone id ch b')).
Proof.
  assert (forall b ls t vs (P Q : Broker -> Z -> Prop), (forall b' t', P b' t' -> Q b' t') ->
    left_alone b ls t vs P -> left_alone b ls t vs Q) as Hweak.
  { intros b ls t vs0. revert b ls t. induction vs0 as [|v vs0 IH]; intros b ls t P Q HPQ; [apply HPQ|].
    intros Hl Hn Ht. destruct (Hl Hn Ht) as (b' & ls' & v' & E & Hnow & Hu & Hrest). exists b', ls', v'.
    split_and!; [done | done | done|]. by eapply IH. }
  induction vs as [|v vs IH]; intros b ls t Hg Ha Hlt; cbn [left_alone length].
  - destruct Ha as [Hb Hls Hp Hgone]. split_and!; [done | lia | intros ?; apply Hp; lia | intros ?; apply Hgone; lia].
  - intros Hn Ht. destruct (turn_idle b ls v (aw_inv _ _ _ _ _ _ Ha) Hg Hn) as (b' & ls' & v' & E & Hnow & Hu & Hcase).
    assert (0 <= POP_TIMEOUT) as Hpos by (vm_compute; discriminate).
    destruct (turn_awaits _ _ _ _ _ _ (w_now v') b' ls' Ha) as (Ha' & Hlt' & Hsh); [lia | done |].
    exists b', ls', v'. split_and!; [done | done | done|].
    eapply Hweak; [|apply (IH b' ls' (w_now v')); [by rewrite (sh_sub _ _ Hsh) | done | done]].
    intros b2 t2 (Q1 & Q2 & Q3). split_and!; [done | lia | apply Q3..].
Qed.

(** ** The handlers *)

(** What the handler of such a message does to the world: it takes no time, and of the
    memory only arenas of [b] and segments of [more] go. *)
Record farewell (b : Broker) (more : list Segment) (w w' : world) : Prop := {
  fw_now : w_now w' = w_now w;
  fw_mem : forall p, (forall n s, b_arenas b !! n = Some s -> seg_ptr s <> p) -> (forall s, s ∈ more -> seg_ptr s <> p) ->
    w_mem w' !! p = w_mem w !! p;
}.

Lemma farewell_drops b more segs w w' :
  drops_of segs w w' -> (forall s, s ∈ segs -> (exists n, b_arenas b !! n = Some s) \/ s ∈ more) -> farewell b more w w'.
Proof.
  intros [Hm Hn _ _ _ _] Hs. constructor; [done|]. intros p Hp1 Hp2. rewrite Hm.
  apply lookup_foldr_delete_not_elem_of. rewrite list_elem_of_In, <- in_rev, <- list_elem_of_In.
  intros (s & -> & Hin)%list_elem_of_fmap. destruct (Hs s Hin) as [[n E]|E]; [by eapply Hp1 | by eapply Hp2].
Qed.

Lemma unpublish_handled `{ProtoSerde} `{!Sha256} c (b : Broker) (m : Unpublish) (qf : Frame) id ch w :
  goodbye_codecs c -> broker_inv b -> to_frame KUnpublish m = Done (Ok qf) -> frame_wf qf ->
  channels (b_reg b) !! id = Some ch -> ch_name ch = unpublish_channel m -> ch_owner ch = unpublish_client_id m ->
  exists b' w', handle b (encode qf) w = Done ((b', Ok tt), w') /\ farewell b [] w w' /\ shrinks b b' /\ unlinked b b' w' /\
    (forall id', id' <> id -> channels (b_reg b') !! id' = channels (b_reg b) !! id') /\
    if decide (id ∈ subscribed (b_reg b)) then gone id ch b'
    else present id ch b' /\ released (b_reg b') !! id = Some (w_now w).
Proof.
  intros [[Hcat _ Hfp _ _] Hun _] Hb Eq Hwf Hch Hname Hown.
  destruct (to_frame_inv c _ _ _ Hcat Eq) as (s0 & fp0 & _ & Efp & _ & Eqf & _).
  assert (forall b' w', on_unpublish b qf w = Done ((b', Ok tt), w') -> handle b (encode qf) w = Done ((b', Ok tt), w')) as Hh.
  { intros b' w' E. unfold handle. rewrite (decode_encode _ Hwf). erewrite bind_done by (unfold lift; by rewrite Hcat).
    by rewrite Eqf, (proj1 (Hfp _ _ Efp)). }
  pose proof (release_channel_inv _ (bi_reg _ Hb) (unpublish_channel m) (unpublish_client_id m) (w_now w)) as Hi.
  unfold on_unpublish, try_in in Hh.
  erewrite bind_done in Hh by (unfold lift; by rewrite (from_frame_to_frame c _ _ _ Hcat Hun Eq)).
  cbv beta iota in Hh. unfold now in Hh. unfold bind at 1 in Hh. unfold release_channel in Hh, Hi.
  destruct (present_inv id ch b Hb Hch) as [_ Hn _]. rewrite Hname in Hn. rewrite Hn, bool_decide_true in Hh, Hi
    by by rewrite Hch, <- Hown.
  cbn [negb] in Hh, Hi. destruct (decide (id ∈ subscribed (b_reg b))) as [Hsub|Hsub].
  - rewrite bool_decide_true in Hh, Hi by done.
    destruct (drop_channel_spec (b_reg b) id ch Hch) as (Ea & Ech & _ & _ & Hsame).
    destruct (drop_channel id (b_reg b)) as [r1 a]. cbn [fst snd] in *. subst a.
    destruct (reclaim_arena_done (ch_arena ch) (set_reg r1 b) w) as (w2 & E2 & Hw2).
    set (b' := set_arenas (delete (ch_arena ch) (b_arenas (set_reg r1 b))) (set_reg r1 b)).
    pose proof (chan_gone_inv b r1 id ch Hb Hch Hi Hsame Ech) as Hb'.
    assert (shrinks b b') as Hsh.
    { destruct Hsame as (S1 & S2 & _). constructor; try done.
      - change (channels r1 ⊆ channels (b_reg b)). rewrite Ech. apply delete_subseteq.
      - apply delete_subseteq. }
    destruct (pr_arena _ _ _ (present_inv id ch b Hb Hch)) as [s Es]. cbn [set_reg b_arenas] in Hw2. rewrite Es in Hw2.
    apply drops_of_one in Hw2. exists b', w2. split_and!.
    + apply Hh. by rewrite (bind_done _ _ _ _ _ E2).
    + eapply farewell_drops; [exact Hw2|]. intros s' ->%list_elem_of_singleton. left. by exists (ch_arena ch).
    + done.
    + intros n [s' Hs'] Hn'. cbn [b' set_arenas set_reg b_arenas] in Hn'.
      destruct (decide (n = ch_arena ch)) as [->|Hne]; [|rewrite lookup_delete_ne in Hn' by done; congruence].
      apply (drops_unlink b [s] _ s w w2 Hb Hw2 Es). by apply list_elem_of_singleton.
    + intros id' Hne. change (channels r1 !! id' = channels (b_reg b) !! id'). rewrite Ech. by apply lookup_delete_ne.
    + apply (gone_after id ch b b' Hb Hch Hsh). change (channels r1 !! id = None). rewrite Ech. apply lookup_delete_eq.
  - rewrite bool_decide_false in Hh, Hi by done. cbn [fst] in Hi.
    set (b' := set_reg _ b) in Hh. assert (broker_inv b') as Hb' by by apply set_reg_inv.
    exists b', w. split_and!; [by apply Hh | by constructor | by constructor | | done | |].
    + intros n [s Hs] Hn'. cbn [b' set_reg b_arenas] in Hn'. congruence.
    + by apply present_inv.
    + apply lookup_insert_eq.
Qed.

Lemma unregister_handled `{ProtoSerde} `{!Sha256} c (b : Broker) (m : Unregister) (qf : Frame) w :
  goodbye_codecs c -> broker_inv b -> to_frame KUnregister m = Done (Ok qf) -> frame_wf qf ->
  let cid := unregister_client_id m in
  exists w', handle b (encode qf) w = Done ((departed cid b, Ok tt), w') /\
    farewell b (from_option (fun s => [s]) [] (b_reply_segs b !! cid)) w w' /\ unlinked b (departed cid b) w'.
Proof.
  intros [[Hcat _ Hfp _ _] _ Hun] Hb Eq Hwf cid.
  destruct (to_frame_inv c _ _ _ Hcat Eq) as (s0 & fp0 & _ & Efp & _ & Eqf & _).
  destruct (release_client_done cid b w) as (w' & E & Hd). exists w'. split_and!.
  - unfold handle. rewrite (decode_encode _ Hwf). erewrite bind_done by (unfold lift; by rewrite Hcat).
    rewrite Eqf, (proj1 (Hfp _ _ Efp)). unfold on_unregister, try_in.
    erewrite bind_done by (unfold lift; by rewrite (from_frame_to_frame c _ _ _ Hcat Hun Eq)).
    cbv beta iota. by rewrite (bind_done _ _ _ _ _ E).
  - eapply farewell_drops; [exact Hd|]. intros s [Hs|Hs]%elem_of_app.
    + left. apply elem_of_taken in Hs as (n & _ & Hn). by exists n.
    + right. by destruct (b_reply_segs b !! cid).
  - intros n [s Hs] Hn. cbn [departed b_arenas] in Hn. rewrite lookup_without in Hn. case_decide as Hin; [|congruence].
    eapply (drops_unlink b _ n s); [done | exact Hd | done|]. unfold departing_segs. apply elem_of_app. left.
    apply elem_of_taken. by exists n.
Qed.

(** ** From the client to the broker *)

(** The broker [b] goes on as [b'] in the world [v], for everybody who was on the bus of [w]:
    its submission ring is empty again, and whoever could join it still can. *)
Record goes_on (b : Broker) (w : world) (b' : Broker) (v : world) : Prop := {
  gn_inv : broker_inv b';
  gn_sub : b_submission b' = b_submission b;
  gn_empty : ring_has (b_submission b') v [];
  gn_serving : forall pid epoch, serving b w pid epoch -> serving b' v pid epoch;
}.

Lemma goodbye_heard `{ProtoSerde} `{!Sha256} (b : Broker) (i : Inner) (ls : Z) (bw w w0 : world) (corr timeout : Z) (qf : Frame) :
  let sub := t_submission (i_transport i) in
  wired i b w -> next_corr w = Done (corr, w0) -> sendable sub qf -> Z.max 0 (w_now bw - ls) < SWEEP_INTERVAL ->
  exists w1 v0, submit qf timeout i w0 = Done ((true, i), w1) /\ w_now v0 = w_now bw /\
    (forall p, p <> r_ptr sub -> w_mem v0 !! p = w_mem w !! p) /\
    forall b' r more v, handle b (encode qf) v0 = Done ((b', r), v) -> farewell b more v0 v ->
      turn b ls (set_mem (w_mem w1) bw) = Done ((b', ls), v) /\
      (broker_inv b' -> b_submission b' = b_submission b -> b_control_seg b' = b_control_seg b -> arenas_apart b (i_transport i) ->
       (forall s, s ∈ more -> seg_ptr s <> r_ptr sub) -> goes_on b w b' v).
Proof.
  intros sub Hw Ecorr Hqf Hs. destruct (next_corr_same _ _ _ Ecorr) as (Em0 & _ & _).
  assert (wired i b w0) as Hw0.
  { destruct Hw as [? ? ? ? [E1 E2]]. constructor; try done. split; (eapply ring_has_mem; [eassumption | by rewrite Em0]). }
  pose proof Hw0 as [_ Hsub [Hg _] Hne _]. fold sub in Hsub, Hg, Hne.
  destruct (sent_off i b w0 qf timeout Hw0 Hqf) as (w1 & evs & E1 & Hq & Ho). fold sub in Hq, Ho.
  destruct (turn_hears b ls (set_mem (w_mem w1) bw) (encode qf)) as (v0 & evs2 & Hq2 & Ho2 & Hturn); [| |done|].
  - eapply shares_geom; [by apply shares_sym | exact Hg].
  - eapply shares_has; [by apply shares_sym|]. by eapply ring_has_mem.
  - assert (forall p, p <> r_ptr sub -> w_mem v0 !! p = w_mem w !! p) as Hoth.
    { intros p Hp. rewrite (ro_others _ _ _ _ Ho2) by by rewrite (proj1 Hsub). cbn [set_mem w_mem].
      by rewrite (ro_others _ _ _ _ Ho), Em0. }
    exists w1, v0. split_and!; [done | by rewrite (ro_now _ _ _ _ Ho2) | done|].
    intros b' r more v Eh [Hnow Hmem]. split; [by eapply Hturn|]. intros Hb' Esub Ectl Hap Hmore.
    assert (w_mem v !! r_ptr (b_submission b) = w_mem v0 !! r_ptr (b_submission b)) as Esame.
    { rewrite (proj1 Hsub). apply Hmem; [|exact Hmore]. intros n s Hn. by apply (Hap n s). }
    assert (ring_has (b_submission b) v []) as Hempty by by eapply ring_has_mem.
    constructor; [done | done | by rewrite Esub|]. intros pid epoch Hsv. eapply serving_kept; try done.
    apply (reframed_trans _ _ (w_mem w1)).
    + rewrite <- Em0. eapply reframed_shares; [by apply shares_sym|]. exact (ring_only_reframed _ _ _ _ Ho).
    + destruct (ring_only_reframed _ _ _ _ Ho2) as (bs & bs' & B1 & B2 & B3). exists bs, bs'. split_and!; [done | by rewrite Esame | done].
Qed.

(** C8: A publisher is dropped. It gives up its registration and sends the broker a release,
    which the broker's next turn takes. Of the channels of the broker only this one may go.
    If somebody has subscribed to it, it goes at once, with its name, and its arena is
    unlinked. If nobody has, it stays, and then, whatever the number of turns in which
    nobody asks the broker for anything: each returns; the channel is there as long as its
    grace is not over; and it is gone, its name free and its arena unlinked, once the grace
    and the interval of the sweeps have passed, on the clock or as turns of the broker's
    timeout. *)
Theorem release_over_the_bus `{ProtoSerde} `{!Sha256} (c : Catalog) (b : Broker) (i : Inner) (p : Publisher) (ls : Z)
    (bw w : world) (corr id : Z) (ch : ChannelMeta) (qf : Frame) :
  let i1 := deregister (pub_reg_id p) i in
  let grace_over := w_now bw + RELEASE_GRACE in
  goodbye_codecs c -> connected i b w -> broker_inv b -> arenas_apart b (i_transport i) ->
  (exists w0, next_corr w = Done (corr, w0)) -> ls <= w_now bw < ls + SWEEP_INTERVAL ->
  channels (b_reg b) !! id = Some ch -> ch_name ch = pub_channel p -> ch_owner ch = t_client_id (i_transport i) ->
  to_frame KUnpublish (MkUnpublish corr (t_client_id (i_transport i)) (pub_channel p)) = Done (Ok qf) ->
  sendable (t_submission (i_transport i)) qf ->
  exists w1 b1 v1, drop_publisher p i w = Done ((tt, i1), w1) /\
    turn b ls (set_mem (w_mem w1) bw) = Done ((b1, ls), v1) /\ goes_on b w b1 v1 /\ connected i1 b1 (set_mem (w_mem v1) w1) /\
    (forall id', id' <> id -> channels (b_reg b1) !! id' = channels (b_reg b) !! id') /\ unlinked b b1 v1 /\
    if decide (id ∈ subscribed (b_reg b)) then gone id ch b1
    else present id ch b1 /\ forall vs, left_alone b1 ls (w_now bw) vs (fun b2 t =>
      broker_inv b2 /\ w_now bw + Z.of_nat (length vs) * POP_TIMEOUT <= t /\
      (t < grace_over -> present id ch b2) /\ (grace_over + SWEEP_INTERVAL <= t -> gone id ch b2)).
Proof.
  intros i1 grace_over Hc Hcn Hb Hap [w0 Ecorr] Hls Hch Hname Hown Eq Hqf.
  assert (connected i1 b w) as [Cp Cs Cr Cg Cne Ce] by (destruct Hcn; by constructor).
  destruct (goodbye_heard b i1 ls bw w w0 corr RELEASE_TIMEOUT qf) as (w1 & v0 & E1 & Hnow & Hoth & Hheard);
    [by constructor | done | done | lia |].
  destruct (unpublish_handled c b _ qf id ch v0 Hc Hb Eq (proj1 Hqf) Hch Hname Hown)
    as (b1 & v1 & E2 & Hfw & Hsh & Hun & Hkeep & Hcase).
  destruct (Hheard b1 (Ok tt) [] v1 E2 Hfw) as [Hturn Hgo].
  specialize (Hgo (sh_inv _ _ Hsh) (sh_sub _ _ Hsh) (sh_ctl _ _ Hsh) Hap ltac:(by intros s ?%elem_of_nil)).
  exists w1, b1, v1. split_and!; [| done | done | | done | done |].
  - unfold drop_publisher. erewrite cbind_done by reflexivity. unfold send_unpublish.
    erewrite cbind_done by (apply clift_done; exact Ecorr). erewrite cbind_done by reflexivity.
    change (i_transport i) with (i_transport (deregister (pub_reg_id p) i)) in Eq.
    erewrite cbind_done by (apply clift_done; unfold lift; by rewrite Eq). cbv beta iota.
    by erewrite cbind_done by exact E1.
  - constructor; [exact Cp | by rewrite (sh_sub _ _ Hsh) | by rewrite (sh_rings _ _ Hsh) | exact Cg | exact Cne|].
    split.
    + eapply shares_has; [exact Cs|]. rewrite <- (sh_sub _ _ Hsh). eapply ring_has_mem; [apply Hgo | done].
    + eapply ring_has_mem; [apply Ce|]. cbn [set_mem w_mem]. rewrite (fw_mem _ _ _ _ Hfw).
      * apply Hoth. exact (not_eq_sym Cne).
      * intros n s Hn. by apply (Hap n s).
      * by intros s ?%elem_of_nil.
  - destruct (decide _) as [Hs|Hs]; [exact Hcase|]. destruct Hcase as [Hp Hrel]. split; [exact Hp|]. intros vs.
    apply left_alone_sweeps; [|constructor | lia].
    + rewrite (sh_sub _ _ Hsh). eapply shares_geom; [apply shares_sym; exact Cs | apply Cg].
    + apply Hsh.
    + lia.
    + intros _. rewrite <- Hnow. by split.
    + unfold RELEASE_GRACE, MILLIS. lia.
Qed.

(** C9: A connection is dropped. It sends the broker its leave and stops its own threads; the
    broker's next turn takes exactly what was this client's out of the registry: the client,
    its reply ring, its channels and functions, of which every arena is unlinked, and nothing
    else. Everybody else's bus goes on. *)
Theorem disconnect_over_the_bus `{ProtoSerde} `{!Sha256} (c : Catalog) (b : Broker) (i : Inner) (ls : Z)
    (bw w : world) (corr : Z) (qf : Frame) :
  let cid := t_client_id (i_transport i) in
  goodbye_codecs c -> connected i b w -> broker_inv b -> arenas_apart b (i_transport i) ->
  (forall s, b_reply_segs b !! cid = Some s -> seg_ptr s <> r_ptr (t_submission (i_transport i))) ->
  (exists w0, next_corr w = Done (corr, w0)) -> Z.max 0 (w_now bw - ls) < SWEEP_INTERVAL ->
  to_frame KUnregister (MkUnregister corr cid) = Done (Ok qf) -> sendable (t_submission (i_transport i)) qf ->
  exists i1 w1 b1 v1, drop_connection i w = Done ((tt, i1), w1) /\ i_running i1 = false /\
    turn b ls (set_mem (w_mem w1) bw) = Done ((b1, ls), v1) /\ goes_on b w b1 v1 /\ unlinked b b1 v1 /\
    clients (b_reg b1) = delete cid (clients (b_reg b)) /\
    b_reply_rings b1 = delete cid (b_reply_rings b) /\ b_reply_segs b1 = delete cid (b_reply_segs b) /\
    (forall id ch, channels (b_reg b1) !! id = Some ch <-> channels (b_reg b) !! id = Some ch /\ ch_owner ch <> cid) /\
    (forall id f, functions (b_reg b1) !! id = Some f <-> functions (b_reg b) !! id = Some f /\ fn_owner f <> cid).
Proof.
  intros cid Hc Hcn Hb Hap Hrep [w0 Ecorr] Hls Eq Hqf.
  destruct (goodbye_heard b i ls bw w w0 corr RELEASE_TIMEOUT qf (connected_wired _ _ _ Hcn) Ecorr Hqf Hls)
    as (w1 & v0 & E1 & _ & _ & Hheard).
  destruct (unregister_handled c b _ qf v0 Hc Hb Eq (proj1 Hqf)) as (v1 & E2 & Hfw & Hun).
  cbn [unregister_client_id] in *.
  destruct (Hheard (departed cid b) (Ok tt) _ v1 E2 Hfw) as [Hturn Hgo].
  destruct (departed_reg_spec cid (b_reg b) (bi_reg _ Hb)) as (_ & Dc & Df & Dcl & _).
  exists (set_running false i), w1, (departed cid b), v1. split_and!; try done.
  - unfold drop_connection. erewrite cbind_done; [done|]. unfold send_unregister.
    erewrite cbind_done by (apply clift_done; exact Ecorr). erewrite cbind_done by reflexivity.
    erewrite cbind_done by (apply clift_done; unfold lift; unfold cid in Eq; by rewrite Eq). cbv beta iota.
    by erewrite cbind_done by exact E1.
  - apply Hgo; [by apply departed_inv | done | done | done|]. intros s Hs.
    destruct (b_reply_segs b !! cid) as [s'|] eqn:Es; [|by apply elem_of_nil in Hs].
    apply list_elem_of_singleton in Hs as ->. by apply Hrep.
Qed.

(** ** A client with a channel that nobody reads *)

Definition leaving_broker : Broker :=
  MkBroker demo_sub_seg demo_sub_ring (b_reg demo_pub) (b_reply_rings demo_pub) (b_reply_segs demo_pub)
    (b_arenas demo_pub) (b_reply_names demo_pub).
Definition leaving_world : world := World demo_conn_mem 0 demo_sys [] 0 [].
Definition news_channel : ChannelMeta := MkChannelMeta 1 "news" 1 9 None (channel_arena 1).
Definition unpublish_frame : Frame := frame_of (to_frame KUnpublish (MkUnpublish 77 1 "news")).
Definition unregister_frame : Frame := frame_of (to_frame KUnregister (MkUnregister 77 1)).

(** Half a minute and a second later, with nothing on the ring for as long as it takes. *)
Definition late_world : world :=
  World demo_conn_mem (31 * 1000 * MILLIS) demo_sys (replicate SPIN_LIMIT (idle (32 * 1000 * MILLIS))) 0 [].

Lemma leaving_frames :
  to_frame KUnpublish (MkUnpublish 77 1 "news") = Done (Ok unpublish_frame) /\ sends demo_sub_ring unpublish_frame = true /\
  to_frame KUnregister (MkUnregister 77 1) = Done (Ok unregister_frame) /\ sends demo_sub_ring unregister_frame = true.
Proof. split_and!; vm_compute; reflexivity. Qed.

Lemma toy_goodbye_codecs : goodbye_codecs toy_catalog.
Proof.
  constructor; [exact bus_codecs_toy | |]; intros s _; apply toy_codec; intros m v; destruct m; simpl; by intros [= <-].
Qed.

Lemma leaving_inv : broker_inv leaving_broker.
Proof. destruct demo_pub_inv. by constructor. Qed.

Lemma leaving_connected : connected bus_inner leaving_broker leaving_world.
Proof.
  constructor; [exact demo_pending_wf | by split_and! | | by split; [exact demo_sub_geom | exact demo_client_geom] | done |].
  - exists demo_client_ring. by split; [reflexivity | split_and!].
  - split; (eapply ring_has_mem; [|reflexivity]); [exact demo_conn_sub | exact demo_bus_ring].
Qed.

Lemma leaving_apart : arenas_apart leaving_broker (i_transport bus_inner).
Proof.
  intros n s Hn. assert (b_arenas leaving_broker = {[channel_arena 1 := demo_pub_seg]}) as E by reflexivity.
  rewrite E in Hn. apply lookup_singleton_Some in Hn as [_ <-]. by split.
Qed.

Lemma late_nobody_asks b : b_submission b = demo_sub_ring -> nobody_asks b late_world.
Proof.
  intros E. constructor; rewrite ?E.
  - eapply ring_has_mem; [exact demo_conn_sub | reflexivity].
  - apply Forall_replicate. by intros m.
  - exists [], (replicate SPIN_LIMIT (idle (32 * 1000 * MILLIS))). split_and!.
    + reflexivity.
    + apply Forall_replicate. vm_compute. discriminate.
    + right. split; [reflexivity|]. by rewrite length_replicate.
Qed.

Lemma release_over_the_bus_witness :
  exists i1 w1 b1 v1 b2 ls2 v2, drop_publisher demo_publisher bus_inner leaving_world = Done ((tt, i1), w1) /\
    turn leaving_broker 0 (set_mem (w_mem w1) leaving_world) = Done ((b1, 0), v1) /\ present 1 news_channel b1 /\
    turn b1 0 late_world = Done ((b2, ls2), v2) /\ gone 1 news_channel b2 /\ EvUnlink (channel_arena 1) ∈ w_log v2.
Proof.
  destruct leaving_frames as (F1 & F2 & _).
  destruct (release_over_the_bus toy_catalog leaving_broker bus_inner demo_publisher 0 leaving_world leaving_world 77 1
    news_channel unpublish_frame toy_goodbye_codecs leaving_connected leaving_inv leaving_apart ltac:(by eexists)
    ltac:(vm_compute; split; [discriminate | reflexivity]) eq_refl eq_refl eq_refl F1 (sends_ok _ _ F2))
    as (w1 & b1 & v1 & E1 & E2 & [_ Esub _ _] & _ & _ & _ & Hcase).
  rewrite decide_False in Hcase by by vm_compute. destruct Hcase as [Hp Hl].
  destruct (Hl [late_world] (late_nobody_asks b1 Esub) ltac:(by vm_compute)) as (b2 & ls2 & v2 & E3 & Ht & Hun & _ & _ & _ & Hg).
  assert (gone 1 news_channel b2) as Hgone.
  { apply Hg. etrans; [|exact Ht]. vm_compute. discriminate. }
  exists (deregister 1 bus_inner), w1, b1, v1, b2, ls2, v2. split_and!; [exact E1 | exact E2 | exact Hp | exact E3 | exact Hgone |].
  exact (Hun _ (pr_arena _ _ _ Hp) (go_arena _ _ _ Hgone)).
Defined.

Lemma disconnect_over_the_bus_witness :
  exists i1 w1 b1 v1, drop_connection bus_inner leaving_world = Done ((tt, i1), w1) /\ i_running i1 = false /\
    turn leaving_broker 0 (set_mem (w_mem w1) leaving_world) = Done ((b1, 0), v1) /\
    goes_on leaving_broker leaving_world b1 v1 /\ clients (b_reg b1) = ∅ /\ channels (b_reg b1) !! 1 = None.
Proof.
  destruct leaving_frames as (_ & _ & F1 & F2).
  destruct (disconnect_over_the_bus toy_catalog leaving_broker bus_inner 0 leaving_world leaving_world 77 unregister_frame
    toy_goodbye_codecs leaving_connected leaving_inv leaving_apart ltac:(by intros s [= <-]) ltac:(by eexists)
    ltac:(vm_compute; reflexivity) F1 (sends_ok _ _ F2))
    as (i1 & w1 & b1 & v1 & E1 & Er & E2 & Hgo & _ & Hcl & _ & _ & Hch & _).
  exists i1, w1, b1, v1. split_and!; [exact E1 | exact Er | exact E2 | exact Hgo | by rewrite Hcl |].
  destruct (channels (b_reg b1) !! 1) as [ch|] eqn:E; [|reflexivity].
  apply Hch in E as [[= <-] Hne]. by destruct Hne.
Defined.
