(* ===== verification/Waits.v ===== *)
(** * Every wait ends

    The blocking operations of a connection, as seen from the clock: a caller that waits
    for its turn on the submission ring, for the broker's reply or for the answer of a
    call comes back, whatever the other processes do with the rings meanwhile, and
    whether or not anybody answers. *)

From S2P Require Import Prelude Machine Shm Circ Ring RingMem RingSpec RingThm Demo RingPop Frame Control Util Avro Proto Toy ProtoProps Registry Broker BrokerThm BrokerSafe Client ClientThm Rpc Connection Bus ConnectionProps.

(** Every tick advances the clock by [step] or more. *)
Fixpoint advancing (step now : Z) (ticks : list tick) : Prop :=
  match ticks with
  | [] => True
  | tk :: ticks => now + step <= tk_now tk /\ advancing step (tk_now tk) ticks
  end.

(** The spurious wake-ups among the ticks. *)
Definition wakeups (ticks : list tick) : Z := Z.of_nat (length (filter (fun tk => tk_woken tk = true) ticks)).

Lemma wakeups_cons tk ticks : wakeups (tk :: ticks) = (if tk_woken tk then 1 else 0) + wakeups ticks.
Proof.
  unfold wakeups. destruct (tk_woken tk) eqn:E.
  - rewrite filter_cons_True by done. cbn [length]. lia.
  - rewrite filter_cons_False by congruence. lia.
Qed.

Lemma wakeups_nonneg ticks : 0 <= wakeups ticks.
Proof. unfold wakeups. lia. Qed.

Lemma wakeups_drop k ticks : wakeups (drop k ticks) <= wakeups ticks.
Proof.
  revert k. induction ticks as [|tk ticks IH]; intros [|k]; cbn [drop]; try lia.
  specialize (IH k). rewrite wakeups_cons. destruct (tk_woken tk); lia.
Qed.

Section time.
Context (step : Z).
Hypothesis Hstep : 0 < step.

Lemma clock_advances now ticks k : advancing step now ticks -> (k <= length ticks)%nat ->
  now + step * Z.of_nat k <= clock now ticks k /\ advancing step (clock now ticks k) (drop k ticks).
Proof using Hstep.
  revert now k. induction ticks as [|tk ticks IH]; intros now [|k]; simpl; [by lia..| |].
  - intros [? ?] _. split; [lia | done].
  - intros [? Ha] Hk. destruct (IH _ k Ha ltac:(lia)) as [? ?]. split; [lia | done].
Qed.

Lemma took_advances k w w' : advancing step (w_now w) (w_ticks w) -> took k w w' ->
  w_now w + step * Z.of_nat k <= w_now w' /\ advancing step (w_now w') (w_ticks w').
Proof using Hstep. intros Ha [T L C]. rewrite C, T. by apply clock_advances. Qed.

Lemma advancing_all now ticks : advancing step now ticks -> Forall (fun tk => now <= tk_now tk) ticks.
Proof using Hstep.
  revert now. induction ticks as [|tk ticks IH]; intros now; [by constructor|]. intros [? Ha].
  constructor; [lia|]. eapply Forall_impl; [|by apply IH]. simpl. lia.
Qed.

(** With enough ticks left, the clock passes a deadline. *)
Lemma advancing_passes now ticks dl :
  advancing step now ticks -> dl - now <= step * (Z.of_nat (length ticks) - Z.of_nat SPIN_LIMIT - 1) ->
  Z.of_nat SPIN_LIMIT < Z.of_nat (length ticks) -> passes dl ticks.
Proof using Hstep.
  intros Ha Hd Hl. set (k := (length ticks - SPIN_LIMIT - 1)%nat).
  exists (take k ticks), (drop k ticks). split_and!; [by rewrite take_drop | |].
  - destruct (clock_advances now ticks k Ha ltac:(lia)) as [Hc Ha'].
    eapply Forall_impl; [|by apply advancing_all]. simpl. intros tk Htk. unfold k in *. nia.
  - left. rewrite length_drop. lia.
Qed.
End time.

(** ** A push *)

Section push.
Context (r : Ring) (step : Z) (M : gmap Z (list byte) -> Prop).
Hypothesis Hg : ring_geom r.
Hypothesis Hstep : 0 < step.
Hypothesis HM : forall m m', (forall p, p <> r_ptr r -> m' !! p = m !! p) -> M m -> M m'.

Lemma push_loop_ends fuel w bs d dl :
  w_mem w !! r_ptr r = Some bs -> fits r bs -> fget r bs FLock = 0 -> M (w_mem w) ->
  Forall (tick_free r) (w_ticks w) -> Forall (fun tk => forall m, M m -> M (tk_mem tk m)) (w_ticks w) ->
  (length (w_ticks w) < fuel)%nat -> advancing step (w_now w) (w_ticks w) ->
  dl - w_now w <= step * Z.of_nat (length (w_ticks w)) ->
  exists b w' k, push_loop fuel r d (Some dl) w = Done (b, w') /\ M (w_mem w') /\ took k w w' /\
    step * Z.of_nat k < Z.max 0 (dl - w_now w) + step /\ (b = false -> dl <= w_now w').
Proof using Hg Hstep HM.
  revert w bs. induction fuel as [|fuel IH]; intros w bs Hbs Hf H0 Hm Hfree Hkeep Hfuel Ha Hd; [lia|].
  destruct (push_round r Hg fuel w bs d dl Hbs Hf H0) as [(w' & E & T & N & Hoth)|(bs' & Hf' & H0' & E)].
  { exists true, w', 0%nat. split_and!; [done | by eapply HM | by apply took_0 | lia | done]. }
  set (w1 := upd_block (r_ptr r) bs' w) in *.
  assert (M (w_mem w1)) as Hm1 by (eapply HM; [|exact Hm]; intros p Hp; by apply lookup_insert_ne).
  rewrite E. destruct (Z.leb_spec dl (w_now w)).
  { exists false, w1, 0%nat. split_and!; [done | done | by apply took_0 | lia | done]. }
  destruct (w_ticks w) as [|tk ts] eqn:Et; [simpl in Hd; lia|].
  inversion Hfree as [|?? Hfk Hfs]; inversion Hkeep as [|?? Hkk Hks]; subst. destruct Ha as [Ha1 Ha2].
  cbn [length] in Hfuel, Hd.
  destruct (Hfk _ _ (upd_block_lookup (r_ptr r) bs' w) Hf') as (bs2 & Hb2 & Hf2 & Hl2).
  set (w2 := World (tk_mem tk (w_mem w1)) (tk_now tk) (w_sys w) ts (w_rng w) (w_log w)).
  assert (yield w1 = Done (tt, w2)) as Ey by (unfold yield; cbn [w1 upd_block set_mem w_ticks]; by rewrite Et).
  rewrite (bind_done _ _ _ _ _ Ey).
  destruct (IH w2 bs2) as (b & w' & k & E' & Hm' & K & Hk & Hb); try done; unfold w2; cbn [w_now w_ticks w_mem];
    [by apply Hkk | lia | lia |].

  exists b, w', (1 + k)%nat. split_and!; [done | done | | | done].
  2:{ unfold w2 in Hk. cbn [w_now] in Hk. destruct k as [|k]; nia. }
  exact (took_trans 1 k w w2 w' (took_1 tk ts w w2 Et eq_refl eq_refl) K).
Qed.

Lemma push_ends w bs d timeout :
  w_mem w !! r_ptr r = Some bs -> fits r bs -> fget r bs FLock = 0 -> M (w_mem w) ->
  Forall (tick_free r) (w_ticks w) -> Forall (fun tk => forall m, M m -> M (tk_mem tk m)) (w_ticks w) ->
  advancing step (w_now w) (w_ticks w) -> 0 <= timeout <= step * Z.of_nat (length (w_ticks w)) ->
  exists b w' k, push_blocking r d (Some timeout) w = Done (b, w') /\ M (w_mem w') /\ took k w w' /\
    step * Z.of_nat k < timeout + step /\ (b = false -> w_now w + timeout <= w_now w').
Proof using Hg Hstep HM.
  intros Hbs Hf H0 Hm Hfree Hkeep Ha Ht. unfold push_blocking, now. unfold bind at 1. cbn [fmap option_fmap option_map].
  destruct (push_loop_ends (S (length (w_ticks w))) w bs d (w_now w + timeout)) as (b & w' & k & E & Hm' & K & Hk & Hb);
    try done; [lia..|].
  exists b, w', k. split_and!; [done..| lia | done].
Qed.
End push.

(** ** A turn of the dispatcher *)

Lemma correlation_total `{ProtoSerde} c f : catalog = Done c -> exists r, correlation_id f = Done r.
Proof. intros Hc. destruct (correlation_cases c f Hc) as [(r & _ & _ & ->)|(e & -> & _)]; by eexists. Qed.

Lemma route_total `{ProtoSerde} c bytes i w : catalog = Done c -> exists i', route bytes i w = Done ((tt, i'), w).
Proof.
  intros Hc. unfold route. destruct (decode bytes) as [f|e]; [|by eexists].
  destruct (correlation_total c f Hc) as [r Er].
  erewrite cbind_done by (apply clift_done; unfold lift; by rewrite Er).
  destruct r as [corr|e]; [|by eexists]. erewrite cbind_done by reflexivity.
  destruct (i_pending i !! corr); by eexists.
Qed.

(** ** Waiting *)

(** The tick leaves [M] of the memory as it is. *)
Definition tick_keeps (M : gmap Z (list byte) -> Prop) (tk : tick) : Prop := forall m, M m -> M (tk_mem tk m).

(** Some queue is in the ring; a producer may be inside the lock. *)
Definition in_use (r : Ring) (m : gmap Z (list byte)) : Prop := exists q, ring_holds r m q.

(** What the other threads of the connection do in one tick ends, if the clock has [cost] to go. *)
Definition ends_turn (others : conn unit) (P : Inner -> Prop) (M : gmap Z (list byte) -> Prop) (step cost : Z) : Prop :=
  forall i w, P i -> M (w_mem w) -> Forall (tick_keeps M) (w_ticks w) -> advancing step (w_now w) (w_ticks w) ->
    cost <= step * Z.of_nat (length (w_ticks w)) ->
    exists i' w' k, others i w = Done ((tt, i'), w') /\ P i' /\ M (w_mem w') /\ took k w w'.

Definition dispatch_cost (step : Z) : Z := DISPATCH_TIMEOUT + step * (Z.of_nat SPIN_LIMIT + 2).

Lemma dispatch_ends `{ProtoSerde} c rep step :
  catalog = Done c -> ring_geom rep -> 0 < step ->
  ends_turn dispatch_turn (fun i => t_reply_ring (i_transport i) = rep) (in_use rep) step (dispatch_cost step).
Proof.
  intros Hc Hg Hs i w Hi [q Hq] Hk Ha Hcost. unfold dispatch_cost, DISPATCH_TIMEOUT, MILLIS in Hcost.
  assert (Forall (tick_ring rep) (w_ticks w)) as Ht.
  { eapply Forall_impl; [|exact Hk]. intros tk Htk m q0 Hm. apply Htk. by exists q0. }
  destruct (pop_loop_deadline rep Hg (S (length (w_ticks w))) w q (w_now w + DISPATCH_TIMEOUT)) as
    (v & w' & k & E & (w1 & q1 & _ & _ & _ & Hq1) & _ & K); try done; [lia| |].
  { apply (advancing_passes step Hs (w_now w)); [done | unfold DISPATCH_TIMEOUT, MILLIS; nia | nia]. }
  assert (exists i', match v with Some bytes => route bytes | None => cret tt end i w' = Done ((tt, i'), w') /\
    t_reply_ring (i_transport i') = rep) as (i' & E' & Hi').
  { destruct v as [bytes|]; [|by exists i]. destruct (route_total c bytes i w' Hc) as [i' E']. exists i'. split; [done|].
    refine (route_free (fun j => t_reply_ring (i_transport j) = rep) _ bytes i w' _ _ _ Hi E'). by split. }
  exists i', w', k. split_and!; [|done | by eexists | done].
  unfold dispatch_turn. erewrite cbind_done by reflexivity. cbv beta.
  erewrite cbind_done; [exact E'|]. apply clift_done. unfold pop_blocking, now. unfold bind at 1. by rewrite Hi.
Qed.

Section waits.
Context `{ProtoSerde} (c : Catalog) (others : conn unit) (P : Inner -> Prop) (M : gmap Z (list byte) -> Prop) (step cost : Z).
Hypothesis Hc : catalog = Done c.
Hypothesis HP : routing_free P.
Hypothesis Hstep : 0 < step.
Hypothesis Hcost : 0 <= cost.
Hypothesis Hothers : ends_turn others P M step cost.

(** One tick of somebody who sleeps, and what the others do in it. *)
Lemma sleep_ends i w :
  P i -> M (w_mem w) -> Forall (tick_keeps M) (w_ticks w) -> advancing step (w_now w) (w_ticks w) ->
  cost + step <= step * Z.of_nat (length (w_ticks w)) ->
  exists w1 i' w' k, yield w = Done (tt, w1) /\ others i w1 = Done ((tt, i'), w') /\ P i' /\ M (w_mem w') /\
    took (1 + k) w w'.
Proof using Hstep Hcost Hothers.
  intros Hi Hm Hk Ha Hl. destruct (w_ticks w) as [|tk ts] eqn:Et; [simpl in Hl; lia|].
  inversion Hk as [|?? Hk1 Hk2]; subst. destruct Ha as [Ha1 Ha2]. cbn [length] in Hl.
  set (w1 := World (tk_mem tk (w_mem w)) (tk_now tk) (w_sys w) ts (w_rng w) (w_log w)).
  destruct (Hothers i w1) as (i' & w' & k & E & Hi' & Hm' & K); try done; [by apply Hk1 | unfold w1; cbn [w_ticks]; lia|].
  exists w1, i', w', k. split_and!; try done; [unfold yield; by rewrite Et|].
  exact (took_trans 1 k w w1 w' (took_1 tk ts w w1 Et eq_refl eq_refl) K).
Qed.

Lemma wait_loop_ends fuel s timeout since i w :
  P i -> M (w_mem w) -> Forall (tick_keeps M) (w_ticks w) -> advancing step (w_now w) (w_ticks w) ->
  (length (w_ticks w) < fuel)%nat -> 0 <= timeout -> since <= w_now w ->
  since + timeout - w_now w + timeout * wakeups (w_ticks w) + cost + step <= step * Z.of_nat (length (w_ticks w)) ->
  w_now w <= since + timeout ->
  exists f i' w' k, wait_loop others fuel s timeout since i w = Done ((f, i'), w') /\ P i' /\ M (w_mem w') /\
    took k w w' /\ (f = None -> since + timeout <= w_now w').
Proof using HP Hstep Hcost Hothers.
  revert since i w. induction fuel as [|fuel IH]; intros since i w Hi Hm Hk Ha Hf Ht Hsince Hl Hdl; [lia|]. cbn [wait_loop].
  pose proof (take_frame_free P HP s i Hi) as Hi1. pose proof (wakeups_nonneg (w_ticks w)) as Hw0.
  destruct (take_frame s i) as [f i1] eqn:Ef. cbn [snd] in Hi1.
  erewrite cbind_done by (unfold locked, ret; by rewrite Ef). cbv beta iota.
  destruct f as [f|].
  { exists (Some f), i1, w, 0%nat. split_and!; [done..| by apply took_0 | done]. }
  destruct (sleep_ends i1 w) as (w1 & i2 & w2 & k & E1 & E2 & Hi2 & Hm2 & K); try done; [nia|].
  destruct (took_advances step Hstep _ _ _ Ha K) as [Hnow Ha2]. pose proof (took_ticks _ _ _ K) as T2.
  pose proof (took_le _ _ _ K) as L2. destruct (w_ticks w) as [|tk ts] eqn:Et; [simpl in L2; lia|].
  erewrite cbind_done by (apply clift_done; unfold doze; rewrite Et; by erewrite bind_done by exact E1).
  erewrite cbind_done by exact E2. erewrite cbind_done by (by apply clift_done).
  destruct (Z.leb_spec (since + timeout) (w_now w2)).
  { pose proof (take_frame_free P HP s i2 Hi2) as Hi3. unfold locked, ret.
    destruct (take_frame s i2) as [f i3]. exists f, i3, w2, (1 + k)%nat. by split_and!. }
  assert (length (w_ticks w2) = length (tk :: ts) - (1 + k))%nat as Hlen by by rewrite T2, length_drop.
  pose proof (wakeups_drop k ts) as Hw. rewrite wakeups_cons in Hl, Hw0.
  destruct (IH (if tk_woken tk then w_now w2 else since) i2 w2) as (f & i' & w' & k' & E & Hi' & Hm' & K' & Hn); try done.
  - rewrite T2. by apply Forall_drop.
  - rewrite Hlen. cbn [length] in *. lia.
  - destruct (tk_woken tk); nia.
  - rewrite Hlen, T2. cbn [drop Nat.add]. destruct (tk_woken tk); nia.
  - destruct (tk_woken tk); lia.
  - exists f, i', w', (1 + k + k')%nat. split_and!; try done; [by eapply took_trans|].
    intros En. specialize (Hn En). destruct (tk_woken tk); nia.
Qed.

Lemma wait_ends s timeout i w :
  P i -> M (w_mem w) -> Forall (tick_keeps M) (w_ticks w) -> advancing step (w_now w) (w_ticks w) ->
  0 <= timeout -> timeout * (1 + wakeups (w_ticks w)) + cost + step <= step * Z.of_nat (length (w_ticks w)) ->
  exists f i' w' k, wait others s timeout i w = Done ((f, i'), w') /\ P i' /\ M (w_mem w') /\ took k w w' /\
    (f = None -> w_now w + timeout <= w_now w').
Proof using HP Hstep Hcost Hothers. intros. apply wait_loop_ends; try done; lia. Qed.

(** ** [block_on] *)

Lemma poll_future_total {Resp} `{!Serde Resp} (fut : CallFuture) wk i w : P i ->
  exists v i', poll_future (Resp := Resp) fut wk i w = Done ((v, i'), w) /\ P i' /\ i_wakers i' = i_wakers i.
Proof using Hc HP.
  intros Hi. unfold poll_future.
  assert (exists f i1, poll (cf_slot fut) wk i = (f, i1) /\ P i1 /\ i_wakers i1 = i_wakers i) as (f & i1 & E & Hi1 & Hw).
  { unfold poll. destruct (i_slots i !! cf_slot fut) as [[[f|] w']|]; do 2 eexists;
      (split; [reflexivity|]); split; try done; by apply (rf_slots P HP). }
  erewrite cbind_done by (unfold locked, ret; by rewrite E). destruct f as [f|]; [|by exists None, i1].
  destruct (from_frame_total (T := RpcResponse) c KRpcResponse f Hc) as [r Er].
  eexists _, i1. split; [|done].
  erewrite cbind_done by (apply clift_done; unfold lift, decode_response; rewrite Er; reflexivity). reflexivity.
Qed.

Lemma block_loop_ends {Resp} `{!Serde Resp} fuel (fut : CallFuture) wk dl i w :
  P i -> M (w_mem w) -> Forall (tick_keeps M) (w_ticks w) -> advancing step (w_now w) (w_ticks w) ->
  (2 * length (w_ticks w) + (if default false (i_wakers i !! wk) then 1 else 0) < fuel)%nat ->
  dl - w_now w + cost + step <= step * Z.of_nat (length (w_ticks w)) ->
  exists v i' w' k, block_loop (Resp := Resp) others fuel fut wk dl i w = Done ((v, i'), w') /\ P i' /\
    M (w_mem w') /\ took k w w' /\ (v = None -> dl <= w_now w').
Proof using Hc HP Hstep Hcost Hothers.
  revert i w. induction fuel as [|fuel IH]; intros i w Hi Hm Hk Ha Hf Hl; [lia|]. cbn [block_loop].
  destruct (poll_future_total (Resp := Resp) fut wk i w Hi) as (v & i1 & E & Hi1 & Hwk).
  erewrite cbind_done by exact E. destruct v as [v|].
  { exists (Some v), i1, w, 0%nat. split_and!; [done..| by apply took_0 | done]. }
  erewrite cbind_done by (by apply clift_done). destruct (Z.leb_spec dl (w_now w)).
  { exists None, i1, w, 0%nat. split_and!; [done..| by apply took_0 | done]. }
  set (i2 := set_wakers (<[wk := false]> (i_wakers i1)) i1).
  assert (P i2) as Hi2 by by apply (rf_wakers P HP).
  assert (default false (i_wakers i2 !! wk) = false) as Hflag.
  { cbn [i2 set_wakers i_wakers]. destruct (decide (wk < length (i_wakers i1))%nat).
    - by rewrite list_lookup_insert_eq.
    - by rewrite list_insert_ge, (lookup_ge_None_2 (i_wakers i1)) by lia. }
  erewrite cbind_done by reflexivity. cbn [take_notified fst snd]. fold i2. rewrite Hwk.
  destruct (default false (i_wakers i !! wk)).
  { apply IH; try done. rewrite Hflag. lia. }
  destruct (sleep_ends i2 w) as (w1 & i3 & w2 & k & E1 & E2 & Hi3 & Hm2 & K); try done; [lia|].
  erewrite cbind_done by (apply clift_done; exact E1). erewrite cbind_done by exact E2.
  destruct (took_advances step Hstep _ _ _ Ha K) as [Hnow Ha2].
  pose proof (took_ticks _ _ _ K) as T2. pose proof (took_le _ _ _ K) as L2.
  assert (length (w_ticks w2) = length (w_ticks w) - (1 + k))%nat as Hlen by by rewrite T2, length_drop.
  destruct (IH i3 w2) as (v & i' & w' & k' & E' & Hi' & Hm' & K' & Hn); try done.
  - rewrite T2. by apply Forall_drop.
  - rewrite Hlen. destruct (default false (i_wakers i3 !! wk)); lia.
  - rewrite Hlen. nia.
  - exists v, i', w', (1 + k + k')%nat. split_and!; try done. by eapply took_trans.
Qed.

Lemma block_on_ends {Resp} `{!Serde Resp} (fut : CallFuture) timeout i w :
  P i -> M (w_mem w) -> Forall (tick_keeps M) (w_ticks w) -> advancing step (w_now w) (w_ticks w) ->
  timeout + cost + step <= step * Z.of_nat (length (w_ticks w)) ->
  exists v i' w' k, block_on (Resp := Resp) others fut timeout i w = Done ((v, i'), w') /\ P i' /\
    M (w_mem w') /\ took k w w' /\ i_pending i' !! cf_corr fut = None /\ (v = None -> w_now w + timeout <= w_now w').
Proof using Hc HP Hstep Hcost Hothers.
  intros Hi Hm Hk Ha Hl. set (i1 := snd (new_waker i)).
  destruct (block_loop_ends (2 * S (length (w_ticks w))) fut (length (i_wakers i)) (w_now w + timeout) i1 w) as
    (v & i' & w' & k & E & Hi' & Hm' & K & Hn); try done; [by apply (rf_wakers P HP) | | lia |].
  { destruct (default false _); lia. }
  exists v, (drop_pending (cf_corr fut) i'), w', k. split_and!; [|by apply (rf_pending P HP) | done | done | | done].
  - unfold block_on. erewrite cbind_done by reflexivity. cbv beta.
    erewrite cbind_done; [erewrite cbind_done by reflexivity; reflexivity|]. exact E.
  - apply lookup_delete_eq.
Qed.
End waits.

(** What [block_on] returns is made of a frame with the call's own id. *)
Lemma poll_awaiting `{ProtoSerde} s c n m i : awaiting s c i -> awaiting s c (snd (poll n m i)).
Proof.
  intros [H1 H2 H3 H4]. unfold poll. destruct (i_slots i !! n) as [[[f|] w]|] eqn:E; simpl; [..|done];
    (split; simpl; rewrite ?length_insert; [done..|]; intros g v;
     rewrite lookup_insert_list by (by eapply lookup_lt_Some); case_decide; [done | apply H4]).
Qed.

Lemma block_loop_own `{ProtoSerde} {Resp} `{!Serde Resp} others fuel (fut : CallFuture) wk dl i w r i' w' :
  keeps (awaiting (cf_slot fut) (cf_corr fut)) others -> awaiting (cf_slot fut) (cf_corr fut) i ->
  block_loop (Resp := Resp) others fuel fut wk dl i w = Done ((Some r, i'), w') ->
  exists f, correlation_id f = Done (Ok (cf_corr fut)) /\ decode_response fut f = Done r.
Proof.
  intros Ho. revert i w. induction fuel as [|fuel IH]; intros i w Hi E; [done|]. cbn [block_loop] in E.
  apply cbind_inv in E as (v & i1 & w1 & Ep & E). unfold poll_future in Ep.
  apply cbind_inv in Ep as (f & i2 & w2 & El & Ep). pose proof (poll_awaiting _ _ (cf_slot fut) wk i Hi) as Hi2.
  assert (poll (cf_slot fut) wk i = (f, i2)) as Epoll by (unfold locked, ret in El; by injection El).
  rewrite Epoll in Hi2. cbn [snd] in Hi2. destruct f as [f|].
  - apply cbind_inv in Ep as (r0 & i3 & w3 & [Ed ->]%clift_inv & [= <- <- <-]). injection E as <- <- <-.
    exists f. unfold lift in Ed. destruct (decode_response fut f) as [r1| | |]; [|done..]. injection Ed as <- _.
    split; [|done]. unfold poll in Epoll.
    destruct (i_slots i !! cf_slot fut) as [[[g|] v]|] eqn:Es; [|discriminate Epoll..].
    injection Epoll as -> _. apply (aw_frame _ _ _ Hi f v Es).
  - injection Ep as <- <- <-. apply cbind_inv in E as (t & i3 & w3 & [_ ->]%clift_inv & E).
    destruct (dl <=? t); [done|]. apply cbind_inv in E as (n & i4 & w4 & [= <- <- <-] & E).
    assert (awaiting (cf_slot fut) (cf_corr fut) (set_wakers (<[wk := false]> (i_wakers i2)) i2)) as Hi4
      by (destruct Hi2; by split).
    destruct (default false (i_wakers i2 !! wk)); [by apply (IH _ _ Hi4 E)|].
    apply cbind_inv in E as (u & i5 & w5 & [_ ->]%clift_inv & E).
    apply cbind_inv in E as (u' & i6 & w6 & Eo & E). exact (IH _ _ (Ho _ _ _ _ _ Hi4 Eo) E).
Qed.

Lemma block_on_own `{ProtoSerde} {Resp} `{!Serde Resp} others (fut : CallFuture) timeout i w r i' w' :
  keeps (awaiting (cf_slot fut) (cf_corr fut)) others -> awaiting (cf_slot fut) (cf_corr fut) i ->
  block_on (Resp := Resp) others fut timeout i w = Done ((Some r, i'), w') ->
  exists f, correlation_id f = Done (Ok (cf_corr fut)) /\ decode_response fut f = Done r.
Proof.
  intros Ho Hi E. unfold block_on in E. apply cbind_inv in E as (wk & i1 & w1 & [= <- <- <-] & E).
  apply cbind_inv in E as (v & i2 & w2 & E1 & E). apply cbind_inv in E as (u & i3 & w3 & [= _ <- <-] & [= -> <- <-]).
  refine (block_loop_own others _ fut _ _ _ _ r _ _ Ho _ E1). destruct Hi. by split.
Qed.

Lemma next_corr_now w corr w0 : next_corr w = Done (corr, w0) -> w_now w0 = w_now w.
Proof.
  unfold next_corr, random_u64, getrandom, bind, ret. destruct (sys_random _ _); [|done]. by intros [= _ <-].
Qed.

Lemma forget_callee_total fn_name key i w :
  exists i' w', forget_callee fn_name key i w = Done ((tt, i'), w') /\ i_pending i' = i_pending i /\ w_now w' = w_now w.
Proof.
  unfold forget_callee. destruct (i_callees i !! _) as [c|]; [|by exists i, w].
  destruct (drop_segment_done (r_seg (cal_ring c)) w) as (w' & E & [_ N _ _ _ _]).
  do 2 eexists. split; [by rewrite (bind_done _ _ _ _ _ E)|]. done.
Qed.

(** ** Properties *)

(** The ring's block is mapped and no producer is inside the lock. *)
Definition unlocked (r : Ring) (m : gmap Z (list byte)) : Prop :=
  exists bs, m !! r_ptr r = Some bs /\ fits r bs /\ fget r bs FLock = 0.

(** While the connection [i] sleeps the clock moves on, other producers use the ring [r]
    without dying inside its lock, and whoever writes replies uses the reply ring properly. *)
Record time_passes (i : Inner) (r : Ring) (step : Z) (w : world) : Prop := {
  tp_step : 0 < step;
  tp_clock : advancing step (w_now w) (w_ticks w);
  tp_geom : ring_geom r /\ ring_geom (t_reply_ring (i_transport i));
  tp_apart : r_ptr (t_reply_ring (i_transport i)) <> r_ptr r;
  tp_free : unlocked r (w_mem w) /\ Forall (tick_free r) (w_ticks w);
  tp_reply : in_use (t_reply_ring (i_transport i)) (w_mem w) /\
    Forall (tick_keeps (in_use (t_reply_ring (i_transport i)))) (w_ticks w);
}.

Lemma in_use_others r r' m m' :
  r_ptr r' <> r_ptr r -> (forall p, p <> r_ptr r -> m' !! p = m !! p) -> in_use r' m -> in_use r' m'.
Proof.
  intros Hne Ho (q & bs & h & t & Hbs & Hr). exists q, bs, h, t. split; [|done]. by rewrite Ho.
Qed.

(** A blocking push of a connection, with all that is needed for the wait after it. *)
Lemma push_passes (i : Inner) (r : Ring) (step : Z) (d : list byte) (timeout more : Z) (w : world) :
  time_passes i r step w -> 0 <= timeout -> 0 <= more -> timeout + more + step <= step * Z.of_nat (length (w_ticks w)) ->
  exists b w', push_blocking r d (Some timeout) w = Done (b, w') /\
    in_use (t_reply_ring (i_transport i)) (w_mem w') /\
    Forall (tick_keeps (in_use (t_reply_ring (i_transport i)))) (w_ticks w') /\
    advancing step (w_now w') (w_ticks w') /\ w_now w <= w_now w' /\
    more <= step * Z.of_nat (length (w_ticks w')) /\ wakeups (w_ticks w') <= wakeups (w_ticks w) /\
    (b = false -> w_now w + timeout <= w_now w').
Proof.
  intros [Hs Ha [Hg _] Hne [(bs & Hbs & Hf & H0) Hfree] [Hu Hk]] Ht Hm Hl.
  destruct (push_ends r step (in_use (t_reply_ring (i_transport i))) Hg Hs
    (fun m m' => in_use_others r _ m m' Hne) w bs d timeout) as (b & w' & k & E & Hu' & K & Hb & Hfull); try done; [lia|].
  destruct (took_advances step Hs _ _ _ Ha K) as [Hnow Ha']. exists b, w'. destruct K as [T L _].
  split_and!; try done; [rewrite T; by apply Forall_drop | nia | | rewrite T; apply wakeups_drop].
  rewrite T, length_drop. nia.
Qed.

(** C15: A control call comes back, provided that nobody dies inside the lock of the
    submission ring ([time_passes]). Whatever else happens on the two rings and whether or
    not the broker answers, the call has returned once the clock has moved past the
    deadline for the submission, the timeout (once more for every spurious wake-up, each of
    which makes [Slot::wait] start anew) and one more turn of the dispatcher: with the reply
    that carries its own correlation id, or with one of its two errors, and with such an
    error only after the time it stands for; in every case its pending entry is gone and
    none was added. *)
Theorem call_control_returns `{ProtoSerde} (c : Catalog) (i : Inner) (w : world) (corr : Z) (frame : Frame)
    (timeout step : Z) :
  catalog = Done c -> pending_wf i -> time_passes i (t_submission (i_transport i)) step w -> 0 <= timeout ->
  SUBMIT_TIMEOUT + timeout * (1 + wakeups (w_ticks w)) + dispatch_cost step + 2 * step <=
    step * Z.of_nat (length (w_ticks w)) ->
  exists r i' w', call_control dispatch_turn corr frame timeout i w = Done ((r, i'), w') /\
    i_pending i' !! corr = None /\
    (forall c s, i_pending i' !! c = Some s -> i_pending i !! c = Some s) /\
    match r with
    | Ok f => correlation_id f = Done (Ok corr)
    | Err e =>
        e = io_other "submission ring full (broker stuck?)" /\ w_now w + SUBMIT_TIMEOUT <= w_now w' \/
        e = IoError TimedOut None "timed out waiting for broker reply" /\ w_now w + timeout <= w_now w'
    end.
Proof.
  intros Hc Hwf Htp Ht Hl. pose proof Htp as [Hs _ [_ Hg] _ _ _].
  assert (0 <= dispatch_cost step) as Hcost by (unfold dispatch_cost, DISPATCH_TIMEOUT, MILLIS; nia).
  destruct (push_passes i _ step (encode frame) SUBMIT_TIMEOUT
      (timeout * (1 + wakeups (w_ticks w)) + dispatch_cost step + step) w Htp)
    as (b & w1 & Ep & Hu & Hk & Ha & Hn & Hmore & Hwk & Hfull); [done | | lia |].
  { pose proof (wakeups_nonneg (w_ticks w)). nia. }
  set (i1 := snd (register corr i)).
  assert (submit frame SUBMIT_TIMEOUT i1 w = Done ((b, i1), w1)) as Es
    by (unfold submit; erewrite cbind_done by reflexivity; by apply clift_done).
  assert (exists r i' w', call_control dispatch_turn corr frame timeout i w = Done ((r, i'), w') /\
    (forall e, r = Err e ->
       e = io_other "submission ring full (broker stuck?)" /\ w_now w + SUBMIT_TIMEOUT <= w_now w' \/
       e = IoError TimedOut None "timed out waiting for broker reply" /\ w_now w + timeout <= w_now w'))
    as (r & i' & w' & E & He).
  { unfold call_control. erewrite cbind_done by reflexivity. fold i1. erewrite cbind_done by exact Es.
    destruct b; cbn [negb].
    2:{ do 3 eexists. split; [erewrite cbind_done by reflexivity; reflexivity|]. intros e [= <-]. left. by split; [|apply Hfull]. }
    destruct (wait_ends dispatch_turn (fun j => t_reply_ring (i_transport j) = t_reply_ring (i_transport i))
      (in_use (t_reply_ring (i_transport i))) step (dispatch_cost step) ltac:(by split) Hs Hcost
      (dispatch_ends c _ step Hc Hg Hs) (fst (register corr i)) timeout i1 w1) as (f & i2 & w2 & k & E & _ & _ & _ & Hto);
      try done; [nia|].
    erewrite cbind_done by exact E. destruct f as [f|]; [by exists (Ok f), i2, w2|].
    do 3 eexists. split; [erewrite cbind_done by reflexivity; reflexivity|]. intros e [= <-]. right.
    split; [done|]. specialize (Hto eq_refl). lia. }
  destruct (call_control_own dispatch_turn corr frame timeout i w r i' w' Hwf E) as (Hp & Hothers & Hr).
  exists r, i', w'. split_and!; [done..|]. destruct r as [f|e]; [done | by apply He].
Qed.

(** C16: A remote call comes back, provided that nobody dies inside the lock of the
    function's arena ([time_passes]). A call of a known function whose request can be
    encoded has returned once the clock has moved past its two deadlines and one more turn
    of the dispatcher, whether or not the service answers: because the function's arena
    stayed full for the whole push timeout, because the call timed out, which it does not
    before its time, or with what a response under its own correlation id decodes to; in
    every case nothing of it is left pending. *)
Theorem call_attempt_returns `{ProtoSerde} {Req Resp} `{!Serde Req, !Serde Resp} (c : Catalog)
    (fn_name : string) (key : option string) (x : Req) (req_json resp_json : string) (sq sp : Schema)
    (f : Callee) (args : list byte) (corr : Z) (qf : Frame) (timeout step : Z) (i : Inner) (w w0 : world) :
  let tr := i_transport i in
  catalog = Done c -> pending_wf i -> i_callees i !! (fn_name, key_or_empty key) = Some f ->
  parse req_json = Ok (sq, cal_req_fp f) -> parse resp_json = Ok (sp, cal_resp_fp f) ->
  avro_encode sq x = Ok args -> next_corr w = Done (corr, w0) ->
  to_frame KRpcRequest (MkRpcRequest corr (t_client_id tr) (t_reply_segment tr) (fp_to_i64 (cal_req_fp f)) args) =
    Done (Ok qf) ->
  time_passes i (cal_ring f) step w -> 0 <= timeout ->
  CALL_PUSH_TIMEOUT + timeout + dispatch_cost step + 2 * step <= step * Z.of_nat (length (w_ticks w)) ->
  exists r i' w', call_attempt (Resp := Resp) dispatch_turn fn_name key x req_json resp_json timeout i w =
      Done ((r, i'), w') /\ i_pending i' !! corr = None /\
    (r = Err (io_other "function request ring full") /\ w_now w + CALL_PUSH_TIMEOUT <= w_now w' \/
     r = Err (IoError TimedOut None "rpc call timed out") /\ w_now w + timeout <= w_now w' \/
     exists rf slot, correlation_id rf = Done (Ok corr) /\
       decode_response (MkCallFuture _ slot sp (cal_resp_fp f) corr) rf = Done r).
Proof.
  intros tr Hc Hwf Hf Pq Pp Ea Ecorr Ef Htp Ht Hl. pose proof Htp as [Hs _ [_ Hg] _ _ _].
  destruct (next_corr_same _ _ _ Ecorr) as (Em & Et & _). pose proof (next_corr_now _ _ _ Ecorr) as En.
  assert (0 <= dispatch_cost step) as Hcost by (unfold dispatch_cost, DISPATCH_TIMEOUT, MILLIS; nia).
  assert (time_passes i (cal_ring f) step w0) as Htp0
    by (destruct Htp as [? ? ? ? ? ?]; constructor; rewrite ?Em, ?Et, ?En; done).
  destruct (push_passes i (cal_ring f) step (encode qf) CALL_PUSH_TIMEOUT (timeout + dispatch_cost step + step) w0 Htp0)
    as (b & w1 & Ep & Hu & Hk & Ha & Hn & Hmore & _ & Hfull); [done | lia | rewrite Et; lia |]. rewrite En in *.
  pose proof (call_pushed dispatch_turn (Resp := Resp) fn_name key x req_json resp_json sq sp f args corr qf i w w0 b w1
    Pq Pp Hf Ea Ecorr Ef Ep) as Ecall. set (i1 := snd (register corr i)) in *.
  unfold call_attempt. destruct b; cbn [negb] in Ecall.
  2:{ destruct (forget_callee_total fn_name key (drop_pending corr i1) w1) as (i2 & w2 & Eg & Hp2 & N2).
      erewrite cbind_done in Ecall by reflexivity. erewrite cbind_done in Ecall by exact Eg.
      do 3 eexists. split; [by erewrite cbind_io_err by exact Ecall|]. split; [rewrite Hp2; apply lookup_delete_eq|].
      left. split; [done|]. rewrite N2. by apply Hfull. }
  erewrite cbind_io_ok by exact Ecall. set (fut := MkCallFuture _ _ _ _ _).
  destruct (block_on_ends c dispatch_turn (fun j => t_reply_ring (i_transport j) = t_reply_ring (i_transport i))
    (in_use (t_reply_ring (i_transport i))) step (dispatch_cost step) Hc ltac:(by split) Hs Hcost
    (dispatch_ends c _ step Hc Hg Hs) (Resp := Resp) fut timeout i1 w1) as (v & i2 & w2 & k & E & _ & _ & _ & Hp & Hto);
    try done.
  erewrite cbind_done by exact E. destruct v as [r|].
  - exists r, i2, w2. split_and!; [done | exact Hp | right; right].
    destruct (block_on_own dispatch_turn fut timeout i1 w1 r i2 w2 (routes_awaiting _ _)
      (register_awaiting corr i Hwf) E) as (rf & Hrf & Hd). by exists rf, (length (i_slots i)).
  - do 3 eexists. split; [reflexivity|]. split; [exact Hp | right; left]. split; [done|]. specialize (Hto eq_refl). lia.
Qed.

(** ** What a spurious wake-up costs *)

(** [n] spurious wake-ups, each one unit before the timeout, and then quiet. *)
Fixpoint restless (timeout now : Z) (n : nat) : list tick :=
  match n with
  | O => [Tick (fun m => m) (now + timeout)]
  | S n => MkTick (fun m => m) (now + timeout - 1) true :: restless timeout (now + timeout - 1) n
  end.

Lemma take_none s i : fst (take_frame s i) = None -> take_frame s i = (None, i).
Proof. unfold take_frame. destruct (i_slots i !! s) as [[[f|] w]|]; try done. Qed.

Lemma restless_loop s timeout i n : forall fuel w,
  0 < timeout -> fst (take_frame s i) = None -> w_ticks w = restless timeout (w_now w) n -> (n < fuel)%nat ->
  exists w', wait_loop (cret tt) fuel s timeout (w_now w) i w = Done ((None, i), w') /\
    w_now w' = w_now w + Z.of_nat n * (timeout - 1) + timeout.
Proof.
  induction n as [|n IH]; intros [|fuel] w Ht Hs Et Hf; try lia; cbn [wait_loop];
    erewrite cbind_done by (unfold locked, ret; by rewrite (take_none _ _ Hs)); cbv beta iota;
    cbn [restless] in Et;
    erewrite cbind_done by (apply clift_done; unfold doze, yield, bind, ret; rewrite Et; reflexivity);
    erewrite cbind_done by reflexivity; erewrite cbind_done by (by apply clift_done); cbn [w_now tk_now tk_woken].
  - rewrite Z.leb_refl. eexists. split; [unfold locked, ret; by rewrite (take_none _ _ Hs)|]. cbn [w_now]. lia.
  - rewrite (proj2 (Z.leb_gt _ _)) by lia. set (w1 := World _ (w_now w + timeout - 1) _ _ _ _).
    destruct (IH fuel w1) as (w' & E & Hn); try done; [lia|]. exists w'. split; [exact E|]. rewrite Hn. cbn [w1 w_now]. lia.
Qed.

Lemma restless_length timeout now n : length (restless timeout now n) = S n.
Proof. revert now. induction n as [|n IH]; intros now; [done|]. cbn [restless length]. by rewrite IH. Qed.

(** [Slot::wait] starts the whole timeout anew after a spurious wake-up: with [n] of them it
    reports the timeout about [n] timeouts late. *)
Theorem wait_outlasts_its_timeout (s n : nat) (timeout : Z) (i : Inner) (w : world) :
  0 < timeout -> fst (take_frame s i) = None -> w_ticks w = restless timeout (w_now w) n ->
  exists w', wait (cret tt) s timeout i w = Done ((None, i), w') /\
    w_now w' = w_now w + Z.of_nat n * (timeout - 1) + timeout.
Proof. intros Ht Hs Et. apply restless_loop; [done..|]. rewrite Et, restless_length. lia. Qed.

(** ** A bus on which nobody answers *)

From S2P Require Import BrokerProps BrokerFlow ClientProps RpcProps BusProps RpcBus.

(** Ten times a second somebody takes everything off the submission ring, and once a sleeper
    wakes up for no reason. *)
Definition sub_empty : list byte := formatted demo_sub_ring (replicate 512 Byte.x00).
Definition silent_tick (n : nat) : tick :=
  MkTick (fun m => <[13 := sub_empty]> m) (100 * MILLIS * (Z.of_nat n + 1)) (Nat.eqb n 0).
Definition silence : world := World demo_conn_mem 0 demo_sys (silent_tick <$> seq 0 300) 0 [].

Lemma silence_advances a n : advancing (100 * MILLIS) (100 * MILLIS * Z.of_nat a) (silent_tick <$> seq a n).
Proof.
  revert a. induction n as [|n IH]; intros a; [done|]. cbn [seq fmap list_fmap advancing]. split.
  - cbn [silent_tick tk_now]. lia.
  - specialize (IH (S a)). by rewrite Nat2Z.inj_succ in IH.
Qed.

Lemma silence_passes i :
  t_submission (i_transport i) = demo_sub_ring -> t_reply_ring (i_transport i) = demo_client_ring ->
  time_passes i demo_sub_ring (100 * MILLIS) silence.
Proof.
  intros Es Er. assert (fits demo_sub_ring sub_empty) as Hf by (vm_compute; discriminate).
  constructor; rewrite ?Er.
  - done.
  - exact (silence_advances 0 300).
  - split; [exact demo_sub_geom | exact demo_client_geom].
  - done.
  - split.
    + destruct demo_conn_sub as (bs & Hbs & (h & t & [? ? ? ? ? ? ?]) & H0). by exists bs.
    + apply Forall_fmap, Forall_forall. intros n _ m bs _ _. exists sub_empty.
      split_and!; [apply lookup_insert_eq | exact Hf | vm_compute; reflexivity].
  - split.
    + destruct demo_bus_ring as (bs & Hbs & (h & t & Hr) & _). exists [], bs, h, t. by split.
    + apply Forall_fmap, Forall_forall. intros n _ m. apply (in_use_others demo_sub_ring); [done|].
      intros p Hp. by apply lookup_insert_ne.
Qed.

Lemma silence_lasts n : n <= 250 * MILLIS ->
  2000 * MILLIS + n + dispatch_cost (100 * MILLIS) + 2 * (100 * MILLIS) <= 100 * MILLIS * Z.of_nat (length (w_ticks silence)).
Proof. intros Hn. cbn [silence w_ticks]. rewrite length_fmap, length_seq. unfold dispatch_cost, DISPATCH_TIMEOUT, MILLIS, SPIN_LIMIT in *. lia. Qed.

Lemma silence_wakeups : wakeups (w_ticks silence) = 1.
Proof. vm_compute. reflexivity. Qed.

Lemma call_control_returns_witness :
  exists r i' w', call_control dispatch_turn 5 demo_request 5 demo_inner silence = Done ((r, i'), w') /\
    i_pending i' !! 5 = None /\
    (forall c s, i_pending i' !! c = Some s -> i_pending demo_inner !! c = Some s) /\
    match r with
    | Ok f => correlation_id f = Done (Ok 5)
    | Err e =>
        e = io_other "submission ring full (broker stuck?)" /\ 0 + SUBMIT_TIMEOUT <= w_now w' \/
        e = IoError TimedOut None "timed out waiting for broker reply" /\ 0 + 5 <= w_now w'
    end.
Proof.
  apply (call_control_returns toy_catalog demo_inner silence 5 demo_request 5 (100 * MILLIS) toy_catalog_done
    demo_pending_wf (silence_passes demo_inner eq_refl eq_refl) ltac:(lia)).
  rewrite silence_wakeups. apply (silence_lasts (5 * (1 + 1))). unfold MILLIS. lia.
Defined.

Definition silence_drawn : world := World demo_conn_mem 0 demo_sys (w_ticks silence) 1 [].
Lemma silence_corr : next_corr silence = Done (77, silence_drawn).
Proof. reflexivity. Qed.

Lemma silence_caller : pending_wf demo_caller.
Proof. intros c s E. unfold demo_caller, demo_inner, start_inner in E. simpl in E. by rewrite lookup_empty in E. Qed.

Lemma silence_frame :
  to_frame KRpcRequest (MkRpcRequest 77 (t_client_id (i_transport demo_caller)) (t_reply_segment (i_transport demo_caller))
    (fp_to_i64 (cal_req_fp (MkCallee toy_fp toy_fp demo_sub_ring))) demo_args) = Done (Ok demo_placed_frame).
Proof. vm_compute. reflexivity. Qed.

Lemma call_attempt_returns_witness :
  exists (r : io_result Z) i' w', call_attempt dispatch_turn "add" None 41 toy_long toy_long 5 demo_caller silence =
      Done ((r, i'), w') /\ i_pending i' !! 77 = None /\
    (r = Err (io_other "function request ring full") /\ 0 + CALL_PUSH_TIMEOUT <= w_now w' \/
     r = Err (IoError TimedOut None "rpc call timed out") /\ 0 + 5 <= w_now w' \/
     exists rf slot, correlation_id rf = Done (Ok 77) /\
       decode_response (MkCallFuture _ slot toy_long toy_fp 77) rf = Done r).
Proof.
  destruct call_values as (V1 & V2 & _).
  exact (call_attempt_returns (H := toy_avro) (H0 := toy_serde) (Resp := Z) toy_catalog "add" None 41 toy_long toy_long toy_long toy_long
    (MkCallee toy_fp toy_fp demo_sub_ring) demo_args 77 demo_placed_frame 5 (100 * MILLIS) demo_caller silence silence_drawn
    toy_catalog_done silence_caller eq_refl V1 V1 V2
    silence_corr silence_frame (silence_passes demo_caller eq_refl eq_refl) ltac:(lia) (silence_lasts 5 ltac:(unfold MILLIS; lia))).
Defined.

Lemma wait_outlasts_its_timeout_witness :
  exists w', wait (cret tt) 0 5 demo_inner (World demo_conn_mem 0 demo_sys (restless 5 0 3) 0 []) = Done ((None, demo_inner), w') /\
    w_now w' = 17.
Proof. exact (wait_outlasts_its_timeout 0 3 5 demo_inner (World demo_conn_mem 0 demo_sys (restless 5 0 3) 0 []) eq_refl eq_refl eq_refl). Defined.
