(* ===== verification/RingConc.v ===== *)
(** * Producers and a consumer on one ring, access by access

    The operations of core/src/ring.rs once more, as threads that interleave: a thread
    has a position in the code, and a step of it is one atomic access to the header, one
    copy to or from the data region, or one futex call. A [machine] has any number of
    producers, the ring's consumer, and the memory; an event lets one thread take its
    next step. A sleeping thread wakes up when a wake reaches it, and at any time for
    a timeout or a spurious wake-up ([EvResume]).

    Memory is sequentially consistent. Two fields are records of the run: [m_hist] has
    each attempt of an operation at the step that decides it, [m_returned] each call at
    the step that returns. *)

From S2P Require Import Prelude Machine Shm Circ Ring RingMem RingSpec RingThm.

(** ** Producers *)

(** [MTry]: the call is [try_push] or [try_pop]; [MBlock]: the blocking one, with its
    deadline. *)
Inductive mode : Type := MTry | MBlock (deadline : option Z).

Record job : Type := Job { j_data : list byte; j_mode : mode }.

#[export] Instance mode_eq_dec : EqDecision mode.
Proof. solve_decision. Defined.
#[export] Instance job_eq_dec : EqDecision job.
Proof. solve_decision. Defined.

(** What [push_locked] came to; [Full] has the value of [space_seq] that a blocking
    producer read. *)
Inductive presult : Type := Pushed | Full (seen : option Z).

Inductive ppos : Type :=
| PIdle
| PCas                    (** [lock_producer]: the fast path *)
| PSwap                   (** [lock_producer]: top of the loop *)
| PLockWait               (** [lock_producer]: [futex::wait] *)
| PLockAsleep
| PHead                   (** [push_locked], with the lock *)
| PTail (head : Z)
| PLen (head : Z)
| PData (head : Z)
| PStore (head : Z)
| PSeen                   (** no room: read [space_seq] *)
| PUnlock (res : presult)
| PLockWake (res : presult)
| PSeq                    (** pushed: announce it *)
| PWake
| PCheck (seen : Z)       (** no room: the deadline, then [futex::wait] *)
| PWaitSpace (seen : Z)
| PAsleep
| PDone (ok : bool).

#[export] Instance presult_eq_dec : EqDecision presult.
Proof. solve_decision. Defined.
#[export] Instance ppos_eq_dec : EqDecision ppos.
Proof. solve_decision. Defined.

Definition no_room (j : job) : ppos :=
  match j_mode j with MTry => PUnlock (Full None) | MBlock _ => PSeen end.

Definition after_unlock (res : presult) : ppos :=
  match res with
  | Pushed => PSeq
  | Full None => PDone false
  | Full (Some seen) => PCheck seen
  end.

Definition prod_step (r : Ring) (j : job) (p : ppos) : prog ppos :=
  let need := 4 + blen (j_data j) in
  match p with
  | PIdle | PDone _ => fun _ => Starved
  | PCas =>
      let! ok := cas_u32 (r_ptr r) (r_base r + OFF_PRODLOCK) 0 1 in
      ret (if (ok : bool) then PHead else PSwap)
  | PSwap =>
      let! old := swap_u32 (r_ptr r) (r_base r + OFF_PRODLOCK) 2 in
      ret (if old =? 0 then PHead else PLockWait)
  | PLockWait =>
      let! v := load_u32 (r_ptr r) (r_base r + OFF_PRODLOCK) in
      ret (if v =? 2 then PLockAsleep else PSwap)
  | PLockAsleep => do! yield in ret PSwap
  | PHead =>
      if r_capacity r <? need then ret (no_room j) else
      let! head := load_u64 (r_ptr r) (r_base r + OFF_HEAD) in
      ret (PTail head)
  | PTail head =>
      let! tail := load_u64 (r_ptr r) (r_base r + OFF_TAIL) in
      let used := u64 (head - tail) in
      ret (if usize (r_capacity r - used) <? need then no_room j else PLen head)
  | PLen head =>
      do! write_wrapped r head (le_bytes 4 (u32 (blen (j_data j)))) in
      ret (PData head)
  | PData head =>
      do! write_wrapped r (u64 (head + 4)) (j_data j) in
      ret (PStore head)
  | PStore head =>
      do! store_u64 (r_ptr r) (r_base r + OFF_HEAD) (u64 (head + need)) in
      ret (PUnlock Pushed)
  | PSeen =>
      let! seen := load_u32 (r_ptr r) (r_base r + OFF_SPACE_SEQ) in
      ret (PUnlock (Full (Some seen)))
  | PUnlock res =>
      let! old := swap_u32 (r_ptr r) (r_base r + OFF_PRODLOCK) 0 in
      ret (if old =? 2 then PLockWake res else after_unlock res)
  | PLockWake res =>
      do! futex_wake (r_ptr r) (r_base r + OFF_PRODLOCK) 1 in
      ret (after_unlock res)
  | PSeq =>
      let! _ := fetch_add_u32 (r_ptr r) (r_base r + OFF_DATA_SEQ) 1 in
      ret PWake
  | PWake =>
      do! futex_wake (r_ptr r) (r_base r + OFF_DATA_SEQ) 1 in
      ret (PDone true)
  | PCheck seen =>
      match j_mode j with
      | MBlock (Some dl) =>
          let! t := now in ret (if dl <=? t then PDone false else PWaitSpace seen)
      | _ => ret (PWaitSpace seen)
      end
  | PWaitSpace seen =>
      let! v := load_u32 (r_ptr r) (r_base r + OFF_SPACE_SEQ) in
      ret (if v =? seen then PAsleep else PCas)
  | PAsleep => do! yield in ret PCas
  end.

(** ** The consumer *)

(** Why [try_pop] runs: on its own, as one of the spins of [pop_blocking] (with the
    spins left after it), or after [data_seq] was read. *)
Inductive attempt : Type := AOnce | ASpin (left : nat) | ALast (seen : Z).

Inductive cpos : Type :=
| CIdle
| CTail (a : attempt)
| CHead (a : attempt) (tail : Z)
| CLen (a : attempt) (tail : Z)
| CData (a : attempt) (tail len : Z)
| CStore (a : attempt) (tail len : Z) (payload : list byte)
| CSeq (payload : list byte)
| CWake (payload : list byte)
| CSpin (left : nat)      (** the spin hint *)
| CSeen                   (** the spins are used up: read [data_seq] *)
| CCheck (seen : Z)
| CWait (seen : Z)
| CAsleep
| CDone (v : option (list byte)).

#[export] Instance attempt_eq_dec : EqDecision attempt.
Proof. solve_decision. Defined.
#[export] Instance cpos_eq_dec : EqDecision cpos.
Proof. solve_decision. Defined.

(** The first spin of a turn of [pop_blocking]. *)
Definition first_spin : cpos := CTail (ASpin (SPIN_LIMIT - 1)).

(** [try_pop] returned [None]. *)
Definition found_empty (a : attempt) : cpos :=
  match a with
  | AOnce => CDone None
  | ASpin n => CSpin n
  | ALast seen => CCheck seen
  end.

Definition after_spin (n : nat) : cpos :=
  match n with O => CSeen | S n => CTail (ASpin n) end.

Definition cons_step (r : Ring) (deadline : option Z) (c : cpos) : prog cpos :=
  match c with
  | CIdle | CDone _ => fun _ => Starved
  | CTail a =>
      let! tail := load_u64 (r_ptr r) (r_base r + OFF_TAIL) in
      ret (CHead a tail)
  | CHead a tail =>
      let! head := load_u64 (r_ptr r) (r_base r + OFF_HEAD) in
      ret (if head =? tail then found_empty a else CLen a tail)
  | CLen a tail =>
      let! len_bytes := read_wrapped r tail 4 in
      ret (CData a tail (from_le len_bytes))
  | CData a tail len =>
      let! payload := read_wrapped r (u64 (tail + 4)) len in
      ret (CStore a tail len payload)
  | CStore a tail len payload =>
      do! store_u64 (r_ptr r) (r_base r + OFF_TAIL) (u64 (tail + 4 + len)) in
      ret (CSeq payload)
  | CSeq payload =>
      let! _ := fetch_add_u32 (r_ptr r) (r_base r + OFF_SPACE_SEQ) 1 in
      ret (CWake payload)
  | CWake payload =>
      do! futex_wake (r_ptr r) (r_base r + OFF_SPACE_SEQ) I32_MAX in
      ret (CDone (Some payload))
  | CSpin n => do! yield in ret (after_spin n)
  | CSeen =>
      let! seen := load_u32 (r_ptr r) (r_base r + OFF_DATA_SEQ) in
      ret (CTail (ALast seen))
  | CCheck seen =>
      match deadline with
      | Some dl => let! t := now in ret (if dl <=? t then CDone None else CWait seen)
      | None => ret (CWait seen)
      end
  | CWait seen =>
      let! v := load_u32 (r_ptr r) (r_base r + OFF_DATA_SEQ) in
      ret (if v =? seen then CAsleep else first_spin)
  | CAsleep => do! yield in ret first_spin
  end.

(** ** The machine *)

(** A decided operation: of producer [Some n], or of the consumer. *)
Definition decision : Type := option nat * (ring_op * ring_out).

Record machine : Type := Mach {
  m_world : world;
  m_prods : list (job * ppos);
  m_deadline : option Z;
  m_cons : cpos;
  m_hist : list decision;
  m_returned : list decision;
}.

Inductive mevent : Type :=
| EvPush (n : nat) (j : job)       (** producer [n] calls *)
| EvPop (m : mode)
| EvProd (n k : nat)               (** its next step; a wake of the lock goes to [k] *)
| EvCons
| EvResume (n : nat)
| EvResumeCons
| EvClock (t : Z).

(** The thread is asleep, or between two spins: it goes on by [EvResume] only. *)
Definition resume_prod (p : ppos) : option ppos :=
  match p with PLockAsleep => Some PSwap | PAsleep => Some PCas | _ => None end.
Definition resume_cons (c : cpos) : option cpos :=
  match c with CSpin n => Some (after_spin n) | CAsleep => Some first_spin | _ => None end.

Definition lock_sleeper (t : job * ppos) : bool :=
  match snd t with PLockAsleep => true | _ => false end.

(** [futex::wake(lock, 1)]: one sleeper, if there is any. *)
Definition wake_lock (k : nat) (ts : list (job * ppos)) : option (list (job * ppos)) :=
  if existsb lock_sleeper ts then
    match ts !! k with
    | Some (j, PLockAsleep) => Some (<[k := (j, PSwap)]> ts)
    | _ => None
    end
  else Some ts.

(** [futex::wake(space_seq, i32::MAX)] *)
Definition wake_space (ts : list (job * ppos)) : list (job * ppos) :=
  (fun t => match t with (j, PAsleep) => (j, PCas) | t => t end) <$> ts.

(** [futex::wake(data_seq, 1)]: the consumer is the only one who waits there. *)
Definition wake_data (c : cpos) : cpos := match c with CAsleep => first_spin | c => c end.

(** What a step of a producer decides, given where it leads. *)
Definition prod_decides (n : nat) (j : job) (p p' : ppos) : list decision :=
  match p, p' with
  | PStore _, _ => [(Some n, (OpPush (j_data j), OutPush true))]
  | (PHead | PTail _), (PSeen | PUnlock _) => [(Some n, (OpPush (j_data j), OutPush false))]
  | _, _ => []
  end.

Definition prod_returns (n : nat) (j : job) (p' : ppos) : list decision :=
  match p' with PDone b => [(Some n, (OpPush (j_data j), OutPush b))] | _ => [] end.

Definition cons_returns (c' : cpos) : list decision :=
  match c' with CDone v => [(None, (OpPop, OutPop v))] | _ => [] end.

Definition cons_decides (c c' : cpos) : list decision :=
  match c, c' with
  | CStore _ _ _ d, _ => [(None, (OpPop, OutPop (Some d)))]
  | CHead _ _, (CDone _ | CSpin _ | CCheck _) => [(None, (OpPop, OutPop None))]
  | _, _ => []
  end.

(** The threads and the consumer after the wake that producer's step [p] was, if it was
    one. *)
Definition wake_prod (k : nat) (p : ppos) (ts : list (job * ppos)) : option (list (job * ppos)) :=
  match p with PLockWake _ => wake_lock k ts | _ => Some ts end.
Definition wake_cons (p : ppos) (c : cpos) : cpos :=
  match p with PWake => wake_data c | _ => c end.

Definition step_prod (r : Ring) (n k : nat) (s : machine) : option machine :=
  match m_prods s !! n with
  | None => None
  | Some (j, p) =>
      if bool_decide (is_Some (resume_prod p)) then None else
      match prod_step r j p (m_world s) with
      | Done (p', w') =>
          ts ← wake_prod k p (<[n := (j, p')]> (m_prods s));
          Some (Mach w' ts (m_deadline s) (wake_cons p (m_cons s))
                  (m_hist s ++ prod_decides n j p p') (m_returned s ++ prod_returns n j p'))
      | _ => None
      end
  end.

Definition step_cons (r : Ring) (s : machine) : option machine :=
  if bool_decide (is_Some (resume_cons (m_cons s))) then None else
  match cons_step r (m_deadline s) (m_cons s) (m_world s) with
  | Done (c', w') =>
      let ts := match m_cons s with CWake _ => wake_space (m_prods s) | _ => m_prods s end in
      Some (Mach w' ts (m_deadline s) c'
              (m_hist s ++ cons_decides (m_cons s) c') (m_returned s ++ cons_returns c'))
  | _ => None
  end.

Definition set_now (t : Z) (w : world) : world :=
  World (w_mem w) t (w_sys w) (w_ticks w) (w_rng w) (w_log w).

(** A call starts at [PCas], a pop at [CTail]. *)
Definition free_prod (p : ppos) : bool := match p with PIdle | PDone _ => true | _ => false end.
Definition free_cons (c : cpos) : bool := match c with CIdle | CDone _ => true | _ => false end.

Definition machine_next (r : Ring) (e : mevent) (s : machine) : option machine :=
  let set_prod n t := Mach (m_world s) (<[n := t]> (m_prods s)) (m_deadline s) (m_cons s) (m_hist s) (m_returned s) in
  match e with
  | EvPush n j =>
      '(_, p) ← m_prods s !! n;
      if free_prod p then Some (set_prod n (j, PCas)) else None
  | EvPop m =>
      if free_cons (m_cons s) then
        match m with
        | MTry => Some (Mach (m_world s) (m_prods s) None (CTail AOnce) (m_hist s) (m_returned s))
        | MBlock dl => Some (Mach (m_world s) (m_prods s) dl first_spin (m_hist s) (m_returned s))
        end
      else None
  | EvProd n k => step_prod r n k s
  | EvCons => step_cons r s
  | EvResume n => '(j, p) ← m_prods s !! n; p' ← resume_prod p; Some (set_prod n (j, p'))
  | EvResumeCons =>
      c' ← resume_cons (m_cons s);
      Some (Mach (m_world s) (m_prods s) (m_deadline s) c' (m_hist s) (m_returned s))
  | EvClock t =>
      Some (Mach (set_now t (m_world s)) (m_prods s) (m_deadline s) (m_cons s) (m_hist s) (m_returned s))
  end.

Fixpoint machine_run (r : Ring) (es : list mevent) (s : machine) : option machine :=
  match es with
  | [] => Some s
  | e :: es => s ← machine_next r e s; machine_run r es s
  end.

(** [n] producers and a consumer that have not called yet. *)
Definition idle_machine (n : nat) (w : world) : machine :=
  Mach w (replicate n (Job [] MTry, PIdle)) None CIdle [] [].

(** What the decided operations come to on the abstract queue. *)
Definition hist_ops (hist : list decision) : list ring_op := (fun e => fst (snd e)) <$> hist.
Definition hist_outs (hist : list decision) : list ring_out := (fun e => snd (snd e)) <$> hist.
