(* ===== verification/RingConcThm.v ===== *)
(** * Reasoning about the interleaved ring

    What one step of a thread does to the bytes of the ring's block, as functions; the
    invariant of the machine, with the abstract queue at its centre; and the
    invariants of the sleeping threads. *)

From S2P Require Import Prelude Machine Shm Circ Ring RingMem RingSpec RingThm RingConc.

(** ** The steps as functions of the block *)

(** The thread can take a step of its own. *)
Definition prod_runs (p : ppos) : bool :=
  match p with PIdle | PDone _ | PLockAsleep | PAsleep => false | _ => true end.
Definition cons_runs (c : cpos) : bool :=
  match c with CIdle | CDone _ | CSpin _ | CAsleep => false | _ => true end.

Section steps.
Context (r : Ring).

Definition need (j : job) : Z := 4 + blen (j_data j).

Definition prod_next (j : job) (p : ppos) (bs : list byte) (now : Z) : ppos :=
  match p with
  | PCas => if fget r bs FLock =? 0 then PHead else PSwap
  | PSwap => if fget r bs FLock =? 0 then PHead else PLockWait
  | PLockWait => if fget r bs FLock =? 2 then PLockAsleep else PSwap
  | PHead => if r_capacity r <? need j then no_room j else PTail (fget r bs FHead)
  | PTail head =>
      if usize (r_capacity r - u64 (head - fget r bs FTail)) <? need j then no_room j else PLen head
  | PLen head => PData head
  | PData head => PStore head
  | PStore _ => PUnlock Pushed
  | PSeen => PUnlock (Full (Some (fget r bs FSpaceSeq)))
  | PUnlock res => if fget r bs FLock =? 2 then PLockWake res else after_unlock res
  | PLockWake res => after_unlock res
  | PSeq => PWake
  | PWake => PDone true
  | PCheck seen =>
      match j_mode j with
      | MBlock (Some dl) => if dl <=? now then PDone false else PWaitSpace seen
      | _ => PWaitSpace seen
      end
  | PWaitSpace seen => if fget r bs FSpaceSeq =? seen then PAsleep else PCas
  | _ => p
  end.

Definition copy_in (bs : list byte) (pos : Z) (src : list byte) : list byte :=
  dset r bs (cwrite (r_capacity r) (dget r bs) pos src).

Definition prod_block (j : job) (p : ppos) (bs : list byte) : list byte :=
  match p with
  | PCas => if fget r bs FLock =? 0 then fset r bs FLock 1 else bs
  | PSwap => fset r bs FLock 2
  | PLen head => copy_in bs head (le_bytes 4 (u32 (blen (j_data j))))
  | PData head => copy_in bs (u64 (head + 4)) (j_data j)
  | PStore head => fset r bs FHead (u64 (head + need j))
  | PUnlock _ => fset r bs FLock 0
  | PSeq => fset r bs FDataSeq (u32 (fget r bs FDataSeq + 1))
  | _ => bs
  end.

Definition cons_next (c : cpos) (bs : list byte) (deadline : option Z) (now : Z) : cpos :=
  match c with
  | CTail a => CHead a (fget r bs FTail)
  | CHead a tail => if fget r bs FHead =? tail then found_empty a else CLen a tail
  | CLen a tail => CData a tail (from_le (cread (r_capacity r) (dget r bs) tail 4))
  | CData a tail len =>
      CStore a tail len (cread (r_capacity r) (dget r bs) (u64 (tail + 4)) len)
  | CStore _ _ _ payload => CSeq payload
  | CSeq payload => CWake payload
  | CWake payload => CDone (Some payload)
  | CSeen => CTail (ALast (fget r bs FDataSeq))
  | CCheck seen =>
      match deadline with
      | Some dl => if dl <=? now then CDone None else CWait seen
      | None => CWait seen
      end
  | CWait seen => if fget r bs FDataSeq =? seen then CAsleep else first_spin
  | _ => c
  end.

Definition cons_block (c : cpos) (bs : list byte) : list byte :=
  match c with
  | CStore _ tail len _ => fset r bs FTail (u64 (tail + 4 + len))
  | CSeq _ => fset r bs FSpaceSeq (u32 (fget r bs FSpaceSeq + 1))
  | _ => bs
  end.

(** [w'] is [w] with the block [bs'], apart from the log. *)
Definition moved (w w' : world) (bs' : list byte) : Prop :=
  w_mem w' = <[r_ptr r := bs']> (w_mem w) /\ w_now w' = w_now w.

Hypothesis Hg : ring_geom r.

Lemma moved_same w bs : w_mem w !! r_ptr r = Some bs -> moved w w bs.
Proof. intros. split; [by rewrite insert_id | done]. Qed.

Lemma moved_upd w bs' : moved w (upd_block (r_ptr r) bs' w) bs'.
Proof. done. Qed.

Lemma moved_log w bs' e : moved w (add_log e (upd_block (r_ptr r) bs' w)) bs'.
Proof. done. Qed.

Lemma moved_lookup w w' bs' : moved w w' bs' -> w_mem w' !! r_ptr r = Some bs'.
Proof. intros [-> _]. apply lookup_insert_eq. Qed.

(** The copies of a producer stay within the data region. *)
Definition copies_fit (j : job) (p : ppos) : Prop :=
  match p with PLen _ | PData _ => need j <= r_capacity r | _ => True end.

Lemma prod_step_eq j p w bs :
  w_mem w !! r_ptr r = Some bs -> fits r bs -> copies_fit j p -> prod_runs p = true ->
  exists w', prod_step r j p w = Done (prod_next j p bs (w_now w), w') /\ moved w w' (prod_block j p bs).
Proof using Hg.
  intros Hbs Hf Hc Hr. pose proof (moved_same w bs Hbs) as Hsame. pose proof (moved_upd w) as Hupd.
  assert (forall f, load (fwidth f) (r_ptr r) (r_base r + foff f) w = Done (fget r bs f, w)) as Hload
    by (intros; by apply load_field).
  destruct p; try discriminate Hr; cbn [prod_step prod_next prod_block].
  - destruct (Z.eqb_spec (fget r bs FLock) 0) as [H0|H0].
    + eexists. split; [by erewrite bind_done by (by apply (cas_lock_free r Hg w bs Hbs Hf 1)) | apply Hupd].
    + exists w. split; [by erewrite bind_done by (by apply (cas_lock_held r Hg w bs Hbs Hf 1)) | done].
  - eexists. split; [by erewrite bind_done by apply (swap_lock r Hg w bs Hbs Hf 2) | apply Hupd].
  - exists w. split; [by erewrite bind_done by apply (Hload FLock) | done].
  - exists w. split; [|done]. fold (need j). destruct (_ <? _); [done|].
    by erewrite bind_done by apply (Hload FHead).
  - exists w. split; [|done]. by erewrite bind_done by apply (Hload FTail).
  - eexists. split; [|apply Hupd]. unfold copies_fit, need in Hc. pose proof (blen_nonneg (j_data j)).
    erewrite bind_done by (eapply (write_wrapped_ok r Hg w bs Hbs Hf); rewrite blen_le_bytes; lia). done.
  - eexists. split; [|apply Hupd]. unfold copies_fit, need in Hc.
    erewrite bind_done by (eapply (write_wrapped_ok r Hg w bs Hbs Hf); lia). done.
  - eexists. split; [by erewrite bind_done by apply (store_field r Hg w bs Hbs Hf FHead) | apply Hupd].
  - exists w. split; [by erewrite bind_done by apply (Hload FSpaceSeq) | done].
  - eexists. split; [by erewrite bind_done by apply (swap_lock r Hg w bs Hbs Hf 0) | apply Hupd].
  - eexists. split; [reflexivity | by split; simpl; [rewrite insert_id |]].
  - eexists. split; [by erewrite bind_done by by apply (fetch_add_field r Hg w bs Hbs Hf FDataSeq 1) | apply Hupd].
  - eexists. split; [reflexivity | by split; simpl; [rewrite insert_id |]].
  - exists w. split; [|done]. by destruct (j_mode j) as [|[dl|]].
  - exists w. split; [by erewrite bind_done by apply (Hload FSpaceSeq) | done].
Qed.

(** The reads of the consumer stay within the data region. *)
Definition reads_fit (c : cpos) : Prop :=
  match c with
  | CLen _ _ => 4 <= r_capacity r
  | CData _ _ len => 0 <= len <= r_capacity r
  | _ => True
  end.

Lemma cons_step_eq dl c w bs :
  w_mem w !! r_ptr r = Some bs -> fits r bs -> reads_fit c -> cons_runs c = true ->
  exists w', cons_step r dl c w = Done (cons_next c bs dl (w_now w), w') /\ moved w w' (cons_block c bs).
Proof using Hg.
  intros Hbs Hf Hc Hr. pose proof (moved_same w bs Hbs) as Hsame. pose proof (moved_upd w) as Hupd.
  assert (forall f, load (fwidth f) (r_ptr r) (r_base r + foff f) w = Done (fget r bs f, w)) as Hload
    by (intros; by apply load_field).
  destruct c; try discriminate Hr; cbn [cons_step cons_next cons_block reads_fit] in *.
  - exists w. split; [by erewrite bind_done by apply (Hload FTail) | done].
  - exists w. split; [by erewrite bind_done by apply (Hload FHead) | done].
  - exists w. split; [by erewrite bind_done by (apply (read_wrapped_ok r Hg w bs Hbs Hf); lia) | done].
  - exists w. split; [by erewrite bind_done by (apply (read_wrapped_ok r Hg w bs Hbs Hf); lia) | done].
  - eexists. split; [by erewrite bind_done by apply (store_field r Hg w bs Hbs Hf FTail) | apply Hupd].
  - eexists. split; [by erewrite bind_done by by apply (fetch_add_field r Hg w bs Hbs Hf FSpaceSeq 1) | apply Hupd].
  - eexists. split; [reflexivity | by split; simpl; [rewrite insert_id |]].
  - exists w. split; [by erewrite bind_done by apply (Hload FDataSeq) | done].
  - exists w. split; [|done]. by destruct dl.
  - exists w. split; [by erewrite bind_done by apply (Hload FDataSeq) | done].
Qed.
End steps.

(** ** The abstract queue along a history *)

Definition fifo_after (cap : Z) (q : list (list byte)) (os : list ring_op) : list (list byte) :=
  foldl (fun q o => snd (fifo_op cap q o)) q os.

Lemma fifo_run_app cap q os os' :
  fifo_run cap q (os ++ os') = fifo_run cap q os ++ fifo_run cap (fifo_after cap q os) os'.
Proof.
  revert q. induction os as [|o os IH]; intros q; [done|]. simpl.
  destruct (fifo_op cap q o) as [x q1] eqn:E. simpl. by rewrite IH.
Qed.

(** The decisions [ds] are what the abstract queue answers, and take it from [q] to [q']. *)
Definition decides (cap : Z) (ds : list decision) (q q' : list (list byte)) : Prop :=
  hist_outs ds = fifo_run cap q (hist_ops ds) /\ q' = fifo_after cap q (hist_ops ds).

Lemma decides_nil cap q : decides cap [] q q.
Proof. done. Qed.

Lemma decides_one cap who o x q q' : fifo_op cap q o = (x, q') -> decides cap [(who, (o, x))] q q'.
Proof. intros E. unfold decides, fifo_after. simpl. by rewrite E. Qed.

Lemma decides_app cap ds ds' q q1 q2 :
  decides cap ds q q1 -> decides cap ds' q1 q2 -> decides cap (ds ++ ds') q q2.
Proof.
  unfold decides, hist_outs, hist_ops, fifo_after. intros [E1 ->] [E2 ->].
  rewrite !fmap_app, fifo_run_app, foldl_app. by rewrite E1, E2.
Qed.

(** ** What a thread knows at its position *)

Definition holds_lock (p : ppos) : bool :=
  match p with
  | PHead | PTail _ | PLen _ | PData _ | PStore _ | PSeen | PUnlock _ => true
  | _ => false
  end.

Section inv.
Context (r : Ring).
Hypothesis Hg : ring_geom r.

(** [h] and [t] are the unbounded cursors, [d] the data region. *)
Definition prod_ok (d : list byte) (h t : Z) (j : job) (p : ppos) : Prop :=
  match p with
  | PTail head => head = h mod 2 ^ 64 /\ need j <= r_capacity r
  | PLen head => head = h mod 2 ^ 64 /\ h - t + need j <= r_capacity r
  | PData head =>
      head = h mod 2 ^ 64 /\ h - t + need j <= r_capacity r /\
      cread (r_capacity r) d h 4 = le_bytes 4 (blen (j_data j))
  | PStore head =>
      head = h mod 2 ^ 64 /\ h - t + need j <= r_capacity r /\
      cread (r_capacity r) d h (need j) = record (j_data j)
  | _ => True
  end.

Definition cons_ok (t : Z) (q : list (list byte)) (c : cpos) : Prop :=
  match c with
  | CHead _ tail => tail = t mod 2 ^ 64
  | CLen _ tail => tail = t mod 2 ^ 64 /\ q <> []
  | CData _ tail len => tail = t mod 2 ^ 64 /\ exists d q', q = d :: q' /\ len = blen d
  | CStore _ tail len payload =>
      tail = t mod 2 ^ 64 /\ len = blen payload /\ exists q', q = payload :: q'
  | _ => True
  end.

Lemma prod_ok_idle d h t j p : holds_lock p = false -> prod_ok d h t j p.
Proof. by destruct p. Qed.

Lemma prod_ok_later d h t t' j p : t <= t' -> prod_ok d h t j p -> prod_ok d h t' j p.
Proof. destruct p; simpl; intuition lia. Qed.

Lemma cons_ok_grow t q q' c : cons_ok t q c -> cons_ok t (q ++ q') c.
Proof.
  destruct c; simpl; try done.
  - intros [-> Hq]. split; [done|]. by destruct q.
  - intros [-> (d & q1 & -> & ->)]. split; [done|]. by exists d, (q1 ++ q').
  - intros (-> & -> & q1 & ->). split_and!; [done..|]. by exists (q1 ++ q').
Qed.

(** A write into the free space leaves the queue as it is. *)
Lemma ring_rep_copy bs h t q pos src :
  ring_rep r bs h t q -> h <= pos -> pos + blen src <= t + r_capacity r ->
  ring_rep r (copy_in r bs pos src) h t q /\
  dget r (copy_in r bs pos src) = cwrite (r_capacity r) (dget r bs) pos src /\
  (forall f, fget r (copy_in r bs pos src) f = fget r bs f).
Proof using Hg.
  intros [Hf Ho Hu Hc Hh Ht Hd] Hp Hs. unfold copy_in. pose proof (cap_pos r Hg). pose proof (blen_nonneg src).
  assert (blen (dget r bs) = r_capacity r) as Hdl by by apply blen_dget.
  assert (blen (cwrite (r_capacity r) (dget r bs) pos src) = r_capacity r) as Hw by (apply blen_cwrite; lia).
  assert (dget r (dset r bs (cwrite (r_capacity r) (dget r bs) pos src)) =
          cwrite (r_capacity r) (dget r bs) pos src) as Hdd by by apply dget_dset.
  assert (forall f, fget r (dset r bs (cwrite (r_capacity r) (dget r bs) pos src)) f = fget r bs f) as Hff
    by (intros; by apply fget_dset).
  split; [|done]. constructor; rewrite ?Hff, ?Hdd; auto using fits_dset.
  rewrite cread_cwrite_disjoint by lia. done.
Qed.

Lemma copy_in_congr bs pos pos' src :
  pos mod r_capacity r = pos' mod r_capacity r -> copy_in r bs pos src = copy_in r bs pos' src.
Proof. intros E. unfold copy_in. by rewrite (cwrite_congr r _ pos pos') by done. Qed.

Definition bit (b : bool) : Z := if b then 1 else 0.
Definition lock_bit (bs : list byte) : Z := if fget r bs FLock =? 0 then 0 else 1.

(** What a producer's step does to the shared state; [ds] is what it decides. *)
Record prod_effect (j : job) (p p' : ppos) (bs bs' : list byte) (h t : Z) (q : list (list byte))
    (ds : list decision) (h' : Z) (q' : list (list byte)) : Prop := {
  pe_rep : ring_rep r bs' h' t q';
  pe_ok : prod_ok (dget r bs') h' t j p';
  pe_decides : decides (r_capacity r) ds q q';
  pe_quiet : holds_lock p = false -> h' = h /\ dget r bs' = dget r bs;
  pe_grows : exists k, q' = q ++ k;
  pe_lock : bit (holds_lock p') - bit (holds_lock p) = lock_bit bs' - lock_bit bs;
}.

Lemma prod_effect_same j p p' bs h t q :
  ring_rep r bs h t q -> prod_ok (dget r bs) h t j p' -> holds_lock p' = holds_lock p ->
  prod_effect j p p' bs bs h t q [] h q.
Proof.
  intros Hrep Hok E. constructor; try done; [by exists []; rewrite app_nil_r | rewrite E; lia].
Qed.

(** A step that writes one of the words that are not cursors. *)
Lemma prod_effect_fset j p p' bs h t q f v :
  ring_rep r bs h t q -> f <> FHead -> f <> FTail -> prod_ok (dget r bs) h t j p' ->
  bit (holds_lock p') - bit (holds_lock p) = lock_bit (fset r bs f v) - lock_bit bs ->
  prod_effect j p p' bs (fset r bs f v) h t q [] h q.
Proof using Hg.
  intros Hrep H1 H2 Hok E. pose proof (rr_fits _ _ _ _ _ Hrep) as Hf. constructor; try done.
  - by apply ring_rep_fset.
  - by rewrite dget_fset.
  - intros _. by rewrite dget_fset.
  - by exists []; rewrite app_nil_r.
Qed.

Lemma lock_bit_fset bs v : fits r bs -> 0 <= v < 2 ^ 32 -> lock_bit (fset r bs FLock v) = if v =? 0 then 0 else 1.
Proof using Hg.
  intros Hf Hv. unfold lock_bit. rewrite fget_fset_eq by done.
  change (256 ^ Z.of_nat (fwidth FLock)) with (2 ^ 32). by rewrite Z.mod_small.
Qed.

Lemma lock_bit_fset_ne bs f v : fits r bs -> f <> FLock -> lock_bit (fset r bs f v) = lock_bit bs.
Proof using Hg. intros. unfold lock_bit. by rewrite fget_fset_ne. Qed.

(** Room for the record is what the queue's own test says. *)
Lemma room_iff bs h t q j :
  ring_rep r bs h t q ->
  fifo_push (r_capacity r) q (j_data j) =
    if h - t + need j <=? r_capacity r then (true, q ++ [j_data j]) else (false, q).
Proof. intros Hrep. unfold fifo_push, need. by rewrite (rr_used _ _ _ _ _ Hrep). Qed.

(** No room: the refusal is decided here. *)
Lemma prod_effect_full n j p bs h t q :
  ring_rep r bs h t q -> holds_lock p = true -> r_capacity r < h - t + need j ->
  prod_decides n j p (no_room j) = [(Some n, (OpPush (j_data j), OutPush false))] ->
  prod_effect j p (no_room j) bs bs h t q (prod_decides n j p (no_room j)) h q.
Proof.
  intros Hrep Hh Hfull E. rewrite E. pose proof (room_iff bs h t q j Hrep) as Hr.
  destruct (Z.leb_spec (h - t + need j) (r_capacity r)); [lia|].
  constructor; try done.
  - by unfold no_room; destruct (j_mode j).
  - apply decides_one. simpl. by rewrite Hr.
  - by exists []; rewrite app_nil_r.
  - unfold no_room. by destruct (j_mode j); rewrite Hh; simpl; lia.
Qed.

Lemma prod_effect_head n j bs h t q :
  ring_rep r bs h t q ->
  prod_effect j PHead (prod_next r j PHead bs 0) bs bs h t q
    (prod_decides n j PHead (prod_next r j PHead bs 0)) h q.
Proof.
  intros Hrep. cbn [prod_next]. destruct (Z.ltb_spec (r_capacity r) (need j)) as [Hbig|Hsmall].
  - apply prod_effect_full; [done | done | pose proof (rr_order _ _ _ _ _ Hrep); lia|].
    unfold no_room. by destruct (j_mode j).
  - apply prod_effect_same; [done | | done]. split; [apply (rr_head _ _ _ _ _ Hrep) | done].
Qed.

Lemma prod_effect_tail n j bs h t q :
  ring_rep r bs h t q -> need j <= r_capacity r ->
  prod_effect j (PTail (h mod 2 ^ 64)) (prod_next r j (PTail (h mod 2 ^ 64)) bs 0) bs bs h t q
    (prod_decides n j (PTail (h mod 2 ^ 64)) (prod_next r j (PTail (h mod 2 ^ 64)) bs 0)) h q.
Proof using Hg.
  intros Hrep Hn. pose proof Hrep as [Hf Ho Hu Hc Hh Ht Hd]. pose proof (cap_le r Hg). cbn [prod_next].
  rewrite Ht, cursor_diff by lia. rewrite (wrap_u_small 64) by (unfold in_u; lia).
  destruct (Z.ltb_spec (r_capacity r - (h - t)) (need j)) as [Hno|Hroom].
  - apply prod_effect_full; [done | done | lia|]. unfold no_room. by destruct (j_mode j).
  - apply prod_effect_same; [done | | done]. split; [done | lia].
Qed.

Lemma prod_effect_len j bs h t q :
  ring_rep r bs h t q -> h - t + need j <= r_capacity r ->
  prod_effect j (PLen (h mod 2 ^ 64)) (PData (h mod 2 ^ 64)) bs
    (prod_block r j (PLen (h mod 2 ^ 64)) bs) h t q [] h q.
Proof using Hg.
  intros Hrep Hroom. cbn [prod_block]. unfold need in *. pose proof (blen_nonneg (j_data j)).
  pose proof (cap_le r Hg). pose proof (cap_pos r Hg). pose proof (rr_order _ _ _ _ _ Hrep).
  pose proof (rr_fits _ _ _ _ _ Hrep) as Hf.
  rewrite (copy_in_congr _ _ h) by by apply mod_u64_cap. rewrite (wrap_u_small 32) by (unfold in_u; lia).
  destruct (ring_rep_copy bs h t q h (le_bytes 4 (blen (j_data j))) Hrep) as (Hrep' & Ed & Ef);
    [lia | rewrite blen_le_bytes; lia|].
  constructor; try done.
  - split_and!; [done | done |]. rewrite Ed. change 4 with (Z.of_nat 4) at 1.
    rewrite <- (blen_le_bytes 4 (blen (j_data j))) at 1.
    apply cread_cwrite_same; [done | by apply blen_dget | rewrite blen_le_bytes; lia].
  - by exists []; rewrite app_nil_r.
  - unfold lock_bit. rewrite Ef. simpl. lia.
Qed.

Lemma prod_effect_data j bs h t q :
  ring_rep r bs h t q -> h - t + need j <= r_capacity r ->
  cread (r_capacity r) (dget r bs) h 4 = le_bytes 4 (blen (j_data j)) ->
  prod_effect j (PData (h mod 2 ^ 64)) (PStore (h mod 2 ^ 64)) bs
    (prod_block r j (PData (h mod 2 ^ 64)) bs) h t q [] h q.
Proof using Hg.
  intros Hrep Hroom Hlen. cbn [prod_block]. unfold need in *. pose proof (blen_nonneg (j_data j)).
  pose proof (cap_pos r Hg). pose proof (rr_order _ _ _ _ _ Hrep).
  pose proof (rr_fits _ _ _ _ _ Hrep) as Hf.
  assert (blen (dget r bs) = r_capacity r) as Hdl by by apply blen_dget.
  rewrite (copy_in_congr _ _ (h + 4)) by by apply cursor_add.
  destruct (ring_rep_copy bs h t q (h + 4) (j_data j) Hrep) as (Hrep' & Ed & Ef); [lia | lia|].
  constructor; try done.
  - split_and!; [done | done |]. rewrite Ed. unfold need.
    rewrite cread_app by (rewrite ?blen_cwrite; lia).
    rewrite cread_cwrite_disjoint by lia. rewrite Hlen, cread_cwrite_same by lia. done.
  - by exists []; rewrite app_nil_r.
  - unfold lock_bit. rewrite Ef. simpl. lia.
Qed.

Lemma prod_effect_store n j bs h t q :
  ring_rep r bs h t q -> h - t + need j <= r_capacity r ->
  cread (r_capacity r) (dget r bs) h (need j) = record (j_data j) ->
  prod_effect j (PStore (h mod 2 ^ 64)) (PUnlock Pushed) bs
    (prod_block r j (PStore (h mod 2 ^ 64)) bs) h t q
    (prod_decides n j (PStore (h mod 2 ^ 64)) (PUnlock Pushed)) (h + need j) (q ++ [j_data j]).
Proof using Hg.
  intros Hrep Hroom Hrec. pose proof Hrep as [Hf Ho Hu Hc Hh Ht Hd]. cbn [prod_block].
  pose proof (blen_nonneg (j_data j)). pose proof (cap_pos r Hg).
  assert (0 <= need j) by (unfold need; lia).
  assert (blen (dget r bs) = r_capacity r) as Hdl by by apply blen_dget.
  constructor; try done.
  - constructor; rewrite ?dget_fset by done.
    + by apply fits_fset.
    + lia.
    + rewrite q_bytes_app, blen_app, blen_record. unfold need. lia.
    + lia.
    + rewrite fget_fset_u64 by done. rewrite cursor_u64. by rewrite Z.mod_mod.
    + by rewrite fget_fset_ne.
    + replace (h + need j - t) with (h - t + need j) by lia. rewrite cread_app by lia.
      replace (t + (h - t)) with h by lia. by rewrite Hd, Hrec, q_bytes_app.
  - apply decides_one. simpl. rewrite (room_iff _ _ _ _ _ Hrep).
    destruct (Z.leb_spec (h - t + need j) (r_capacity r)); [done | lia].
  - by eexists.
  - rewrite lock_bit_fset_ne by done. simpl. lia.
Qed.

Lemma holds_after_unlock res : holds_lock (after_unlock res) = false.
Proof. by destruct res as [|[|]]. Qed.

Lemma lock_bit_0 bs : fget r bs FLock = 0 -> lock_bit bs = 0.
Proof. unfold lock_bit. by intros ->. Qed.

Lemma lock_bit_1 bs : fget r bs FLock <> 0 -> lock_bit bs = 1.
Proof. unfold lock_bit. intros E. by rewrite (proj2 (Z.eqb_neq _ _) E). Qed.

(** Any step of a producer. *)
Lemma prod_effect_step n j p bs h t q now :
  ring_rep r bs h t q -> prod_ok (dget r bs) h t j p -> prod_runs p = true ->
  (holds_lock p = true -> fget r bs FLock <> 0) ->
  copies_fit r j p /\
  exists h' q', prod_effect j p (prod_next r j p bs now) bs (prod_block r j p bs) h t q
    (prod_decides n j p (prod_next r j p bs now)) h' q'.
Proof using Hg.
  intros Hrep Hok Hr Hl. pose proof (rr_fits _ _ _ _ _ Hrep) as Hf.
  pose proof (rr_order _ _ _ _ _ Hrep).
  split; [destruct p; simpl in *; try done; lia|].
  destruct p; try discriminate Hr; simpl in Hl.
  - exists h, q. cbn [prod_next prod_block].
    destruct (Z.eqb_spec (fget r bs FLock) 0) as [H0|H0]; [|by apply prod_effect_same].
    apply prod_effect_fset; try done. rewrite lock_bit_fset, (lock_bit_0 bs) by done. done.
  - exists h, q. cbn [prod_next prod_block].
    destruct (Z.eqb_spec (fget r bs FLock) 0) as [H0|H0];
      (apply prod_effect_fset; try done; rewrite lock_bit_fset by done);
      [by rewrite lock_bit_0 | by rewrite lock_bit_1].
  - exists h, q. cbn [prod_next]. by destruct (_ =? 2); apply prod_effect_same.
  - exists h, q. by apply prod_effect_head.
  - destruct Hok as [-> Hn]. exists h, q. by apply prod_effect_tail.
  - destruct Hok as [-> Hn]. exists h, q. by apply prod_effect_len.
  - destruct Hok as (-> & Hn & Hc). exists h, q. by apply prod_effect_data.
  - destruct Hok as (-> & Hn & Hc). eexists _, _. by apply prod_effect_store.
  - exists h, q. by apply prod_effect_same.
  - exists h, q. cbn [prod_next prod_block].
    assert (holds_lock (if fget r bs FLock =? 2 then PLockWake res else after_unlock res) = false) as E
      by (destruct (_ =? 2); [done | apply holds_after_unlock]).
    apply prod_effect_fset; try done; [by apply prod_ok_idle|].
    rewrite E, lock_bit_fset by done. by rewrite lock_bit_1 by auto.
  - exists h, q. cbn [prod_next prod_block].
    apply prod_effect_same; [done | apply prod_ok_idle | ]; apply holds_after_unlock.
  - exists h, q. apply prod_effect_fset; try done. rewrite lock_bit_fset_ne by done. simpl. lia.
  - exists h, q. by apply prod_effect_same.
  - exists h, q. cbn [prod_next prod_block].
    destruct (j_mode j) as [|[dl|]]; [|destruct (dl <=? now)|]; by apply prod_effect_same.
  - exists h, q. cbn [prod_next prod_block]. destruct (_ =? seen); by apply prod_effect_same.
Qed.

(** What a consumer's step does. *)
Record cons_effect (c c' : cpos) (bs bs' : list byte) (h t : Z) (q : list (list byte))
    (t' : Z) (q' : list (list byte)) : Prop := {
  ce_rep : ring_rep r bs' h t' q';
  ce_ok : cons_ok t' q' c';
  ce_decides : decides (r_capacity r) (cons_decides c c') q q';
  ce_later : t <= t';
  ce_data : dget r bs' = dget r bs;
  ce_lock : lock_bit bs' = lock_bit bs;
}.

Lemma cons_effect_same c c' bs h t q :
  ring_rep r bs h t q -> cons_ok t q c' -> cons_decides c c' = [] -> cons_effect c c' bs bs h t q t q.
Proof. intros Hrep Hok E. constructor; try done. by rewrite E. Qed.

Lemma cursors_equal bs h t q : ring_rep r bs h t q -> h mod 2 ^ 64 = t mod 2 ^ 64 <-> q = [].
Proof using Hg.
  intros [Hf Ho Hu Hc Hh Ht Hd]. pose proof (cap_le r Hg). split.
  - intros E. assert (u64 (h mod 2 ^ 64 - t mod 2 ^ 64) = 0) as E0 by by rewrite E, Z.sub_diag.
    rewrite cursor_diff in E0 by lia. destruct q as [|d q]; [done|].
    rewrite q_bytes_cons, blen_app, blen_record in Hu. pose proof (blen_nonneg d).
    pose proof (blen_nonneg (q_bytes q)). lia.
  - intros ->. change (blen (q_bytes [])) with 0 in Hu. by replace h with t by lia.
Qed.

Lemma front_bounds bs h t d q : ring_rep r bs h t (d :: q) -> 4 + blen d <= r_capacity r.
Proof.
  intros [Hf Ho Hu Hc Hh Ht Hd]. rewrite q_bytes_cons, blen_app, blen_record in Hu.
  pose proof (blen_nonneg (q_bytes q)). lia.
Qed.

Lemma cons_effect_step c bs h t q dl now :
  ring_rep r bs h t q -> cons_ok t q c -> cons_runs c = true ->
  reads_fit r c /\
  exists t' q', cons_effect c (cons_next r c bs dl now) bs (cons_block r c bs) h t q t' q'.
Proof using Hg.
  intros Hrep Hok Hr. pose proof (rr_fits _ _ _ _ _ Hrep) as Hf. pose proof (cap_le r Hg).
  assert (forall d q1, q = d :: q1 -> 4 + blen d <= r_capacity r) as Hb
    by (intros d q1 ->; by eapply front_bounds).
  split.
  { destruct c; simpl in *; try done.
    - destruct Hok as [_ Hq]. destruct q as [|d q]; [done|]. specialize (Hb d q eq_refl).
      pose proof (blen_nonneg d). lia.
    - destruct Hok as (_ & d & q1 & E & ->). specialize (Hb d q1 E). pose proof (blen_nonneg d). lia. }
  destruct c; try discriminate Hr; cbn [cons_next cons_block].
  - exists t, q. apply cons_effect_same; [done | apply (rr_tail _ _ _ _ _ Hrep) | done].
  - exists t, q. simpl in Hok. subst tail. rewrite (rr_head _ _ _ _ _ Hrep).
    destruct (Z.eqb_spec (h mod 2 ^ 64) (t mod 2 ^ 64)) as [E|E].
    + apply (cursors_equal _ _ _ _ Hrep) in E as ->.
      constructor; try done; [by destruct a | by destruct a; apply decides_one].
    + apply cons_effect_same; [done | | done]. split; [done|]. intros ->. apply E.
      by apply (cursors_equal _ _ _ _ Hrep).
  - destruct Hok as [-> Hq]. destruct q as [|d q]; [done|]. exists t, (d :: q).
    destruct (ring_rep_pop r Hg _ _ _ _ _ Hrep) as (_ & E & _).
    apply cons_effect_same; [done | | done]. split; [done|]. exists d, q. split; [done|].
    rewrite (cread_congr r _ (t mod 2 ^ 64) t), E by by apply mod_u64_cap.
    pose proof (Hb d q eq_refl). pose proof (blen_nonneg d).
    by rewrite from_le_bytes_small by (change (256 ^ Z.of_nat 4) with (2 ^ 32); lia).
  - destruct Hok as (-> & d & q1 & -> & ->). exists t, (d :: q1).
    destruct (ring_rep_pop r Hg _ _ _ _ _ Hrep) as (_ & _ & E).
    apply cons_effect_same; [done | | done].
    rewrite (cread_congr r _ (u64 (t mod 2 ^ 64 + 4)) (t + 4)), E by by apply cursor_add.
    split_and!; [done | done|]. by exists q1.
  - destruct Hok as (-> & -> & q1 & ->). exists (t + (4 + blen payload)), q1.
    destruct (ring_rep_pop r Hg _ _ _ _ _ Hrep) as (Hrep' & _). pose proof (blen_nonneg payload).
    rewrite (fset_congr r bs FTail _ (t + (4 + blen payload))).
    2: { change (256 ^ Z.of_nat (fwidth FTail)) with (2 ^ 64).
         rewrite <- Z.add_assoc, cursor_u64. by rewrite Z.mod_mod. }
    constructor; try done; [lia | by rewrite dget_fset | by apply lock_bit_fset_ne].
  - exists t, q. constructor; try done; [by apply ring_rep_fset | by rewrite dget_fset | by apply lock_bit_fset_ne].
  - exists t, q. by apply cons_effect_same.
  - exists t, q. by apply cons_effect_same.
  - exists t, q. destruct dl as [dl|]; [destruct (dl <=? now)|]; by apply cons_effect_same.
  - exists t, q. destruct (_ =? seen); by apply cons_effect_same.
Qed.

(** ** The invariant of the machine *)

Definition holder (th : job * ppos) : bool := holds_lock (snd th).

Record machine_inv (s : machine) (bs : list byte) (h t : Z) (q : list (list byte)) : Prop := {
  mi_mem : w_mem (m_world s) !! r_ptr r = Some bs;
  mi_rep : ring_rep r bs h t q;
  mi_hist : decides (r_capacity r) (m_hist s) [] q;
  mi_prods : forall n j p, m_prods s !! n = Some (j, p) -> prod_ok (dget r bs) h t j p;
  mi_cons : cons_ok t q (m_cons s);
  mi_lock : tally holder (m_prods s) = lock_bit bs;
}.

Lemma lock_bit_le bs : 0 <= lock_bit bs <= 1.
Proof. unfold lock_bit. destruct (_ =? 0); lia. Qed.

(** At most one producer is inside the lock. *)
Lemma holders_agree ts n m tn tm :
  tally holder ts <= 1 -> ts !! n = Some tn -> ts !! m = Some tm ->
  holder tn = true -> holder tm = true -> n = m.
Proof.
  intros Ht En Em Hn Hm. destruct (decide (n = m)) as [|Hne]; [done|]. exfalso.
  assert (holder (fst tn, PIdle) = false) as Hi by done.
  pose proof (tally_insert holder ts n tn (fst tn, PIdle) En) as E. rewrite Hn, Hi in E.
  assert (1 <= tally holder (<[n := (fst tn, PIdle)]> ts)).
  { apply (tally_in _ _ m tm); [|done]. by rewrite list_lookup_insert_ne. }
  lia.
Qed.

(** Threads that are not inside the lock may change position, as long as they stay out. *)
Definition same_holders (ts ts' : list (job * ppos)) : Prop :=
  tally holder ts' = tally holder ts /\
  forall n j p, ts' !! n = Some (j, p) -> holds_lock p = true -> ts !! n = Some (j, p).

Lemma same_holders_refl ts : same_holders ts ts.
Proof. done. Qed.

Lemma same_holders_insert ts n j p j' p' :
  ts !! n = Some (j, p) -> holds_lock p = false -> holds_lock p' = false ->
  same_holders ts (<[n := (j', p')]> ts).
Proof.
  intros E Hp Hp'. split.
  - rewrite (tally_insert _ _ _ _ _ E). unfold holder. simpl. rewrite Hp, Hp'. lia.
  - intros m j1 p1 E1 H1. destruct (decide (n = m)) as [<-|Hne].
    + rewrite list_lookup_insert_eq in E1 by (by eapply lookup_lt_Some). injection E1 as <- <-. congruence.
    + by rewrite list_lookup_insert_ne in E1.
Qed.

Lemma wake_prod_holders k p ts ts' : wake_prod k p ts = Some ts' -> same_holders ts ts'.
Proof.
  unfold wake_prod, wake_lock. destruct p; try (intros [= <-]; apply same_holders_refl).
  destruct (existsb _ _); [|intros [= <-]; apply same_holders_refl].
  destruct (ts !! k) as [[j []]|] eqn:E; try done. intros [= <-]. by eapply same_holders_insert.
Qed.

Lemma wake_space_lookup ts n j p :
  wake_space ts !! n = Some (j, p) ->
  exists p0, ts !! n = Some (j, p0) /\ (p = p0 \/ (p0 = PAsleep /\ p = PCas)).
Proof.
  unfold wake_space. rewrite list_lookup_fmap_Some. intros ([j0 p0] & E & E0).
  destruct p0; simplify_eq; eauto.
Qed.

Lemma wake_space_holders ts : same_holders ts (wake_space ts).
Proof.
  split.
  - unfold wake_space. induction ts as [|[j p] ts IH]; [done|].
    cbn [fmap list_fmap]. rewrite !tally_cons, IH. by destruct p.
  - intros n j p E Hp. apply wake_space_lookup in E as (p0 & E & [->|[-> ->]]); [done|discriminate].
Qed.

Lemma holders_inv w ts ts' dl c c' hist ret bs h t q :
  same_holders ts ts' -> cons_ok t q c' ->
  machine_inv (Mach w ts dl c hist ret) bs h t q ->
  forall w' dl' ret', w_mem w' = w_mem w -> machine_inv (Mach w' ts' dl' c' hist ret') bs h t q.
Proof.
  intros [Ht Hs] Hc [Hm Hrep Hh Hp _ Hl] w' dl' ret' Ew. simpl in *. constructor; simpl; try done.
  - by rewrite Ew.
  - intros n j p E. destruct (holds_lock p) eqn:Ep; [|by apply prod_ok_idle]. eauto.
  - by rewrite Ht.
Qed.

Lemma resume_prod_idle p p' : resume_prod p = Some p' -> holds_lock p = false /\ holds_lock p' = false.
Proof. destruct p; simpl; naive_solver. Qed.

Lemma resume_cons_ok c c' t q : resume_cons c = Some c' -> cons_ok t q c'.
Proof. destruct c; simpl; intros [= <-]; [by destruct left | done]. Qed.

Lemma wake_data_ok c t q : cons_ok t q c -> cons_ok t q (wake_data c).
Proof. by destruct c. Qed.

Lemma runs_of_step p : resume_prod p = None -> free_prod p = false -> prod_runs p = true.
Proof. by destruct p. Qed.

Lemma cons_runs_of_step c : resume_cons c = None -> free_cons c = false -> cons_runs c = true.
Proof. by destruct c. Qed.

(** The parts of a producer's event. *)
Lemma step_prod_inv n k s s' :
  step_prod r n k s = Some s' ->
  exists j p p' w' ts, m_prods s !! n = Some (j, p) /\ prod_runs p = true /\
    prod_step r j p (m_world s) = Done (p', w') /\ wake_prod k p (<[n := (j, p')]> (m_prods s)) = Some ts /\
    s' = Mach w' ts (m_deadline s) (wake_cons p (m_cons s))
           (m_hist s ++ prod_decides n j p p') (m_returned s ++ prod_returns n j p').
Proof.
  unfold step_prod. destruct (m_prods s !! n) as [[j p]|] eqn:E; [|done].
  case_bool_decide as Hres; [done|]. destruct (prod_step r j p (m_world s)) as [[p' w']| | |] eqn:Es; try done.
  destruct (wake_prod k p _) as [ts|] eqn:Ew; simpl; [|done]. intros [= <-].
  exists j, p, p', w', ts. split_and!; try done.
  apply runs_of_step; [by apply eq_None_not_Some|]. destruct p; try done; discriminate Es.
Qed.

Lemma step_cons_inv s s' :
  step_cons r s = Some s' ->
  exists c' w', cons_runs (m_cons s) = true /\
    cons_step r (m_deadline s) (m_cons s) (m_world s) = Done (c', w') /\
    s' = Mach w' (match m_cons s with CWake _ => wake_space (m_prods s) | _ => m_prods s end)
           (m_deadline s) c' (m_hist s ++ cons_decides (m_cons s) c') (m_returned s ++ cons_returns c').
Proof.
  unfold step_cons. case_bool_decide as Hres; [done|].
  destruct (cons_step _ _ _ _) as [[c' w']| | |] eqn:Es; try done. intros [= <-].
  exists c', w'. split_and!; try done.
  apply cons_runs_of_step; [by apply eq_None_not_Some|]. destruct (m_cons s); try done; discriminate Es.
Qed.

(** ** Every event keeps the invariant *)

Lemma holder_lock s bs h t q n j p :
  machine_inv s bs h t q -> m_prods s !! n = Some (j, p) -> holds_lock p = true -> fget r bs FLock <> 0.
Proof.
  intros Hi E Hp E0. pose proof (tally_in holder _ _ _ E Hp) as Ht.
  rewrite (mi_lock _ _ _ _ _ Hi), (lock_bit_0 _ E0) in Ht. lia.
Qed.

(** The step a producer takes, from the invariant: it succeeds. *)
Lemma prod_moves s bs h t q n j p :
  machine_inv s bs h t q -> m_prods s !! n = Some (j, p) -> prod_runs p = true ->
  let p' := prod_next r j p bs (w_now (m_world s)) in
  exists w' h' q', prod_step r j p (m_world s) = Done (p', w') /\
    moved r (m_world s) w' (prod_block r j p bs) /\
    prod_effect j p p' bs (prod_block r j p bs) h t q (prod_decides n j p p') h' q'.
Proof using Hg.
  intros Hi E Hr p'. destruct Hi as [Hm Hrep Hh Hp Hc Hl] eqn:Ei.
  destruct (prod_effect_step n j p bs h t q (w_now (m_world s)) Hrep (Hp _ _ _ E) Hr) as (Hfit & h' & q' & Heff).
  { intros Hhp. by eapply holder_lock. }
  destruct (prod_step_eq r Hg j p (m_world s) bs Hm (rr_fits _ _ _ _ _ Hrep) Hfit Hr) as (w' & Es & Hmv).
  by exists w', h', q'.
Qed.

Lemma cons_moves s bs h t q :
  machine_inv s bs h t q -> cons_runs (m_cons s) = true ->
  let c' := cons_next r (m_cons s) bs (m_deadline s) (w_now (m_world s)) in
  exists w' t' q', cons_step r (m_deadline s) (m_cons s) (m_world s) = Done (c', w') /\
    moved r (m_world s) w' (cons_block r (m_cons s) bs) /\
    cons_effect (m_cons s) c' bs (cons_block r (m_cons s) bs) h t q t' q'.
Proof using Hg.
  intros [Hm Hrep Hh Hp Hc Hl] Hr c'.
  destruct (cons_effect_step _ bs h t q (m_deadline s) (w_now (m_world s)) Hrep Hc Hr) as (Hfit & t' & q' & Heff).
  destruct (cons_step_eq r Hg (m_deadline s) _ (m_world s) bs Hm (rr_fits _ _ _ _ _ Hrep) Hfit Hr) as (w' & Es & Hmv).
  by exists w', t', q'.
Qed.

(** After a producer's step every producer still knows what it knew. *)
Lemma prods_still_ok ts n j p p' bs bs' h h' t q ds q' :
  ts !! n = Some (j, p) -> tally holder ts <= 1 ->
  (forall m jm pm, ts !! m = Some (jm, pm) -> prod_ok (dget r bs) h t jm pm) ->
  prod_effect j p p' bs bs' h t q ds h' q' ->
  forall m jm pm, <[n := (j, p')]> ts !! m = Some (jm, pm) -> prod_ok (dget r bs') h' t jm pm.
Proof.
  intros E Ht Hok [_ Hp _ Hq _ _] m jm pm Em. destruct (decide (n = m)) as [<-|Hne].
  - rewrite list_lookup_insert_eq in Em by (by eapply lookup_lt_Some). by injection Em as <- <-.
  - rewrite list_lookup_insert_ne in Em by done. destruct (holds_lock pm) eqn:Epm; [|by apply prod_ok_idle].
    destruct (holds_lock p) eqn:Ep.
    + exfalso. apply Hne. by eapply (holders_agree ts n m (j, p) (jm, pm)).
    + destruct Hq as [-> ->]; [done|]. eauto.
Qed.

Lemma step_prod_keeps n k s s' bs h t q :
  machine_inv s bs h t q -> step_prod r n k s = Some s' ->
  exists bs' h' q', machine_inv s' bs' h' t q'.
Proof using Hg.
  intros Hi Es. apply step_prod_inv in Es as (j & p & p' & w' & ts & E & Hr & Ep & Ew & ->).
  destruct (prod_moves s bs h t q n j p Hi E Hr) as (w1 & h' & q' & Ep' & Hmv & Heff).
  rewrite Ep in Ep'. injection Ep' as -> <-. exists (prod_block r j p bs), h', q'.
  set (p1 := prod_next _ _ _ _ _) in *. pose proof (lock_bit_le bs). destruct Hi as [Hm Hrep Hh Hp Hc Hl].
  eapply (holders_inv w' (<[n := (j, p1)]> (m_prods s)) ts (m_deadline s) (m_cons s) _ _ (m_returned s)); [| | |reflexivity].
  - by eapply wake_prod_holders.
  - destruct (pe_grows _ _ _ _ _ _ _ _ _ _ _ Heff) as [kq ->].
    destruct p; try (by apply cons_ok_grow). by apply wake_data_ok, cons_ok_grow.
  - constructor; simpl.
    + by eapply moved_lookup.
    + apply (pe_rep _ _ _ _ _ _ _ _ _ _ _ Heff).
    + eapply decides_app; [exact Hh | apply (pe_decides _ _ _ _ _ _ _ _ _ _ _ Heff)].
    + eapply prods_still_ok; [done | lia | done | done].
    + destruct (pe_grows _ _ _ _ _ _ _ _ _ _ _ Heff) as [kq ->]. by apply cons_ok_grow.
    + rewrite (tally_insert _ _ _ _ _ E), Hl. pose proof (pe_lock _ _ _ _ _ _ _ _ _ _ _ Heff) as Hb.
      unfold holder, bit in *. simpl. lia.
Qed.

Lemma step_cons_keeps s s' bs h t q :
  machine_inv s bs h t q -> step_cons r s = Some s' ->
  exists bs' t' q', machine_inv s' bs' h t' q'.
Proof using Hg.
  intros Hi Es. apply step_cons_inv in Es as (c' & w' & Hr & Ec & ->).
  destruct (cons_moves s bs h t q Hi Hr) as (w1 & t' & q' & Ec' & Hmv & Heff).
  rewrite Ec in Ec'. injection Ec' as -> <-. exists (cons_block r (m_cons s) bs), t', q'.
  set (c1 := cons_next _ _ _ _ _) in *. destruct Hi as [Hm Hrep Hh Hp Hc Hl].
  eapply (holders_inv w' (m_prods s) _ (m_deadline s) c1 _ _ (m_returned s)); [| | |reflexivity].
  - destruct (m_cons s); try apply same_holders_refl. apply wake_space_holders.
  - apply (ce_ok _ _ _ _ _ _ _ _ _ Heff).
  - constructor; simpl.
    + by eapply moved_lookup.
    + apply (ce_rep _ _ _ _ _ _ _ _ _ Heff).
    + eapply decides_app; [exact Hh | apply (ce_decides _ _ _ _ _ _ _ _ _ Heff)].
    + intros n j p E. rewrite (ce_data _ _ _ _ _ _ _ _ _ Heff).
      eapply prod_ok_later; [apply (ce_later _ _ _ _ _ _ _ _ _ Heff) | eauto].
    + apply (ce_ok _ _ _ _ _ _ _ _ _ Heff).
    + rewrite Hl. symmetry. apply (ce_lock _ _ _ _ _ _ _ _ _ Heff).
Qed.

Lemma machine_next_keeps e s s' bs h t q :
  machine_inv s bs h t q -> machine_next r e s = Some s' ->
  exists bs' h' t' q', machine_inv s' bs' h' t' q'.
Proof using Hg.
  intros Hi E. pose proof (mi_cons _ _ _ _ _ Hi) as Hc.
  assert (forall ts' c' dl' w', same_holders (m_prods s) ts' -> cons_ok t q c' -> w_mem w' = w_mem (m_world s) ->
    exists bs' h' t' q', machine_inv (Mach w' ts' dl' c' (m_hist s) (m_returned s)) bs' h' t' q') as Hquiet.
  { intros ts' c' dl' w' Hs Hc' Ew. exists bs, h, t, q.
    eapply (holders_inv (m_world s) (m_prods s) ts' (m_deadline s) (m_cons s) c' (m_hist s) (m_returned s));
      [exact Hs | exact Hc' | | exact Ew]. destruct s. exact Hi. }
  destruct e as [n j|m|n k| |n| |now]; cbn [machine_next] in E.
  - destruct (m_prods s !! n) as [[j0 p]|] eqn:En; simpl in E; [|done].
    destruct (free_prod p) eqn:Ef; [|done]. injection E as <-. apply Hquiet; try done.
    eapply same_holders_insert; [done | by destruct p | done].
  - destruct (free_cons (m_cons s)); [|done]. destruct m; injection E as <-; apply Hquiet; done || apply same_holders_refl.
  - destruct (step_prod_keeps _ _ _ _ _ _ _ _ Hi E) as (bs' & h' & q' & Hi'). by exists bs', h', t, q'.
  - destruct (step_cons_keeps _ _ _ _ _ _ Hi E) as (bs' & t' & q' & Hi'). by exists bs', h, t', q'.
  - destruct (m_prods s !! n) as [[j p]|] eqn:En; simpl in E; [|done].
    destruct (resume_prod p) as [p'|] eqn:Er; simpl in E; [|done]. injection E as <-.
    apply resume_prod_idle in Er as [H1 H2]. apply Hquiet; try done. by eapply same_holders_insert.
  - destruct (resume_cons (m_cons s)) as [c'|] eqn:Er; simpl in E; [|done]. injection E as <-.
    apply Hquiet; [apply same_holders_refl | by eapply resume_cons_ok | done].
  - injection E as <-. apply Hquiet; done || apply same_holders_refl.
Qed.

Lemma machine_run_keeps es s s' bs h t q :
  machine_inv s bs h t q -> machine_run r es s = Some s' ->
  exists bs' h' t' q', machine_inv s' bs' h' t' q'.
Proof using Hg.
  revert s bs h t q. induction es as [|e es IH]; intros s bs h t q Hi E; simpl in E.
  - injection E as <-. by exists bs, h, t, q.
  - destruct (machine_next r e s) as [s1|] eqn:E1; simpl in E; [|done].
    destruct (machine_next_keeps _ _ _ _ _ _ _ Hi E1) as (bs1 & h1 & t1 & q1 & Hi1). eauto.
Qed.

(** Where a machine starts. *)
Lemma idle_machine_inv n w : ring_has r w [] -> exists bs h t, machine_inv (idle_machine n w) bs h t [].
Proof.
  intros (bs & Hbs & (h & t & Hrep) & H0). exists bs, h, t. constructor; simpl; try done.
  - intros m j p E. apply lookup_replicate in E as [Ej _]. injection Ej as -> ->. done.
  - rewrite (lock_bit_0 _ H0). induction n as [|n IH]; [done|]. cbn [replicate]. by rewrite tally_cons, IH.
Qed.
End inv.
