(* ===== verification/RingConcSleep.v ===== *)
(** * What the callers are told, and who sleeps

    Two further invariants of the interleaved ring: the results returned agree with the
    decisions taken, call by call; and a thread sleeps only while somebody is on the
    way to wake it (the consumer for data, a producer for the lock). *)

From S2P Require Import Prelude Machine Shm Circ Ring RingMem RingSpec RingThm RingConc RingConcThm.

(** ** Counting successes *)

(** The records of the successful pushes, of producer [n] or of all, and of the pops. *)
Definition pushed_by (n : nat) (ds : list decision) : list (list byte) :=
  omap (fun e => match e with
    | (Some m, (OpPush d, OutPush true)) => if decide (m = n) then Some d else None
    | _ => None end) ds.
Definition sent (ds : list decision) : list (list byte) :=
  omap (fun e => match snd e with (OpPush d, OutPush true) => Some d | _ => None end) ds.
Definition taken_out (ds : list decision) : list (list byte) :=
  omap (fun e => match snd e with (_, OutPop (Some d)) => Some d | _ => None end) ds.

Lemma fifo_balance cap ds q q' : decides cap ds q q' -> q ++ sent ds = taken_out ds ++ q'.
Proof.
  unfold decides, hist_outs, hist_ops, fifo_after. revert q q'.
  induction ds as [|[who [o x]] ds IH]; intros q q' [E ->]; [by rewrite app_nil_r|].
  cbn [fmap list_fmap fst snd fifo_run] in E. destruct (fifo_op cap q o) as [x1 q1] eqn:Eo.
  injection E as -> E. specialize (IH q1 _ (conj E eq_refl)). cbn [fmap list_fmap fst snd foldl].
  rewrite Eo. cbn [snd]. destruct o as [d|].
  - cbn [fifo_op] in Eo. destruct (fifo_push cap q d) as [b q2] eqn:Ep. injection Eo as <- <-.
    unfold fifo_push in Ep. destruct (_ <=? cap); injection Ep as <- <-.
    + transitivity ((q ++ [d]) ++ sent ds); [by rewrite <- app_assoc | exact IH].
    + exact IH.
  - cbn [fifo_op] in Eo. destruct q as [|d q]; simpl in Eo; injection Eo as <- <-;
      [exact IH | exact (f_equal (cons d) IH)].
Qed.

(** A decided success that its caller has not been told yet. *)
Definition carried (th : job * ppos) : list (list byte) :=
  match snd th with
  | PUnlock Pushed | PLockWake Pushed | PSeq | PWake => [j_data (fst th)]
  | _ => []
  end.
Definition carried_at (ts : list (job * ppos)) (n : nat) : list (list byte) :=
  match ts !! n with Some th => carried th | None => [] end.
Definition carried_cons (c : cpos) : list (list byte) :=
  match c with CSeq d | CWake d => [d] | _ => [] end.

Record accounts (s : machine) : Prop := {
  ac_push : forall n, pushed_by n (m_hist s) = pushed_by n (m_returned s) ++ carried_at (m_prods s) n;
  ac_pop : taken_out (m_hist s) = taken_out (m_returned s) ++ carried_cons (m_cons s);
}.

Lemma carried_insert ts n th m :
  carried_at (<[n := th]> ts) m =
    if decide (m = n /\ (n < length ts)%nat) then carried th else carried_at ts m.
Proof.
  unfold carried_at. case_decide as E.
  - destruct E as [-> E]. by rewrite list_lookup_insert_eq.
  - destruct (decide (m = n)) as [->|Hne].
    + by rewrite list_insert_ge by (apply not_and_l in E as [?|?]; [done | lia]).
    + by rewrite list_lookup_insert_ne.
Qed.

(** Waking sleepers up changes nothing of this. *)
Lemma carried_wake_prod k p ts ts' n : wake_prod k p ts = Some ts' -> carried_at ts' n = carried_at ts n.
Proof.
  unfold wake_prod, wake_lock. destruct p; try (by intros [= <-]).
  destruct (existsb _ _); [|by intros [= <-]].
  destruct (ts !! k) as [[j []]|] eqn:E; try done. intros [= <-]. rewrite carried_insert.
  case_decide as H; [|done]. destruct H as [-> _]. unfold carried_at. by rewrite E.
Qed.

Lemma carried_wake_space ts n : carried_at (wake_space ts) n = carried_at ts n.
Proof. unfold carried_at, wake_space. rewrite list_lookup_fmap. by destruct (ts !! n) as [[j []]|]. Qed.

Section accounts.
Context (r : Ring).

Lemma prod_accounts n j p bs now :
  prod_runs p = true -> let p' := prod_next r j p bs now in
  carried (j, p) ++ pushed_by n (prod_decides n j p p') =
    pushed_by n (prod_returns n j p') ++ carried (j, p') /\
  (forall m, m <> n -> pushed_by m (prod_decides n j p p') = [] /\ pushed_by m (prod_returns n j p') = []) /\
  taken_out (prod_decides n j p p') = [] /\ taken_out (prod_returns n j p') = [].
Proof.
  intros Hr p'.
  assert (forall m d b, pushed_by m [(Some n, (OpPush d, OutPush b))] =
    if b then (if decide (n = m) then [d] else []) else []) as E1.
  { intros m d []; [|done]. unfold pushed_by. simpl. by destruct (decide (n = m)). }
  destruct p as [| | | | | | | | | | |res|res| | | | | |]; try discriminate Hr;
    try destruct res as [|[|]]; subst p'; cbn [prod_next]; unfold no_room; repeat case_match; subst;
    cbn [prod_decides prod_returns after_unlock carried snd fst] in *; try done;
    (split_and!; [rewrite ?E1; by destruct (decide (n = n))
                 | intros m Hm; rewrite ?E1; by destruct (decide (n = m)) | done | done]).
Qed.

Lemma cons_accounts c bs dl now :
  cons_runs c = true -> let c' := cons_next r c bs dl now in
  carried_cons c ++ taken_out (cons_decides c c') = taken_out (cons_returns c') ++ carried_cons c' /\
  (forall m, pushed_by m (cons_decides c c') = [] /\ pushed_by m (cons_returns c') = []).
Proof.
  intros Hr c'. destruct c; try discriminate Hr; subst c'; cbn [cons_next];
    repeat case_match; try done; try (by destruct a).
Qed.

Hypothesis Hg : ring_geom r.

Lemma pushed_by_app n ds ds' : pushed_by n (ds ++ ds') = pushed_by n ds ++ pushed_by n ds'.
Proof. apply omap_app. Qed.

Lemma taken_out_app ds ds' : taken_out (ds ++ ds') = taken_out ds ++ taken_out ds'.
Proof. apply omap_app. Qed.

Lemma sent_app ds ds' : sent (ds ++ ds') = sent ds ++ sent ds'.
Proof. apply omap_app. Qed.

Lemma wake_cons_carried p c : carried_cons (wake_cons p c) = carried_cons c.
Proof. by destruct p, c. Qed.

Lemma accounts_next e s s' bs h t q :
  machine_inv r s bs h t q -> accounts s -> machine_next r e s = Some s' -> accounts s'.
Proof using Hg.
  intros Hi [Hp Hc] E.
  destruct e as [n j|m|n k| |n| |now]; cbn [machine_next] in E.
  - destruct (m_prods s !! n) as [[j0 p]|] eqn:En; simpl in E; [|done].
    destruct (free_prod p) eqn:Ef; [|done]. injection E as <-. constructor; simpl; [|done].
    intros m. rewrite Hp, carried_insert. case_decide as H; [|done]. destruct H as [-> _].
    unfold carried_at. rewrite En. by destruct p.
  - destruct (free_cons (m_cons s)) eqn:Ef; [|done].
    destruct m; injection E as <-; (constructor; simpl; [done|]); rewrite Hc; by destruct (m_cons s).
  - apply step_prod_inv in E as (j & p & p' & w' & ts & En & Hr & Ep & Ew & ->).
    destruct (prod_moves r Hg s bs h t q n j p Hi En Hr) as (w1 & h' & q' & Ep' & _ & _).
    rewrite Ep in Ep'. injection Ep' as -> <-.
    destruct (prod_accounts n j p bs (w_now (m_world s)) Hr) as (A1 & A2 & A3 & A4).
    set (p1 := prod_next _ _ _ _ _) in *. constructor; simpl.
    + intros m. rewrite !pushed_by_app, Hp, (carried_wake_prod _ _ _ _ _ Ew), carried_insert.
      destruct (decide (m = n)) as [->|Hne].
      * rewrite decide_True by (split; [done | by eapply lookup_lt_Some]).
        unfold carried_at. rewrite En, <- !app_assoc. by f_equal.
      * rewrite decide_False by naive_solver. destruct (A2 m Hne) as [-> ->]. by rewrite !app_nil_r.
    + by rewrite !taken_out_app, A3, A4, !app_nil_r, wake_cons_carried.
  - apply step_cons_inv in E as (c' & w' & Hr & Ec & ->).
    destruct (cons_moves r Hg s bs h t q Hi Hr) as (w1 & t' & q' & Ec' & _ & _).
    rewrite Ec in Ec'. injection Ec' as -> <-.
    destruct (cons_accounts (m_cons s) bs (m_deadline s) (w_now (m_world s)) Hr) as (A1 & A2).
    constructor; simpl.
    + intros m. rewrite !pushed_by_app, Hp. destruct (A2 m) as [-> ->]. rewrite !app_nil_r. f_equal.
      destruct (m_cons s); try done. by rewrite carried_wake_space.
    + rewrite !taken_out_app, Hc, <- !app_assoc. by f_equal.
  - destruct (m_prods s !! n) as [[j p]|] eqn:En; simpl in E; [|done].
    destruct (resume_prod p) as [p'|] eqn:Er; simpl in E; [|done]. injection E as <-.
    constructor; simpl; [|done]. intros m. rewrite Hp, carried_insert. case_decide as H; [|done].
    destruct H as [-> _]. unfold carried_at. rewrite En. destruct p; simplify_eq/=; done.
  - destruct (resume_cons (m_cons s)) as [c'|] eqn:Er; simpl in E; [|done]. injection E as <-.
    constructor; simpl; [done|]. rewrite Hc. destruct (m_cons s); simplify_eq/=; [|done].
    by destruct left.
  - injection E as <-. by constructor.
Qed.
End accounts.

(** ** Who sleeps *)

(** A producer that has stored a record and not announced it; or has announced it and not
    issued the wake. *)
Definition announces (th : job * ppos) : bool :=
  match snd th with PUnlock Pushed | PLockWake Pushed | PSeq => true | _ => false end.
Definition wakes_consumer (th : job * ppos) : bool :=
  match snd th with PUnlock Pushed | PLockWake Pushed | PSeq | PWake => true | _ => false end.

(** A producer that is about to wake one that waits for the lock, or to take the lock
    as a contended one. *)
Definition serves_lock (th : job * ppos) : bool :=
  match snd th with PLockWake _ | PSwap => true | _ => false end.

(** The announcements made. *)
Definition signals (s : machine) : Z := blen (sent (m_hist s)) - tally announces (m_prods s).

(** The value of [data_seq] the consumer goes by, and whether it has since found the ring
    empty. *)
Definition seen_of (c : cpos) : option (Z * bool) :=
  match c with
  | CTail (ALast seen) | CHead (ALast seen) _ => Some (seen, false)
  | CCheck seen | CWait seen => Some (seen, true)
  | _ => None
  end.

(** [b] is the value of [data_seq] at the start; what the consumer goes by is not older than
    the announcement [lo]. *)
Record sleep_inv (r : Ring) (b lo : Z) (s : machine) (bs : list byte) (q : list (list byte)) : Prop := {
  sl_seq : fget r bs FDataSeq = (b + signals s) mod 2 ^ 32;
  sl_count : lo <= signals s;
  sl_seen : forall seen after, seen_of (m_cons s) = Some (seen, after) ->
    exists k, lo <= k <= signals s /\ seen = (b + k) mod 2 ^ 32 /\
      (after = true -> q <> [] -> k < blen (sent (m_hist s)));
  sl_asleep : m_cons s = CAsleep -> signals s - lo < 2 ^ 32 -> q <> [] ->
    1 <= tally wakes_consumer (m_prods s);
  sl_lock : 1 <= tally lock_sleeper (m_prods s) ->
    fget r bs FLock = 2 \/ 1 <= tally serves_lock (m_prods s);
}.

(** Threads may change position where none of this is concerned. *)
Definition same_counts (ts ts' : list (job * ppos)) : Prop :=
  tally announces ts' = tally announces ts /\ tally wakes_consumer ts' = tally wakes_consumer ts /\
  (1 <= tally lock_sleeper ts' -> 1 <= tally lock_sleeper ts) /\
  (1 <= tally serves_lock ts -> 1 <= tally serves_lock ts').

Lemma same_counts_refl ts : same_counts ts ts.
Proof. by split_and!. Qed.

Lemma same_counts_insert ts n th th' :
  ts !! n = Some th -> announces th = false -> wakes_consumer th = false ->
  announces th' = false -> wakes_consumer th' = false ->
  (lock_sleeper th' = true -> lock_sleeper th = true) -> (serves_lock th = true -> serves_lock th' = true) ->
  same_counts ts (<[n := th']> ts).
Proof.
  intros E A1 A2 A3 A4 A5 A6. unfold same_counts. rewrite !(tally_insert _ _ _ _ _ E), A1, A2, A3, A4.
  split_and!; [lia | lia | |].
  - destruct (lock_sleeper th), (lock_sleeper th'); lia || (specialize (A5 eq_refl); done).
  - destruct (serves_lock th), (serves_lock th'); lia || (specialize (A6 eq_refl); done).
Qed.

Lemma wake_space_counts ts : same_counts ts (wake_space ts).
Proof.
  induction ts as [|[j p] ts (I1 & I2 & I3 & I4)]; [apply same_counts_refl|].
  assert (exists p', wake_space ((j, p) :: ts) = (j, p') :: wake_space ts /\
    (p' = p \/ p = PAsleep /\ p' = PCas)) as (p' & -> & Hp)
    by (destruct p; eexists; (split; [reflexivity | auto])).
  unfold same_counts. rewrite !tally_cons, I1, I2.
  pose proof (tally_nonneg lock_sleeper ts). pose proof (tally_nonneg serves_lock (wake_space ts)).
  destruct Hp as [->|[-> ->]]; [|done].
  split_and!; try done.
  - destruct (lock_sleeper (j, p)); lia.
  - destruct (serves_lock (j, p)); lia.
Qed.

(** A wake of the lock leaves a thread that serves it, unless nobody sleeps. *)
Lemma wake_prod_counts k p ts ts' :
  wake_prod k p ts = Some ts' ->
  same_counts ts ts' /\
  (forall res, p = PLockWake res -> 1 <= tally lock_sleeper ts' -> 1 <= tally serves_lock ts').
Proof.
  unfold wake_prod. intros E.
  destruct p; try (injection E as <-; split; [apply same_counts_refl | done]).
  unfold wake_lock in E. destruct (existsb lock_sleeper ts) eqn:Ex.
  - destruct (ts !! k) as [[j []]|] eqn:Ek; try done. injection E as <-. split.
    + by eapply same_counts_insert.
    + intros _ _ _. rewrite (tally_insert _ _ _ _ _ Ek). simpl.
      pose proof (tally_nonneg serves_lock ts). cbn [serves_lock snd]. lia.
  - injection E as <-. split; [apply same_counts_refl|]. intros _ _ Ht. exfalso.
    apply tally_out in Ht as (n & th & En & Hth). apply not_true_iff_false in Ex. apply Ex.
    apply existsb_exists. exists th. split; [by apply list_elem_of_In, list_elem_of_lookup; exists n | done].
Qed.

Lemma sleep_inv_counts r b lo w w' ts ts' dl dl' c c' hist ret ret' bs q :
  same_counts ts ts' -> seen_of c' = None -> c' <> CAsleep ->
  sleep_inv r b lo (Mach w ts dl c hist ret) bs q -> sleep_inv r b lo (Mach w' ts' dl' c' hist ret') bs q.
Proof.
  intros (E1 & E2 & E3 & E4) Hs Ha [S1 S2 S3 S4 S5]. unfold signals in *. simpl in *.
  constructor; unfold signals; simpl; rewrite ?E1; try done.
  - intros seen after E. by rewrite Hs in E.
  - intros Hl. destruct (S5 (E3 Hl)) as [?|?]; [by left | right; auto].
Qed.

Lemma sleep_inv_threads r b lo w w' ts ts' dl c hist ret bs q :
  same_counts ts ts' -> sleep_inv r b lo (Mach w ts dl c hist ret) bs q ->
  sleep_inv r b lo (Mach w' ts' dl c hist ret) bs q.
Proof.
  intros (E1 & E2 & E3 & E4) [S1 S2 S3 S4 S5]. unfold signals in *. simpl in *.
  constructor; unfold signals; simpl; rewrite ?E1, ?E2; try done.
  intros Hl. destruct (S5 (E3 Hl)) as [?|?]; [by left | right; auto].
Qed.

Section sleep.
Context (r : Ring).
Hypothesis Hg : ring_geom r.

Lemma decides_refused cap who d q q' : decides cap [(who, (OpPush d, OutPush false))] q q' -> q' = q.
Proof.
  unfold decides, fifo_after. simpl. intros [E ->]. unfold fifo_push in *. by destruct (_ <=? cap).
Qed.

Lemma decides_fun cap ds q q1 q2 : decides cap ds q q1 -> decides cap ds q q2 -> q1 = q2.
Proof. by intros [_ ->] [_ ->]. Qed.

(** What one step of a producer changes in the counts. *)
Record step_counts (n : nat) (j : job) (p p' : ppos) (bs bs' : list byte) (q q' : list (list byte)) : Prop := {
  sc_signal : blen (sent (prod_decides n j p p')) + bit (announces (j, p)) - bit (announces (j, p')) =
                match p with PSeq => 1 | _ => 0 end;
  sc_sent : 0 <= blen (sent (prod_decides n j p p'));
  sc_seq : fget r bs' FDataSeq = match p with PSeq => u32 (fget r bs FDataSeq + 1) | _ => fget r bs FDataSeq end;
  sc_wakes : p <> PWake -> bit (wakes_consumer (j, p)) <= bit (wakes_consumer (j, p'));
  sc_fresh : q' <> [] -> q <> [] \/
    (blen (sent (prod_decides n j p p')) = 1 /\ wakes_consumer (j, p') = true);
  sc_lock : (exists res, p = PLockWake res) \/ fget r bs' FLock = 2 \/ serves_lock (j, p') = true \/
    (lock_sleeper (j, p') = false /\ serves_lock (j, p) = false /\ (fget r bs FLock = 2 -> fget r bs' FLock = 2));
}.

Lemma prod_block_seq j p bs :
  fits r bs -> copies_fit r j p ->
  fget r (prod_block r j p bs) FDataSeq =
    match p with PSeq => u32 (fget r bs FDataSeq + 1) | _ => fget r bs FDataSeq end.
Proof using Hg.
  intros Hf Hc. pose proof (cap_pos r Hg). pose proof (blen_nonneg (j_data j)).
  assert (forall pos src, blen src <= r_capacity r -> fget r (copy_in r bs pos src) FDataSeq = fget r bs FDataSeq) as E.
  { intros pos src Hs. unfold copy_in. rewrite fget_dset; try done. apply blen_cwrite; [done | by apply blen_dget | done]. }
  destruct p; cbn [prod_block copies_fit] in *; unfold need in *; try done.
  - destruct (_ =? 0); [by rewrite fget_fset_ne | done].
  - by rewrite fget_fset_ne.
  - apply E. rewrite blen_le_bytes. lia.
  - apply E. lia.
  - by rewrite fget_fset_ne.
  - by rewrite fget_fset_ne.
  - rewrite fget_fset_eq by done. apply Z.mod_small. apply wrap_u_range. lia.
Qed.

Lemma prod_block_lock j p bs :
  fits r bs -> copies_fit r j p ->
  fget r (prod_block r j p bs) FLock =
    match p with
    | PCas => if fget r bs FLock =? 0 then 1 else fget r bs FLock
    | PSwap => 2
    | PUnlock _ => 0
    | _ => fget r bs FLock
    end.
Proof using Hg.
  intros Hf Hc. pose proof (cap_pos r Hg). pose proof (blen_nonneg (j_data j)).
  assert (forall pos src, blen src <= r_capacity r -> fget r (copy_in r bs pos src) FLock = fget r bs FLock) as E.
  { intros pos src Hs. unfold copy_in. rewrite fget_dset; try done. apply blen_cwrite; [done | by apply blen_dget | done]. }
  destruct p; cbn [prod_block copies_fit] in *; unfold need in *; try done.
  - destruct (_ =? 0); [by rewrite fget_fset_eq | done].
  - by rewrite fget_fset_eq.
  - apply E. rewrite blen_le_bytes. lia.
  - apply E. lia.
  - by rewrite fget_fset_ne.
  - by rewrite fget_fset_eq.
  - by rewrite fget_fset_ne.
Qed.

Lemma after_unlock_plain j res : lock_sleeper (j, after_unlock res) = false.
Proof. by destruct res as [|[|]]. Qed.

Lemma step_counts_ok n j p bs h t q now h' q' :
  let p' := prod_next r j p bs now in
  ring_rep r bs h t q -> copies_fit r j p -> prod_runs p = true ->
  prod_effect r j p p' bs (prod_block r j p bs) h t q (prod_decides n j p p') h' q' ->
  step_counts n j p p' bs (prod_block r j p bs) q q'.
Proof using Hg.
  intros p' Hrep Hc Hr [_ _ Hd _ _ _]. pose proof (rr_fits _ _ _ _ _ Hrep) as Hf.
  assert (p' = prod_next r j p bs now) as Ep by done. clearbody p'.
  constructor.
  - destruct p as [| | | | | | | | | | |res|res| | | | | |]; try discriminate Hr; try destruct res as [|[|]];
      subst p'; cbn [prod_next]; unfold no_room; repeat case_match; done.
  - apply blen_nonneg.
  - by apply prod_block_seq.
  - intros Hw. destruct p as [| | | | | | | | | | |res|res| | | | | |]; try discriminate Hr; try destruct res as [|[|]];
      subst p'; cbn [prod_next]; unfold no_room; repeat case_match; done.
  - intros Hq. destruct (decide (q = [])) as [->|]; [right | by left].
    destruct p; try discriminate Hr; subst p'; cbn [prod_next] in *; unfold no_room in *;
      repeat case_match; cbn [prod_decides after_unlock] in *;
      first [done | by destruct Hd as [_ ->] | by apply decides_refused in Hd as -> ].
  - rewrite prod_block_lock by done.
    destruct p; try discriminate Hr; subst p'; cbn [prod_next] in *; unfold no_room.
    3: { destruct (Z.eqb_spec (fget r bs FLock) 2); [right; by left | right; right; by left]. }
    all: try (right; by left); try (left; by eexists); right; right; repeat case_match; try (by left); right;
      (split; [try done; try apply after_unlock_plain | split; [done | try done; try lia]]).
Qed.

Lemma sleep_prod n k b lo s s' bs h t q bs' h' t' q' :
  machine_inv r s bs h t q -> sleep_inv r b lo s bs q -> step_prod r n k s = Some s' ->
  machine_inv r s' bs' h' t' q' -> sleep_inv r b lo s' bs' q'.
Proof using Hg.
  intros Hi Hsl Es Hi'. apply step_prod_inv in Es as (j & p & p' & w' & ts & En & Hr & Ep & Ew & ->).
  destruct (prod_moves r Hg s bs h t q n j p Hi En Hr) as (w1 & h1 & q1 & Ep' & Hmv & Heff).
  rewrite Ep in Ep'. injection Ep' as -> <-. set (p1 := prod_next _ _ _ _ _) in *.
  assert (bs' = prod_block r j p bs) as ->.
  { pose proof (mi_mem _ _ _ _ _ _ Hi') as E. simpl in E. rewrite (moved_lookup _ _ _ _ Hmv) in E. congruence. }
  assert (q' = q1) as ->.
  { eapply decides_fun; [apply (mi_hist _ _ _ _ _ _ Hi')|]. simpl.
    eapply decides_app; [apply (mi_hist _ _ _ _ _ _ Hi) | apply (pe_decides _ _ _ _ _ _ _ _ _ _ _ _ Heff)]. }
  destruct (prod_effect_step r Hg n j p bs h t q (w_now (m_world s)) (mi_rep _ _ _ _ _ _ Hi)
    (mi_prods _ _ _ _ _ _ Hi _ _ _ En) Hr) as (Hfit & _).
  { intros. by eapply holder_lock. }
  pose proof (step_counts_ok n j p bs h t q _ h1 q1 (mi_rep _ _ _ _ _ _ Hi) Hfit Hr Heff) as [C1 C2 C3 C4 C5 C6].
  fold p1 in C1, C2, C4, C5, C6. set (ds := prod_decides n j p p1) in *.
  destruct (wake_prod_counts _ _ _ _ Ew) as [Hcounts Hwake].
  destruct Hsl as [S1 S2 S3 S4 S5]. set (ts1 := <[n := (j, p1)]> (m_prods s)) in *.
  assert (forall f, tally f ts1 = tally f (m_prods s) - bit (f (j, p)) + bit (f (j, p1))) as Ht
    by (intros; by apply tally_insert).
  assert (blen (sent (m_hist s ++ ds)) = blen (sent (m_hist s)) + blen (sent ds)) as Hsent
    by by rewrite sent_app, blen_app.
  pose proof (tally_nonneg announces (m_prods s)). pose proof (tally_nonneg announces ts1).
  assert (blen (sent (m_hist s ++ ds)) - tally announces ts1 =
          signals s + match p with PSeq => 1 | _ => 0 end) as Hsig.
  { unfold signals. rewrite Hsent, Ht. destruct p; lia. }
  assert (0 <= match p with PSeq => 1 | _ => 0 end) as Hone by (destruct p; lia).
  destruct Hcounts as (N1 & N2 & N3 & N4).
  assert ((n < length (m_prods s))%nat) as Hlen by by eapply lookup_lt_Some.
  assert (ts1 !! n = Some (j, p1)) as Hn1 by by apply list_lookup_insert_eq.
  constructor; unfold signals; simpl; rewrite ?N1, ?N2, ?Hsig.
  - rewrite C3, S1. destruct p; rewrite ?Z.add_0_r; try done. unfold wrap_u. rewrite Zplus_mod_idemp_l. f_equal. lia.
  - unfold signals in *. lia.
  - intros seen after E.
    assert (seen_of (m_cons s) = Some (seen, after)) as E' by (destruct p, (m_cons s); done).
    destruct (S3 _ _ E') as (k0 & Hk & -> & Hk2). exists k0. split_and!; [lia | lia | done|].
    intros Ha Hq1. rewrite Hsent. destruct (C5 Hq1) as [Hq|[Hone1 _]]; [specialize (Hk2 Ha Hq); lia|].
    unfold signals in Hk. lia.
  - intros Ec Hlt Hq1.
    assert (m_cons s = CAsleep /\ p <> PWake) as [Ec' Hp] by (destruct p, (m_cons s); done).
    specialize (C4 Hp). destruct (C5 Hq1) as [Hq|[_ Hw]].
    + rewrite Ht. specialize (S4 Ec' ltac:(lia) Hq). lia.
    + by eapply tally_in.
  - intros Hl. destruct C6 as [[res ->]|[C6|[C6|(C6 & C7 & C8)]]].
    + right. by apply (Hwake res).
    + by left.
    + right. apply N4. by eapply tally_in.
    + apply N3 in Hl. rewrite Ht, C6 in Hl. cbn [bit] in Hl.
      destruct (S5 ltac:(unfold bit in Hl; destruct (lock_sleeper (j, p)); lia)) as [?|Hv]; [left; auto|].
      right. apply N4. rewrite Ht, C7. unfold bit. destruct (serves_lock (j, p1)); lia.
Qed.

Lemma decides_empty cap who q q' : decides cap [(who, (OpPop, OutPop None))] q q' -> q = [] /\ q' = [].
Proof. unfold decides, fifo_after. simpl. intros [E ->]. by destruct q. Qed.

Lemma cons_block_words c bs :
  fits r bs -> fget r (cons_block r c bs) FDataSeq = fget r bs FDataSeq /\
    fget r (cons_block r c bs) FLock = fget r bs FLock.
Proof using Hg. intros Hf. destruct c; cbn [cons_block]; try done; by rewrite !fget_fset_ne. Qed.

Lemma cons_sends_nothing c c' : sent (cons_decides c c') = [].
Proof. by destruct c, c'. Qed.

(** What the consumer knows of [data_seq] after one more step. *)
Lemma seen_step c bs dl now h t q t' q' seen after :
  let c' := cons_next r c bs dl now in
  cons_runs c = true -> cons_effect r c c' bs (cons_block r c bs) h t q t' q' ->
  seen_of c' = Some (seen, after) ->
  seen = fget r bs FDataSeq /\ after = false \/
  exists before, seen_of c = Some (seen, before) /\ (after = true -> q' = [] \/ (before = true /\ q' = q)).
Proof.
  intros c' Hr [_ _ Hd _ _ _] E. subst c'.
  destruct c; try discriminate Hr; cbn [cons_next] in *.
  - destruct a as [| |seen0]; try discriminate E. injection E as <- <-. right. by eexists.
  - destruct (_ =? tail).
    + destruct a as [| |seen0]; try discriminate E. cbn [found_empty cons_decides] in *.
      apply decides_empty in Hd as [-> ->]. injection E as <- <-. right. exists false. auto.
    + by destruct a.
  - by destruct a.
  - by destruct a.
  - done.
  - done.
  - done.
  - injection E as <- <-. by left.
  - destruct Hd as [_ ->]. assert (seen0 = seen /\ after = true) as [-> ->].
    { destruct dl as [dl|]; [destruct (dl <=? now)|]; simplify_eq/=; done. }
    right. exists true. split; [done|]. intros _. right. split; [done|].
    by destruct dl as [dl|]; [destruct (dl <=? now)|].
  - by destruct (_ =? seen0).
Qed.

Lemma sleep_cons b lo s s' bs h t q bs' h' t' q' :
  machine_inv r s bs h t q -> sleep_inv r b lo s bs q -> step_cons r s = Some s' ->
  machine_inv r s' bs' h' t' q' -> sleep_inv r b lo s' bs' q'.
Proof using Hg.
  intros Hi Hsl Es Hi'. apply step_cons_inv in Es as (c' & w' & Hr & Ec & ->).
  destruct (cons_moves r Hg s bs h t q Hi Hr) as (w1 & t1 & q1 & Ec' & Hmv & Heff).
  rewrite Ec in Ec'. injection Ec' as -> <-. set (c1 := cons_next _ _ _ _ _) in *.
  assert (bs' = cons_block r (m_cons s) bs) as ->.
  { pose proof (mi_mem _ _ _ _ _ _ Hi') as E. simpl in E. rewrite (moved_lookup _ _ _ _ Hmv) in E. congruence. }
  assert (q' = q1) as ->.
  { eapply decides_fun; [apply (mi_hist _ _ _ _ _ _ Hi')|]. simpl.
    eapply decides_app; [apply (mi_hist _ _ _ _ _ _ Hi) | apply (ce_decides _ _ _ _ _ _ _ _ _ _ Heff)]. }
  pose proof (rr_fits _ _ _ _ _ (mi_rep _ _ _ _ _ _ Hi)) as Hf.
  destruct (cons_block_words (m_cons s) bs Hf) as [Eseq Elock].
  destruct Hsl as [S1 S2 S3 S4 S5].
  set (ts := match m_cons s with CWake _ => wake_space (m_prods s) | _ => m_prods s end).
  assert (same_counts (m_prods s) ts) as (N1 & N2 & N3 & N4)
    by (unfold ts; destruct (m_cons s); try apply same_counts_refl; apply wake_space_counts).
  assert (sent (m_hist s ++ cons_decides (m_cons s) c1) = sent (m_hist s)) as Hsent
    by by rewrite sent_app, cons_sends_nothing, app_nil_r.
  assert (forall ret, signals (Mach w' ts (m_deadline s) c1 (m_hist s ++ cons_decides (m_cons s) c1) ret)
    = signals s) as Hsig by (intros; unfold signals; simpl; by rewrite Hsent, N1).
  constructor; rewrite ?Hsig; simpl; rewrite ?Hsent, ?N1, ?N2, ?Eseq, ?Elock; try done.
  - intros seen after E. destruct (seen_step _ _ _ _ _ _ _ _ _ _ _ Hr Heff E) as [[-> ->]|(before & Eb & Hq)].
    + exists (signals s). split_and!; try done; unfold signals; lia.
    + destruct (S3 _ _ Eb) as (k0 & Hk & -> & Hk2). exists k0. split_and!; [lia | lia | done |].
      intros Ha Hq1. destruct (Hq Ha) as [?|[-> ->]]; [done | auto].
  - intros Ec1 Hlt Hq1. destruct (m_cons s) eqn:Em; try discriminate Hr; subst c1; cbn [cons_next] in *;
      try discriminate Ec1.
    + destruct (_ =? tail) in Ec1; by destruct a.
    + by destruct (m_deadline s) as [dl|]; [destruct (dl <=? _) in Ec1|].
    + destruct (Z.eqb_spec (fget r bs FDataSeq) seen) as [E|E]; [|discriminate Ec1].
      destruct (S3 seen true eq_refl) as (k0 & Hk & -> & Hk2).
      pose proof (ce_decides _ _ _ _ _ _ _ _ _ _ Heff) as [_ ->].
      rewrite S1 in E. assert (k0 = signals s) as ->.
      { pose proof (Z.div_mod (b + signals s) (2 ^ 32) ltac:(done)) as E1.
        pose proof (Z.div_mod (b + k0) (2 ^ 32) ltac:(done)) as E2. rewrite E in E1. clear -Hk Hlt E1 E2.
        change (2 ^ 32) with 4294967296 in *. lia. }
      specialize (Hk2 eq_refl Hq1). unfold signals in Hk2.
      assert (tally announces (m_prods s) <= tally wakes_consumer (m_prods s)); [|lia].
      clear. induction (m_prods s) as [|[j p] ts IH]; [done|]. rewrite !tally_cons.
      destruct p; try destruct res as [|]; cbn [announces wakes_consumer snd]; lia.
  - intros Hl. destruct (S5 (N3 Hl)) as [?|?]; [by left | right; auto].
Qed.

Lemma sleep_next b lo e s s' bs h t q bs' h' t' q' :
  machine_inv r s bs h t q -> sleep_inv r b lo s bs q -> machine_next r e s = Some s' ->
  machine_inv r s' bs' h' t' q' -> sleep_inv r b lo s' bs' q'.
Proof using Hg.
  intros Hi Hsl E Hi'.
  assert (w_mem (m_world s') = w_mem (m_world s) -> m_hist s' = m_hist s -> bs' = bs /\ q' = q) as Hsame.
  { intros Em Eh. pose proof (mi_mem _ _ _ _ _ _ Hi') as E1. rewrite Em, (mi_mem _ _ _ _ _ _ Hi) in E1.
    split; [congruence|]. pose proof (mi_hist _ _ _ _ _ _ Hi') as E2. rewrite Eh in E2.
    eapply decides_fun; [exact E2 | apply (mi_hist _ _ _ _ _ _ Hi)]. }
  assert (sleep_inv r b lo (Mach (m_world s) (m_prods s) (m_deadline s) (m_cons s) (m_hist s) (m_returned s)) bs q)
    as Hsl' by by destruct s.
  destruct e as [n j|m|n k| |n| |now]; cbn [machine_next] in E.
  - destruct (m_prods s !! n) as [[j0 p]|] eqn:En; simpl in E; [|done].
    destruct (free_prod p) eqn:Ef; [|done]. injection E as <-. destruct Hsame as [-> ->]; [done..|].
    eapply sleep_inv_threads; [|exact Hsl']. eapply same_counts_insert; [done|..]; by destruct p.
  - destruct (free_cons (m_cons s)) eqn:Ef; [|done].
    destruct m; injection E as <-; (destruct Hsame as [-> ->]; [done..|]);
      (eapply sleep_inv_counts; [apply same_counts_refl | done | done | exact Hsl']).
  - eapply sleep_prod; [exact Hi | exact Hsl | exact E | exact Hi'].
  - eapply sleep_cons; [exact Hi | exact Hsl | exact E | exact Hi'].
  - destruct (m_prods s !! n) as [[j p]|] eqn:En; simpl in E; [|done].
    destruct (resume_prod p) as [p'|] eqn:Er; simpl in E; [|done]. injection E as <-.
    destruct Hsame as [-> ->]; [done..|]. eapply sleep_inv_threads; [|exact Hsl'].
    eapply same_counts_insert; [done|..]; by destruct p; simplify_eq/=.
  - destruct (resume_cons (m_cons s)) as [c'|] eqn:Er; simpl in E; [|done]. injection E as <-.
    destruct Hsame as [-> ->]; [done..|].
    eapply sleep_inv_counts; [apply same_counts_refl | | | exact Hsl'];
      destruct (m_cons s); simplify_eq/=; try done; by destruct left.
  - injection E as <-. destruct Hsame as [-> ->]; [done..|].
    eapply sleep_inv_threads; [apply same_counts_refl | exact Hsl'].
Qed.

(** ** All of it, for every run *)

Record run_inv (b lo : Z) (s : machine) (bs : list byte) (h t : Z) (q : list (list byte)) : Prop := {
  ru_inv : machine_inv r s bs h t q;
  ru_accounts : accounts s;
  ru_sleep : sleep_inv r b lo s bs q;
}.

Lemma run_inv_keeps es b lo s s' bs h t q :
  run_inv b lo s bs h t q -> machine_run r es s = Some s' -> exists bs' h' t' q', run_inv b lo s' bs' h' t' q'.
Proof using Hg.
  revert s bs h t q. induction es as [|e es IH]; intros s bs h t q [Hi Ha Hs] E; simpl in E.
  - injection E as <-. by exists bs, h, t, q.
  - destruct (machine_next r e s) as [s1|] eqn:E1; simpl in E; [|done].
    destruct (machine_next_keeps r Hg _ _ _ _ _ _ _ Hi E1) as (bs1 & h1 & t1 & q1 & Hi1).
    eapply (IH s1 bs1 h1 t1 q1); [|done]. constructor; [done | eapply accounts_next; [exact Hg | exact Hi | exact Ha | exact E1] |].
    eapply sleep_next; [exact Hi | exact Hs | exact E1 | exact Hi1].
Qed.

(** The consumer has not read [data_seq] for its next sleep. *)
Definition unsuspecting (c : cpos) : Prop := seen_of c = None /\ c <> CAsleep.

Lemma run_inv_rebase b lo s bs h t q :
  run_inv b lo s bs h t q -> unsuspecting (m_cons s) -> run_inv b (signals s) s bs h t q.
Proof using.
  intros [Hi Ha [S1 S2 S3 S4 S5]] [Hs Hne]. constructor; [done..|]. constructor; [done | lia | | done | done].
  intros seen after E. congruence.
Qed.

Lemma idle_run_inv n w es s :
  ring_has r w [] -> machine_run r es (idle_machine n w) = Some s ->
  exists b bs h t q, run_inv b 0 s bs h t q.
Proof using Hg.
  intros Hq E. destruct (idle_machine_inv r n w Hq) as (bs & h & t & Hi).
  assert (forall f, f (Job [] MTry, PIdle) = false -> tally f (replicate n (Job [] MTry, PIdle)) = 0) as Ht.
  { intros f Hf. clear -Hf. induction n as [|n IH]; [done|]. cbn [replicate]. by rewrite tally_cons, Hf, IH. }
  destruct (run_inv_keeps es (fget r bs FDataSeq) 0 (idle_machine n w) s bs h t []) as (bs' & h' & t' & q' & H);
    [|done | by exists (fget r bs FDataSeq), bs', h', t', q'].
  constructor; [done | |].
  - constructor; simpl; [|done]. intros m. unfold carried_at.
    destruct (replicate n (Job [] MTry, PIdle) !! m) as [th|] eqn:Em; [|done].
    by apply lookup_replicate in Em as [-> _].
  - constructor; unfold signals; simpl; rewrite ?(Ht announces), ?(Ht wakes_consumer), ?(Ht lock_sleeper) by done; try done.
    + symmetry. pose proof (fget_range r Hg bs FDataSeq (rr_fits _ _ _ _ _ (mi_rep _ _ _ _ _ _ Hi))) as R.
      change (256 ^ Z.of_nat (fwidth FDataSeq)) with (2 ^ 32) in R.
      change (blen (sent [] : list (list byte)) - 0) with 0. rewrite Z.add_0_r. by apply Z.mod_small.
Qed.
End sleep.
