(* ===== verification/RingConcCalls.v ===== *)
(** * Every call returns what one of its attempts was answered

    A call of the concurrent ring makes one or several attempts, each of which is decided
    at one step and recorded there; a blocking call goes on after a refusal. The invariant
    of this file ties the results that the callers see, refusals included, to the attempts
    of the very call. *)

From S2P Require Import Prelude Machine Shm Circ Ring RingMem RingSpec RingThm RingConc RingConcThm.

(** The decisions of one thread. *)
Definition by_thread (who : option nat) (ds : list decision) : list decision := filter (fun d => fst d = who) ds.

(** The same attempt, refused: a push that found no room, a pop that found nothing. *)
Definition refused (d : decision) : decision :=
  (fst d, (fst (snd d), match fst (snd d) with OpPush _ => OutPush false | OpPop => OutPop None end)).

(** The attempts of one call that returned [d]: refusals, and the attempt whose answer [d] is. *)
Definition call_of (attempts : list decision) (d : decision) : Prop :=
  exists k, attempts = replicate k (refused d) ++ [d].

(** The attempts that the call in progress has made so far. *)
Definition so_far_prod (n : nat) (th : job * ppos) (ds : list decision) : Prop :=
  let d b := (Some n, (OpPush (j_data (fst th)), OutPush b)) in
  match snd th with
  | PIdle | PDone _ => ds = []
  | PUnlock Pushed | PLockWake Pushed | PSeq | PWake => exists k, ds = replicate k (d false) ++ [d true]
  | PSeen | PUnlock (Full _) | PLockWake (Full _) | PCheck _ => exists k, ds = replicate k (d false) ++ [d false]
  | _ => exists k, ds = replicate k (d false)
  end.
Definition so_far_cons (c : cpos) (ds : list decision) : Prop :=
  let d v := (None, (OpPop, OutPop v)) in
  match c with
  | CIdle | CDone _ => ds = []
  | CSeq v | CWake v => exists k, ds = replicate k (d None) ++ [d (Some v)]
  | CSpin _ | CSeen | CCheck _ | CWait _ | CAsleep => exists k, ds = replicate k (d None) ++ [d None]
  | CTail _ | CHead _ _ | CLen _ _ | CData _ _ _ | CStore _ _ _ _ => exists k, ds = replicate k (d None)
  end.
Definition so_far (s : machine) (who : option nat) (ds : list decision) : Prop :=
  match who with
  | Some n => match m_prods s !! n with Some th => so_far_prod n th ds | None => ds = [] end
  | None => so_far_cons (m_cons s) ds
  end.

(** The attempts [ds] of a thread are those of its calls, which returned [rs], one after the
    other, and then those of the call in progress. *)
Definition answers_calls (ds rs : list decision) (current : list decision -> Prop) : Prop :=
  exists calls now, ds = concat calls ++ now /\ Forall2 call_of calls rs /\ current now.

Definition calls_answered (s : machine) : Prop :=
  forall who, answers_calls (by_thread who (m_hist s)) (by_thread who (m_returned s)) (so_far s who).

(** ** A step of one thread *)

Lemma answers_weaken ds rs (P Q : list decision -> Prop) :
  (forall now, P now -> Q now) -> answers_calls ds rs P -> answers_calls ds rs Q.
Proof. intros HPQ (calls & now & E & Hc & Hn). exists calls, now. auto. Qed.

(** New attempts [ds'] and returns [rs'], from what the call in progress had made. *)
Lemma answers_step ds rs ds' rs' (P Q : list decision -> Prop) :
  (forall now, P now -> answers_calls (now ++ ds') rs' Q) -> answers_calls ds rs P -> answers_calls (ds ++ ds') (rs ++ rs') Q.
Proof.
  intros Hs (calls & now & -> & Hc & Hn). destruct (Hs now Hn) as (calls' & now' & E & Hc' & Hn').
  exists (calls ++ calls'), now'. split_and!; [|by apply Forall2_app | done].
  by rewrite concat_app, <- !app_assoc, <- E.
Qed.

Lemma still_open now (Q : list decision -> Prop) : Q now -> answers_calls now [] Q.
Proof. intros HQ. by exists [], now. Qed.

Lemma call_ends k d ds (Q : list decision -> Prop) : ds = replicate k (refused d) ++ [d] -> Q [] -> answers_calls ds [d] Q.
Proof.
  intros -> HQ. exists [replicate k (refused d) ++ [d]], []. split; [symmetry; etrans; [apply app_nil_r | apply app_nil_r]|]. split; [|done].
  constructor; [by exists k | constructor].
Qed.

Section calls.
Context (r : Ring).

Lemma prod_calls n j p bs now ds :
  prod_runs p = true -> so_far_prod n (j, p) ds -> let p' := prod_next r j p bs now in
  answers_calls (ds ++ prod_decides n j p p') (prod_returns n j p') (so_far_prod n (j, p')).
Proof.
  intros Hr Hs p'. subst p'.
  destruct p as [| | | | | | | | | | |[|[|]]|[|[|]]| | | | | |]; try discriminate Hr;
    cbn [so_far_prod snd fst] in Hs; destruct Hs as [k ->];
    cbn [prod_next]; unfold no_room; repeat case_match; cbn [prod_decides prod_returns after_unlock];
    rewrite ?app_nil_r; first [by apply (call_ends k) | apply still_open; cbn [so_far_prod snd fst];
      first [by exists k | exists (S k); by rewrite replicate_S_end]].
Qed.

Lemma cons_calls c bs dl now ds :
  cons_runs c = true -> so_far_cons c ds -> let c' := cons_next r c bs dl now in
  answers_calls (ds ++ cons_decides c c') (cons_returns c') (so_far_cons c').
Proof.
  intros Hr Hs c'. subst c'.
  destruct c as [|a|a tail|a tail|a tail len|a tail len v|v|v|left| |seen|seen| |v]; try discriminate Hr;
    cbn [so_far_cons] in Hs; destruct Hs as [k ->];
    cbn [cons_next]; unfold found_empty, first_spin; repeat case_match; cbn [cons_decides cons_returns];
    rewrite ?app_nil_r; first [by apply (call_ends k) | apply still_open; cbn [so_far_cons];
      first [by exists k | exists (S k); by rewrite replicate_S_end]].
Qed.

Hypothesis Hg : ring_geom r.

Lemma by_thread_app who ds ds' : by_thread who (ds ++ ds') = by_thread who ds ++ by_thread who ds'.
Proof using. apply list.filter_app. Qed.

Lemma by_thread_own who ds : Forall (fun d => fst d = who) ds -> by_thread who ds = ds.
Proof using. induction 1 as [|d ds Hd _ IH]; [done|]. unfold by_thread in *. rewrite filter_cons_True by done. by f_equal. Qed.

Lemma by_thread_other who who' ds : who <> who' -> Forall (fun d => fst d = who') ds -> by_thread who ds = [].
Proof using.
  intros Hne. induction 1 as [|d ds Hd _ IH]; [done|]. unfold by_thread in *. rewrite filter_cons_False; [done | congruence].
Qed.

Lemma prod_decides_own n j p p' : Forall (fun d => fst d = Some n) (prod_decides n j p p').
Proof using. destruct p, p'; repeat constructor. Qed.
Lemma prod_returns_own n j p' : Forall (fun d => fst d = Some n) (prod_returns n j p').
Proof using. destruct p'; repeat constructor. Qed.
Lemma cons_decides_own c c' : Forall (fun d => fst d = None) (cons_decides c c').
Proof using. destruct c, c'; repeat constructor. Qed.
Lemma cons_returns_own c' : Forall (fun d => fst d = None) (cons_returns c').
Proof using. destruct c'; repeat constructor. Qed.

(** Who is woken, or starts a call, has made the same attempts as before. *)
Definition same_calls (ts ts' : list (job * ppos)) : Prop := forall n ds,
  match ts !! n with Some th => so_far_prod n th ds | None => ds = [] end ->
  match ts' !! n with Some th => so_far_prod n th ds | None => ds = [] end.

Lemma same_calls_insert ts k j p j' p' :
  ts !! k = Some (j, p) -> (forall n ds, so_far_prod n (j, p) ds -> so_far_prod n (j', p') ds) -> same_calls ts (<[k := (j', p')]> ts).
Proof using.
  intros Ek Hs n ds. destruct (decide (k = n)) as [<-|Hne]; [|by rewrite list_lookup_insert_ne].
  rewrite Ek, list_lookup_insert_eq by (by eapply lookup_lt_Some). apply Hs.
Qed.

Lemma same_calls_wake k p ts ts' : wake_prod k p ts = Some ts' -> same_calls ts ts'.
Proof using.
  unfold wake_prod, wake_lock. destruct p; try (by intros [= <-] ? ?).
  destruct (existsb _ _); [|by intros [= <-] ? ?].
  destruct (ts !! k) as [[j []]|] eqn:E; try done. intros [= <-]. by eapply same_calls_insert.
Qed.

Lemma same_calls_space ts : same_calls ts (wake_space ts).
Proof using. intros n ds. unfold wake_space. rewrite list_lookup_fmap. by destruct (ts !! n) as [[j []]|]. Qed.

Lemma wake_cons_so_far p c ds : so_far_cons c ds -> so_far_cons (wake_cons p c) ds.
Proof using. destruct p; try done. destruct c; try done. intros [k ->]. exists (S k). by rewrite replicate_S_end. Qed.

(** Nothing was decided and nothing returned. *)
Lemma calls_quiet s w ts dl c :
  calls_answered s -> same_calls (m_prods s) ts -> (forall ds, so_far_cons (m_cons s) ds -> so_far_cons c ds) ->
  calls_answered (Mach w ts dl c (m_hist s) (m_returned s)).
Proof using. intros Hi Ht Hc who. eapply answers_weaken; [|apply Hi]. intros now. destruct who as [n|]; [apply Ht | apply Hc]. Qed.

Lemma calls_step_prod n k s s' bs h t q :
  machine_inv r s bs h t q -> calls_answered s -> step_prod r n k s = Some s' -> calls_answered s'.
Proof using Hg.
  intros Hi Hca E. apply step_prod_inv in E as (j & p & p' & w' & ts & En & Hr & Ep & Ew & ->).
  destruct (prod_moves r Hg s bs h t q n j p Hi En Hr) as (w1 & h' & q' & Ep' & _ & _).
  rewrite Ep in Ep'. injection Ep' as -> <-. pose proof (same_calls_wake _ _ _ _ Ew) as Hw.
  intros who. cbn [m_hist m_returned]. rewrite !by_thread_app. destruct (decide (who = Some n)) as [->|Hne].
  - rewrite (by_thread_own _ _ (prod_decides_own n j p _)), (by_thread_own _ _ (prod_returns_own n j _)).
    eapply answers_step; [|apply Hca]. intros now Hn. cbn [so_far] in Hn. rewrite En in Hn.
    eapply answers_weaken; [|by apply prod_calls]. intros now' Hn'. cbn [so_far m_prods]. apply Hw.
    by rewrite list_lookup_insert_eq by (by eapply lookup_lt_Some).
  - rewrite (by_thread_other _ _ _ Hne (prod_decides_own n j p _)), (by_thread_other _ _ _ Hne (prod_returns_own n j _)).
    rewrite !app_nil_r. eapply answers_weaken; [|apply Hca]. intros now. destruct who as [m|]; cbn [so_far m_prods m_cons].
    + intros Hn. apply Hw. rewrite list_lookup_insert_ne by congruence. exact Hn.
    + apply wake_cons_so_far.
Qed.

Lemma calls_step_cons s s' bs h t q :
  machine_inv r s bs h t q -> calls_answered s -> step_cons r s = Some s' -> calls_answered s'.
Proof using Hg.
  intros Hi Hca E. apply step_cons_inv in E as (c' & w' & Hr & Ec & ->).
  destruct (cons_moves r Hg s bs h t q Hi Hr) as (w1 & t' & q' & Ec' & _ & _).
  rewrite Ec in Ec'. injection Ec' as -> <-. intros who. cbn [m_hist m_returned]. rewrite !by_thread_app.
  destruct who as [n|].
  - rewrite (by_thread_other (Some n) None _ ltac:(done) (cons_decides_own _ _)), (by_thread_other (Some n) None _ ltac:(done) (cons_returns_own _)).
    rewrite !app_nil_r. eapply answers_weaken; [|apply Hca]. intros now. cbn [so_far m_prods]. intros Hn.
    destruct (m_cons s); try exact Hn. by apply same_calls_space.
  - rewrite (by_thread_own _ _ (cons_decides_own _ _)), (by_thread_own _ _ (cons_returns_own _)).
    eapply answers_step; [|apply Hca]. intros now Hn. by apply cons_calls.
Qed.

Lemma calls_next e s s' bs h t q :
  machine_inv r s bs h t q -> calls_answered s -> machine_next r e s = Some s' -> calls_answered s'.
Proof using Hg.
  intros Hi Hca E. destruct e as [n j|m|n k| |n| |now]; cbn [machine_next] in E.
  - destruct (m_prods s !! n) as [[j0 p]|] eqn:En; simpl in E; [|done].
    destruct (free_prod p) eqn:Ef; [|done]. injection E as <-. apply calls_quiet; [done | | done].
    eapply same_calls_insert; [exact En|]. intros m ds. destruct p; try discriminate Ef; intros ->; by exists 0%nat.
  - destruct (free_cons (m_cons s)) eqn:Ef; [|done].
    destruct m; injection E as <-; (apply calls_quiet; [done | by intros ? ? |]);
      intros ds; (destruct (m_cons s); try discriminate Ef); intros ->; by exists 0%nat.
  - by eapply calls_step_prod.
  - by eapply calls_step_cons.
  - destruct (m_prods s !! n) as [[j p]|] eqn:En; simpl in E; [|done].
    destruct (resume_prod p) as [p'|] eqn:Er; simpl in E; [|done]. injection E as <-. apply calls_quiet; [done | | done].
    eapply same_calls_insert; [exact En|]. intros m ds. by destruct p; simplify_eq/=.
  - destruct (resume_cons (m_cons s)) as [c'|] eqn:Er; simpl in E; [|done]. injection E as <-.
    apply calls_quiet; [done | by intros ? ? |]. intros ds.
    destruct (m_cons s); simplify_eq/=; intros [k ->]; [destruct left|]; first [by exists k | exists (S k); by rewrite replicate_S_end].
  - injection E as <-. by apply calls_quiet; [done | intros ? ? |].
Qed.

Lemma calls_run es n w s : ring_has r w [] -> machine_run r es (idle_machine n w) = Some s -> calls_answered s.
Proof using Hg.
  intros Hw. destruct (idle_machine_inv r n w Hw) as (bs & h & t & Hi).
  assert (calls_answered (idle_machine n w)) as Hca.
  { intros who. exists [], []. split_and!; [done | constructor|]. destruct who as [m|]; [|done]. cbn [so_far idle_machine m_prods].
    destruct (_ !! m) as [th|] eqn:E; [|done]. by apply lookup_replicate in E as [-> _]. }
  revert Hi Hca. generalize (idle_machine n w), ([] : list (list byte)). revert bs h t.
  induction es as [|e es IH]; intros bs h t s0 q Hi Hca E; simpl in E; [by injection E as <-|].
  destruct (machine_next r e s0) as [s1|] eqn:E1; simpl in E; [|done].
  destruct (machine_next_keeps r Hg _ _ _ _ _ _ _ Hi E1) as (bs1 & h1 & t1 & q1 & Hi1).
  eapply IH; [exact Hi1 | eapply calls_next; [exact Hi | exact Hca | exact E1] | exact E].
Qed.
End calls.
