(* ===== verification/RingConcProps.v ===== *)
(** * The properties of the concurrent ring

    What the producers and the consumer of RingConc.v may rely on in any interleaving
    of their steps: the abstract queue, the lock, the data region and the wake-ups. *)

From S2P Require Import Prelude Machine Shm Circ Ring RingMem RingSpec RingThm Demo RingConc RingConcThm RingConcSleep RingConcCalls.

(** Where the bytes of a copy go to, or come from: position and length. *)
Definition copies_to (j : job) (p : ppos) : option (Z * Z) :=
  match p with
  | PLen head => Some (head, 4)
  | PData head => Some (u64 (head + 4), blen (j_data j))
  | _ => None
  end.
Definition copies_from (c : cpos) : option (Z * Z) :=
  match c with
  | CLen _ tail => Some (tail, 4)
  | CData _ tail len => Some (u64 (tail + 4), len)
  | _ => None
  end.

(** Byte [x] of the data region belongs to the copy. *)
Definition data_byte (r : Ring) (range : Z * Z) (x : Z) : Prop :=
  exists i, 0 <= i < snd range /\ x = (fst range + i) mod r_capacity r.

Lemma mod_apart c a b : 0 < c -> 0 < a - b < c -> a mod c <> b mod c.
Proof.
  intros Hc Hab E. pose proof (Zminus_mod a b c) as H.
  rewrite E, Z.sub_diag, Z.mod_0_l, Z.mod_small in H by lia. lia.
Qed.

Section ranges.
Context (r : Ring).
Hypothesis Hg : ring_geom r.

Lemma data_byte_at pos n x : data_byte r (pos mod 2 ^ 64, n) x ->
  exists i, 0 <= i < n /\ x = (pos + i) mod r_capacity r.
Proof using Hg.
  intros (i & Hi & ->). exists i. split; [done|]. simpl. pose proof (cap_pos r Hg).
  by rewrite <- Zplus_mod_idemp_l, mod_u64_cap, Zplus_mod_idemp_l.
Qed.

(** A producer writes in the free space. *)
Lemma producer_bytes d h t j p range x :
  prod_ok r d h t j p -> copies_to j p = Some range -> data_byte r range x ->
  exists y, h <= y < t + r_capacity r /\ x = y mod r_capacity r.
Proof using Hg.
  intros Hok Er Hx. unfold need in *. pose proof (blen_nonneg (j_data j)). destruct p; simplify_eq/=.
  - destruct Hok as [-> Hn]. apply data_byte_at in Hx as (i & Hi & ->). exists (h + i).
    unfold need in Hn. split; [lia | done].
  - destruct Hok as (-> & Hn & _). rewrite cursor_u64 in Hx. apply data_byte_at in Hx as (i & Hi & ->).
    unfold need in Hn. exists (h + 4 + i). split; [lia | done].
Qed.

(** The consumer reads the records. *)
Lemma consumer_bytes bs h t q c range x :
  ring_rep r bs h t q -> cons_ok t q c -> copies_from c = Some range -> data_byte r range x ->
  exists y, t <= y < h /\ x = y mod r_capacity r.
Proof using Hg.
  intros Hrep Hok Er Hx. pose proof (rr_used _ _ _ _ _ Hrep) as Hu. destruct c; simplify_eq/=.
  - destruct Hok as [-> Hq]. apply data_byte_at in Hx as (i & Hi & ->). exists (t + i). split; [|done].
    destruct q as [|d q]; [done|]. rewrite q_bytes_cons, blen_app, blen_record in Hu.
    pose proof (blen_nonneg d). pose proof (blen_nonneg (q_bytes q)). lia.
  - destruct Hok as (-> & d & q1 & -> & ->). rewrite cursor_u64 in Hx.
    apply data_byte_at in Hx as (i & Hi & ->). exists (t + 4 + i). split; [|done].
    rewrite q_bytes_cons, blen_app, blen_record in Hu. pose proof (blen_nonneg (q_bytes q1)). lia.
Qed.
End ranges.

(** C2: In any interleaving of any number of producers and a consumer, the ring is the
    abstract bounded queue: every attempt to push and every attempt to pop, in the order
    of their deciding steps, got the answer of the queue at that moment. What a call
    returned, be it success or refusal, a record or nothing, is the answer to the last of
    its own attempts, and each attempt before it was a refusal ([calls_answered]: the
    attempts of a thread are those of its returned calls, one call after the other, and
    those of the call it is in). No record is lost or duplicated: the accepted ones are, in
    order, those the consumer returned, the one it is about to return, and those still in
    the ring; and each producer has been told of its accepted records in its own order,
    save one it is about to be told of. *)
Theorem concurrent_ring_linearizable (r : Ring) (n : nat) (w : world) (es : list mevent) (s : machine) :
  ring_geom r -> ring_has r w [] -> machine_run r es (idle_machine n w) = Some s ->
  hist_outs (m_hist s) = fifo_run (r_capacity r) [] (hist_ops (m_hist s)) /\
  calls_answered s /\
  (exists q, sent (m_hist s) = taken_out (m_returned s) ++ carried_cons (m_cons s) ++ q /\
    exists bs h t, w_mem (m_world s) !! r_ptr r = Some bs /\ ring_rep r bs h t q) /\
  forall k, pushed_by k (m_hist s) = pushed_by k (m_returned s) ++ carried_at (m_prods s) k.
Proof.
  intros Hg Hw E. destruct (idle_run_inv r Hg n w es s Hw E) as (b & bs & h & t & q & [Hi [Hp Hc] _]).
  split_and!; [apply (mi_hist _ _ _ _ _ _ Hi) | by eapply calls_run | | done].
  exists q. split; [|exists bs, h, t; split; [apply (mi_mem _ _ _ _ _ _ Hi) | apply (mi_rep _ _ _ _ _ _ Hi)]].
  rewrite app_assoc, <- Hc. exact (fifo_balance _ _ _ _ (mi_hist _ _ _ _ _ _ Hi)).
Qed.

(** C11: Whatever the interleaving, every thread that is not asleep or idle can take its
    next step, without a panic and without an access outside the mapping; at most
    one producer is between taking the lock and releasing it; and a producer that
    copies a record in and the consumer that copies one out at the same time never
    touch the same byte of the data region. *)
Theorem concurrent_ring_race_free (r : Ring) (n : nat) (w : world) (es : list mevent) (s : machine) :
  ring_geom r -> ring_has r w [] -> machine_run r es (idle_machine n w) = Some s ->
  (forall k j p, m_prods s !! k = Some (j, p) -> prod_runs p = true ->
    exists p' w', prod_step r j p (m_world s) = Done (p', w')) /\
  (cons_runs (m_cons s) = true ->
    exists c' w', cons_step r (m_deadline s) (m_cons s) (m_world s) = Done (c', w')) /\
  (forall k k' j p j' p', m_prods s !! k = Some (j, p) -> m_prods s !! k' = Some (j', p') ->
    holds_lock p = true -> holds_lock p' = true -> k = k') /\
  (forall k j p to from x, m_prods s !! k = Some (j, p) ->
    copies_to j p = Some to -> copies_from (m_cons s) = Some from ->
    data_byte r to x -> data_byte r from x -> False).
Proof.
  intros Hg Hw E. destruct (idle_run_inv r Hg n w es s Hw E) as (b & bs & h & t & q & [Hi _ _]). split_and!.
  - intros k j p Ek Hr. destruct (prod_moves r Hg s bs h t q k j p Hi Ek Hr) as (w' & _ & _ & Es & _). eauto.
  - intros Hr. destruct (cons_moves r Hg s bs h t q Hi Hr) as (w' & _ & _ & Es & _). eauto.
  - intros k k' j p j' p' Ek Ek' Hp Hp'. apply (holders_agree (m_prods s) k k' (j, p) (j', p')); try done.
    rewrite (mi_lock _ _ _ _ _ _ Hi). apply lock_bit_le.
  - intros k j p to from x Ek Et Ef Ht Hf.
    destruct (producer_bytes r Hg _ _ _ _ _ _ _ (mi_prods _ _ _ _ _ _ Hi _ _ _ Ek) Et Ht) as (y & Hy & ->).
    destruct (consumer_bytes r Hg _ _ _ _ _ _ _ (mi_rep _ _ _ _ _ _ Hi) (mi_cons _ _ _ _ _ _ Hi) Ef Hf)
      as (y' & Hy' & E').
    revert E'. apply mod_apart; [by apply cap_pos | lia].
Qed.

(** ** Waking up *)

Section wake.
Context (r : Ring).
Hypothesis Hg : ring_geom r.

Lemma wake_lock_some ts : exists k ts', wake_lock k ts = Some ts'.
Proof.
  unfold wake_lock. destruct (existsb lock_sleeper ts) eqn:Ex; [|by exists 0%nat, ts].
  apply existsb_exists in Ex as (th & Hin & Hth).
  apply list_elem_of_In, list_elem_of_lookup in Hin as [k Ek]. destruct th as [j []]; try done.
  exists k. rewrite Ek. eauto.
Qed.

(** The next event of a producer that runs. *)
Lemma prod_event s bs h t q n j p :
  machine_inv r s bs h t q -> m_prods s !! n = Some (j, p) -> prod_runs p = true ->
  exists k s', machine_next r (EvProd n k) s = Some s' /\ m_cons s' = wake_cons p (m_cons s) /\
    (prod_next r j p bs (w_now (m_world s)) <> PLockAsleep ->
     m_prods s' !! n = Some (j, prod_next r j p bs (w_now (m_world s)))).
Proof using Hg.
  intros Hi En Hr. destruct (prod_moves r Hg s bs h t q n j p Hi En Hr) as (w' & _ & _ & Es & _).
  set (p' := prod_next r j p bs (w_now (m_world s))) in *. set (ts := <[n := (j, p')]> (m_prods s)).
  assert (ts !! n = Some (j, p')) as Et by (apply list_lookup_insert_eq; by eapply lookup_lt_Some).
  assert (exists k ts', wake_prod k p ts = Some ts') as (k & ts' & Ew)
    by (destruct p; try (by exists 0%nat, ts); apply wake_lock_some).
  eexists k, (Mach w' ts' (m_deadline s) (wake_cons p (m_cons s)) _ _). split_and!.
  - cbn [machine_next]. unfold step_prod. rewrite En. rewrite bool_decide_eq_false_2.
    + rewrite Es. fold ts. by rewrite Ew.
    + by destruct p; intros [? ?].
  - done.
  - intros Hp'. cbn [m_prods]. clear - Ew Et Hp'. unfold wake_prod, wake_lock in Ew.
    destruct p; try (injection Ew as <-; done). destruct (existsb _ _); [|by injection Ew as <-].
    destruct (ts !! k) as [[jk []]|] eqn:Ek; try done. injection Ew as <-.
    destruct (decide (k = n)) as [->|Hne]; [congruence | by rewrite list_lookup_insert_ne].
Qed.

Definition steps_to_wake (p : ppos) : nat :=
  match p with PUnlock Pushed => 4 | PLockWake Pushed => 3 | PSeq => 2 | PWake => 1 | _ => 0 end.

Lemma waker_wakes k m s bs h t q j p :
  machine_inv r s bs h t q -> m_cons s = CAsleep -> m_prods s !! k = Some (j, p) ->
  wakes_consumer (j, p) = true -> (steps_to_wake p <= m)%nat ->
  exists es s', (length es <= m)%nat /\ Forall (fun e => exists v, e = EvProd k v) es /\
    machine_run r es s = Some s' /\ m_cons s' = first_spin.
Proof using Hg.
  revert s bs h t q p. induction m as [|m IH]; intros s bs h t q p Hi Hc Ek Hw Hm.
  { by destruct p as [| | | | | | | | | | |[]|[]| | | | | |]; simpl in Hm; try discriminate Hw; lia. }
  assert (prod_runs p = true) as Hr by by destruct p.
  destruct (prod_event s bs h t q k j p Hi Ek Hr) as (v & s1 & E1 & Ec & Ep).
  assert (p = PWake \/ p <> PWake) as [->|Hne] by (destruct p; ((by left) || (by right))).
  { exists [EvProd k v], s1. cbn [machine_run]. rewrite E1, Ec, Hc. simpl. split_and!; [lia | | done | done].
    repeat constructor. eauto. }
  destruct (machine_next_keeps r Hg _ _ _ _ _ _ _ Hi E1) as (bs1 & h1 & t1 & q1 & Hi1).
  set (p1 := prod_next r j p bs (w_now (m_world s))) in *.
  assert (p1 <> PLockAsleep /\ wakes_consumer (j, p1) = true /\ (steps_to_wake p1 < steps_to_wake p)%nat)
    as (H1 & H2 & H3).
  { subst p1. destruct p as [| | | | | | | | | | |[]|[]| | | | | |]; try discriminate Hw; try done; cbn [prod_next];
      [destruct (_ =? _)| |]; simpl; split_and!; done || lia. }
  destruct (IH s1 bs1 h1 t1 q1 p1 Hi1) as (es & s' & Hl & Hf & Er & Ew); [| auto | done | lia |].
  { rewrite Ec, Hc. by destruct p. }
  exists (EvProd k v :: es), s'. cbn [machine_run length]. rewrite E1. split_and!; [lia | | done | done].
  constructor; [by eexists | done].
Qed.
End wake.

(** The consumer, asleep while an accepted record waits. *)
Lemma consumer_wakeup (r : Ring) (b lo : Z) (s : machine) bs h t q :
  ring_geom r -> run_inv r b lo s bs h t q ->
  m_cons s = CAsleep -> sent (m_hist s) <> taken_out (m_hist s) -> signals s - lo < 2 ^ 32 ->
  exists k es s', (length es <= 4)%nat /\ Forall (fun e => exists v, e = EvProd k v) es /\
    machine_run r es s = Some s' /\ m_cons s' = first_spin.
Proof.
  intros Hg [Hi _ Hs] Hc Hne Hlt.
  pose proof (fifo_balance _ _ _ _ (mi_hist _ _ _ _ _ _ Hi)) as Hb. simpl in Hb.
  assert (1 <= tally wakes_consumer (m_prods s)) as Ht.
  { apply (sl_asleep _ _ _ _ _ _ Hs Hc); [done|intros ->; by rewrite app_nil_r in Hb]. }
  apply tally_out in Ht as (k & [j p] & Ek & Hp). exists k.
  apply (waker_wakes r Hg k 4 s bs h t q j p Hi Hc Ek Hp).
  by destruct p as [| | | | | | | | | | |[]|[]| | | | | |]; try discriminate Hp; simpl; lia.
Qed.

(** Producer [k], asleep on the lock. *)
Lemma lock_wakeup (r : Ring) (b lo : Z) (s : machine) bs h t q (k : nat) (j : job) :
  ring_geom r -> run_inv r b lo s bs h t q -> m_prods s !! k = Some (j, PLockAsleep) ->
  exists k' j' p', k' <> k /\ m_prods s !! k' = Some (j', p') /\
    ((holds_lock p' = true /\
      load_u32 (r_ptr r) (r_base r + OFF_PRODLOCK) (m_world s) = Done (2, m_world s)) \/
     serves_lock (j', p') = true).
Proof.
  intros Hg [Hi _ Hs] Ek.
  assert (forall k' j' p', m_prods s !! k' = Some (j', p') -> holds_lock p' || serves_lock (j', p') = true ->
    k' <> k) as Hother by (intros k' j' p' Ek' Hp ->; rewrite Ek in Ek'; injection Ek' as <- <-; discriminate Hp).
  pose proof (tally_in lock_sleeper _ _ _ Ek eq_refl) as Hl.
  destruct (sl_lock _ _ _ _ _ _ Hs Hl) as [H2|Hserve].
  - pose proof (mi_lock _ _ _ _ _ _ Hi) as Hh. rewrite (lock_bit_1 r) in Hh by (rewrite H2; lia).
    assert (1 <= tally holder (m_prods s)) as Ht by lia.
    apply tally_out in Ht as (k' & [j' p'] & Ek' & Hp). change (holds_lock p' = true) in Hp. exists k', j', p'.
    split_and!; [eapply Hother; [exact Ek' | by rewrite Hp] | done | left; split; [done|]]. rewrite <- H2.
    apply (load_field r Hg _ bs (mi_mem _ _ _ _ _ _ Hi) (rr_fits _ _ _ _ _ (mi_rep _ _ _ _ _ _ Hi)) FLock).
  - apply tally_out in Hserve as (k' & [j' p'] & Ek' & Hp). exists k', j', p'.
    split_and!; [eapply Hother; [exact Ek' | by rewrite Hp, orb_true_r] | done | by right].
Qed.

(** C12: No wake-up for a record is lost, in any interleaving, unless the 32-bit counter of
    announcements went all the way round while the consumer was looking. If the consumer is
    asleep in [pop_blocking] while an accepted record waits in the ring, and fewer than 2^32
    announcements were made since some moment at which it had not read the counter for
    this sleep (however many were made before), then some producer is still on its way to
    wake it, and does so with at most four more steps of its own. And no wake-up for the
    lock is lost: while a producer sleeps on the lock, either another one holds it and finds
    it contended, so that its release wakes a sleeper, or one is about to wake a sleeper or
    to try the lock again as a contended one. *)
Theorem wakeups_not_lost (r : Ring) (n : nat) (w : world) (es es' : list mevent) (s0 s : machine) :
  ring_geom r -> ring_has r w [] -> machine_run r es (idle_machine n w) = Some s0 -> machine_run r es' s0 = Some s ->
  (unsuspecting (m_cons s0) -> signals s - signals s0 < 2 ^ 32 ->
   m_cons s = CAsleep -> sent (m_hist s) <> taken_out (m_hist s) ->
   exists k es2 s', (length es2 <= 4)%nat /\ Forall (fun e => exists v, e = EvProd k v) es2 /\
     machine_run r es2 s = Some s' /\ m_cons s' = first_spin) /\
  (forall k j, m_prods s !! k = Some (j, PLockAsleep) ->
   exists k' j' p', k' <> k /\ m_prods s !! k' = Some (j', p') /\
     ((holds_lock p' = true /\
       load_u32 (r_ptr r) (r_base r + OFF_PRODLOCK) (m_world s) = Done (2, m_world s)) \/
      serves_lock (j', p') = true)).
Proof.
  intros Hg Hw E0 E. destruct (idle_run_inv r Hg n w es s0 Hw E0) as (b & bs & h & t & q & Hi). split.
  - intros Hu Hlt Hc Hne. pose proof (run_inv_rebase r b 0 s0 bs h t q Hi Hu) as Hi0.
    destruct (run_inv_keeps r Hg es' _ _ _ _ _ _ _ _ Hi0 E) as (bs' & h' & t' & q' & Hi'). by eapply consumer_wakeup.
  - intros k j. destruct (run_inv_keeps r Hg es' _ _ _ _ _ _ _ _ Hi E) as (bs' & h' & t' & q' & Hi'). by eapply lock_wakeup.
Qed.

(** ** Concrete interleavings *)

(** A consumer that finds nothing, from its call to its sleep. *)
Definition fall_asleep : list mevent :=
  EvPop (MBlock None) :: concat (replicate SPIN_LIMIT [EvCons; EvCons; EvResumeCons]) ++ replicate 5 EvCons.

(** Producer 0 has stored its record and still holds the lock, for which producer 1
    sleeps; the consumer sleeps too. *)
Definition demo_overlap : list mevent :=
  fall_asleep ++ [EvPush 0 (Job rec20 MTry); EvPush 1 (Job rec20 (MBlock None)); EvProd 0 0] ++
  replicate 3 (EvProd 1 0) ++ replicate 5 (EvProd 0 0).

(** What the witnesses need to know of the state it reaches. *)
Definition overlaps (s : machine) : Prop :=
  m_cons s = CAsleep /\
  m_prods s = [(Job rec20 MTry, PUnlock Pushed); (Job rec20 (MBlock None), PLockAsleep)] /\
  sent (m_hist s) = [rec20] /\ taken_out (m_hist s) = [].

(** A run ends in a state with a property that is decided by computation. *)
Lemma run_reaches r n w es (P : machine -> Prop) `{forall s, Decision (P s)} :
  match machine_run r es (idle_machine n w) with Some s => bool_decide (P s) | None => false end = true ->
  exists s, machine_run r es (idle_machine n w) = Some s /\ P s.
Proof.
  destruct (machine_run _ _ _) as [s|]; [|discriminate]. intros HP%bool_decide_eq_true_1. by exists s.
Qed.

#[local] Instance overlaps_dec s : Decision (overlaps s).
Proof. unfold overlaps. apply _. Defined.

Lemma demo_overlap_state :
  exists s, machine_run demo_ring demo_overlap (idle_machine 2 (demo_ready [])) = Some s /\ overlaps s.
Proof. apply (run_reaches _ _ _ _ _). vm_compute. reflexivity. Qed.

Lemma concurrent_ring_linearizable_witness :
  exists s, machine_run demo_ring demo_overlap (idle_machine 2 (demo_ready [])) = Some s /\
    hist_outs (m_hist s) = fifo_run 64 [] (hist_ops (m_hist s)) /\ calls_answered s.
Proof.
  destruct demo_overlap_state as (s & E & _). exists s. split; [exact E|].
  destruct (concurrent_ring_linearizable demo_ring 2 (demo_ready []) demo_overlap s demo_geom (demo_has []) E) as (H1 & H2 & _).
  exact (conj H1 H2).
Defined.

Lemma concurrent_ring_race_free_witness :
  exists s, machine_run demo_ring demo_overlap (idle_machine 2 (demo_ready [])) = Some s /\
    forall k k' j p j' p', m_prods s !! k = Some (j, p) -> m_prods s !! k' = Some (j', p') ->
      holds_lock p = true -> holds_lock p' = true -> k = k'.
Proof.
  destruct demo_overlap_state as (s & E & _). exists s. split; [exact E|].
  exact (proj1 (proj2 (proj2
    (concurrent_ring_race_free demo_ring 2 (demo_ready []) demo_overlap s demo_geom (demo_has []) E)))).
Defined.

Lemma wakeups_not_lost_witness :
  exists s, machine_run demo_ring demo_overlap (idle_machine 2 (demo_ready [])) = Some s /\
    m_cons s = CAsleep /\ m_prods s !! 1%nat = Some (Job rec20 (MBlock None), PLockAsleep) /\
    (exists k es' s', (length es' <= 4)%nat /\ Forall (fun e => exists v, e = EvProd k v) es' /\
      machine_run demo_ring es' s = Some s' /\ m_cons s' = first_spin) /\
    exists k' j' p', k' <> 1%nat /\ m_prods s !! k' = Some (j', p') /\
      ((holds_lock p' = true /\ load_u32 7 (0 + OFF_PRODLOCK) (m_world s) = Done (2, m_world s)) \/
       serves_lock (j', p') = true).
Proof.
  destruct demo_overlap_state as (s & E & Hc & Hp & Hs & Ht).
  assert (m_prods s !! 1%nat = Some (Job rec20 (MBlock None), PLockAsleep)) as E1 by (rewrite Hp; reflexivity).
  destruct (wakeups_not_lost demo_ring 2 (demo_ready []) [] demo_overlap (idle_machine 2 (demo_ready [])) s demo_geom (demo_has [])
    eq_refl E) as [H1 H2].
  exists s. split_and!; [exact E | exact Hc | exact E1 | | exact (H2 1%nat _ E1)].
  apply H1; [by split | | exact Hc | rewrite Hs, Ht; discriminate].
  unfold signals. rewrite Hs, Hp. reflexivity.
Defined.

(** The producer finds no room, the consumer empties the ring, and only then does the
    producer read [space_seq]. *)
Definition late_read : list mevent :=
  [EvPush 0 (Job rec40 MTry)] ++ replicate 9 (EvProd 0 0) ++
  [EvPush 0 (Job rec20 (MBlock (Some 1000)))] ++ replicate 3 (EvProd 0 0) ++
  [EvPop MTry] ++ replicate 7 EvCons ++ replicate 4 (EvProd 0 0) ++ fall_asleep.

(** The protocol for space is not as careful as the one for data: a blocking
    producer reads [space_seq] after it found no room, not before. If the consumer
    makes room in between, the producer sleeps although its record fits, with nobody
    left to wake it: here the ring is empty, the consumer sleeps because it is, and
    the producer sleeps until its timeout of 1000 with a record of 24 bytes for a
    ring of 64. *)
Theorem space_wakeup_missed :
  exists s, machine_run demo_ring late_read (idle_machine 1 (demo_ready [])) = Some s /\
    m_prods s = [(Job rec20 (MBlock (Some 1000)), PAsleep)] /\ m_cons s = CAsleep /\
    hist_outs (m_returned s) = [OutPush true; OutPop (Some rec40)] /\
    sent (m_hist s) = taken_out (m_hist s) /\ fst (fifo_push 64 [] rec20) = true.
Proof. apply (run_reaches _ _ _ _ _). vm_compute. reflexivity. Qed.
