(* ===== verification/RingConcDead.v ===== *)
(** * A producer that dies with the lock

    The concurrent ring from the moment on at which a producer, inside the lock, takes no
    further step. *)

From S2P Require Import Prelude Machine Shm Circ Ring RingMem RingSpec RingThm Demo RingConc RingConcThm RingConcSleep RingConcProps.

(** The producer is in [lock_producer]. *)
Definition at_lock (p : ppos) : bool :=
  match p with PCas | PSwap | PLockWait | PLockAsleep => true | _ => false end.

Definition not_of (k : nat) (e : mevent) : Prop := match e with EvProd n _ => n <> k | _ => True end.

Definition popped (d : decision) : Prop := exists v, d = (None, (OpPop, OutPop v)).

(** From [ts] to [ts'] producer [k] stayed where it was, and who waited for the lock still does. *)
Definition stands_still (k : nat) (ts ts' : list (job * ppos)) : Prop :=
  ts' !! k = ts !! k /\
  forall n j p, ts !! n = Some (j, p) -> at_lock p = true -> exists p', ts' !! n = Some (j, p') /\ at_lock p' = true.

Lemma stands_still_refl k ts : stands_still k ts ts.
Proof. split; [done|]. intros n j p E Hp. by exists p. Qed.

Lemma stands_still_trans k ts1 ts2 ts3 : stands_still k ts1 ts2 -> stands_still k ts2 ts3 -> stands_still k ts1 ts3.
Proof.
  intros [E1 W1] [E2 W2]. split; [congruence|]. intros n j p E Hp.
  destruct (W1 n j p E Hp) as (p' & E' & Hp'). by apply (W2 n j p').
Qed.

Lemma stands_still_insert k n ts j p j' p' :
  ts !! n = Some (j, p) -> n <> k -> (at_lock p = true -> j' = j /\ at_lock p' = true) -> stands_still k ts (<[n := (j', p')]> ts).
Proof.
  intros En Hne Hl. split; [by rewrite list_lookup_insert_ne|]. intros m j1 p1 Em Hp.
  destruct (decide (n = m)) as [<-|Hnm]; [|exists p1; by rewrite list_lookup_insert_ne].
  rewrite En in Em. injection Em as <- <-. destruct (Hl Hp) as [-> Hp']. exists p'. split; [|done].
  apply list_lookup_insert_eq. by eapply lookup_lt_Some.
Qed.

Lemma wake_prod_still n k p ts ts' j0 p0 :
  ts !! k = Some (j0, p0) -> at_lock p0 = false -> wake_prod n p ts = Some ts' -> stands_still k ts ts'.
Proof.
  intros Ek Hp0. unfold wake_prod, wake_lock. destruct p; try (intros [= <-]; apply stands_still_refl).
  destruct (existsb _ _); [|intros [= <-]; apply stands_still_refl].
  destruct (ts !! n) as [[j []]|] eqn:En; try done. intros [= <-]. eapply stands_still_insert; [exact En | | done].
  intros ->. rewrite Ek in En. injection En as -> ->. discriminate Hp0.
Qed.

Lemma wake_space_still k ts j p : ts !! k = Some (j, p) -> holds_lock p = true -> stands_still k ts (wake_space ts).
Proof.
  intros Ek Hp. unfold wake_space. split.
  - rewrite list_lookup_fmap, Ek. by destruct p.
  - intros n j1 p1 En Hp1. exists p1. rewrite list_lookup_fmap, En. by destruct p1.
Qed.

Section dead.
Context (r : Ring).
Hypothesis Hg : ring_geom r.

(** While the lock is taken, a step in [lock_producer] stays there. *)
Lemma at_lock_next j p bs now : fget r bs FLock <> 0 -> at_lock p = true -> prod_runs p = true ->
  at_lock (prod_next r j p bs now) = true.
Proof using.
  intros H0 Hp Hr. apply Z.eqb_neq in H0. destruct p; try done; cbn [prod_next]; rewrite ?H0; [done..|].
  by destruct (_ =? 2).
Qed.

Lemma dead_step k j p e s s' bs h t q :
  machine_inv r s bs h t q -> m_prods s !! k = Some (j, p) -> holds_lock p = true -> not_of k e ->
  machine_next r e s = Some s' ->
  stands_still k (m_prods s) (m_prods s') /\
  exists ds, m_hist s' = m_hist s ++ ds /\ Forall popped ds.
Proof using Hg.
  intros Hi Ek Hp Hne E.
  assert (at_lock p = false) as Hp0 by by destruct p.
  destruct e as [n j1|m|n k1| |n| |now]; cbn [machine_next] in E.
  - destruct (m_prods s !! n) as [[j0 p0]|] eqn:En; simpl in E; [|done]. destruct (free_prod p0) eqn:Ef; [|done].
    injection E as <-. split; [|exists []; by rewrite app_nil_r].
    eapply stands_still_insert; [exact En | | by destruct p0]. intros ->. rewrite Ek in En. injection En as <- <-. by destruct p.
  - destruct (free_cons (m_cons s)); [|done].
    destruct m; injection E as <-; (split; [apply stands_still_refl | exists []; by rewrite app_nil_r]).
  - simpl in Hne. apply step_prod_inv in E as (j0 & p0 & p' & w' & ts & En & Hr & Ep & Ew & ->). cbn [m_prods m_hist].
    assert (holds_lock p0 = false) as Hp1.
    { apply not_true_is_false. intros Hp1. apply Hne. eapply (holders_agree (m_prods s)); [|exact En | exact Ek | done..].
      rewrite (mi_lock _ _ _ _ _ _ Hi). apply lock_bit_le. }
    destruct (prod_moves r Hg s bs h t q n j0 p0 Hi En Hr) as (w1 & _ & _ & Ep' & _).
    rewrite Ep in Ep'. injection Ep' as -> _. split; [|exists []; by destruct p0].
    assert (stands_still k (m_prods s) (<[n := (j0, prod_next r j0 p0 bs (w_now (m_world s)))]> (m_prods s))) as Hst.
    { eapply stands_still_insert; [exact En | done|]. intros Hl. split; [done|].
      apply at_lock_next; [by eapply (holder_lock r s bs h t q k j p) | done | done]. }
    eapply stands_still_trans; [exact Hst|]. eapply (wake_prod_still _ k _ _ _ j p); [|exact Hp0 | exact Ew].
    by rewrite (proj1 Hst).
  - apply step_cons_inv in E as (c' & w' & _ & _ & ->). cbn [m_prods m_hist]. split.
    + destruct (m_cons s); try apply stands_still_refl. by eapply wake_space_still.
    + eexists. split; [reflexivity|]. destruct (m_cons s), c'; repeat constructor; by eexists.
  - destruct (m_prods s !! n) as [[j0 p0]|] eqn:En; simpl in E; [|done].
    destruct (resume_prod p0) as [p'|] eqn:Er; simpl in E; [|done]. injection E as <-.
    split; [|exists []; by rewrite app_nil_r]. eapply stands_still_insert; [exact En | |].
    + intros ->. rewrite Ek in En. injection En as <- <-. by destruct p.
    + destruct p0; try done. by injection Er as <-.
  - destruct (resume_cons (m_cons s)) as [c'|]; simpl in E; [|done]. injection E as <-.
    split; [apply stands_still_refl | exists []; by rewrite app_nil_r].
  - injection E as <-. split; [apply stands_still_refl | exists []; by rewrite app_nil_r].
Qed.

Lemma dead_run k j p es s s' bs h t q :
  machine_inv r s bs h t q -> m_prods s !! k = Some (j, p) -> holds_lock p = true -> Forall (not_of k) es ->
  machine_run r es s = Some s' ->
  stands_still k (m_prods s) (m_prods s') /\
  exists ds, m_hist s' = m_hist s ++ ds /\ Forall popped ds.
Proof using Hg.
  revert s bs h t q. induction es as [|e es IH]; intros s bs h t q Hi Ek Hp Hes E; simpl in E.
  - injection E as <-. split; [apply stands_still_refl | exists []; by rewrite app_nil_r].
  - inversion Hes as [|?? He Hes']; subst. destruct (machine_next r e s) as [s1|] eqn:E1; simpl in E; [|done].
    destruct (dead_step _ _ _ _ _ _ _ _ _ _ Hi Ek Hp He E1) as (Hst & ds & Eh & Hds).
    destruct (machine_next_keeps r Hg _ _ _ _ _ _ _ Hi E1) as (bs1 & h1 & t1 & q1 & Hi1).
    destruct (IH s1 bs1 h1 t1 q1 Hi1) as (Hst' & ds' & Eh' & Hds'); [by rewrite (proj1 Hst) | done..|].
    split; [by eapply stands_still_trans|]. exists (ds ++ ds'). rewrite Eh', Eh, app_assoc. split; [done|].
    by apply Forall_app.
Qed.
End dead.

(** C33: A producer dies inside the lock: from then on it takes no step. Whatever the others do,
    for however long and whatever timeouts they gave: nobody pushes any more; a producer
    in [lock_producer] never leaves it; and the consumer gets what was in the ring at that
    moment, and nothing else. *)
Theorem dead_holder_blocks (r : Ring) (n k : nat) (w : world) (es es' : list mevent) (s s' : machine) (j : job) (p : ppos) :
  ring_geom r -> ring_has r w [] -> machine_run r es (idle_machine n w) = Some s ->
  m_prods s !! k = Some (j, p) -> holds_lock p = true ->
  Forall (not_of k) es' -> machine_run r es' s = Some s' ->
  m_prods s' !! k = Some (j, p) /\ sent (m_hist s') = sent (m_hist s) /\
  (forall k' j' p', m_prods s !! k' = Some (j', p') -> at_lock p' = true ->
     exists p'', m_prods s' !! k' = Some (j', p'') /\ at_lock p'' = true) /\
  exists q, sent (m_hist s) = taken_out (m_returned s') ++ carried_cons (m_cons s') ++ q.
Proof.
  intros Hg Hw E Ek Hp Hes E'.
  destruct (idle_run_inv r Hg n w es s Hw E) as (b & bs & h & t & q & [Hi _ _]).
  destruct (dead_run r Hg k j p es' s s' bs h t q Hi Ek Hp Hes E') as ([Hk Hl] & ds & Eh & Hds).
  assert (machine_run r (es ++ es') (idle_machine n w) = Some s') as Erun.
  { clear - E E'. revert E. generalize (idle_machine n w). induction es as [|e es IH]; intros s0 E; simpl in *.
    - by injection E as ->.
    - destruct (machine_next r e s0); simpl in *; [by apply IH | done]. }
  destruct (idle_run_inv r Hg n w (es ++ es') s' Hw Erun) as (b' & bs' & h' & t' & q' & [Hi' [_ Hc] _]).
  assert (sent (m_hist s') = sent (m_hist s)) as Hsent.
  { rewrite Eh. unfold sent. rewrite omap_app. clear - Hds. induction Hds as [|d ds [v ->] _ IH]; [by rewrite app_nil_r | exact IH]. }
  split_and!; [congruence | done | exact Hl|].
  exists q'. rewrite <- Hsent, app_assoc, <- Hc. exact (fifo_balance _ _ _ _ (mi_hist _ _ _ _ _ _ Hi')).
Qed.

(** Producer 0 dies at the head; producer 1 gave itself ten time units, and is still there
    after a thousand. *)
Definition before_death : list mevent :=
  [EvPush 0 (Job rec40 MTry); EvPush 1 (Job rec20 (MBlock (Some 10))); EvProd 0 0].
Definition after_death : list mevent :=
  [EvProd 1 0; EvProd 1 0; EvProd 1 0; EvClock 1000; EvResume 1; EvProd 1 0; EvProd 1 0].

Lemma death_runs :
  exists s, machine_run demo_ring before_death (idle_machine 2 (demo_ready [])) = Some s /\
    m_prods s = [(Job rec40 MTry, PHead); (Job rec20 (MBlock (Some 10)), PCas)] /\
    (w_now ∘ m_world <$> machine_run demo_ring after_death s) = Some 1000.
Proof. apply (run_reaches _ _ _ _ _). vm_compute. reflexivity. Qed.

Lemma dead_holder_blocks_witness :
  exists s s', machine_run demo_ring before_death (idle_machine 2 (demo_ready [])) = Some s /\
    machine_run demo_ring after_death s = Some s' /\ w_now (m_world s') = 1000 /\
    m_prods s' !! 0%nat = Some (Job rec40 MTry, PHead) /\ sent (m_hist s') = sent (m_hist s) /\
    exists p, m_prods s' !! 1%nat = Some (Job rec20 (MBlock (Some 10)), p) /\ at_lock p = true.
Proof.
  destruct death_runs as (s & E & Es & Et).
  destruct (machine_run demo_ring after_death s) as [s'|] eqn:E'; [|discriminate Et]. injection Et as Et.
  destruct (dead_holder_blocks demo_ring 2 0 (demo_ready []) before_death after_death s s' (Job rec40 MTry) PHead
    demo_geom (demo_has []) E) as (H1 & H2 & H3 & _); [by rewrite Es | done | repeat constructor; discriminate | done|].
  exists s, s'. split_and!; [done | done | exact Et | exact H1 | exact H2 |].
  apply (H3 1%nat _ PCas); [by rewrite Es | done].
Defined.
