(* ===== verification/RingConcSeq.v ===== *)
(** * The threads of the concurrent ring run the operations of Ring.v

    A thread that takes its steps one after the other, with the rest of the system at
    work only where it waits, does what the operation of Ring.v does: the two models of
    core/src/ring.rs agree, results, panics and accesses outside the mapping included. *)

From S2P Require Import Prelude Machine Shm Circ Ring RingMem RingSpec RingThm Demo RingConc.

(** ** Running a thread on its own *)

Section alone.
Context {A P : Type} (step : P -> prog P) (result : P -> option A).

Fixpoint alone (fuel : nat) (p : P) : prog A :=
  match result p with
  | Some a => ret a
  | None =>
      match fuel with
      | O => fun _ => Starved
      | S fuel => let! p' := step p in alone fuel p'
      end
  end.

(** The thread comes to [o], and more steps make no difference. *)
Definition comes_to (p : P) (w : world) (o : outcome (A * world)) : Prop :=
  exists n, forall m, (n <= m)%nat -> alone m p w = o.

Lemma comes_done p w a : result p = Some a -> comes_to p w (Done (a, w)).
Proof. intros E. exists 0%nat. intros [|m] _; simpl; by rewrite E. Qed.

(** One step, and then the rest. *)
Lemma comes_step {V} p w (access : prog V) (f : V -> P) (K : V -> prog A) :
  result p = None -> step p w = (let! v := access in ret (f v)) w ->
  (forall v w', access w = Done (v, w') -> comes_to (f v) w' (K v w')) ->
  comes_to p w ((let! v := access in K v) w).
Proof.
  intros Er Es Hk. unfold bind in Es |- *. destruct (access w) as [[v w1]|msg|why|] eqn:Ea.
  - destruct (Hk v w1 eq_refl) as [n Hn]. exists (S n). intros [|m] Hm; [lia|]. simpl. rewrite Er.
    unfold bind. rewrite Es. cbn. apply Hn. lia.
  - exists 1%nat. intros [|m] Hm; [lia|]. simpl. rewrite Er. unfold bind. by rewrite Es.
  - exists 1%nat. intros [|m] Hm; [lia|]. simpl. rewrite Er. unfold bind. by rewrite Es.
  - exists 1%nat. intros [|m] Hm; [lia|]. simpl. rewrite Er. unfold bind. by rewrite Es.
Qed.

(** A step that does not touch the world. *)
Lemma comes_pure p p' w o :
  result p = None -> step p w = Done (p', w) -> comes_to p' w o -> comes_to p w o.
Proof.
  intros Er Es [n Hn]. exists (S n). intros [|m] Hm; [lia|]. simpl. rewrite Er. unfold bind. rewrite Es.
  apply Hn. lia.
Qed.
End alone.

Definition prod_result (p : ppos) : option bool := match p with PDone b => Some b | _ => None end.
Definition cons_result (c : cpos) : option (option (list byte)) :=
  match c with CDone v => Some v | _ => None end.

(** ** Waiting uses up the schedule, nothing else does *)

Definition keeps_ticks {A} (p : prog A) : Prop :=
  forall w a w', p w = Done (a, w') -> w_ticks w' = w_ticks w.

Lemma calm_ret {A} (a : A) : keeps_ticks (ret a).
Proof. by intros w b w' [= _ <-]. Qed.

Lemma calm_bind {A B} (p : prog A) (f : A -> prog B) :
  keeps_ticks p -> (forall a, keeps_ticks (f a)) -> keeps_ticks (let! a := p in f a).
Proof.
  intros Hp Hf w b w' E. apply bind_done_inv in E as (a & w1 & E1 & E2).
  rewrite (Hf _ _ _ _ E2). by eapply Hp.
Qed.

Lemma calm_read p off n : keeps_ticks (read_bytes p off n).
Proof. intros w a w' E. unfold read_bytes in E. repeat case_match; simplify_eq. done. Qed.

Lemma calm_write p off new : keeps_ticks (write_bytes p off new).
Proof. intros w a w' E. unfold write_bytes in E. repeat case_match; simplify_eq. done. Qed.

Lemma calm_log e : keeps_ticks (log_event e).
Proof. by intros w a w' [= _ <-]. Qed.

Create HintDb ticks discriminated.
#[export] Hint Resolve calm_ret calm_read calm_write calm_log : ticks.
#[export] Hint Extern 1 (keeps_ticks (bind _ _)) => (apply calm_bind; [|intros]) : ticks.
#[export] Hint Extern 1 (keeps_ticks (if ?b then _ else _)) => destruct b : ticks.

Lemma calm_load n p off : keeps_ticks (load n p off).
Proof. unfold load. auto with ticks. Qed.
Lemma calm_store n p off v : keeps_ticks (store n p off v).
Proof. unfold store. auto with ticks. Qed.
Lemma calm_wake p off n : keeps_ticks (futex_wake p off n).
Proof. unfold futex_wake. auto with ticks. Qed.
#[export] Hint Resolve calm_load calm_store calm_wake : ticks.

Lemma calm_swap p off v : keeps_ticks (swap_u32 p off v).
Proof. unfold swap_u32, load_u32, store_u32. auto 10 with ticks. Qed.
Lemma calm_cas p off a b : keeps_ticks (cas_u32 p off a b).
Proof. unfold cas_u32, load_u32, store_u32. auto 10 with ticks. Qed.
#[export] Hint Resolve calm_swap calm_cas : ticks.

Lemma calm_push_locked r d : keeps_ticks (push_locked r d).
Proof.
  unfold push_locked, write_wrapped, load_u64, store_u64. cbv zeta.
  auto 20 with ticks.
Qed.
Lemma calm_unlock r : keeps_ticks (unlock_producer r).
Proof. unfold unlock_producer. auto 10 with ticks. Qed.
Lemma calm_try_pop r : keeps_ticks (try_pop r).
Proof.
  unfold try_pop, read_wrapped, load_u64, store_u64, fetch_add_u32, load_u32, store_u32. cbv zeta.
  auto 30 with ticks.
Qed.

(** ** What a swap leaves in the words *)

Lemma swap_inv p off v w old w' :
  swap_u32 p off v w = Done (old, w') ->
  exists bs, w_mem w !! p = Some bs /\ 0 <= off /\ off + 4 <= blen bs /\
    w' = set_mem (<[p := upd bs off (le_bytes 4 v)]> (w_mem w)) w.
Proof.
  unfold swap_u32. intros E. apply bind_done_inv in E as (x & w1 & E1 & E2).
  apply load_same in E1 as E0. subst w1. apply bind_done_inv in E2 as ([] & w2 & E2 & [= _ <-]).
  unfold store_u32, store, write_bytes in E2. destruct (w_mem w !! p) as [bs|] eqn:Ep; [|done].
  destruct (in_range bs off _) eqn:Er; [|done]. injection E2 as <-.
  apply in_range_spec in Er. rewrite blen_le_bytes in Er. exists bs. split_and!; [done | lia | lia | done].
Qed.

Lemma load_swapped p off v w old w' :
  swap_u32 p off v w = Done (old, w') -> 0 <= v < 2 ^ 32 -> load_u32 p off w' = Done (v, w').
Proof.
  intros E Hv. apply swap_inv in E as (bs & Ep & H0 & H4 & ->).
  assert (blen (le_bytes 4 v) = 4) as Hl by apply blen_le_bytes.
  unfold load_u32. rewrite (load_ok _ p (upd bs off (le_bytes 4 v)));
    [|apply lookup_insert_eq | done | rewrite blen_upd; lia].
  by rewrite from_le_sub_upd, Z.mod_small by done.
Qed.

Lemma load_beside_swap p off v w old w' off2 x w2 :
  swap_u32 p off v w = Done (old, w') -> off2 + 4 <= off \/ off + 4 <= off2 ->
  load_u32 p off2 w = Done (x, w2) -> load_u32 p off2 w' = Done (x, w').
Proof.
  intros E Hd El. apply swap_inv in E as (bs & Ep & H0 & H4 & ->).
  assert (blen (le_bytes 4 v) = 4) as Hl by apply blen_le_bytes.
  unfold load_u32, load in El. apply bind_done_inv in El as (b & w1 & El & [= <- <-]).
  unfold read_bytes in El. rewrite Ep in El. destruct (in_range bs off2 _) eqn:Er; [|done].
  injection El as <- <-. apply in_range_spec in Er. change (Z.of_nat 4) with 4 in *.
  unfold load_u32. rewrite (load_ok _ p (upd bs off (le_bytes 4 v)));
    [|apply lookup_insert_eq | lia | rewrite blen_upd; lia].
  change (Z.of_nat 4) with 4. rewrite sub_upd_disjoint; [done | lia | lia | lia | lia].
Qed.

(** ** Producers *)

Section producer.
Context (r : Ring) (j : job).

Abbreviation prod_comes := (comes_to (prod_step r j) prod_result).

(** A step whose access does not wait. *)
Lemma comes_keep {V} p w (access : prog V) (f : V -> ppos) (K : V -> prog bool) :
  prod_result p = None -> prod_step r j p w = (let! v := access in ret (f v)) w -> keeps_ticks access ->
  (forall v w', access w = Done (v, w') -> w_ticks w' = w_ticks w -> prod_comes (f v) w' (K v w')) ->
  prod_comes p w ((let! v := access in K v) w).
Proof. intros Er Es Hk H. eapply comes_step; eauto. Qed.

Lemma comes_lock_loop fuel w K :
  (length (w_ticks w) < fuel)%nat ->
  (forall w', (length (w_ticks w') <= length (w_ticks w))%nat -> prod_comes PHead w' (K w')) ->
  prod_comes PSwap w ((do! lock_loop fuel r in K) w).
Proof.
  revert w. induction fuel as [|fuel IH]; intros w Hf HK; [lia|]. cbn [lock_loop]. rewrite bind_assoc.
  eapply (comes_keep PSwap w (swap_u32 (r_ptr r) (r_base r + OFF_PRODLOCK) 2)
    (fun old => if old =? 0 then PHead else PLockWait)); [done | done | apply calm_swap|].
  intros old w1 E1 T1. cbv beta. destruct (old =? 0); [rewrite bind_ret; apply HK; by rewrite T1|].
  rewrite bind_assoc. unfold futex_wait. rewrite bind_assoc.
  eapply (comes_keep PLockWait w1 (load_u32 (r_ptr r) (r_base r + OFF_PRODLOCK))
    (fun v => if v =? 2 then PLockAsleep else PSwap)); [done | done | apply calm_load|].
  intros v w2 E2 T2. cbv beta. rewrite (load_swapped _ _ _ _ _ _ E1) in E2 by lia. injection E2 as <- <-.
  change (2 =? 2) with true. cbv iota.
  eapply (comes_step _ _ PLockAsleep w1 yield (fun _ => PSwap)); [done | done|].
  intros [] w3 E3. unfold yield in E3. destruct (w_ticks w1) as [|tk tks] eqn:Ew1; [done|].
  injection E3 as <-. apply IH; simpl; rewrite <- T1 in *; simpl in Hf; [lia|].
  intros w' Hw'. apply HK. simpl in *. lia.
Qed.

Lemma comes_lock w K :
  (forall w', (length (w_ticks w') <= length (w_ticks w))%nat -> prod_comes PHead w' (K w')) ->
  prod_comes PCas w ((do! lock_producer r in K) w).
Proof.
  intros HK. unfold lock_producer. rewrite bind_assoc.
  eapply (comes_keep PCas w (cas_u32 (r_ptr r) (r_base r + OFF_PRODLOCK) 0 1)
    (fun ok : bool => if ok then PHead else PSwap)); [done | done | apply calm_cas|].
  intros [] w1 _ T1; cbv beta iota.
  - rewrite bind_ret. apply HK. by rewrite T1.
  - apply (comes_lock_loop (S (length (w_ticks w1))) w1 K); [lia|]. intros w' Hw'. apply HK. by rewrite T1 in Hw'.
Qed.

Lemma comes_push w K :
  (forall w', w_ticks w' = w_ticks w -> prod_comes (PUnlock Pushed) w' (K true w')) ->
  (forall w', w_ticks w' = w_ticks w -> prod_comes (no_room j) w' (K false w')) ->
  prod_comes PHead w ((let! ok := push_locked r (j_data j) in K ok) w).
Proof.
  intros Hyes Hno. unfold push_locked. cbv zeta.
  destruct (r_capacity r <? 4 + blen (j_data j)) eqn:Ec.
  { rewrite bind_ret. apply (comes_pure _ _ PHead (no_room j)); [done | | by apply Hno].
    cbn [prod_step]. by rewrite Ec. }
  rewrite bind_assoc.
  eapply (comes_keep PHead w (load_u64 (r_ptr r) (r_base r + OFF_HEAD)) PTail);
    [done | by cbn [prod_step]; rewrite Ec | apply calm_load|].
  intros head w1 _ T1. cbv beta. rewrite bind_assoc.
  eapply (comes_keep (PTail head) w1 (load_u64 (r_ptr r) (r_base r + OFF_TAIL))); [done | reflexivity | apply calm_load|].
  intros tail w2 _ T2. cbv beta. destruct (usize _ <? _); [rewrite bind_ret; apply Hno; congruence|].
  assert (forall pos src, keeps_ticks (write_wrapped r pos src)) as Hwr
    by (intros; unfold write_wrapped; cbv zeta; auto 10 with ticks).
  rewrite bind_assoc.
  eapply (comes_keep (PLen head) w2 _ (fun _ => PData head)); [done | reflexivity | apply Hwr|].
  intros [] w3 _ T3. rewrite bind_assoc.
  eapply (comes_keep (PData head) w3 _ (fun _ => PStore head)); [done | reflexivity | apply Hwr|].
  intros [] w4 _ T4. rewrite bind_assoc.
  eapply (comes_keep (PStore head) w4 _ (fun _ => PUnlock Pushed)); [done | reflexivity | apply calm_store|].
  intros [] w5 _ T5. rewrite bind_ret. apply Hyes. congruence.
Qed.

Lemma comes_unlock res w K :
  (forall w', w_ticks w' = w_ticks w ->
    (forall x w0, load_u32 (r_ptr r) (r_base r + OFF_SPACE_SEQ) w = Done (x, w0) ->
      load_u32 (r_ptr r) (r_base r + OFF_SPACE_SEQ) w' = Done (x, w')) ->
    prod_comes (after_unlock res) w' (K w')) ->
  prod_comes (PUnlock res) w ((do! unlock_producer r in K) w).
Proof.
  intros HK. unfold unlock_producer. rewrite bind_assoc.
  eapply (comes_keep (PUnlock res) w _ (fun old => if old =? 2 then PLockWake res else after_unlock res));
    [done | reflexivity | apply calm_swap|].
  intros old w1 E1 T1. cbv beta.
  assert (forall x w0, load_u32 (r_ptr r) (r_base r + OFF_SPACE_SEQ) w = Done (x, w0) ->
      load_u32 (r_ptr r) (r_base r + OFF_SPACE_SEQ) w1 = Done (x, w1)) as Hl.
  { intros x w0 El. eapply load_beside_swap; [exact E1 | | exact El]. unfold OFF_SPACE_SEQ, OFF_PRODLOCK. lia. }
  destruct (old =? 2); [|rewrite bind_ret; by apply HK].
  eapply (comes_keep (PLockWake res) w1 _ (fun _ => after_unlock res)); [done | reflexivity | apply calm_wake|].
  intros [] w2 E2 T2. apply HK; [congruence|]. intros x w0 El. specialize (Hl x w0 El).
  unfold futex_wake, log_event in E2. injection E2 as <-.
  unfold load_u32, load, bind, read_bytes, ret in Hl |- *. simpl. repeat case_match; simplify_eq. done.
Qed.

Lemma comes_signal w : prod_comes PSeq w ((do! signal_data r in ret true) w).
Proof.
  unfold signal_data. rewrite bind_assoc.
  eapply (comes_step _ _ PSeq w _ (fun _ => PWake)); [done | reflexivity|].
  intros old w1 _. eapply (comes_step _ _ PWake w1 _ (fun _ => PDone true)); [done | reflexivity|].
  intros [] w2 _. by apply comes_done.
Qed.

Lemma comes_try_push w : j_mode j = MTry -> prod_comes PCas w (try_push r (j_data j) w).
Proof.
  intros Hm. unfold try_push. apply comes_lock. intros w1 _. apply comes_push; intros w2 _.
  - apply comes_unlock. intros w3 _ _. apply comes_signal.
  - unfold no_room. rewrite Hm. apply comes_unlock. intros w3 _ _. by apply comes_done.
Qed.

(** [futex_wait] on a word that has just been read sleeps. *)
Lemma comes_push_loop fuel dl w :
  j_mode j = MBlock dl -> (length (w_ticks w) < fuel)%nat ->
  prod_comes PCas w (push_loop fuel r (j_data j) dl w).
Proof.
  intros Hm. revert w. induction fuel as [|fuel IH]; intros w Hf; [lia|]. cbn [push_loop].
  apply comes_lock. intros w1 L1. apply comes_push; intros w2 T2.
  { apply comes_unlock. intros w3 _ _. apply comes_signal. }
  unfold no_room. rewrite Hm. cbv iota.
  eapply (comes_keep PSeen w2 _ (fun seen => PUnlock (Full (Some seen)))); [done | reflexivity | apply calm_load|].
  intros seen w3 E3 T3. apply load_same in E3 as E0. subst w3. cbv beta.
  apply comes_unlock. intros w3 T4 Hseen. apply Hseen in E3. cbn [after_unlock].
  assert (prod_comes (PWaitSpace seen) w3
    ((do! futex_wait (r_ptr r) (r_base r + OFF_SPACE_SEQ) seen in push_loop fuel r (j_data j) dl) w3)) as Hwait.
  { unfold futex_wait. rewrite bind_assoc.
    eapply (comes_step _ _ (PWaitSpace seen) w3 _ (fun v => if v =? seen then PAsleep else PCas));
      [done | reflexivity|].
    intros v w4 E4. rewrite E3 in E4. injection E4 as <- <-. rewrite Z.eqb_refl. cbv iota.
    eapply (comes_step _ _ PAsleep w3 yield (fun _ => PCas)); [done | reflexivity|].
    intros [] w5 E5. unfold yield in E5. destruct (w_ticks w3) as [|tk tks] eqn:Ew; [done|].
    injection E5 as <-. apply IH. simpl. rewrite <- T2, <- T4 in *. simpl in *. lia. }
  destruct dl as [dl|].
  - eapply (comes_step _ _ (PCheck seen) w3 _ (fun t => if dl <=? t then PDone false else PWaitSpace seen));
      [done | by cbn [prod_step]; rewrite Hm|].
    intros t w4 [= _ <-]. destruct (dl <=? t); [by apply comes_done | exact Hwait].
  - apply (comes_pure _ _ _ (PWaitSpace seen)); [done | by cbn [prod_step]; rewrite Hm | exact Hwait].
Qed.
End producer.

(** ** The consumer *)

Section consumer.
Context (r : Ring) (dl : option Z).

Abbreviation cons_comes := (comes_to (cons_step r dl) cons_result).

(** One [try_pop], and what follows when it finds nothing. *)
Lemma comes_pop a w K :
  (forall w', w_ticks w' = w_ticks w -> cons_comes (found_empty a) w' (K None w')) ->
  (forall v w', K (Some v) w' = Done (Some v, w')) ->
  cons_comes (CTail a) w ((let! v := try_pop r in K v) w).
Proof.
  intros Hnone Hsome. unfold try_pop. rewrite bind_assoc.
  eapply (comes_step _ _ (CTail a) w _ (CHead a)); [done | reflexivity|].
  intros tail w1 E1. apply calm_load in E1 as T1. rewrite bind_assoc.
  eapply (comes_step _ _ (CHead a tail) w1 _ (fun head => if head =? tail then found_empty a else CLen a tail));
    [done | reflexivity|].
  intros head w2 E2. apply calm_load in E2 as T2. cbv beta.
  destruct (head =? tail); [rewrite bind_ret; apply Hnone; congruence|]. rewrite bind_assoc.
  eapply (comes_step _ _ (CLen a tail) w2 _ (fun lb => CData a tail (from_le lb))); [done | reflexivity|].
  intros lb w3 _. cbv zeta. rewrite bind_assoc.
  eapply (comes_step _ _ (CData a tail (from_le lb)) w3 _ (CStore a tail (from_le lb))); [done | reflexivity|].
  intros payload w4 _. rewrite bind_assoc.
  eapply (comes_step _ _ (CStore a tail (from_le lb) payload) w4 _ (fun _ => CSeq payload)); [done | reflexivity|].
  intros [] w5 _. rewrite bind_assoc.
  eapply (comes_step _ _ (CSeq payload) w5 _ (fun _ => CWake payload)); [done | reflexivity|].
  intros old w6 _. rewrite bind_assoc.
  eapply (comes_step _ _ (CWake payload) w6 _ (fun _ => CDone (Some payload))); [done | reflexivity|].
  intros [] w7 _. rewrite bind_ret, Hsome. by apply comes_done.
Qed.

Lemma comes_try_pop w : cons_comes (CTail AOnce) w (try_pop r w).
Proof.
  replace (try_pop r w) with ((let! v := try_pop r in ret v) w)
    by (unfold bind; by destruct (try_pop r w) as [[? ?]| | |]).
  apply comes_pop; [|done]. intros w' _. by apply comes_done.
Qed.

(** The spins: each failed one waits. *)
Lemma comes_spins n w K :
  (forall w', (length (w_ticks w') < length (w_ticks w))%nat -> cons_comes CSeen w' (K None w')) ->
  (forall v w', K (Some v) w' = Done (Some v, w')) ->
  cons_comes (CTail (ASpin n)) w ((let! v := spin_pop (S n) r in K v) w).
Proof.
  revert w. induction n as [|n IH]; intros w Hnone Hsome; cbn [spin_pop]; rewrite bind_assoc;
    (apply comes_pop; [|intros v w'; by rewrite bind_ret]); intros w1 T1; cbn [found_empty]; rewrite bind_assoc;
    (eapply (comes_step _ _ (CSpin _) w1 yield (fun _ => after_spin _)); [done | reflexivity|]);
    intros [] w2 E2; unfold yield in E2; destruct (w_ticks w1) as [|tk tks] eqn:Ew; try done;
    injection E2 as <-; cbn [after_spin].
  - rewrite bind_ret. apply Hnone. rewrite <- T1. simpl. lia.
  - apply IH; [|done]. intros w' Hw'. apply Hnone. rewrite <- T1. simpl in *. lia.
Qed.

Lemma comes_pop_loop fuel w :
  (length (w_ticks w) < fuel)%nat -> cons_comes first_spin w (pop_loop fuel r dl w).
Proof.
  revert w. induction fuel as [|fuel IH]; intros w Hf; [lia|]. unfold first_spin.
  change (pop_loop (S fuel) r dl w) with
    ((let! v := spin_pop (S (SPIN_LIMIT - 1)) r in
      match v with
      | Some x => ret (Some x)
      | None =>
          let! seen := load_u32 (r_ptr r) (r_base r + OFF_DATA_SEQ) in
          let! v := try_pop r in
          match v with
          | Some x => ret (Some x)
          | None =>
              match dl with
              | Some d =>
                  let! t := now in
                  if d <=? t then ret None else
                  do! futex_wait (r_ptr r) (r_base r + OFF_DATA_SEQ) seen in pop_loop fuel r dl
              | None =>
                  do! futex_wait (r_ptr r) (r_base r + OFF_DATA_SEQ) seen in pop_loop fuel r dl
              end
          end
      end) w).
  apply comes_spins; [|done]. intros w1 L1.
  eapply (comes_step _ _ CSeen w1 _ (fun seen => CTail (ALast seen))); [done | reflexivity|].
  intros seen w2 E2. apply load_same in E2 as ->. apply comes_pop; [|done]. intros w3 T3.
  assert (cons_comes (CWait seen) w3
    ((do! futex_wait (r_ptr r) (r_base r + OFF_DATA_SEQ) seen in pop_loop fuel r dl) w3)) as Hwait.
  { unfold futex_wait. rewrite bind_assoc.
    eapply (comes_step _ _ (CWait seen) w3 _ (fun v => if v =? seen then CAsleep else first_spin));
      [done | reflexivity|].
    intros v w4 E4. apply load_same in E4 as ->. cbv beta. destruct (v =? seen).
    - eapply (comes_step _ _ CAsleep w3 yield (fun _ => first_spin)); [done | reflexivity|].
      intros [] w5 E5. unfold yield in E5. destruct (w_ticks w3) as [|tk tks] eqn:Ew; [done|].
      injection E5 as <-. apply IH. simpl. rewrite <- T3 in *. simpl in *. lia.
    - rewrite bind_ret. apply IH. rewrite T3. lia. }
  cbn [found_empty]. destruct dl as [d|] eqn:Ed.
  - eapply (comes_step _ _ (CCheck seen) w3 _ (fun t => if d <=? t then CDone None else CWait seen));
      [done | reflexivity|].
    intros t w4 [= _ <-]. destruct (d <=? t); [by apply comes_done | exact Hwait].
  - apply (comes_pure _ _ _ (CWait seen)); [done | reflexivity | exact Hwait].
Qed.
End consumer.

(** The two models of the ring agree: a producer or a consumer of the concurrent ring
    that runs on its own, the rest of the system acting at its waits, returns exactly
    what [try_push], [push_blocking], [try_pop] and [pop_blocking] return as sequential
    programs, with the same memory, the same wake-ups and the same clock, or fails as they
    do; so the theorems about either hold of the same code. *)
Theorem ring_threads_run_the_operations (r : Ring) (d : list byte) (timeout : option Z) (w : world) :
  let deadline := (fun t => w_now w + t) <$> timeout in
  comes_to (prod_step r (Job d MTry)) prod_result PCas w (try_push r d w) /\
  comes_to (prod_step r (Job d (MBlock deadline))) prod_result PCas w (push_blocking r d timeout w) /\
  comes_to (cons_step r None) cons_result (CTail AOnce) w (try_pop r w) /\
  comes_to (cons_step r deadline) cons_result first_spin w (pop_blocking r timeout w).
Proof.
  intros deadline. split_and!.
  - by apply (comes_try_push r (Job d MTry)).
  - change (push_blocking r d timeout w) with (push_loop (S (length (w_ticks w))) r d deadline w).
    by apply (comes_push_loop r (Job d (MBlock deadline))); [|lia].
  - apply comes_try_pop.
  - change (pop_blocking r timeout w) with (pop_loop (S (length (w_ticks w))) r deadline w).
    apply comes_pop_loop. lia.
Qed.
